(* ===== verification/_CoqProject ===== *)
-Q . S2P
Prelude.v
CommandLine.v
Text.v
IniParser.v
Logging.v
TsanSupport.v
Memory.v
InjectiveFunction.v
DoubleDispatch.v
CondPolicy.v
ThreadQueue.v
Objects.v
State.v
Transitions.v
AbstractState.v
Behaviour.v
Dependency.v
StateSequence.v
Trajectory.v
Program.v
Runners.v
ClockVector.v
StackItem.v
Dpor.v
Backtracking.v
Exploration.v
Mirror.v
ClockOrder.v
Reports.v
Coordinator.v
Soundness.v
Lockstep.v
RawSemaphore.v
LinuxProcess.v
ProcessSource.v
Signals.v
TraceReports.v
TemplateLoop.v
TemplateFork.v
MultithreadedFork.v
System.v
Target.v
Restore.v
SharedFiles.v
Simulation.v
Sequential.v
Recorder.v
Wrappers.v
ThreadWrappers.v
StateTransfer.v
TemplateThread.v
Protocol.v
Interception.v
Recording.v
Totality.v
Examples.v
Witnesses.v
SystemRun.v
SystemWitnesses.v
ServiceWitnesses.v
