(* ===== verification/Prelude.v ===== *)
(** * A model of the McMini model checker

McMini checks multi-threaded C programs.  A library preloaded in the target
(libmcmini, C) wraps the pthread and semaphore functions, so that each thread stops
before every such call and describes the call in a mailbox.  The checker (C++,
[src/mcmini/], [include/mcmini/]) lets one thread go at a time, mirrors the effect
of its call in a model of the program, and explores the schedules by dynamic
partial-order reduction.  A target can also be recorded under DMTCP, checkpointed,
and checked from the checkpoint on.  This development models the checker (the model
of the program, the search, the coordinator between the two, the restoration of a
checkpointed program), the processes it drives, and the wrappers of libmcmini, which
record the target or hand its operations to the checker.  Names of definitions are
those of the code; [seq_], [element_], [diff_] and similar prefixes tell apart
methods that share a name.

** Files

- [Prelude.v] (this file): identifiers at their width ([runner_id_t] is 16 bits,
  [objid_t] 32), the exceptions, the error and state monads [res] and [eff], the
  tactic [preserve] for invariants of effects, generic lemmas.
- [CommandLine.v]: the command line of mcmini ([mcmini.cpp], [model/config.hpp]).
- [Text.v], [IniParser.v]: searches, spaces and lines of texts, and the parser of
  configuration files ([misc/ini-parser.hpp]).
- [Logging.v]: filters, streams and records of the checker ([log/logger.cpp],
  [log/filter.cpp]) and the log of libmcmini ([lib/log.c]).
- [TsanSupport.v]: how libmcmini tells the threads of ThreadSanitizer from those of
  the program ([lib/tsan_support.c]).
- [InjectiveFunction.v], [DoubleDispatch.v]: [misc/injective_function.hpp] and
  [misc/ddt.hpp].
- [CondPolicy.v]: the wake-up policies of condition variables ([misc/cond/],
  [model/cond_var_*.cpp]).
- [ThreadQueue.v]: [mcmini/Thread_queue.c], a linked queue over a heap, and the list
  it implements.
- [Objects.v], [State.v]: [model/objects/], [visible_object.hpp]; the interfaces
  [state] and [mutable_state] as classes, [detached_state] and [diff_state].
- [Transitions.v]: [model/transition.hpp] and the [modify] of every subclass.
- [AbstractState.v]: what a state means, two finite maps, and the meaning [astep]
  of a transition on them.
- [Behaviour.v]: what the transitions do to well-formed states and along runs.
- [Dependency.v]: [depends], [coenabled_with] and the tables of [classic_dpor].
- [StateSequence.v], [Trajectory.v]: [state_sequence.cpp]; what its states are, also
  when objects are discovered after it was cut back.
- [Program.v]: [program.cpp]; [Runners.v]: each runner of a program keeps a next step of its own.
- [ClockVector.v], [StackItem.v], [Dpor.v]: the search of [classic_dpor.cpp].
- [Backtracking.v], [Exploration.v], [Mirror.v], [ClockOrder.v], [Reports.v]: theorems on one
  step of the search, on its loops, on the stack against the trace, on the order its clocks
  compute, and on what a run reports.
- [Coordinator.v]: [coordinator.cpp], [transition_registry.cpp] and the callbacks
  of [model/transitions/], over an interface [World] of processes; [Lockstep.v]: the
  process behind the coordinator follows the model; [Soundness.v]: the states the
  search visits and the deadlocks it reports are real.
- [RawSemaphore.v]: the futex semaphore of a mailbox ([common/runner_mailbox.c]).
- [LinuxProcess.v]: [signal.cpp] and [real_world/local_linux_process.cpp].
- [ProcessSource.v]: [real_world/fork_process_source.cpp],
  [dmtcp_process_source.cpp], [resources.cpp], and the loops of the template process as
  the checker sees them.
- [Signals.v]: names of signals, the thread that listens for them and the test for a
  debugger ([mcmini/signal.cpp]); [TraceReports.v]: what the checker prints of a trace
  ([mcmini.cpp], [to_string] of the transitions).
- [TemplateLoop.v]: the loops of the template against its signal handler and its
  branches ([lib/template/loop.c]); [TemplateFork.v]: how the threads save themselves
  and every branch recreates them ([lib/dmtcp-callback.c]); [MultithreadedFork.v]: the
  older form, which signals the threads itself ([common/multithreaded_fork.c]).
- [System.v]: the checker's methods, the template and its branches interleaved by a
  schedule, as an implementation of [World].
- [Target.v]: the environment and the launch of targets ([real_world/target.cpp],
  [target.hpp], [dmtcp_target.hpp]).
- [Restore.v]: [mcmini.cpp], the two entry points of the checker; [SharedFiles.v]: the
  shared memory and the pipe the checker opens ([real_world/shm.cpp], [real_world/fifo.cpp]).
- [Simulation.v]: a logic that relates two runs of the checker over different processes;
  [Sequential.v]: the processes of [System.v] against a target that runs in one piece.
- [Recorder.v]: [lib/record.c], the map of threads and the mailbox of a thread
  ([lib/wrappers.c]), and its restart ([lib/dmtcp-callback.c]).
- [Wrappers.v], [ThreadWrappers.v]: [lib/wrappers.c] and [lib/sem-wrappers.c].
- [StateTransfer.v]: the transfer of the records from the template to the checker
  ([lib/dmtcp-callback.c]).
- [TemplateThread.v]: the template thread, the handler of DMTCP's events
  ([lib/dmtcp-callback.c]) and the start of libmcmini ([lib/main.c], [lib/entry.c]).
- [Protocol.v]: theorems on wrappers under the checker, against the callbacks of
  [Coordinator.v]; [Recording.v]: theorems on what the wrappers record; [Totality.v]:
  the fuel of its loops is enough.
- [Interception.v]: the functions the program calls and the real ones behind the wrappers
  ([lib/interception.c]); [Memory.v]: the allocator and the copies of [common/mem.c].
- [Examples.v]: whole runs of the checker on scripted targets.
- [SystemRun.v]: whole runs of the checker over the processes of [System.v].
- [Witnesses.v], [SystemWitnesses.v], [ServiceWitnesses.v]: the theorems applied at concrete inputs.

** How the code is represented

A [throw] is a value [Throw e] of [res], with one [exn] per exception class and a
[why] for each [std::runtime_error]; a failed [assert] is [AssertionFailed], and in C
code [exit], [abort] and the end of a thread are such values too.  A method that
changes its object is an [eff S A], a function from the state to a result and the
state at the end {e also when it throws}: what an exception leaves behind is visible
(see [inj_insert_mirrored]).  Virtual methods of an interface are the fields of a
class: [State] and [MutableState] have three implementations ([detached_state],
[diff_state], [state_sequence]), [Coordinator] and [World] are what the search and
the coordinator require of their collaborators.  Subclasses of [transition] and
[visible_object_state] are the constructors of an inductive type.  Maps and sets are
[gmap]s and [gset]s.  A loop over a [std::map] or [std::set] is in ascending order
([ascending]); a loop over a hash map is in the order of [map_to_list], and the
theorems about it do not depend on that order.  An [unsigned] subtraction and the
counters of the search wrap as the code's types do.  That ids have not run out (fewer
than [2^32] objects, [2^16] runners) is a hypothesis where it matters ([room], [fits]).

Code that runs beside other code is modelled in two ways.  The methods of processes
and the futex semaphore are machines, one step for each access of what is shared,
interleaved with the steps of their environment: signals, deaths, answers, other
threads ([interleaves], [raw_sem_step]).  [System.v] puts the machines of the checker, the
template and the branches together: a schedule, a list of choices, says who takes the next
step, and a call of a method takes from it what it needs; it is [Blocked] when the schedule
ends first.  The theorems hold for every schedule.  A wrapper of libmcmini is an effect over the
calls it makes; the reply of each call gives its result and what the other threads
did to the shared state until then ([Recorder.reply]), so the theorems hold for every
behaviour of libpthread and of the other threads that their hypotheses allow.

Loops are structural except these.  [verify_using] takes the number of iterations of
its loops as fuel, and [verify_using_terminates] shows that for every input some
fuel gives a result and that more never changes it: every iteration decreases, in
lexicographic order from the initial state up, the numbers of runners left to
search.  The backward loop of [restore_model_at_depth] takes the length of the
trace, which bounds its iterations; [restore_undoes_executions] shows it enough.
The walks along a queue of threads take one more than the number of nodes in the
heap, enough by [refines_list], whose result is never [LoopBound].  A loop of a wrapper
makes a call in each turn, and takes one more than the number of replies, so that the fuel never
runs out ([library_total]): a loop the replies do not end is [Blocked].

** What the theorems show

- Transitions: no transition reaches undefined behaviour from a well-formed state,
  and well-formedness is kept ([apply_to_safe]); mutexes exclude, semaphores
  conserve units up to the overflow of the counter, waits wake only for a signal,
  a signalled waiter can go on, an unheard signal is forgotten.
- Dependency: the tables compute two relations given by cases
  ([default_tables_compute]); transitions declared independent commute; pairs declared
  not co-enabled are never enabled together, but for the two entries exhibited and the
  creation of a thread that runs ([create_of_running_thread]).
- State sequences and programs: a sequence implements a list of abstract states
  ([follow_refines], [consume_refines], [add_runner_refines]); executing and
  restoring programs are inverse ([model_execution_of_spec],
  [restore_undoes_executions]), except to depth 0.
- Search: termination, the invariant of the stack, the condition under which a
  runner is added to a backtrack set ([backtrack_points]), what a new item
  contains, that the stack mirrors the trace ([stack_mirrors_trace]), what its clocks
  refer to ([clocks_name_transitions]), that the race check answers by the closure of a
  relation shifted by one from dependence ([race_check_exact]), which is not the
  happens-before relation ([order_differs]), and that the race detection never fails
  with at most 20 runners ([race_detection_total]), which errors are reported, and
  that a run reports a deadlock exactly when a trace it explored ends in one
  ([run_reports], with [is_in_deadlock_spec] for what that means).  These are proved against the laws
  [CoordinatorLaws] and [TraceLaws].  With the real coordinator, the states visited are
  those a run of the program goes through ([visited_states_real]), so a deadlock that
  is reported is one ([reported_deadlocks_real]).
- Coordinator: model and process advance together ([execute_runner_synchronizes]),
  going back replays the trace in a new process ([return_to_depth_replays]),
  a process of a deterministic target has executed what the trace says and the model expects
  what it announced ([follows_model]), and the machines of the processes are such a target
  under every schedule with signals, deaths and answers at any time
  ([system_deterministic], [system_follows_model]); without signals and failed forks, whatever
  the order of the steps, a run of the checker over the processes reports what it reports over
  a target that runs in one piece, unless the schedule ends first
  ([system_refines_sequential]), and some schedule lets every run come to its end
  ([some_schedule_completes]); addresses are bound to objects as the callbacks
  meet them; [coordinator_laws] and
  [coordinator_trace_laws] discharge the laws of the search.
- Processes: what [execute_runner] and [make_new_process] can return or throw in any
  interleaving, and when they end ([execute_runner_outcomes],
  [execute_runner_returns], [make_new_process_outcomes]); that with the template and the
  branches they can always return when no signal arrives ([execute_runner_can_return],
  [make_new_process_can_return]); the destructor takes back
  the signals of the children it reaps; the futex semaphore keeps its count and
  loses no wake-up ([raw_semaphore_counts], [posts_suffice]).
- Wrappers: under the checker each follows its script ([controlled_operation]), and
  the checker makes of its messages the same operations on the same objects
  ([wrapper_understood]); records stay in place ([records_only_grow]) and tell who
  holds a mutex ([recorded_lock]); a queue of threads is a list ([refines_list]).
- Interception: threads that enter the library at the same time load the real functions
  once and never call a pointer that is not loaded ([forwarders_reach]); where the library
  stands aside, a call of the program is the one call of the real function
  ([intercepted_transparent]); blocks of the arena do not overlap ([blocks_disjoint]).
- Restoration: the template thread sends the records once every recorded thread has
  stopped ([template_thread_sends_records]), the checker reads back what it wrote
  ([transfer_roundtrip]) and the pipe delivers ([pipe_delivers]), the numbers of the recorded threads, and a check that has
  no effect.
- Template: at most one branch at a time, and the checker is told how it ended
  ([template_forks_one_branch]); the loop comes back to the next request
  ([template_comes_back]) unless a fork failed ([failed_fork_stops_template]); a branch
  recreates each thread whose [clone] succeeds once ([branches_recreate_threads], in the
  older form [fork_recreates_threads] and [fork_reached]), outlives the template only
  after a SIGTERM ([no_orphans]).
- Services: the texts the configuration parser accepts and what it holds then
  ([decode_spec]), the error it throws otherwise ([decode_faults]), that it reads back
  what is written ([decode_render]); what the log writes ([log_raw_spec],
  [stream_logs_spec]); what a status file says of a signal ([thread_blocks_signal_spec])
  and the listener of each signal ([listener_spec]).
- Reports: from the report of a deadlock or of a trace one can read back who executed
  which operation on which object, and the next operations ([reports_identify_traces]).
- Command line and targets: what a command line means ([options_understood]), the
  environment a launched program gets ([launch_environment]) and the file that hands
  it to a restarted one ([env_file_current]).
- Defects: several theorems state what the code does where its comments or its
  purpose say otherwise: the initial state is never backtracked to
  ([initial_state_never_backtracked]), so a deadlock can be missed
  ([recorded_deadlock_missed]), a thread found again after backtracking
  aborts the search ([rediscovered_thread_aborts_search]), hidden objects break a
  sequence ([discovery_after_cut_breaks_sequence]), a missing library hangs the program
  ([missing_library_hangs]), a pending signal loses an answer
  ([leftover_signal_loses_answer]), the death of the template can block its source
  ([template_death_blocks]), an unlock recorded late hides a lock
  ([late_unlock_hides_lock]), and others.

** What is not modelled

The coordinator is written over the interface [World] of processes; of the implementation
in [System.v] the target is a parameter, the mailbox each thread fills and the memory of the
process by what was executed so far.  What launching a target calls in the child is not
modelled; of what is printed only the reports of traces are.  Of libmcmini,
[setcontext] and the stacks it switches are
assembly and system calls.  Memory is sequentially consistent.  [malloc] of the recorder is taken to succeed.
The size of a queue of threads is not bounded, a negative [char] counts as no space in the
parser of configuration files, and what a [return_to_depth] that throws leaves of the model is not modelled:
from a trace that executions made it does not throw ([restore_undoes_executions]).
[sem_destroy.hpp] does not compile and nothing includes it; [backtrack_set_pop] and
[add_rec_entry] are never called.

** Left open

Which schedules the search explores is settled only by what it reports, the order of its
clocks and the points where it backtracks; that it explores enough of them is false in general
([recorded_deadlock_missed]), and under which conditions on the program it is true is not
proved. *)

From stdpp Require Export gmap sorting prelude.
From stdpp Require Import options.

(** ** Identifiers *)

(** [runner_id_t] is a [uint16_t], [objid_t] a [uint32_t]; both are kept as [N]
and wrapped explicitly where the code converts a wider integer to them. *)
Abbreviation runner_id_t := N (only parsing).
Abbreviation objid_t := N (only parsing).
(** An address of the target process ([remote_address<void>]); [nullptr] is 0. *)
Abbreviation addr := N (only parsing).

Definition u16 (n : N) : N := (n mod 2^16)%N.
Definition u32 (n : N) : N := (n mod 2^32)%N.
Definition u64 (n : N) : N := (n mod 2^64)%N.
(** Conversion of an [unsigned] to an [int] (two's complement, as gcc does). *)
Definition s32 (n : N) : Z :=
  let m := Z.of_N (u32 n) in if (m <? 2^31)%Z then m else (m - 2^32)%Z.
(** Conversion of an [int] to an [unsigned]. *)
Definition u32_of_int (z : Z) : N := Z.to_N (z mod 2^32)%Z.

Definition RUNNER_ID_MAX : N := 65535.
Definition RID_MAIN_THREAD : N := 0.
Definition RID_INVALID : N := 65535.
Definition MAX_TOTAL_THREADS_IN_PROGRAM : N := 20.
Definition invalid_objid : N := 4294967295.
Definition invalid_rid : N := 65535.

(** ** Exceptions *)

(** Which [throw std::runtime_error] of the source was reached. *)
Inductive why :=
  | InvalidObjectId
  | NoSuchRunner
  | AlreadyRegistered
  | NoRuntimeEntry
  | NotImplemented
  | WrongRunner
  | UnknownRunner
  | DisabledTransition
  | UndefinedTransition
  | RebindRemoteAddress
  | UnmodeledThread
  | NoBacktrackThread
  | ExecutionLimitReached
  | ExpectedCallback
  | PipeFailed
  | CallbackInsertedObject.

(** The exceptions of the C++ code, plus [UB] for what the C++ standard leaves
undefined (a null dereference, [back()] of an empty vector, an [operator[]] out
of bounds, a [static_cast] to a type the object does not have). *)
Inductive exn :=
  | OutOfRange                     (* std::out_of_range, thrown by at() *)
  | RuntimeError (why : why)       (* std::runtime_error *)
  | InvalidInsertion               (* injective_function::invalid_insertion *)
  | UndefinedBehavior              (* model::undefined_behavior_exception *)
  | ExecutionError                 (* process::execution_error *)
  | ProcessCreationError           (* process_source::process_creation_exception *)
  | TerminationError (signo : Z) (culprit : runner_id_t)
  | NonzeroExitCodeError (code : Z) (culprit : runner_id_t)
  | AssertionFailed                (* assert(3) *)
  | ExitCalled (code : Z)          (* exit(3) in the C code *)
  | AbortCalled                    (* abort(3) in the C code *)
  | LoopBound                      (* a loop ran longer than the model's bound *)
  | Blocked                        (* a call has not returned *)
  | ThreadExited                   (* pthread_exit(3) *)
  | UB.

#[export] Instance why_eq_dec : EqDecision why.
Proof. solve_decision. Defined.
#[export] Instance exn_eq_dec : EqDecision exn.
Proof.
  solve_decision.
Defined.

(** ** The result monad *)

Inductive res (A : Type) :=
  | Ok (a : A)
  | Throw (e : exn).
Arguments Ok {_} _.
Arguments Throw {_} _.

#[export] Instance res_ret : MRet res := λ A a, Ok a.
#[export] Instance res_bind : MBind res := λ A B f m,
  match m with Ok a => f a | Throw e => Throw e end.
#[export] Instance res_fmap : FMap res := λ A B f m,
  match m with Ok a => Ok (f a) | Throw e => Throw e end.

#[export] Instance res_eq_dec `{EqDecision A} : EqDecision (res A).
Proof. solve_decision. Defined.

Definition is_ok {A} (m : res A) : bool :=
  match m with Ok _ => true | Throw _ => false end.

Lemma bind_ok {A B} (m : res A) (f : A → res B) b :
  m ≫= f = Ok b → ∃ a, m = Ok a ∧ f a = Ok b.
Proof. destruct m; simpl; [eauto | done]. Qed.

Lemma bind_throw {A B} (m : res A) (f : A → res B) e :
  m ≫= f = Throw e → m = Throw e ∨ ∃ a, m = Ok a ∧ f a = Throw e.
Proof. destruct m; simpl; intros H; [eauto | simplify_eq; eauto]. Qed.

(** Dereference of a pointer that may be null. *)
Definition deref {A} (p : option A) : res A :=
  match p with Some a => Ok a | None => Throw UB end.

(** [std::vector::at]. *)
Definition vec_at {A} (l : list A) (i : N) : res A :=
  match l !! N.to_nat i with Some a => Ok a | None => Throw OutOfRange end.

(** [std::vector::back]. *)
Definition vec_back {A} (l : list A) : res A := deref (last l).

(** [std::unordered_map::at]. *)
Definition map_at {A} (m : gmap N A) (k : N) : res A :=
  match m !! k with Some a => Ok a | None => Throw OutOfRange end.

Lemma vec_at_ok {A} (l : list A) i a : vec_at l i = Ok a ↔ l !! N.to_nat i = Some a.
Proof. unfold vec_at. destruct (l !! _); split; intros; simplify_eq; done. Qed.

Lemma map_at_ok {A} (m : gmap N A) k a : map_at m k = Ok a ↔ m !! k = Some a.
Proof. unfold map_at. destruct (m !! _); split; intros; simplify_eq; done. Qed.

Lemma deref_ok {A} (p : option A) a : deref p = Ok a ↔ p = Some a.
Proof. destruct p; simpl; split; intros; simplify_eq; done. Qed.

(** ** Effects that survive an exception *)

(** A C++ method that mutates [S] and may throw: what it mutated before the
throw stays mutated, so the state is returned with the exception. *)
Definition eff (S A : Type) : Type := S → res A * S.

Definition ret {S A} (a : A) : eff S A := λ s, (Ok a, s).
Definition ebind {S A B} (m : eff S A) (f : A → eff S B) : eff S B := λ s,
  match m s with (Ok a, s') => f a s' | (Throw e, s') => (Throw e, s') end.

Declare Scope eff_scope.
Delimit Scope eff_scope with eff.
Open Scope eff_scope.
Notation "'let!' x ':=' m 'in' k" := (ebind m (λ x, k))
  (at level 100, x name, m at level 100, k at level 200, right associativity,
   format "'[v' 'let!'  x  ':='  m  'in' '/' k ']'") : eff_scope.
Notation "'do!' m 'in' k" := (ebind m (λ _, k))
  (at level 100, m at level 100, k at level 200, right associativity,
   format "'[v' 'do!'  m  'in' '/' k ']'") : eff_scope.

Definition throw {S A} (e : exn) : eff S A := λ s, (Throw e, s).
Definition get {S} : eff S S := λ s, (Ok s, s).
Definition put {S} (s : S) : eff S unit := λ _, (Ok tt, s).
(** A query that does not change the state. *)
Definition query {S A} (f : S → res A) : eff S A := λ s, (f s, s).
(** Run an effect on a component of the state. *)
Definition zoom {S T A} (getter : S → T) (setter : T → S → S) (m : eff T A) : eff S A :=
  λ s, let '(r, t) := m (getter s) in (r, setter t s).

(** A [for] loop: the effects for the elements of a list, in order. *)
Fixpoint for_each {S A} (l : list A) (f : A → eff S unit) : eff S unit :=
  match l with
  | [] => ret tt
  | x :: l => do! f x in for_each l f
  end.

Lemma ebind_ok {S A B} (m : eff S A) (f : A → eff S B) s b s' :
  ebind m f s = (Ok b, s') → ∃ a s1, m s = (Ok a, s1) ∧ f a s1 = (Ok b, s').
Proof.
  unfold ebind. destruct (m s) as [[a|e] s1]; intros; simplify_eq; eauto.
Qed.

Lemma ebind_query {S A B} (g : S → res A) (f : A → eff S B) s :
  ebind (query g) f s = match g s with Ok a => f a s | Throw e => (Throw e, s) end.
Proof. done. Qed.

(** *** What an effect keeps, whether or not it throws *)

Definition preserves {S A} (R : relation S) (m : eff S A) : Prop :=
  ∀ s r s', m s = (r, s') → R s s'.

Section preserves.
Context {S : Type} (R : relation S) `{HR : !PreOrder R}.

Lemma preserves_query {A} (f : S → res A) : preserves R (query f).
Proof using HR. intros s r s' [= <- <-]. done. Qed.
Lemma preserves_ret {A} (a : A) : preserves R (ret a).
Proof using HR. intros s r s' [= <- <-]. done. Qed.
Lemma preserves_throw {A} e : preserves R (throw (A := A) e).
Proof using HR. intros s r s' [= <- <-]. done. Qed.
Lemma preserves_bind {A B} (m : eff S A) (f : A → eff S B) :
  preserves R m → (∀ a, preserves R (f a)) → preserves R (ebind m f).
Proof using HR.
  intros Hm Hf s r s' Hb. unfold ebind in Hb. destruct (m s) as [[a|e] s1] eqn:Hm1.
  - etrans; [by eapply Hm|by eapply Hf].
  - injection Hb as <- <-. by eapply Hm.
Qed.
Lemma preserves_for_each {A} (l : list A) (f : A → eff S unit) :
  (∀ a, preserves R (f a)) → preserves R (for_each l f).
Proof using HR.
  intros Hf. induction l as [|x l IH]; [apply preserves_ret|].
  apply preserves_bind; [apply Hf|]. intros _. apply IH.
Qed.
End preserves.

Lemma preserves_zoom {S T A} (RS : relation S) (RT : relation T) (getter : S → T) setter (m : eff T A) :
  preserves RT m → (∀ s t, RT (getter s) t → RS s (setter t s)) → preserves RS (zoom getter setter m).
Proof.
  intros Hm Hset s r s' Hz. unfold zoom in Hz. destruct (m (getter s)) as [r1 t] eqn:Ht.
  injection Hz as <- <-. apply Hset. by eapply Hm.
Qed.

Create HintDb preserves.
#[export] Hint Resolve preserves_query preserves_ret preserves_throw : preserves.
#[export] Hint Resolve preserves_bind preserves_for_each : preserves.

(** Split an effect into its parts and prove that each preserves the relation. *)
Ltac preserve :=
  repeat match goal with
  | |- preserves _ (ebind _ _) => apply preserves_bind; [apply _| |intros ?]
  | |- preserves _ (if ?b then _ else _) => destruct b
  | |- preserves _ (match ?x with _ => _ end) => destruct x
  | |- preserves _ _ => solve [eauto with preserves typeclass_instances]
  end.

(** *** What an effect maintains when it returns *)

Definition maintains {S A} (I : S → Prop) (m : eff S A) : Prop :=
  ∀ s a s', I s → m s = (Ok a, s') → I s'.

Section maintains.
Context {S : Type} (I : S → Prop).

Lemma maintains_query {A} (f : S → res A) : maintains I (query f).
Proof. intros s a s' HI [= _ <-]. done. Qed.
Lemma maintains_ret {A} (a : A) : maintains I (ret a).
Proof. intros s r s' HI [= _ <-]. done. Qed.
Lemma maintains_throw {A} e : maintains I (throw (A := A) e).
Proof. intros s r s' HI. done. Qed.
Lemma maintains_bind {A B} (m : eff S A) (f : A → eff S B) :
  maintains I m → (∀ a, maintains I (f a)) → maintains I (ebind m f).
Proof. intros Hm Hf s b s' HI (a & s1 & Hs & Hb)%ebind_ok. by eapply Hf, Hb; eapply Hm. Qed.
End maintains.
Lemma maintains_zoom {S T A} (I : S → Prop) (J : T → Prop) (getter : S → T) setter (m : eff T A) :
  maintains J m → (∀ s, I s → J (getter s)) → (∀ s t, I s → J t → I (setter t s)) →
  maintains I (zoom getter setter m).
Proof.
  intros Hm Hget Hset s a s' HI Hz. unfold zoom in Hz. destruct (m (getter s)) as [r t] eqn:Ht.
  injection Hz as -> <-. apply Hset; [done|]. eapply Hm; [by apply Hget|done].
Qed.

Create HintDb maintains.
#[export] Hint Resolve maintains_query maintains_ret maintains_throw maintains_bind : maintains.
Ltac maintain :=
  repeat match goal with
  | |- maintains _ (ebind _ _) => apply maintains_bind; [|intros ?]
  | |- maintains _ (if ?b then _ else _) => destruct b
  | |- maintains _ (match ?x with _ => _ end) => destruct x
  | |- maintains _ _ => solve [eauto with maintains]
  end.

(** ** Tactics *)

(** Decompose hypotheses [x ≫= f = Ok b] into their steps. *)
Ltac res_step :=
  match goal with
  | H : (_ ≫= _) = Ok _ |- _ =>
      let a := fresh "a" in let Ha := fresh "Hok" in
      apply bind_ok in H as (a & Ha & H)
  | H : mret _ = Ok _ |- _ => injection H as H
  | H : Ok _ = Ok _ |- _ => injection H as H
  | H : Throw _ = Ok _ |- _ => discriminate H
  | H : Ok _ = Throw _ |- _ => discriminate H
  | H : vec_at _ _ = Ok _ |- _ => apply vec_at_ok in H
  | H : map_at _ _ = Ok _ |- _ => apply map_at_ok in H
  | H : deref _ = Ok _ |- _ => apply deref_ok in H
  end.
Ltac res_inv := repeat (res_step; simplify_eq/=).

Ltac destruct_match :=
  match goal with
  | |- context [match ?x with _ => _ end] => destruct x eqn:?
  | H : context [match ?x with _ => _ end] |- _ => destruct x eqn:?
  end.

(** ** Lists *)

Lemma last_lookup_length {A} (l : list A) x :
  last l = Some x → l !! (length l - 1) = Some x.
Proof. rewrite last_lookup, Nat.sub_1_r. done. Qed.


(** The map from positions to elements of a list. *)
Definition indexed {A} (l : list A) : gmap N A := list_to_map (imap (λ i x, (N.of_nat i, x)) l).

Lemma indexed_keys {A} (l : list A) : (imap (λ i x, (N.of_nat i, x)) l).*1 = N.of_nat <$> seq 0 (length l).
Proof.
  apply list_eq. intros i. rewrite !list_lookup_fmap, list_lookup_imap.
  destruct (l !! i) eqn:Hi; simpl.
  - rewrite lookup_seq_lt by by eapply lookup_lt_Some. done.
  - rewrite lookup_seq_ge by by apply lookup_ge_None. done.
Qed.

Lemma NoDup_N_seq i n : NoDup (N.of_nat <$> seq i n).
Proof. apply NoDup_fmap_2; [intros ???; lia|apply NoDup_seq]. Qed.

Lemma elem_of_N_seq x n : x ∈ (N.of_nat <$> seq 0 n) ↔ (x < N.of_nat n)%N.
Proof.
  rewrite list_elem_of_fmap. setoid_rewrite elem_of_seq. split.
  - intros (y & -> & ?). lia.
  - intros Hx. exists (N.to_nat x). lia.
Qed.

Lemma lookup_indexed {A} (l : list A) (id : N) : indexed l !! id = l !! N.to_nat id.
Proof.
  unfold indexed. apply option_eq. intros x. rewrite <- elem_of_list_to_map.
  2:{ rewrite indexed_keys. apply NoDup_N_seq. }
  rewrite list_elem_of_lookup. setoid_rewrite list_lookup_imap. split.
  - intros (i & Hi). apply fmap_Some in Hi as (y & Hy & [= -> ->]). by rewrite Nat2N.id.
  - intros Hx. exists (N.to_nat id). rewrite Hx. simpl. by rewrite N2Nat.id.
Qed.

Lemma size_indexed {A} (l : list A) : size (indexed l) = length l.
Proof.
  unfold indexed. rewrite map_size_list_to_map.
  - by rewrite length_imap.
  - rewrite indexed_keys. apply NoDup_N_seq.
Qed.

(** ** Sorted iteration *)

(** The elements of a [std::set], or the keys of a [std::map], in the order in
which it is traversed. *)
Definition ascending (s : gset N) : list N := merge_sort N.le (elements s).

Lemma ascending_permutation s : ascending s ≡ₚ elements s.
Proof. apply merge_sort_Permutation. Qed.
Lemma elem_of_ascending x s : x ∈ ascending s ↔ x ∈ s.
Proof. rewrite ascending_permutation. apply elem_of_elements. Qed.
Lemma NoDup_ascending s : NoDup (ascending s).
Proof. rewrite ascending_permutation. apply NoDup_elements. Qed.
Lemma ascending_empty : ascending ∅ = [].
Proof. done. Qed.
Lemma ascending_nil s : ascending s = [] ↔ s = ∅.
Proof.
  split; [|by intros ->]. intros Hs. apply set_eq. intros x. rewrite <- elem_of_ascending, Hs. set_solver.
Qed.
