(* ===== verification/CommandLine.v ===== *)
(** * The command line of mcmini

[main_cpp] ([src/mcmini/mcmini.cpp]): the options, the choice between recording,
checking a checkpoint and checking a program, and the command line that records
under DMTCP; [parse_severity] ([log/severity_level_parser.hpp]).  The value of
MCMINI_LOG_LEVEL, which files exist and the entries of the current directory are
arguments.  [options_understood] says what a command line means. *)

From stdpp Require Import strings pretty.
From Stdlib Require Import Ascii.
From stdpp Require Import options.
From S2P Require Import Prelude.

#[local] Open Scope string_scope.

(** ** [strtoul] and [strtol] *)

Definition isspace (a : ascii) : bool := let n := N_of_ascii a in bool_decide (n = 32 ∨ 9 ≤ n ≤ 13)%N.
Definition isdigit (a : ascii) : bool := let n := N_of_ascii a in bool_decide (48 ≤ n ≤ 57)%N.
Fixpoint skip_spaces (s : string) : string :=
  match s with
  | String a s' => if isspace a then skip_spaces s' else s
  | EmptyString => EmptyString
  end.
Definition skip_sign (s : string) : bool * string :=
  match s with
  | String "-" s => (true, s)
  | String "+" s => (false, s)
  | s => (false, s)
  end.
(** The value of the digits at the start, and what follows them. *)
Fixpoint digits (s : string) (n : N) : N * string :=
  match s with
  | String a s' => if isdigit a then digits s' (10 * n + (N_of_ascii a - 48))%N else (n, s)
  | EmptyString => (n, EmptyString)
  end.
(** [None] when there is no number to convert. *)
Definition scan_number (s : string) : option (bool * N * string) :=
  let '(negative, s) := skip_sign (skip_spaces s) in
  match s with
  | String a _ => if isdigit a then let '(n, rest) := digits s 0 in Some (negative, n, rest) else None
  | EmptyString => None
  end.
Definition ULONG_MAX : N := 2^64 - 1.
Definition LONG_MAX : Z := 2^63 - 1.
Definition strtoul (s : string) : N :=
  match scan_number s with
  | Some (negative, n, _) =>
      if bool_decide (ULONG_MAX < n)%N then ULONG_MAX else if negative : bool then u64 (2^64 - n) else n
  | None => 0
  end.
(** With [endptr]. *)
Definition strtol (s : string) : Z * string :=
  match scan_number s with
  | Some (negative, n, rest) =>
      let z := if negative : bool then (- Z.of_N n)%Z else Z.of_N n in
      (Z.max (- LONG_MAX - 1) (Z.min LONG_MAX z), rest)
  | None => (0%Z, s)
  end.
(** The conversion of an [unsigned long] to the 64-bit signed count of
[std::chrono::seconds]. *)
Definition s64 (n : N) : Z := let m := Z.of_N (u64 n) in if (m <? 2^63)%Z then m else (m - 2^64)%Z.
(** To [char]. *)
Definition s8 (z : Z) : Z := let m := (z mod 2^8)%Z in if (m <? 2^7)%Z then m else (m - 2^8)%Z.

(** ** Severity levels *)

Inductive severity_level :=
  | nothing | very_verbose | verbose | debug | info | unexpected | error | critical | abort | everything.

Definition tolower (a : ascii) : ascii :=
  let n := N_of_ascii a in if bool_decide (65 ≤ n ≤ 90)%N then ascii_of_N (n + 32) else a.
Fixpoint map_string (f : ascii → ascii) (s : string) : string :=
  match s with EmptyString => EmptyString | String a s => String (f a) (map_string f s) end.
Definition is_one_of (s : string) (names : list string) : bool := bool_decide (s ∈ names).
Definition parse_severity (levelStr : string) : severity_level :=
  let s := map_string tolower levelStr in
  if is_one_of s ["nothing"] then nothing
  else if is_one_of s ["very-verbose"; "vv"] then very_verbose
  else if is_one_of s ["verbose"; "v"] then verbose
  else if is_one_of s ["debug"] then debug
  else if is_one_of s ["info"] then info
  else if is_one_of s ["unexpected"] then unexpected
  else if is_one_of s ["error"] then error
  else if is_one_of s ["critical"] then critical
  else if is_one_of s ["abort"] then abort
  else if is_one_of s ["everything"] then everything
  else nothing.

(** ** [model::config] *)

(** [None] is a field without a value. *)
Record config := Config {
  max_thread_execution_depth : option N;
  target_trace_id : option N;
  stop_at_first_deadlock : bool;
  record_target_executable_only : bool;
  use_multithreaded_fork : bool;
  checkpoint_period : option Z;
  checkpoint_file : string;
  target_executable : string;
  target_executable_args : list string;
  global_severity_level : severity_level;
}.
Definition default_config : config := Config None None false false false None EmptyString EmptyString [] info.

Definition set_max_depth (n : N) '(Config _ t d r f p k e a s) : config := Config (Some n) t d r f p k e a s.
Definition set_trace_id (n : N) '(Config m _ d r f p k e a s) : config := Config m (Some n) d r f p k e a s.
Definition set_first_deadlock '(Config m t _ r f p k e a s) : config := Config m t true r f p k e a s.
Definition set_fork '(Config m t d r _ p k e a s) : config := Config m t d r true p k e a s.
Definition set_interval (n : Z) '(Config m t d _ f _ k e a s) : config := Config m t d true f (Some n) k e a s.
Definition set_checkpoint (k : string) '(Config m t d r f p _ e a s) : config := Config m t d r f p k e a s.
Definition set_target (e : string) (a : list string) '(Config m t d r f p k _ _ s) : config :=
  Config m t d r f p k e a s.
Definition set_severity (s : severity_level) '(Config m t d r f p k e a _) : config := Config m t d r f p k e a s.

(** ** The options *)

(** An entry of a directory: its name, and whether it is a regular file. *)
Definition is_checkpoint (entry : bool * string) : bool :=
  let n := String.length entry.2 in
  entry.1 && bool_decide (6 ≤ n)%nat && bool_decide (String.substring (n - 6) 6 entry.2 = ".dmtcp").
(** [None] when the directory cannot be opened. *)
Definition find_first_ckpt_file_in_cwd (dir : option (list (bool * string))) : string :=
  match dir with
  | None => EmptyString
  | Some entries => from_option snd EmptyString (head (filter is_checkpoint entries))
  end.

(** "-m5", with the digit in the same argument. *)
Definition is_letter_digit (letter : ascii) (a : string) : bool :=
  match a with
  | String _ (String b (String d _)) => bool_decide (b = letter) && isdigit d
  | _ => false
  end.
Definition starts_with_dash (a : string) : bool :=
  match a with String "-" _ => true | _ => false end.

(** The arguments from [cur_arg] on.  The argument after the last is the null pointer,
which no function that reads it accepts. *)
Fixpoint parse_options (dir : option (list (bool * string))) (cur_arg : list string) (c : config) :
    res (list string * config) :=
  match cur_arg with
  | [] => Ok ([], c)
  | a :: next =>
      if negb (starts_with_dash a) then Ok (cur_arg, c)
      else if is_one_of a ["--max-depth-per-thread"; "-m"] then
        match next with
        | [] => Throw UB
        | v :: next =>
            if bool_decide ((strtol v).1 = 0%Z) || negb (bool_decide ((strtol v).2 = EmptyString)) then Throw (ExitCalled 1)
            else parse_options dir next (set_max_depth (strtoul v) c)
        end
      else if is_one_of a ["--interval"; "-i"] then
        match next with
        | [] => Throw UB
        | v :: next => parse_options dir next (set_interval (s64 (strtoul v)) c)
        end
      else if is_one_of a ["--from-checkpoint"; "-ckpt"] then
        match next with
        | [] => Throw UB
        | v :: next => parse_options dir next (set_checkpoint v c)
        end
      else if is_one_of a ["--log-level"; "-log"] then
        match next with
        | [] => Throw UB
        | v :: next => parse_options dir next (set_severity (parse_severity v) c)
        end
      else if is_one_of a ["--from-first-checkpoint"] then
        parse_options dir next (set_checkpoint (find_first_ckpt_file_in_cwd dir) c)
      else if is_one_of a ["--multithreaded-fork"; "-mtf"] then parse_options dir next (set_fork c)
      else if is_letter_digit "m" a then
        match next with
        | [] => Throw UB
        | v :: _ => parse_options dir next (set_max_depth (strtoul v) c)   (* [cur_arg[1]] *)
        end
      else if is_one_of a ["--first-deadlock"; "--first"; "-f"] then parse_options dir next (set_first_deadlock c)
      else if is_one_of a ["--print-at-traceId"; "-p"] then
        match next with
        | [] => Throw UB
        | v :: next =>
            if bool_decide ((strtol v).1 = 0%Z) || negb (bool_decide ((strtol v).2 = EmptyString)) then Throw (ExitCalled 1)
            else parse_options dir next (set_trace_id (strtoul v) c)
        end
      else if is_letter_digit "p" a then
        match next with
        | _ :: v :: _ => parse_options dir next (set_trace_id (strtoul v) c)   (* [cur_arg[2]] *)
        | _ => Throw UB
        end
      else (* the help, or an unrecognized option *) Throw (ExitCalled 1)
  end.

(** ** The target *)

(** [cur_arg[0] + idx] must point into the string. *)
Definition names_mcmini (s : string) : res bool :=
  if bool_decide (s = "mcmini") then Ok true
  else
    let n := String.length s in
    let idx := s8 (Z.of_N (u64 (N.of_nat n + (2^64 - 7)))) in   (* an unsigned difference is never negative *)
    if bool_decide (0 ≤ idx ≤ Z.of_nat n)%Z
    then Ok (bool_decide (String.substring (Z.to_nat idx) (n - Z.to_nat idx)%nat s = "/mcmini"))
    else Throw UB.
Definition choose_target (exists_file : string → bool) (cur_arg : list string) (c : config) : res config :=
  match cur_arg with
  | [] => Throw (ExitCalled 1)
  | t :: args =>
      if negb (exists_file t) then Throw (ExitCalled 1)
      else
        itself ← names_mcmini t;
        if itself : bool then Throw (ExitCalled 1) else Ok (set_target t args c)
  end.

(** What [main_cpp] runs. *)
Inductive command :=
  | do_recording (c : config)
  | do_model_checking_from_dmtcp_ckpt_file (c : config)
  | do_model_checking (c : config).
Definition dispatch_command (c : config) : command :=
  if record_target_executable_only c then do_recording c
  else if bool_decide (checkpoint_file c ≠ EmptyString) then do_model_checking_from_dmtcp_ckpt_file c
  else do_model_checking c.

(** [argv] with the name of the program.  Without any argument, the code writes past
the end of [argv]. *)
Definition main_cpp (MCMINI_LOG_LEVEL : option string) (exists_file : string → bool)
    (dir : option (list (bool * string))) (argv : list string) : res command :=
  let c := match MCMINI_LOG_LEVEL with
           | Some env_p => set_severity (parse_severity env_p) default_config
           | None => default_config
           end in
  match argv with
  | _ :: ((_ :: _) as args) =>
      '(cur_arg, c) ← parse_options dir args c;
      c ← (if bool_decide (checkpoint_file c = EmptyString) then choose_target exists_file cur_arg c else Ok c);
      Ok (dispatch_command c)
  | _ => Throw UB
  end.

(** The command line of [do_recording]. *)
Definition dmtcp_launch_args (cwd : option string) (c : config) : list string :=
  let libmcmini_path := default "PATH_TOO_LONG" cwd +:+ "/libmcmini.so" in
  ["--disable-alloc-plugin"; "-i"; pretty (default 0%Z (checkpoint_period c)); "--with-plugin"; libmcmini_path;
   "--modify-env"; target_executable c] ++ target_executable_args c.

(** ** Numbers are read back *)

Lemma digit_char x : (x < 10)%N → isdigit (pretty_N_char x) = true ∧ N_of_ascii (pretty_N_char x) = (48 + x)%N.
Proof.
  intros Hx. destruct x as [|p]; [done|].
  do 4 (destruct p as [p|p|]; try (split; vm_compute; reflexivity)); lia.
Qed.
Lemma digits_pretty x s : digits (pretty_N_go x s) 0 = digits s x.
Proof.
  revert s. induction (N.lt_wf_0 x) as [x _ IH]. intros s.
  destruct (decide (x = 0%N)) as [-> |Hx]; [done|]. rewrite pretty_N_go_step by lia.
  rewrite IH by (apply N.div_lt; lia). cbn [digits].
  destruct (digit_char (x mod 10)) as [-> ->]; [by apply N.mod_lt|]. f_equal.
  pose proof (N.div_mod x 10 ltac:(done)) as Hx'. revert Hx'. generalize (x `div` 10)%N (x `mod` 10)%N. clear. lia.
Qed.
Lemma pretty_go_first x s : (0 < x)%N → ∃ a s', pretty_N_go x s = String a s' ∧ isdigit a = true.
Proof.
  revert s. induction (N.lt_wf_0 x) as [x _ IH]. intros s Hx. rewrite pretty_N_go_step by done.
  destruct (digit_char (x mod 10)) as [Hd _]; [by apply N.mod_lt|].
  destruct (decide (x / 10 = 0)%N) as [-> |]; [by rewrite pretty_N_go_0; eauto|].
  apply IH; [by apply N.div_lt|by apply N.neq_0_lt_0].
Qed.
Lemma digit_not_sign a s : isdigit a = true → skip_sign (skip_spaces (String a s)) = (false, String a s).
Proof.
  unfold isdigit. intros Hd%bool_decide_eq_true. cbn [skip_spaces].
  unfold isspace. rewrite bool_decide_eq_false_2 by lia.
  destruct a as [[] [] [] [] [] [] [] []]; try done; vm_compute in Hd; naive_solver.
Qed.
Lemma scan_pretty n : scan_number (pretty n) = Some (false, n, EmptyString).
Proof.
  unfold pretty, pretty_N. case_decide as Hn; [by subst|].
  destruct (pretty_go_first n EmptyString) as (a & s & Heq & Ha); [lia|].
  unfold scan_number. pose proof (digits_pretty n EmptyString) as Hd. rewrite Heq in *.
  rewrite digit_not_sign by done. by rewrite Ha, Hd.
Qed.
Lemma strtoul_pretty n : (n < 2^64)%N → strtoul (pretty n) = n.
Proof. intros Hn. unfold strtoul, ULONG_MAX. rewrite scan_pretty. by rewrite bool_decide_eq_false_2 by lia. Qed.
(** A number that [strtol] accepts: its value may be cut, but is not 0. *)
Lemma strtol_pretty n : (0 < n)%N →
  bool_decide ((strtol (pretty n)).1 = 0%Z) || negb (bool_decide ((strtol (pretty n)).2 = EmptyString)) = false.
Proof.
  intros Hn. unfold strtol, LONG_MAX. rewrite scan_pretty. cbn [fst snd].
  rewrite bool_decide_eq_false_2 by lia. by rewrite bool_decide_eq_true_2.
Qed.

(** ** What a command line means *)

Inductive setting :=
  | MaxDepth (n : N)
  | Interval (n : N)
  | FromCheckpoint (file : string)
  | LogLevel (level : string)
  | FromFirstCheckpoint
  | MultithreadedFork
  | FirstDeadlock
  | PrintAt (n : N).
(** The two ways to write one. *)
Definition spell (short : bool) (o : setting) : list string :=
  match o with
  | MaxDepth n => [if short then "-m" else "--max-depth-per-thread"; pretty n]
  | Interval n => [if short then "-i" else "--interval"; pretty n]
  | FromCheckpoint file => [if short then "-ckpt" else "--from-checkpoint"; file]
  | LogLevel level => [if short then "-log" else "--log-level"; level]
  | FromFirstCheckpoint => ["--from-first-checkpoint"]
  | MultithreadedFork => [if short then "-mtf" else "--multithreaded-fork"]
  | FirstDeadlock => [if short then "-f" else "--first-deadlock"]
  | PrintAt n => [if short then "-p" else "--print-at-traceId"; pretty n]
  end.
Definition meaningful (o : setting) : Prop :=
  match o with
  | MaxDepth n | PrintAt n => (0 < n < 2^64)%N
  | Interval n => (n < 2^63)%N
  | _ => True
  end.
Definition set_option (dir : option (list (bool * string))) (c : config) (o : setting) : config :=
  match o with
  | MaxDepth n => set_max_depth n c
  | Interval n => set_interval (Z.of_N n) c
  | FromCheckpoint file => set_checkpoint file c
  | LogLevel level => set_severity (parse_severity level) c
  | FromFirstCheckpoint => set_checkpoint (find_first_ckpt_file_in_cwd dir) c
  | MultithreadedFork => set_fork c
  | FirstDeadlock => set_first_deadlock c
  | PrintAt n => set_trace_id n c
  end.

Lemma s64_small n : (n < 2^63)%N → s64 n = Z.of_N n.
Proof.
  intros Hn. unfold s64, u64. rewrite N.mod_small by lia. destruct (Z.ltb_spec (Z.of_N n) (2^63)); [done|lia].
Qed.
Lemma parse_spelled dir short o args c :
  meaningful o → parse_options dir (spell short o ++ args) c = parse_options dir args (set_option dir c o).
Proof.
  destruct o; cbn [meaningful]; intros Hm; destruct short; cbn [spell app parse_options set_option]; try done;
    rewrite ?strtol_pretty by lia; rewrite strtoul_pretty by lia; rewrite ?s64_small by lia; done.
Qed.
Lemma parse_all_spelled dir (l : list (bool * setting)) args c :
  Forall meaningful (snd <$> l) →
  parse_options dir ((l ≫= λ o, spell o.1 o.2) ++ args) c = parse_options dir args (foldl (set_option dir) c (snd <$> l)).
Proof.
  revert c. induction l as [|[short o] l IH]; intros c Hall; [done|]. cbn [fmap list_fmap] in Hall.
  apply Forall_cons in Hall as [Ho Hall]. cbn [mbind list_bind fmap list_fmap foldl fst snd].
  rewrite <- app_assoc, parse_spelled by done. by apply IH.
Qed.

(** A program whose name is shorter than that of mcmini with its slash is compared from
an address before the name. *)
Lemma short_name_out_of_bounds s :
  (String.length s < 7)%nat → s ≠ "mcmini" → names_mcmini s = Throw UB.
Proof.
  intros Hlen Hne. unfold names_mcmini. rewrite (bool_decide_eq_false_2 (s = _)) by done. cbv zeta.
  rewrite bool_decide_eq_false_2; [done|]. revert Hlen. generalize (String.length s). intros n Hn.
  do 7 (destruct n as [|n]; [by vm_compute; intros [] |]). lia.
Qed.
(** The comparison of a name that is long enough, and not so long that the index wraps. *)
Lemma names_mcmini_spec s : (String.length s ≤ 134)%nat → names_mcmini s =
  if bool_decide (s = "mcmini") then Ok true else if bool_decide (String.length s < 7)%nat then Throw UB
  else Ok (bool_decide (String.substring (String.length s - 7)%nat 7 s = "/mcmini")).
Proof.
  intros Hlen. case_bool_decide as Hs; [unfold names_mcmini; by rewrite bool_decide_eq_true_2|].
  case_bool_decide as Hshort; [by apply short_name_out_of_bounds|]. unfold names_mcmini. rewrite bool_decide_eq_false_2 by done.
  assert (s8 (Z.of_N (u64 (N.of_nat (String.length s) + (2^64 - 7)))) = Z.of_nat (String.length s) - 7)%Z as ->.
  { unfold u64. replace (N.of_nat (String.length s) + (2 ^ 64 - 7))%N
      with (N.of_nat (String.length s) - 7 + 1 * 2^64)%N by lia.
    rewrite N.Div0.mod_add, N.mod_small by lia. unfold s8. rewrite Z.mod_small by lia.
    destruct (Z.ltb_spec (Z.of_N (N.of_nat (String.length s) - 7)) (2^7)); lia. }
  cbv zeta. rewrite bool_decide_eq_true_2 by lia.
  replace (Z.to_nat _) with (String.length s - 7)%nat by lia. by replace (_ - (_ - 7))%nat with 7 by lia.
Qed.

(** C37: what a command line means.  Options in any order, each in its long or short
spelling with a value it takes ([meaningful]), set the fields they name, the later ones
overriding the earlier.  If they name no checkpoint, the next argument is the program, of a
name of at most 134 characters that does not begin with a dash, and the others are its
arguments: mcmini gives up when it does not exist or is mcmini itself, and a name of less than
seven characters, other than that, is compared outside of its bounds.  Otherwise mcmini records
if an interval was given, checks from the checkpoint if one was, and else checks the program. *)
Theorem options_understood level exists_file dir program l target args :
  Forall meaningful (snd <$> l) → starts_with_dash target = false → (String.length target ≤ 134)%nat →
  let c0 := match level with Some v => set_severity (parse_severity v) default_config | None => default_config end in
  let c := foldl (set_option dir) c0 (snd <$> l) in
  main_cpp level exists_file dir (program :: (l ≫= λ o, spell o.1 o.2) ++ target :: args) =
    (if bool_decide (checkpoint_file c ≠ EmptyString) then Ok (dispatch_command c)
     else if negb (exists_file target) then Throw (ExitCalled 1)
     else if bool_decide (target = "mcmini") then Throw (ExitCalled 1)
     else if bool_decide (String.length target < 7)%nat then Throw UB
     else if bool_decide (String.substring (String.length target - 7)%nat 7 target = "/mcmini") then Throw (ExitCalled 1)
     else Ok (dispatch_command (set_target target args c))).
Proof.
  intros Hall Hdash Hlen c0 c. unfold main_cpp. fold c0.
  destruct ((l ≫= λ o, spell o.1 o.2) ++ target :: args)%list as [|a rest] eqn:Hargs.
  { by apply app_nil in Hargs as [_ ?]. }
  rewrite <- Hargs, parse_all_spelled by done. fold c. cbn [parse_options]. rewrite Hdash. cbn [negb mbind res_bind].
  destruct (decide (checkpoint_file c = EmptyString)) as [Hc|Hc].
  2: { by rewrite bool_decide_eq_false_2, bool_decide_eq_true_2. }
  rewrite bool_decide_eq_true_2, (bool_decide_eq_false_2 (_ ≠ _)) by (try done; by intros []).
  unfold choose_target. destruct (exists_file target); cbn [negb]; [|done]. rewrite names_mcmini_spec by done.
  case_bool_decide; [done|]. case_bool_decide; [done|]. by case_bool_decide.
Qed.

(** ** Where the code departs from that *)

Ltac not_named := rewrite (bool_decide_eq_false_2 (_ ∈ _)) by (rewrite !elem_of_cons, elem_of_nil; naive_solver).

(** A depth written in the same argument, as in "-m5", is not the one taken: it is
read from the next argument, which then still is the program. *)
Theorem joined_depth_misread dir d digits v next c :
  isdigit d = true →
  parse_options dir (String "-" (String "m" (String d digits)) :: v :: next) c =
    parse_options dir (v :: next) (set_max_depth (strtoul v) c).
Proof.
  intros Hd. cbn [parse_options starts_with_dash negb]. unfold is_one_of.
  assert (d ≠ "t"%char) as Ht by by intros ->. do 6 not_named.
  unfold is_letter_digit. rewrite Hd. by rewrite bool_decide_eq_true_2.
Qed.
(** An option that takes a value, given as the last argument, reads a null pointer. *)
Theorem missing_value dir a c :
  is_one_of a ["-m"; "-i"; "-ckpt"; "-log"; "-p"] = true → parse_options dir [a] c = Throw UB.
Proof.
  intros Ha%bool_decide_eq_true. rewrite !elem_of_cons, elem_of_nil in Ha. naive_solver.
Qed.
