(* ===== verification/Text.v ===== *)
(** * Text

What the source uses of [std::string] and of [std::getline], on lists of characters:
[find] from a position, [trim] (of [misc/ini-parser.hpp]) and the lines a stream gives
one by one.  [IniParser] and [Logging] share it. *)

From stdpp Require Import strings list pretty.
From Stdlib Require Import Ascii.
From stdpp Require Import options.
From S2P Require Import Prelude CommandLine.

Abbreviation text := (list ascii).
(** A literal of the source. *)
Definition lit (s : string) : text := String.list_ascii_of_string s.

Definition newline : ascii := "010"%char.

(** ** [std::string::find] *)

Fixpoint begins (p s : text) : bool :=
  match p, s with
  | [], _ => true
  | a :: p, b :: s => bool_decide (a = b) && begins p s
  | _ :: _, [] => false
  end.
Fixpoint find_first (p s : text) : option nat :=
  if begins p s then Some 0
  else match s with [] => None | _ :: s => S <$> find_first p s end.
(** [None] is [npos]. *)
Definition find (s p : text) (pos : nat) : option nat :=
  if decide (pos ≤ length s) then Nat.add pos <$> find_first p (drop pos s) else None.

Lemma find_first_char_Some c s i :
  find_first [c] s = Some i ↔ ∃ t, s = take i s ++ c :: t ∧ (c ∉ take i s) ∧ i < length s.
Proof.
  revert i. induction s as [|a s IH]; intros i; simpl.
  - split; [done|]. intros (t & Ht & _). by destruct i.
  - rewrite andb_true_r. case_bool_decide as Ha.
    + subst a. split.
      * intros [= <-]. exists s. simpl. split_and!; [done|set_solver|lia].
      * intros (t & Ht & Hi & _). destruct i; [done|]. set_solver.
    + rewrite fmap_Some. setoid_rewrite IH. split.
      * intros (j & (t & Ht & Hj & Hl) & ->). exists t. simpl. rewrite <- Ht.
        split_and!; [done|set_solver|lia].
      * intros (t & Ht & Hi & Hl). destruct i as [|i]; simplify_eq/=.
        exists i. split; [|done]. exists t. split_and!; [done|set_solver|lia].
Qed.

Lemma find_first_char_None c s : find_first [c] s = None ↔ c ∉ s.
Proof.
  induction s as [|a s IH]; simpl; [set_solver|].
  rewrite andb_true_r. case_bool_decide; [set_solver|].
  rewrite fmap_None, IH. set_solver.
Qed.

Lemma find_char_here s1 c s2 : c ∉ s1 → find (s1 ++ c :: s2) [c] 0 = Some (length s1).
Proof.
  intros Hc. unfold find. rewrite decide_True by lia. simpl. rewrite drop_0.
  assert (find_first [c] (s1 ++ c :: s2) = Some (length s1)) as ->; [|done].
  apply find_first_char_Some. exists s2. rewrite take_app_length, length_app. simpl.
  split_and!; [done..|lia].
Qed.

Lemma find_char_split s c : match find s [c] 0 with
  | Some i => ∃ s1 s2, s = s1 ++ c :: s2 ∧ (c ∉ s1) ∧ i = length s1
  | None => c ∉ s end.
Proof.
  unfold find. rewrite decide_True by lia. rewrite drop_0.
  destruct (find_first [c] s) as [i|] eqn:Hf; simpl.
  - apply find_first_char_Some in Hf as (t & Ht & Hc & Hl).
    exists (take i s), t. rewrite length_take. split_and!; [done..|lia].
  - by apply find_first_char_None in Hf.
Qed.

(** From a position after a part that has been searched. *)
Lemma find_char_after s1 s2 c : match find (s1 ++ s2) [c] (length s1) with
  | Some i => ∃ r1 r2, s2 = r1 ++ c :: r2 ∧ (c ∉ r1) ∧ i = length s1 + length r1
  | None => c ∉ s2 end.
Proof.
  unfold find. rewrite decide_True by (rewrite length_app; lia). rewrite drop_app_length.
  destruct (find_first [c] s2) as [i|] eqn:Hf; simpl.
  - apply find_first_char_Some in Hf as (t & Ht & Hc & Hl).
    exists (take i s2), t. rewrite length_take. split_and!; [done..|lia].
  - by apply find_first_char_None in Hf.
Qed.

(** ** [trim] *)

Fixpoint skip_space (s : text) : text :=
  match s with a :: s' => if isspace a then skip_space s' else s | [] => [] end.
Definition trim (s : text) : text := reverse (skip_space (reverse (skip_space s))).

(** Neither the first nor the last character is a space. *)
Definition trimmed (s : text) : Prop :=
  (∀ a, head s = Some a → isspace a = false) ∧ (∀ a, last s = Some a → isspace a = false).

#[export] Instance trimmed_dec s : Decision (trimmed s).
Proof.
  apply and_dec.
  - destruct (head s) as [a|]; [|by left]. destruct (isspace a) eqn:Ha; [right|left; naive_solver].
    intros H. specialize (H a eq_refl). congruence.
  - destruct (last s) as [a|]; [|by left]. destruct (isspace a) eqn:Ha; [right|left; naive_solver].
    intros H. specialize (H a eq_refl). congruence.
Defined.

Lemma skip_space_spec s : ∃ p, s = p ++ skip_space s ∧ Forall (λ a, isspace a = true) p
  ∧ (∀ a, head (skip_space s) = Some a → isspace a = false).
Proof.
  induction s as [|a s (p & Hs & Hp & Hh)]; simpl; [by exists []|].
  destruct (isspace a) eqn:Ha.
  - exists (a :: p). rewrite Hs at 1. by repeat constructor.
  - exists []. split_and!; [done..|]. simpl. by intros ? [= <-].
Qed.

Lemma skip_space_id s : (∀ a, head s = Some a → isspace a = false) → skip_space s = s.
Proof. destruct s as [|a s]; [done|]. intros H. simpl. by rewrite (H a eq_refl). Qed.

Lemma trim_trimmed s : trimmed s → trim s = s.
Proof.
  intros [Hh Hl]. unfold trim. rewrite (skip_space_id s), skip_space_id; [apply reverse_involutive| |done].
  intros a Ha. apply Hl. rewrite <- Ha. symmetry. apply head_reverse.
Qed.

(** [trim] takes spaces off both ends, and only spaces. *)
Lemma trim_spec s : ∃ p q, s = p ++ trim s ++ q ∧ Forall (λ a, isspace a = true) (p ++ q) ∧ trimmed (trim s).
Proof.
  destruct (skip_space_spec s) as (p & Hs & Hp & Hh).
  destruct (skip_space_spec (reverse (skip_space s))) as (q & Hr & Hq & Hl).
  assert (skip_space s = trim s ++ reverse q) as Ht.
  { unfold trim. rewrite <- reverse_app, <- Hr. by rewrite reverse_involutive. }
  exists p, (reverse q). rewrite <- Ht. split_and!; [done| |split].
  - apply Forall_app. split; [done|]. by apply Forall_reverse.
  - intros a Ha. apply Hh. rewrite Ht. destruct (trim s); [done|by simpl in *].
  - intros a Ha. apply Hl. rewrite <- Ha. unfold trim. by rewrite last_reverse.
Qed.

Lemma trim_idemp s : trim (trim s) = trim s.
Proof. destruct (trim_spec s) as (p & q & _ & _ & H). by apply trim_trimmed. Qed.

(** ** [std::getline] *)

(** The lines the calls give until the stream is exhausted: a newline at the end of the
stream does not start another line. *)
Fixpoint getlines_from (acc s : text) : list text :=
  match s with
  | [] => match acc with [] => [] | _ :: _ => [reverse acc] end
  | a :: s => if decide (a = newline) then reverse acc :: getlines_from [] s
              else getlines_from (a :: acc) s
  end.
Definition getlines (s : text) : list text := getlines_from [] s.
(** Each line followed by a newline. *)
Definition unlines (ls : list text) : text := mjoin ((λ l, l ++ [newline]) <$> ls).

Lemma getlines_from_line acc l s : newline ∉ l →
  getlines_from acc (l ++ newline :: s) = (reverse acc ++ l) :: getlines s.
Proof.
  revert acc. induction l as [|a l IH]; intros acc Hl; simpl.
  - by rewrite app_nil_r.
  - rewrite decide_False by set_solver. rewrite IH by set_solver.
    by rewrite reverse_cons, <- app_assoc.
Qed.

Lemma getlines_unlines ls : Forall (λ l, newline ∉ l) ls → getlines (unlines ls) = ls.
Proof.
  unfold unlines. induction ls as [|l ls IH]; intros Hls; [done|].
  apply Forall_cons in Hls as [Hl Hls]. simpl. rewrite <- app_assoc. unfold getlines. simpl.
  rewrite getlines_from_line by done. f_equal. exact (IH Hls).
Qed.

Lemma getlines_from_end acc s : newline ∉ s → acc ++ s ≠ [] → getlines_from acc s = [reverse acc ++ s].
Proof.
  revert acc. induction s as [|a s IH]; intros acc Hs Hne; simpl.
  - rewrite app_nil_r in *. by destruct acc.
  - rewrite decide_False by set_solver. rewrite IH by set_solver.
    by rewrite reverse_cons, <- app_assoc.
Qed.

(** A last line without its newline is read too. *)
Lemma getlines_last ls l : Forall (λ l, newline ∉ l) ls → newline ∉ l → l ≠ [] →
  getlines (unlines ls ++ l) = ls ++ [l].
Proof.
  intros Hls Hl Hne. unfold unlines, getlines. induction Hls as [|l' ls Hl' _ IH].
  - by apply getlines_from_end.
  - rewrite fmap_cons. simpl. rewrite <- !app_assoc. simpl.
    rewrite getlines_from_line by done. f_equal. exact IH.
Qed.

Lemma getlines_no_newline s : Forall (λ l, newline ∉ l) (getlines s).
Proof.
  unfold getlines. assert (newline ∉ ([] : text)) as Hacc by set_solver. revert Hacc.
  generalize ([] : text) as acc. induction s as [|a s IH]; intros acc Hacc; simpl.
  - destruct acc; constructor; [|done]. by rewrite elem_of_reverse.
  - case_decide; [constructor; [by rewrite elem_of_reverse|]|]; apply IH; set_solver.
Qed.

Lemma getlines_unlines_app ls s : Forall (λ l, newline ∉ l) ls → getlines (unlines ls ++ s) = ls ++ getlines s.
Proof.
  unfold unlines, getlines. induction 1 as [|l ls Hl _ IH]; [done|]. rewrite fmap_cons. simpl.
  rewrite <- !app_assoc. simpl. rewrite getlines_from_line by done. f_equal. exact IH.
Qed.

(** ** Decimal numbers *)

Lemma pretty_go_digits x s : Forall (λ a, isdigit a = true) (lit s) → Forall (λ a, isdigit a = true) (lit (pretty_N_go x s)).
Proof.
  revert s. induction (N.lt_wf_0 x) as [x _ IH]. intros s Hs. destruct (decide (x = 0)%N) as [->|Hx]; [by rewrite pretty_N_go_0|].
  rewrite pretty_N_go_step by lia. apply IH; [apply N.div_lt; lia|]. constructor; [|done].
  apply digit_char. apply N.mod_lt. lia.
Qed.
Lemma pretty_digits (n : N) : Forall (λ a, isdigit a = true) (lit (pretty n)).
Proof.
  unfold pretty, pretty_N. case_decide; [by repeat constructor|]. apply pretty_go_digits. constructor.
Qed.
Lemma pretty_not_in (n : N) a : isdigit a = false → a ∉ lit (pretty n).
Proof. intros Ha Hin. pose proof (pretty_digits n) as Hd. rewrite Forall_forall in Hd. specialize (Hd a Hin). congruence. Qed.
