(* ===== verification/IniParser.v ===== *)
(** * Configuration files

[IniParser] ([misc/ini-parser.hpp]): comments, sections, assignments and the errors with
their messages.  [decode_spec] says which texts are accepted and what the parser then
holds; [decode_render] is the round trip through the text of a document. *)

From stdpp Require Import gmap strings list pretty.
From Stdlib Require Import Ascii.
From stdpp Require Import options.
From S2P Require Import Prelude CommandLine Text.

#[local] Open Scope nat_scope.

Module Ini.

(** ** Comments *)

Definition fieldSep_ : ascii := "=".
Definition escapeChar_ : ascii := "\".
Definition commentPrefixes_ : list text := [lit "#"; lit ";"].

(** The loop on one prefix, from the position [pos].  [None] when the fuel runs out. *)
Fixpoint remove_prefix (fuel : nat) (prefix line : text) (pos : nat) : option text :=
  match fuel with
  | O => None
  | S fuel =>
      match find line prefix pos with
      | None => Some line
      | Some pos =>
          if bool_decide (pos = 0) || negb (bool_decide (line !! (pos - 1) = Some escapeChar_))
          then Some (take pos line)
          else remove_prefix fuel prefix (delete (pos - 1) line) (pos + length prefix)
      end
  end.
(** A turn of the loop takes a character off the line and moves past the prefix. *)
Definition removeComments (line : text) : text :=
  foldl (λ line prefix, default line (remove_prefix (S (S (length line))) prefix line 0)) line commentPrefixes_.

(** ** The parser *)

(** [*this] ([sections]) and the local variables of [decode]. *)
Record parser := Parser {
  sections : gmap text (gmap text text);
  lineTracker : gmap text (gmap text nat);
  currentSection : text;
  lastNonRelativeSection : text;
  lineNo : nat;
}.
Definition empty_parser : parser := Parser ∅ ∅ [] [] 0.

(** The runtime errors [decode] throws. *)
Inductive ini_error :=
  | section_not_closed (line : nat)
  | empty_section_name (line : nat)
  | no_separator (line : nat)
  | empty_key (line : nat)
  | already_assigned (key section : text) (firstLine : nat) (old value : text) (line : nat).
#[export] Instance ini_error_eq_dec : EqDecision ini_error.
Proof. solve_decision. Defined.

Definition to_string (n : nat) : text := lit (pretty n).
(** [std::runtime_error::what]. *)
Definition what (e : ini_error) : text :=
  match e with
  | section_not_closed n => lit "Line " ++ to_string n ++ lit ": section not closed"
  | empty_section_name n => lit "Line " ++ to_string n ++ lit ": empty section name"
  | no_separator n => lit "Line " ++ to_string n ++ lit ": no separator '" ++ [fieldSep_] ++ lit "' found"
  | empty_key n => lit "Line " ++ to_string n ++ lit ": empty key"
  | already_assigned key section firstLine old value n =>
      lit "The key `" ++ key ++ lit "` in section `" ++ section ++ lit "` has already been assigned at line "
      ++ to_string firstLine ++ lit " to `" ++ old ++ lit "`. Overriding to `" ++ value ++ lit "` at line "
      ++ to_string n ++ lit "..." ++ [newline]
  end.

(** The section is there afterwards, empty when it is new. *)
Definition find_or_add_section (p : parser) : parser :=
  match sections p !! currentSection p with
  | Some _ => p
  | None => Parser (<[currentSection p := ∅]> (sections p)) (<[currentSection p := ∅]> (lineTracker p))
                   (currentSection p) (lastNonRelativeSection p) (lineNo p)
  end.
Definition enter (secName lastNonRelative : text) (p : parser) : parser :=
  find_or_add_section (Parser (sections p) (lineTracker p) secName lastNonRelative (lineNo p)).

(** A line that starts with a bracket. *)
Definition decode_section (line : text) (p : parser) : ini_error + parser :=
  match find line (lit "]") 0 with
  | None => inl (section_not_closed (lineNo p))
  | Some endPos =>
      let secName := trim (take (endPos - 1) (drop 1 line)) in
      match secName with
      | [] => inl (empty_section_name (lineNo p))
      | front :: rest =>
          if decide (front = "."%char) then
            match lastNonRelativeSection p with
            | [] => inr (enter rest [] p)
            | _ :: _ => inr (enter (lastNonRelativeSection p ++ secName) (lastNonRelativeSection p) p)
            end
          else inr (enter secName secName p)
      end
  end.

Definition lookup2 {A} (m : gmap text (gmap text A)) (s k : text) : option A := m !! s ≫= λ ks, ks !! k.
Definition insert2 {A} (m : gmap text (gmap text A)) (s k : text) (a : A) : gmap text (gmap text A) :=
  <[s := <[k := a]> (default ∅ (m !! s))]> m.

Definition decode_assignment (line : text) (p : parser) : ini_error + parser :=
  match find line [fieldSep_] 0 with
  | None => inl (no_separator (lineNo p))
  | Some sepPos =>
      let key := trim (take sepPos line) in
      let value := trim (drop (sepPos + 1) line) in
      match key with
      | [] => inl (empty_key (lineNo p))
      | _ :: _ =>
          let p := match currentSection p with
                   | [] => enter (lit "global") (lastNonRelativeSection p) p
                   | _ :: _ => find_or_add_section p
                   end in
          let s := currentSection p in
          match lookup2 (sections p) s key with
          | Some old =>
              inl (already_assigned key s (default 0 (lookup2 (lineTracker p) s key)) old value (lineNo p))
          | None =>
              inr (Parser (insert2 (sections p) s key value) (insert2 (lineTracker p) s key (lineNo p))
                          s (lastNonRelativeSection p) (lineNo p))
          end
      end
  end.

(** One turn of the loop. *)
Definition decode_line (raw : text) (p : parser) : ini_error + parser :=
  let p := Parser (sections p) (lineTracker p) (currentSection p) (lastNonRelativeSection p) (S (lineNo p)) in
  let line := trim (removeComments raw) in
  match line with
  | [] => inr p
  | front :: _ => if decide (front = "["%char) then decode_section line p else decode_assignment line p
  end.
Fixpoint decode_lines (ls : list text) (p : parser) : ini_error + parser :=
  match ls with
  | [] => inr p
  | l :: ls => match decode_line l p with inl e => inl e | inr p => decode_lines ls p end
  end.
(** What the parser holds after [decode] of a stream that gives the characters [input]. *)
Definition decode (input : text) : ini_error + gmap text (gmap text text) :=
  match decode_lines (getlines input) empty_parser with
  | inl e => inl e
  | inr p => inr (sections p)
  end.

(** ** What the loops on comments do *)

(** One pass over the line: a comment starts at [c], unless the escape character is
before it, which goes.  [kept] says that [a] is not looked at: it follows a [c] that
was kept. *)
Fixpoint strip (c : ascii) (kept : bool) (l : text) : text :=
  match l with
  | [] => []
  | a :: l' =>
      if bool_decide (a = c) && negb kept then []
      else match l' with
           | b :: l'' => if bool_decide (a = escapeChar_) && bool_decide (b = c)
                         then c :: strip c true l'' else a :: strip c false l'
           | [] => [a]
           end
  end.

Section Strip.
Context (c : ascii) (Hc : c ≠ escapeChar_).

(** No comment starts in [l]; its first character is not looked at when [kept] holds. *)
Definition silent (kept : bool) (l : text) : Prop :=
  c ∉ (if kept then tail l else l).

Lemma silent_first kept a l : silent kept (a :: l) → bool_decide (a = c) && negb kept = false.
Proof using Hc. unfold silent. destruct kept; simpl; [by rewrite andb_false_r|]. intros. rewrite bool_decide_false; [done|set_solver]. Qed.
Lemma silent_rest kept a l : silent kept (a :: l) → silent false l.
Proof using Hc. unfold silent. destruct kept; set_solver. Qed.

Lemma strip_none kept l : silent kept l → strip c kept l = l.
Proof using Hc.
  revert kept. induction l as [|a l IH]; intros kept Hl; [done|]. simpl.
  rewrite (silent_first _ _ _ Hl). apply silent_rest in Hl. destruct l as [|b l]; [done|].
  rewrite (bool_decide_false (b = c)) by (unfold silent in Hl; set_solver).
  rewrite andb_false_r. by rewrite IH.
Qed.

Lemma strip_cut kept l r : silent kept l → (l = [] → kept = false) → last l ≠ Some escapeChar_ →
  strip c kept (l ++ c :: r) = l.
Proof using Hc.
  revert kept. induction l as [|a l IH]; intros kept Hl Hk He.
  { rewrite Hk by done. simpl. by rewrite bool_decide_true. }
  cbn [strip app]. rewrite (silent_first _ _ _ Hl). apply silent_rest in Hl. destruct l as [|b l].
  - cbn [app]. rewrite (bool_decide_false (a = escapeChar_)) by (intros ->; by apply He).
    cbn [andb]. f_equal. simpl. by rewrite bool_decide_true.
  - cbn [app]. rewrite (bool_decide_false (b = c)) by (unfold silent in Hl; set_solver).
    rewrite andb_false_r. f_equal. by apply IH.
Qed.

Lemma strip_escaped kept l r : silent kept l →
  strip c kept (l ++ escapeChar_ :: c :: r) = l ++ c :: strip c true r.
Proof using Hc.
  revert kept. induction l as [|a l IH]; intros kept Hl.
  { simpl. rewrite (bool_decide_false (escapeChar_ = c)) by congruence. by rewrite !bool_decide_true. }
  cbn [strip app]. rewrite (silent_first _ _ _ Hl). apply silent_rest in Hl. destruct l as [|b l].
  - cbn [app]. rewrite (bool_decide_false (escapeChar_ = c)) by congruence. rewrite andb_false_r.
    f_equal. by apply (IH false).
  - cbn [app]. rewrite (bool_decide_false (b = c)) by (unfold silent in Hl; set_solver).
    rewrite andb_false_r. f_equal. by apply IH.
Qed.

(** A turn of the loop, from the position after [p]. *)
Lemma remove_prefix_none fuel p r : c ∉ r → remove_prefix (S fuel) [c] (p ++ r) (length p) = Some (p ++ r).
Proof using Hc.
  intros Hr. cbn [remove_prefix]. pose proof (find_char_after p r c) as Hfind. destruct (find _ _ _); [|done].
  destruct Hfind as (r1 & r2 & -> & _). set_solver.
Qed.

Lemma find_here p r1 r2 : c ∉ r1 → find (p ++ r1 ++ c :: r2) [c] (length p) = Some (length (p ++ r1)).
Proof using Hc.
  intros Hr. unfold find. rewrite decide_True by (rewrite length_app; lia). rewrite drop_app_length, length_app.
  assert (find_first [c] (r1 ++ c :: r2) = Some (length r1)) as ->; [|done].
  apply find_first_char_Some. exists r2. rewrite take_app_length, length_app. simpl. split_and!; [done..|lia].
Qed.

Lemma remove_prefix_cut fuel p r1 r2 : c ∉ r1 → last (p ++ r1) ≠ Some escapeChar_ →
  remove_prefix (S fuel) [c] (p ++ r1 ++ c :: r2) (length p) = Some (p ++ r1).
Proof using Hc.
  intros Hr He. cbn [remove_prefix]. rewrite find_here by done. rewrite app_assoc.
  assert (bool_decide (length (p ++ r1) = 0)
    || negb (bool_decide (((p ++ r1) ++ c :: r2) !! (length (p ++ r1) - 1) = Some escapeChar_)) = true) as ->;
    [|by rewrite take_app_length].
  case_bool_decide; [done|]. simpl. rewrite bool_decide_false; [done|].
  rewrite lookup_app_l by lia. rewrite last_lookup in He. by replace (pred _) with (length (p ++ r1) - 1) in He by lia.
Qed.

Lemma remove_prefix_escaped fuel p r1 r2 z : c ∉ r1 → p ++ r1 = z ++ [escapeChar_] →
  remove_prefix (S fuel) [c] (p ++ r1 ++ c :: r2) (length p)
  = remove_prefix fuel [c] (z ++ c :: r2) (length z + 2).
Proof using Hc.
  intros Hr He. cbn [remove_prefix]. rewrite find_here by done. rewrite app_assoc, He, <- app_assoc. cbn [app].
  rewrite !length_app. cbn [length]. replace (length z + 1 - 1) with (length z) by lia.
  rewrite (bool_decide_false (_ = 0)) by lia. rewrite list_lookup_middle by done. rewrite bool_decide_true by done.
  cbn [orb negb]. rewrite delete_middle. f_equal. lia.
Qed.

(** After a part of the line it has looked at and one character it skips. *)
Lemma remove_prefix_after fuel done d l : length l < fuel →
  remove_prefix fuel [c] (done ++ d :: l) (length done + 1) = Some (done ++ strip c true (d :: l)).
Proof using Hc.
  revert done d l. induction fuel as [|fuel IH]; intros done d l Hf; [lia|].
  assert (∀ l, done ++ d :: l = (done ++ [d]) ++ l) as Hd by (intros l'; by rewrite <- app_assoc).
  replace (length done + 1) with (length (done ++ [d])) by (rewrite length_app; simpl; lia).
  destruct (decide (c ∈ l)) as [Hl|Hl].
  - apply list_elem_of_split_l in Hl as (r1 & r2 & -> & Hr). rewrite Hd.
    destruct (decide (last (d :: r1) = Some escapeChar_)) as [He|He].
    + apply last_Some in He as (y & Hy). rewrite (remove_prefix_escaped _ _ _ _ (done ++ y)); [|done|].
      2:{ by rewrite <- Hd, Hy, <- app_assoc. }
      change (d :: r1 ++ c :: r2) with ((d :: r1) ++ c :: r2). rewrite Hy, <- !app_assoc. cbn [app].
      assert (silent true y) as Hs.
      { unfold silent. destruct y as [|a y]; [set_solver|]. simplify_eq/=. set_solver. }
      rewrite strip_escaped by done. rewrite (app_assoc done). destruct r2 as [|d' r2].
      * rewrite length_app in Hf. simpl in Hf. destruct fuel; [lia|]. cbn [remove_prefix].
        unfold find. rewrite decide_False by (rewrite !length_app; simpl; lia). by rewrite <- app_assoc.
      * replace ((done ++ y) ++ c :: d' :: r2) with (((done ++ y) ++ [c]) ++ d' :: r2) by (by rewrite <- (app_assoc _ [c])).
        replace (length (done ++ y) + 2) with (length ((done ++ y) ++ [c]) + 1) by (rewrite (length_app _ [c]); simpl; lia).
        rewrite IH by (rewrite length_app in Hf; simpl in Hf; lia). by rewrite <- !app_assoc.
    + rewrite remove_prefix_cut; [|done|by rewrite <- Hd, last_app_cons]. rewrite <- Hd.
      change (d :: r1 ++ c :: r2) with ((d :: r1) ++ c :: r2). by rewrite strip_cut.
  - rewrite Hd, remove_prefix_none by done. rewrite strip_none; [by rewrite <- Hd|done].
Qed.

Lemma remove_prefix_strip fuel l : length l < fuel → remove_prefix fuel [c] l 0 = Some (strip c false l).
Proof using Hc.
  destruct fuel as [|fuel]; [lia|]. intros Hf.
  destruct (decide (c ∈ l)) as [Hl|Hl].
  - apply list_elem_of_split_l in Hl as (r1 & r2 & -> & Hr). rewrite length_app in Hf. simpl in Hf.
    destruct (decide (last r1 = Some escapeChar_)) as [He|He].
    + apply last_Some in He as (y & ->). etrans; [by apply (remove_prefix_escaped fuel [] (y ++ [escapeChar_]) r2 y)|].
      rewrite <- app_assoc. cbn [app]. rewrite strip_escaped by (unfold silent; set_solver).
      rewrite length_app in Hf. simpl in Hf. destruct r2 as [|d' r2].
      * destruct fuel; [lia|]. cbn [remove_prefix]. unfold find.
        by rewrite decide_False by (rewrite !length_app; simpl; lia).
      * replace (y ++ c :: d' :: r2) with ((y ++ [c]) ++ d' :: r2) by (by rewrite <- app_assoc).
        replace (length y + 2) with (length (y ++ [c]) + 1) by (rewrite length_app; simpl; lia).
        rewrite remove_prefix_after by (simpl in Hf; lia). by rewrite <- app_assoc.
    + etrans; [by apply (remove_prefix_cut fuel [] r1 r2)|]. by rewrite strip_cut.
  - etrans; [by apply (remove_prefix_none fuel [] l)|]. by rewrite strip_none.
Qed.

End Strip.

(** The fuel of the loops is enough. *)
Lemma removeComments_spec l : removeComments l = strip ";" false (strip "#" false l).
Proof.
  unfold removeComments, commentPrefixes_. cbn [foldl]. change (lit "#") with (["#"%char]). change (lit ";") with ([";"%char]).
  rewrite remove_prefix_strip by (done || lia). cbn [default from_option]. by rewrite remove_prefix_strip by (done || lia).
Qed.

(** The text with the escape character before each [c]. *)
Definition escape (c : ascii) (l : text) : text :=
  mjoin ((λ a, if decide (a = c) then [escapeChar_; a] else [a]) <$> l).
Definition protect (l : text) : text := escape "#" (escape ";" l).

Lemma strip_escape c kept l : c ≠ escapeChar_ → strip c kept (escape c l) = l.
Proof.
  intros Hc. unfold escape. revert kept. induction l as [|a l IH]; intros kept; [done|].
  rewrite fmap_cons. cbn [mjoin list_join]. case_decide as Ha.
  - subst a. cbn [app strip]. rewrite (bool_decide_false (escapeChar_ = c)) by congruence.
    rewrite !bool_decide_true by done. simpl. f_equal. apply IH.
  - cbn [app strip]. rewrite (bool_decide_false (a = c)) by done. cbn [andb].
    rewrite <- (IH false) at 2. destruct l as [|b l]; [done|]. rewrite fmap_cons. cbn [mjoin list_join].
    case_decide as Hb; cbn [app].
    + rewrite (bool_decide_false (escapeChar_ = c)) by congruence. by rewrite andb_false_r.
    + rewrite (bool_decide_false (b = c)) by done. by rewrite andb_false_r.
Qed.

Lemma removeComments_protect l : removeComments (protect l) = l.
Proof. rewrite removeComments_spec. unfold protect. by rewrite !strip_escape. Qed.

Lemma elem_of_escape b c l : b ∈ escape c l → b = escapeChar_ ∨ b ∈ l.
Proof.
  unfold escape. intros (l' & Hb & Hl)%list_elem_of_join. apply list_elem_of_fmap in Hl as (a & -> & Ha).
  case_decide; set_solver.
Qed.

(** ** What a line says *)

Inductive entry :=
  | Section (name : text)
  | Assignment (key value : text).

(** The grammar of a line without its comment and the spaces around it. *)
Inductive says : text → option entry → Prop :=
  | says_nothing : says [] None
  | says_section name rest : "]"%char ∉ name → trim name ≠ [] →
      says (("["%char :: name) ++ "]"%char :: rest) (Some (Section (trim name)))
  | says_assignment key value : head (key ++ [fieldSep_]) ≠ Some "["%char → fieldSep_ ∉ key → trim key ≠ [] →
      says (key ++ fieldSep_ :: value) (Some (Assignment (trim key) (trim value))).
Definition line_says (raw : text) : option entry → Prop :=
  says (trim (strip ";" false (strip "#" false raw))).

(** What the lines read so far amount to: the section that is open, the one that
relative names start from, the sections named and the assignments with their lines. *)
Record reading := Reading {
  section_open : text;
  section_base : text;
  named : list text;
  assigned : list (text * text * text * nat);
}.
Definition nothing_read : reading := Reading [] [] [] [].
(** A name that starts with a dot is relative. *)
Definition qualify (base name : text) : text * text :=
  match name with
  | a :: rest => if decide (a = "."%char) then (match base with [] => rest | _ :: _ => base ++ name end, base)
                 else (name, name)
  | [] => (name, name)
  end.
Definition section_assigned (r : reading) : text :=
  match section_open r with [] => lit "global" | _ :: _ => section_open r end.
Definition read_entry (n : nat) (e : option entry) (r : reading) : reading :=
  match e with
  | None => r
  | Some (Section name) =>
      let '(s, base) := qualify (section_base r) name in Reading s base (named r ++ [s]) (assigned r)
  | Some (Assignment k v) =>
      let s := section_assigned r in
      Reading s (section_base r) (named r ++ [s]) (assigned r ++ [(s, k, v, n)])
  end.
(** After [n] lines. *)
Fixpoint read_entries (n : nat) (es : list (option entry)) (r : reading) : reading :=
  match es with
  | [] => r
  | e :: es => read_entries (S n) es (read_entry (S n) e r)
  end.
Definition place_of (a : text * text * text * nat) : text * text := a.1.1.

(** [sections] and [lineTracker] hold what was read. *)
Record agrees (p : parser) (r : reading) : Prop := {
  agrees_current : currentSection p = section_open r;
  agrees_base : lastNonRelativeSection p = section_base r;
  agrees_named s : is_Some (sections p !! s) ↔ s ∈ named r;
  agrees_values s k v : lookup2 (sections p) s k = Some v ↔ ∃ n, (s, k, v, n) ∈ assigned r;
  agrees_lines s k v n : (s, k, v, n) ∈ assigned r → lookup2 (lineTracker p) s k = Some n;
  agrees_once : NoDup (place_of <$> assigned r);
}.

(** What makes a line an error after what was read. *)
Inductive faulty (raw : text) (r : reading) (n : nat) : ini_error → Prop :=
  | faulty_section l : trim (strip ";" false (strip "#" false raw)) = "["%char :: l → "]"%char ∉ l →
      faulty raw r n (section_not_closed n)
  | faulty_name name rest : trim (strip ";" false (strip "#" false raw)) = ("["%char :: name) ++ "]"%char :: rest →
      "]"%char ∉ name → trim name = [] → faulty raw r n (empty_section_name n)
  | faulty_separator a l : trim (strip ";" false (strip "#" false raw)) = a :: l → a ≠ "["%char →
      fieldSep_ ∉ a :: l → faulty raw r n (no_separator n)
  | faulty_key key value : trim (strip ";" false (strip "#" false raw)) = key ++ fieldSep_ :: value →
      head (key ++ [fieldSep_]) ≠ Some "["%char → fieldSep_ ∉ key → trim key = [] →
      faulty raw r n (empty_key n)
  | faulty_twice k v n0 old : line_says raw (Some (Assignment k v)) →
      (section_assigned r, k, old, n0) ∈ assigned r →
      faulty raw r n (already_assigned k (section_assigned r) n0 old v n).

(** ** What [decode] does with a line *)

Lemma lookup2_insert2 {A} (m : gmap text (gmap text A)) s k a s' k' :
  lookup2 (insert2 m s k a) s' k' = if decide (s = s' ∧ k = k') then Some a else lookup2 m s' k'.
Proof.
  unfold lookup2, insert2. destruct (decide (s = s')) as [<-|Hs].
  - rewrite lookup_insert_eq. simpl. destruct (decide (k = k')) as [<-|Hk].
    + rewrite lookup_insert_eq. by rewrite decide_True.
    + rewrite lookup_insert_ne by done. rewrite decide_False by naive_solver. by destruct (m !! s).
  - rewrite lookup_insert_ne by done. by rewrite decide_False by naive_solver.
Qed.

Lemma lookup2_insert_empty {A} (m : gmap text (gmap text A)) s s' k :
  s ≠ s' ∨ m !! s = None → lookup2 (<[s := ∅]> m) s' k = lookup2 m s' k.
Proof.
  unfold lookup2. destruct (decide (s = s')) as [<-|Hs].
  - rewrite lookup_insert_eq. intros [|Hm]; [done|]. by rewrite Hm.
  - by rewrite lookup_insert_ne by done.
Qed.

Lemma agrees_enter p r s b :
  agrees p r → agrees (enter s b p) (Reading s b (named r ++ [s]) (assigned r)).
Proof.
  intros [_ _ Hn Hv Hl Ho]. unfold enter, find_or_add_section. cbn [sections currentSection lineTracker].
  destruct (sections p !! s) eqn:Hs; constructor; cbn [sections currentSection lineTracker named assigned
    lastNonRelativeSection section_open section_base]; try done.
  - intros s'. rewrite Hn. assert (s ∈ named r) by (apply Hn; eauto). set_solver.
  - intros s'. destruct (decide (s = s')) as [<-|Hne].
    + rewrite lookup_insert_eq. split; [set_solver|eauto].
    + rewrite lookup_insert_ne, Hn by done. set_solver.
  - intros s' k v. rewrite lookup2_insert_empty by auto. apply Hv.
  - intros s' k v n Ha. assert (lookup2 (sections p) s' k = Some v) as Hv' by (apply Hv; eauto).
    rewrite lookup2_insert_empty; [eauto|]. left. intros ->. unfold lookup2 in Hv'. by rewrite Hs in Hv'.
Qed.

Lemma agrees_at_line p r n : agrees p r →
  agrees (Parser (sections p) (lineTracker p) (currentSection p) (lastNonRelativeSection p) n) r.
Proof. intros []. by constructor. Qed.

Lemma agrees_assign p r k v n :
  agrees p r → section_open r ∈ named r → lookup2 (sections p) (section_open r) k = None →
  agrees (Parser (insert2 (sections p) (section_open r) k v) (insert2 (lineTracker p) (section_open r) k n)
                 (section_open r) (section_base r) n)
         (Reading (section_open r) (section_base r) (named r)
                  (assigned r ++ [(section_open r, k, v, n)])).
Proof.
  intros [_ _ Hn Hv Hl Ho] Hs Hk. set (s := section_open r) in *.
  assert (∀ v' n', (s, k, v', n') ∉ assigned r) as Hfresh.
  { intros v' n' Ha. assert (lookup2 (sections p) s k = Some v') by (apply Hv; eauto). congruence. }
  constructor; cbn; try done.
  - intros s'. unfold insert2. destruct (decide (s = s')) as [<-|]; [rewrite lookup_insert_eq; naive_solver|].
    by rewrite lookup_insert_ne.
  - intros s' k' v'. rewrite lookup2_insert2. setoid_rewrite elem_of_app. setoid_rewrite list_elem_of_singleton.
    case_decide as Hd; [destruct Hd as [<- <-]; naive_solver|]. rewrite Hv. naive_solver.
  - intros s' k' v' n' [Ha|Ha%list_elem_of_singleton]%elem_of_app; rewrite lookup2_insert2.
    + rewrite decide_False; [by eapply Hl|]. intros [<- <-]. naive_solver.
    + simplify_eq. by rewrite decide_True.
  - rewrite fmap_app. apply NoDup_app. split_and!; [done| |apply NoDup_singleton].
    intros [s' k'] Ha. cbn. rewrite list_elem_of_singleton. intros [= -> ->].
    apply list_elem_of_fmap in Ha as ([[[? ?] v'] n'] & [= <- <-] & Ha). naive_solver.
Qed.

Lemma enter_line s b p : lineNo (enter s b p) = lineNo p.
Proof. unfold enter, find_or_add_section. cbn. by destruct (_ !! _). Qed.

Lemma agrees_qualify p r n name s b :
  agrees p r → qualify (section_base r) name = (s, b) →
  agrees (enter s b p) (read_entry n (Some (Section name)) r).
Proof. intros Hp Hq. cbn [read_entry]. rewrite Hq. by apply agrees_enter. Qed.

Lemma decode_section_spec p r l :
  agrees p r → match decode_section ("["%char :: l) p with
  | inl err => (err = section_not_closed (lineNo p) ∧ "]"%char ∉ l)
      ∨ ∃ name rest, l = name ++ "]"%char :: rest ∧ ("]"%char ∉ name) ∧ trim name = [] ∧ err = empty_section_name (lineNo p)
  | inr p' => lineNo p' = lineNo p ∧ ∃ name rest, l = name ++ "]"%char :: rest ∧ ("]"%char ∉ name) ∧ trim name ≠ []
      ∧ agrees p' (read_entry (lineNo p) (Some (Section (trim name))) r)
  end.
Proof.
  intros Hp. unfold decode_section. change (lit "]") with (["]"%char]).
  pose proof (find_char_split ("["%char :: l) "]") as Hf. destruct (find _ _ _) as [i|]; [|left; set_solver].
  destruct Hf as (s1 & s2 & Hl & Hs1 & ->). destruct s1 as [|a name]; [done|]. injection Hl as <- ->.
  cbn [length drop]. rewrite drop_0. replace (take (S (length name) - 1) (name ++ "]"%char :: s2)) with name
    by (by rewrite Nat.sub_1_r, Nat.pred_succ, take_app_length).
  assert ("]"%char ∉ name) as Hn by set_solver.
  destruct (trim name) as [|front rest] eqn:Ht; cbn iota; [right; by exists name, s2|].
  rewrite <- Ht. rewrite (agrees_base _ _ Hp).
  assert (∀ s b, qualify (section_base r) (trim name) = (s, b) →
    lineNo (enter s b p) = lineNo p ∧ ∃ name0 rest0, name ++ "]"%char :: s2 = name0 ++ "]"%char :: rest0
      ∧ ("]"%char ∉ name0) ∧ trim name0 ≠ []
      ∧ agrees (enter s b p) (read_entry (lineNo p) (Some (Section (trim name0))) r)) as Hdone.
  { intros s b Hq. split; [apply enter_line|]. exists name, s2. split_and!; [done..|by rewrite Ht|].
    by apply agrees_qualify. }
  rewrite Ht in *. unfold qualify in Hdone.
  case_decide; [destruct (section_base r) eqn:Hb|]; by apply Hdone.
Qed.

Lemma enter_here s b p : currentSection (enter s b p) = s ∧ lastNonRelativeSection (enter s b p) = b.
Proof. unfold enter, find_or_add_section. cbn. by destruct (_ !! _). Qed.

Lemma decode_assignment_spec p r line :
  agrees p r → match decode_assignment line p with
  | inl err =>
      (err = no_separator (lineNo p) ∧ fieldSep_ ∉ line)
      ∨ (∃ key value, line = key ++ fieldSep_ :: value ∧ (fieldSep_ ∉ key) ∧ trim key = [] ∧ err = empty_key (lineNo p))
      ∨ (∃ key value n0 old, line = key ++ fieldSep_ :: value ∧ (fieldSep_ ∉ key) ∧ trim key ≠ []
          ∧ (section_assigned r, trim key, old, n0) ∈ assigned r
          ∧ err = already_assigned (trim key) (section_assigned r) n0 old (trim value) (lineNo p))
  | inr p' => lineNo p' = lineNo p ∧ ∃ key value, line = key ++ fieldSep_ :: value ∧ (fieldSep_ ∉ key) ∧ trim key ≠ []
      ∧ agrees p' (read_entry (lineNo p) (Some (Assignment (trim key) (trim value))) r)
  end.
Proof.
  intros Hp. unfold decode_assignment. pose proof (find_char_split line fieldSep_) as Hf.
  destruct (find _ _ _) as [i|]; [|by left]. destruct Hf as (key & value & -> & Hk & ->).
  rewrite take_app_length. replace (drop (length key + 1) (key ++ fieldSep_ :: value)) with value
    by (by rewrite drop_app_add').
  destruct (trim key) as [|a rest] eqn:Ht; cbn iota; [right; left; by exists key, value|].
  set (p1 := match currentSection p with [] => _ | _ => _ end).
  assert (p1 = enter (section_assigned r) (section_base r) p) as ->.
  { unfold p1, section_assigned. rewrite <- (agrees_current _ _ Hp), <- (agrees_base _ _ Hp).
    destruct (currentSection p) eqn:Hc; [done|]. rewrite <- Hc. unfold enter. by destruct p. }
  pose proof (agrees_enter p r (section_assigned r) (section_base r) Hp) as Hp1.
  destruct (enter_here (section_assigned r) (section_base r) p) as [Hs Hb]. rewrite Hs, Hb, enter_line.
  destruct (lookup2 (sections _) _ _) as [old|] eqn:Hold.
  - right; right. pose proof Hold as (n0 & Ha)%(agrees_values _ _ Hp1).
    exists key, value, n0, old. rewrite Ht. split_and!; [done..|].
    by rewrite (agrees_lines _ _ Hp1 _ _ _ _ Ha).
  - split; [done|]. exists key, value. rewrite Ht. split_and!; [done..|].
    apply (agrees_assign _ _ _ (trim value) (lineNo p) Hp1); [cbn; set_solver|done].
Qed.

Lemma decode_line_spec p r raw : agrees p r →
  match decode_line raw p with
  | inl err => faulty raw r (S (lineNo p)) err
  | inr p' => lineNo p' = S (lineNo p)
      ∧ ∃ e, line_says raw e ∧ agrees p' (read_entry (S (lineNo p)) e r)
  end.
Proof.
  intros Hp. apply (agrees_at_line _ _ (S (lineNo p))) in Hp. unfold decode_line. rewrite removeComments_spec.
  set (p0 := Parser _ _ _ _ _) in *. unfold line_says.
  destruct (trim (strip ";" false (strip "#" false raw))) as [|front l] eqn:Hl.
  { split; [done|]. exists None. split; [constructor|done]. }
  case_decide as Hf.
  - subst front. pose proof (decode_section_spec p0 r l Hp) as Hd. destruct (decode_section _ _) as [err|p'].
    + destruct Hd as [[-> Hn]|(name & rest & -> & Hn & Ht & ->)]; [by eapply faulty_section|].
      by eapply faulty_name.
    + destruct Hd as (Hline & name & rest & -> & Hn & Ht & Hag). split; [done|].
      exists (Some (Section (trim name))). split; [|done]. by constructor.
  - assert (∀ key value, front :: l = key ++ fieldSep_ :: value → head (key ++ [fieldSep_]) ≠ Some "["%char) as Hh.
    { intros key value Hkv. destruct key; simplify_eq/=; congruence. }
    pose proof (decode_assignment_spec p0 r (front :: l) Hp) as Hd. destruct (decode_assignment _ _) as [err|p'].
    + destruct Hd as [[-> Hn]|[(k & v & Hkv & Hn & Ht & ->)|(k & v & n0 & old & Hkv & Hn & Ht & Ha & ->)]].
      * exact (faulty_separator _ _ _ front l Hl Hf Hn).
      * eapply faulty_key; [by rewrite Hl|eauto..].
      * apply faulty_twice; [|done]. unfold line_says. rewrite Hl, Hkv. constructor; eauto.
    + destruct Hd as (Hline & k & v & Hkv & Hn & Ht & Hag). split; [done|].
      exists (Some (Assignment (trim k) (trim v))). split; [|done]. rewrite Hkv. constructor; eauto.
Qed.

Lemma decode_lines_spec ls p r : agrees p r →
  match decode_lines ls p with
  | inl err => ∃ before raw after es, ls = before ++ raw :: after ∧ Forall2 line_says before es
      ∧ NoDup (place_of <$> assigned (read_entries (lineNo p) es r)) ∧ faulty raw (read_entries (lineNo p) es r) (lineNo p + S (length before)) err
  | inr p' => ∃ es, Forall2 line_says ls es ∧ agrees p' (read_entries (lineNo p) es r)
  end.
Proof.
  revert p r. induction ls as [|l ls IH]; intros p r Hp; simpl; [by exists []|].
  pose proof (decode_line_spec p r l Hp) as Hl. destruct (decode_line l p) as [err|p'].
  - exists [], l, ls, []. split_and!; [done|constructor|apply Hp|]. simpl. by rewrite Nat.add_1_r.
  - destruct Hl as (Hline & e & He & Hp'). specialize (IH p' _ Hp'). destruct (decode_lines ls p') as [err|p''].
    + destruct IH as (before & raw & after & es & -> & Hes & Hnd & Hf). exists (l :: before), raw, after, (e :: es).
      rewrite Hline in Hnd, Hf. split_and!; [done|by constructor|done|]. simpl.
      replace (lineNo p + S (S (length before))) with (S (lineNo p) + S (length before)) by lia. done.
    + destruct IH as (es & Hes & Hag). exists (e :: es). split; [by constructor|]. simpl. by rewrite Hline in Hag.
Qed.

Lemma agrees_nothing : agrees empty_parser nothing_read.
Proof.
  constructor; cbn; try done.
  - intros s. rewrite lookup_empty. split; [by intros []|set_solver].
  - intros s k v. unfold lookup2. rewrite lookup_empty. split; [done|set_solver].
  - set_solver.
  - constructor.
Qed.

Lemma split_char_unique c (k1 v1 k2 v2 : text) :
  c ∉ k1 → c ∉ k2 → k1 ++ c :: v1 = k2 ++ c :: v2 → k1 = k2 ∧ v1 = v2.
Proof.
  intros H1 H2 Heq. assert (length k1 = length k2) as Hlen.
  { apply (f_equal (λ s, find s [c] 0)) in Heq. rewrite !find_char_here in Heq by done. by simplify_eq. }
  apply app_inj_1 in Heq as [-> Heq]; [|done]. by simplify_eq.
Qed.

(** The first character tells sections from assignments. *)
Lemma says_bracket l e : says ("["%char :: l) e ↔
  ∃ name rest, l = name ++ "]"%char :: rest ∧ ("]"%char ∉ name) ∧ trim name ≠ [] ∧ e = Some (Section (trim name)).
Proof.
  split.
  - inversion 1 as [|name rest Hn Ht|k v Hh Hk Ht Heq]; subst; [by eauto 10|].
    destruct k as [|a k]; [discriminate Heq|]. injection Heq as -> _. by destruct Hh.
  - intros (name & rest & -> & Hn & Ht & ->). by apply says_section.
Qed.

Lemma says_field k v e : head (k ++ [fieldSep_]) ≠ Some "["%char → fieldSep_ ∉ k →
  says (k ++ fieldSep_ :: v) e ↔ trim k ≠ [] ∧ e = Some (Assignment (trim k) (trim v)).
Proof.
  intros Hh Hk. split; [|intros [Ht ->]; by constructor].
  remember (k ++ fieldSep_ :: v) as l eqn:Hl. intros Hs. revert Hl.
  destruct Hs as [|name rest Hn Ht|k' v' Hh' Hk' Ht]; intros Hl.
  - by destruct k.
  - destruct k as [|a k]; [discriminate Hl|]. injection Hl as <- _. by destruct Hh.
  - by apply split_char_unique in Hl as [-> ->].
Qed.

Lemma says_unique l e1 e2 : says l e1 → says l e2 → e1 = e2.
Proof.
  intros [|name rest Hn Ht|k v Hh Hk Ht] He.
  - inversion He as [|name|k v Hh Hk Ht Heq]; [done|]. by destruct k.
  - apply says_bracket in He as (name' & rest' & Heq & Hn' & _ & ->).
    by apply split_char_unique in Heq as [-> _].
  - by apply says_field in He as [_ ->].
Qed.

Lemma all_say_unique ls es1 es2 : Forall2 line_says ls es1 → Forall2 line_says ls es2 → es1 = es2.
Proof.
  intros H1. revert es2. induction H1 as [|l e ls es Hl _ IH]; intros es2 H2.
  - by apply Forall2_nil_inv_l in H2.
  - apply Forall2_cons_inv_l in H2 as (e' & es' & He & Hes & ->). f_equal; [|by apply IH].
    by eapply says_unique.
Qed.

Lemma faulty_silent raw r n err e : faulty raw r n err → line_says raw e →
  ∃ k v n0 old, e = Some (Assignment k v) ∧ (section_assigned r, k, old, n0) ∈ assigned r.
Proof.
  unfold line_says. intros [l Hl Hn|name rest Hl Hn Ht|a l Hl Ha Hn|key value Hl Hh Hn Ht|k v n0 old Hs Ha] He;
    rewrite ?Hl in He.
  - apply says_bracket in He as (name & rest & -> & _). set_solver.
  - apply says_bracket in He as (name' & rest' & Heq & Hn' & Ht' & _).
    by apply split_char_unique in Heq as [<- _].
  - inversion He as [|name' rest'|k' v' Hh' Hk' Ht' Heq]; subst; [done|].
    rewrite <- Heq in Hn. set_solver.
  - by apply says_field in He as [? _].
  - exists k, v, n0, old. split; [|done]. by eapply says_unique.
Qed.

Lemma assigned_mono n es r : assigned r `prefix_of` assigned (read_entries n es r).
Proof.
  revert n r. induction es as [|e es IH]; intros n r; simpl; [done|]. etrans; [|apply IH].
  destruct e as [[name|k v]|]; simpl; [|by apply prefix_app_r|done].
  by destruct (qualify _ _).
Qed.

Lemma read_entries_app n es1 es2 r :
  read_entries n (es1 ++ es2) r = read_entries (n + length es1) es2 (read_entries n es1 r).
Proof.
  revert n r. induction es1 as [|e es1 IH]; intros n r; simpl; [by rewrite Nat.add_0_r|].
  rewrite IH. by rewrite <- Nat.add_succ_comm.
Qed.

(** The sections and the assignments of the lines [es]. *)
Definition reading_of (es : list (option entry)) : reading := read_entries 0 es nothing_read.
Definition holds (m : gmap text (gmap text text)) (r : reading) : Prop :=
  (∀ s, is_Some (m !! s) ↔ s ∈ named r) ∧
  (∀ s k v, lookup2 m s k = Some v ↔ ∃ n, (s, k, v, n) ∈ assigned r).

Lemma holds_unique m1 m2 r : holds m1 r → holds m2 r → m1 = m2.
Proof.
  intros [Hn1 Hv1] [Hn2 Hv2]. apply map_eq. intros s.
  destruct (m1 !! s) as [k1|] eqn:H1, (m2 !! s) as [k2|] eqn:H2; [f_equal| | |done].
  - apply map_eq. intros k. apply option_eq. intros v.
    pose proof (Hv1 s k v) as Hk1. pose proof (Hv2 s k v) as Hk2. unfold lookup2 in *.
    rewrite H1 in Hk1. rewrite H2 in Hk2. simpl in *. by rewrite Hk1, Hk2.
  - assert (is_Some (m2 !! s)) as [? ?] by (apply Hn2, Hn1; eauto). congruence.
  - assert (is_Some (m1 !! s)) as [? ?] by (apply Hn1, Hn2; eauto). congruence.
Qed.

Lemma agrees_holds p r : agrees p r → holds (sections p) r.
Proof. intros []. by split. Qed.

Lemma decode_reads input m : decode input = inr m → ∃ es, Forall2 line_says (getlines input) es
  ∧ NoDup (place_of <$> assigned (reading_of es)) ∧ holds m (reading_of es).
Proof.
  unfold decode. pose proof (decode_lines_spec (getlines input) _ _ agrees_nothing) as Hd.
  destruct (decode_lines _ _) as [|p]; [done|]. intros [= <-]. destruct Hd as (es & Hes & Hag).
  exists es. split_and!; [done|by apply Hag|by apply agrees_holds].
Qed.

Lemma faulty_stops before raw after es1 es n err :
  Forall2 line_says before es1 → faulty raw (reading_of es1) n err → Forall2 line_says (before ++ raw :: after) es →
  ¬ NoDup (place_of <$> assigned (reading_of es)).
Proof.
  intros Hes1 Hf Hes Hnd. apply Forall2_app_inv_l in Hes as (es1' & es2 & Hes1' & Hes2 & ->).
  apply Forall2_cons_inv_l in Hes2 as (e & es2' & He & _ & ->).
  pose proof (all_say_unique _ _ _ Hes1' Hes1) as ->.
  destruct (faulty_silent _ _ _ _ _ Hf He) as (k & v & n0 & old & -> & Ha).
  revert Hnd. unfold reading_of. rewrite read_entries_app, Nat.add_0_l. cbn [read_entries].
  set (r1 := read_entries 0 es1 nothing_read) in *. intros Hnd.
  destruct (assigned_mono (S (length es1)) es2' (read_entry (S (length es1)) (Some (Assignment k v)) r1)) as [rest Hr].
  rewrite Hr, fmap_app, NoDup_app in Hnd. destruct Hnd as [Hnd _]. cbn [read_entry assigned] in Hnd.
  rewrite fmap_app, NoDup_app in Hnd. destruct Hnd as (_ & Hno & _). apply (Hno (section_assigned r1, k)).
  - by apply (list_elem_of_fmap_2 place_of _ (section_assigned r1, k, old, n0)).
  - cbn. by apply list_elem_of_singleton.
Qed.

(** No error on lines that say something when no key is assigned twice. *)
Lemma decode_accepts input es : Forall2 line_says (getlines input) es →
  NoDup (place_of <$> assigned (reading_of es)) → ∃ m, decode input = inr m ∧ holds m (reading_of es).
Proof.
  intros Hes Hnd. destruct (decode input) as [err|m] eqn:Hd.
  - exfalso. unfold decode in Hd. pose proof (decode_lines_spec (getlines input) _ _ agrees_nothing) as Hf.
    destruct (decode_lines _ _) as [|]; [|done].
    destruct Hf as (before & raw & after & es1 & Heq & Hes1 & _ & Hf). rewrite Heq in Hes.
    by eapply faulty_stops.
  - exists m. split; [done|]. apply decode_reads in Hd as (es' & Hes' & _ & Hm).
    by rewrite (all_say_unique _ _ _ Hes Hes').
Qed.

(** C40: the configuration parser accepts exactly the texts of which each line, without
its comment and the spaces around it, is empty, names a section in brackets or assigns
to a key, and no key of a section is assigned twice; it then holds exactly the sections
named and the values assigned, relative names completed. *)
Theorem decode_spec input m :
  decode input = inr m ↔ ∃ es, Forall2 line_says (getlines input) es
    ∧ NoDup (place_of <$> assigned (reading_of es)) ∧ holds m (reading_of es).
Proof.
  split; [apply decode_reads|]. intros (es & Hes & Hnd & Hm).
  destruct (decode_accepts _ _ Hes Hnd) as (m' & -> & Hm'). f_equal. by eapply holds_unique.
Qed.

(** When the parser throws, the error names a line and what is wrong with it (a
section that is not closed or has no name, no separator, no key, a key of the section
that an earlier line assigned, with that line and the value), and every line before it
says something. *)
Theorem decode_faults input err :
  decode input = inl err → ∃ before raw after es, getlines input = before ++ raw :: after
    ∧ Forall2 line_says before es ∧ NoDup (place_of <$> assigned (reading_of es))
    ∧ faulty raw (reading_of es) (S (length before)) err.
Proof.
  unfold decode. pose proof (decode_lines_spec (getlines input) _ _ agrees_nothing) as Hd.
  destruct (decode_lines _ _); [|done]. by intros [= <-].
Qed.

(** ** The text of a document *)

Definition render_entry (e : entry) : text :=
  match e with
  | Section name => protect ("["%char :: name ++ ["]"%char])
  | Assignment k v => protect (k ++ fieldSep_ :: v)
  end.
Definition render (es : list entry) : text := unlines (render_entry <$> es).
(** The entries that a line can hold. *)
Definition writable (e : entry) : Prop :=
  match e with
  | Section name => name ≠ [] ∧ trimmed name ∧ ("]"%char ∉ name) ∧ newline ∉ name
  | Assignment k v => k ≠ [] ∧ trimmed k ∧ trimmed v ∧ (fieldSep_ ∉ k) ∧ head k ≠ Some "["%char
      ∧ (newline ∉ k) ∧ newline ∉ v
  end.
#[export] Instance writable_dec e : Decision (writable e).
Proof. destruct e; simpl; apply _. Defined.

Lemma line_says_protect l e : trimmed l → says l e → line_says (protect l) e.
Proof.
  intros Ht Hs. unfold line_says. rewrite <- removeComments_spec, removeComments_protect.
  by rewrite trim_trimmed.
Qed.

Lemma line_says_render e : writable e → line_says (render_entry e) (Some e).
Proof.
  destruct e as [name|k v]; simpl.
  - intros (Hne & Ht & Hb & _). apply line_says_protect.
    + split; [by intros a [= <-]|]. intros a. change ("["%char :: name ++ ["]"%char]) with (("["%char :: name) ++ ["]"%char]).
      rewrite last_snoc. by intros [= <-].
    + rewrite <- (trim_trimmed name Ht) at 2. apply (says_section name []); [done|]. by rewrite trim_trimmed.
  - intros (Hne & Hk & Hv & Hf & Hh & _). destruct k as [|a k]; [done|]. apply line_says_protect.
    + split; [by apply Hk|]. intros b. rewrite last_app_cons. destruct v as [|c v]; [by intros [= <-]|].
      by apply Hv.
    + rewrite <- (trim_trimmed _ Hk) at 2. rewrite <- (trim_trimmed _ Hv) at 2. constructor; [done..|].
      by rewrite trim_trimmed.
Qed.

Lemma render_no_newline e : writable e → newline ∉ render_entry e.
Proof.
  assert (∀ l, newline ∉ l → newline ∉ protect l) as Hp.
  { intros l Hl [?|[?|?]%elem_of_escape]%elem_of_escape; done. }
  destruct e as [name|k v]; simpl; intros Hw; apply Hp.
  - destruct Hw as (_ & _ & _ & Hn). intros [?|[?|?%list_elem_of_singleton]%elem_of_app]%elem_of_cons; done.
  - destruct Hw as (_ & _ & _ & _ & _ & Hk & Hv). intros [?|[?|?]%elem_of_cons]%elem_of_app; done.
Qed.

(** A document of sections and assignments, written one to a line with the comment
characters escaped, is read back: the parser holds its sections and the values it
assigns. *)
Theorem decode_render es :
  Forall writable es → NoDup (place_of <$> assigned (reading_of (Some <$> es))) →
  ∃ m, decode (render es) = inr m ∧ holds m (reading_of (Some <$> es)).
Proof.
  intros Hw Hnd. assert (getlines (render es) = render_entry <$> es) as Hls.
  { apply getlines_unlines, Forall_fmap. eapply Forall_impl; [exact Hw|]. exact render_no_newline. }
  assert (Forall2 line_says (getlines (render es)) (Some <$> es)) as Hes.
  { rewrite Hls. clear Hnd Hls. induction Hw; constructor; auto using line_says_render. }
  exact (decode_accepts _ _ Hes Hnd).
Qed.

(** A comment character next to an escaped one does not start a comment. *)
Example second_prefix_kept : removeComments (lit "a\##b") = lit "a##b".
Proof. vm_compute. reflexivity. Qed.
(** A section whose name is empty, after its dot. *)
Example nameless_section : ∃ m, decode (lit "[.]") = inr m ∧ m !! ([] : text) = Some ∅.
Proof. eexists. split; vm_compute; reflexivity. Qed.

End Ini.
