(* ===== verification/Logging.v ===== *)
(** * Logging

The filters ([log/filter.hpp], [log/filter.cpp]), the controller that writes the records
([log/log_control.hpp], [log/logger.cpp]) and the streams of the loggers
([log/logger.hpp]); [mcmini_log] of libmcmini ([lib/log.c]).  The regular expressions
of the standard library are a parameter. *)

From stdpp Require Import gmap strings list pretty.
From Stdlib Require Import Ascii.
From stdpp Require Import options.
From S2P Require Import Prelude CommandLine Text.

Module Logger.

(** ** Severity *)

#[export] Instance severity_level_eq_dec : EqDecision severity_level.
Proof. solve_decision. Defined.

(** The value of the enumerator. *)
Definition level (s : severity_level) : N :=
  match s with
  | nothing => 0 | very_verbose => 1 | verbose => 2 | debug => 3 | info => 4
  | unexpected => 5 | error => 6 | critical => 7 | abort => 8 | everything => 9
  end.
Definition log_level_strs (s : severity_level) : text :=
  match s with
  | nothing => lit "NOTHING" | very_verbose => lit "VERY_VERBOSE" | verbose => lit "VERBOSE"
  | debug => lit "DEBUG" | info => lit "INFO" | unexpected => lit "UNEXPECTED" | error => lit "ERROR"
  | critical => lit "CRITICAL" | abort => lit "ABORT" | everything => lit "EVERYTHING"
  end.
Definition max_level (a b : severity_level) : severity_level := if bool_decide (level a < level b)%N then b else a.

(** ** Filters *)

Section Filters.
Context {regex : Type} (regex_match : text → regex → bool).

(** The members every filter inherits. *)
Record subsystems := Subsystems {
  registered_subsystems : gmap text severity_level;
  registered_regexes : list (regex * severity_level);
}.
Inductive filter :=
  | whitelist_filter (s : subsystems)
  | blacklist_filter (s : subsystems)
  | composite_filter (whitelists blacklists : list subsystems)
  | severity_filter (minimum_level : severity_level)
  | permissive_filter.

(** The largest level of an expression that matches. *)
Definition most (subsystem : text) (l : list (regex * severity_level)) : severity_level :=
  foldl (λ m pair, if regex_match subsystem pair.1 then max_level m pair.2 else m) nothing l.
Definition whitelist_apply (f : subsystems) (subsystem : text) (log_record_severity : severity_level) : bool :=
  match registered_subsystems f !! subsystem with
  | Some registered => bool_decide (level log_record_severity ≤ level registered)%N
  | None => bool_decide (level log_record_severity ≤ level (most subsystem (registered_regexes f)))%N
  end.
Definition blacklist_apply (f : subsystems) (subsystem : text) (log_record_severity : severity_level) : bool :=
  match registered_subsystems f !! subsystem with
  | Some registered => bool_decide (level registered < level log_record_severity)%N
  | None => bool_decide (level (most subsystem (registered_regexes f)) < level log_record_severity)%N
  end.
Definition apply (f : filter) (subsystem : text) (severity : severity_level) : bool :=
  match f with
  | whitelist_filter s => whitelist_apply s subsystem severity
  | blacklist_filter s => blacklist_apply s subsystem severity
  | composite_filter whitelists blacklists =>
      forallb (λ wl, whitelist_apply wl subsystem severity) whitelists
      && forallb (λ bl, blacklist_apply bl subsystem severity) blacklists
  | severity_filter minimum_level => bool_decide (level minimum_level ≤ level severity)%N
  | permissive_filter => true
  end.
(** The body of this constructor is commented out. *)
Definition composite_filter_of_file (ini_file_path : text) : filter := composite_filter [] [].

(** ** The controller *)

(** [active_filter] and what was written to [std::clog]. *)
Record log_control := LogControl {
  active_filter : option filter;
  written : text;
}.
Definition set_filter (f : filter) (c : log_control) : log_control := LogControl (Some f) (written c).
Definition allow_everything : log_control → log_control := set_filter permissive_filter.
Definition allow_everything_over (l : severity_level) : log_control → log_control := set_filter (severity_filter l).
Definition blacklist (f : subsystems) : log_control → log_control := set_filter (blacklist_filter f).

(** *** The text of a record *)

Definition subsystem_log_size : nat := 5.
Definition file_log_size : nat := 20.
(** After the last slash or backslash. *)
Definition is_separator (a : ascii) : bool := bool_decide (a = "/"%char ∨ a = "\"%char).
Fixpoint filename_from_path (path : text) : text :=
  match path with
  | [] => []
  | a :: rest => if existsb is_separator path
                 then (if existsb is_separator rest then filename_from_path rest
                       else rest)
                 else path
  end.
(** [resize] with a space. *)
Definition resize_text (n : nat) (s : text) : text := take n s ++ replicate (n - length s) " "%char.
(** [std::left << std::setw]. *)
Definition setw (n : nat) (s : text) : text := s ++ replicate (n - length s) " "%char.
(** [std::ceil(std::log10(n))] for a 32-bit [n] that is not 0. *)
Fixpoint ceil_log10_from (fuel : nat) (d power n : N) : N :=
  match fuel with
  | O => d
  | S fuel => if bool_decide (n ≤ power)%N then d else ceil_log10_from fuel (d + 1)%N (10 * power)%N n
  end.
Definition digits (x : N) : N := if bool_decide (x = 0)%N then 1%N else ceil_log10_from 11 0 1 (u32 (x + 1)).
Definition to_text (n : N) : text := lit (pretty n).

(** The arguments of [log_raw]. *)
Record log_record := LogRecord {
  instance_ : text;
  subsystem : text;
  message : text;
  severity : severity_level;
  file : text;
  line : N;
}.
(** [pid] and the time of day are what the system calls gave. *)
Definition log_prefix (pid : N) (time : text) (r : log_record) (subsystem_str : text) : text :=
  let instance_str := match instance_ r with [] => [] | _ :: _ => lit " (" ++ instance_ r ++ lit ") " end in
  let file_str := filename_from_path (file r) ++ lit ":" ++ to_text (line r) in
  lit "[" ++ to_text pid ++ lit "] " ++ resize_text subsystem_log_size subsystem_str ++ lit " "
  ++ instance_str ++ time ++ lit " " ++ setw 5 (log_level_strs (severity r)) ++ lit " "
  ++ resize_text file_log_size file_str ++ lit ": ".
(** The width of the field of a line number: the subtraction and the sum are unsigned. *)
Definition lineno_width (padding lineno : N) : N := u32 (2^32 + padding - digits lineno + 1).
Definition write_line (prefix : text) (padding lineno : N) (l : text) : text :=
  prefix ++ lit "(lineno: " ++ setw (N.to_nat (lineno_width padding lineno)) (to_text lineno)
  ++ setw 1 (lit ") ") ++ l ++ [newline].
Fixpoint write_lines (prefix : text) (padding lineno : N) (ls : list text) : text :=
  match ls with
  | [] => []
  | l :: ls => write_line prefix padding lineno l ++ write_lines prefix padding (u32 (lineno + 1)) ls
  end.
Definition write_message (prefix message : text) : text :=
  match getlines message with
  | [] => []
  | [l] => prefix ++ l ++ [newline]
  | ls => write_lines prefix (digits (u32 (N.of_nat (length ls)))) 0 ls
  end.

(** Whether the record passes the filter, and its text. *)
Definition subsystem_name (r : log_record) : text :=
  match subsystem r with [] => lit "global" | _ :: _ => subsystem r end.
Definition passes (c : log_control) (r : log_record) : bool :=
  match active_filter c with
  | Some f => apply f (subsystem_name r) (severity r)
  | None => true
  end.
Definition log_raw (pid : N) (time : text) (r : log_record) (c : log_control) : log_control :=
  if negb (passes c r) then c
  else LogControl (active_filter c) (written c ++ write_message (log_prefix pid time r (subsystem_name r)) (message r)).

(** ** The streams of a logger *)

(** [logger::stream]; [flushed] are the calls of [logger::log_raw], in order. *)
Record stream := Stream {
  current_severity : severity_level;
  ostream : text;
  flushed : list (text * severity_level);
}.
Definition make_stream : stream := Stream info [] [].
Definition flush (s : stream) : stream :=
  match ostream s with
  | [] => s
  | _ :: _ => Stream (current_severity s) [] (flushed s ++ [(ostream s, current_severity s)])
  end.
Definition put_severity (severity : severity_level) (s : stream) : stream :=
  if bool_decide (severity ≠ current_severity s) then
    let s := flush s in Stream severity (ostream s) (flushed s)
  else s.
Definition put_text (t : text) (s : stream) : stream := Stream (current_severity s) (ostream s ++ t) (flushed s).
(** What is put into a stream with [operator<<] and its destruction. *)
Inductive item := Text (t : text) | Severity (s : severity_level).
Definition put_item (i : item) : stream → stream :=
  match i with Text t => put_text t | Severity s => put_severity s end.
Definition stream_logs (items : list item) : list (text * severity_level) :=
  flushed (flush (foldl (λ s i, put_item i s) make_stream items)).

End Filters.

(** ** Decimal widths *)

Lemma pretty_go_length k x s : (10^N.of_nat k ≤ x < 10^N.of_nat (S k))%N →
  String.length (pretty_N_go x s) = S k + String.length s.
Proof.
  revert x s. induction k as [|k IH]; intros x s Hx; rewrite pretty_N_go_step by lia.
  - change (10^N.of_nat 1)%N with 10%N in Hx. rewrite N.div_small by lia. by rewrite pretty_N_go_0.
  - rewrite IH; [simpl; lia|]. rewrite !Nat2N.inj_succ, !N.pow_succ_r' in *. split.
    + apply N.div_le_lower_bound; lia.
    + apply N.Div0.div_lt_upper_bound. lia.
Qed.

Lemma decimal_range x d : (0 < x < 10^N.of_nat d)%N → ∃ k, k < d ∧ (10^N.of_nat k ≤ x < 10^N.of_nat (S k))%N.
Proof.
  induction d as [|d IH]; [simpl; lia|]. intros Hx. destruct (decide (x < 10^N.of_nat d)%N) as [Hd|Hd].
  - destruct IH as (k & Hk & Hr); [lia|]. exists k. split; [lia|done].
  - exists d. split; [lia|]. lia.
Qed.

Lemma lit_length s : length (lit s) = String.length s.
Proof. induction s as [|a s IH]; [done|]. simpl. f_equal. exact IH. Qed.

Lemma to_text_length k x : (10^N.of_nat k ≤ x < 10^N.of_nat (S k))%N → length (to_text x) = S k.
Proof.
  intros Hx. unfold to_text, pretty, pretty_N. rewrite decide_False, lit_length by lia.
  rewrite (pretty_go_length k) by done. simpl. lia.
Qed.

Lemma ceil_log10_from_ge fuel d n k : (10^k < n ≤ 10^(k + 1))%N → (d ≤ k + 1)%N → (N.to_nat (k + 1 - d) < fuel) →
  ceil_log10_from fuel d (10^d) n = (k + 1)%N.
Proof.
  revert d. induction fuel as [|fuel IH]; intros d Hn Hd Hf; [lia|]. simpl. case_bool_decide as Hp.
  - assert (¬ d ≤ k)%N; [|lia]. intros Hdk. pose proof (N.pow_le_mono_r 10 d k ltac:(lia) Hdk). lia.
  - assert (d ≠ k + 1)%N by (intros ->; lia). replace (10 * 10^d)%N with (10^(d + 1))%N by (by rewrite N.pow_add_r, N.mul_comm).
    apply IH; lia.
Qed.

(** [digits] is the number of decimal digits, but for the largest 32-bit integer. *)
Lemma digits_spec x : (x < 2^32 - 1)%N → digits x = N.of_nat (length (to_text x)).
Proof.
  intros Hx. unfold digits. case_bool_decide as H0; [by subst|].
  destruct (decimal_range x 10) as (k & Hk & Hr); [lia|].
  rewrite (to_text_length k) by done. unfold u32. rewrite N.mod_small by lia.
  replace (N.of_nat (S k)) with (N.of_nat k + 1)%N by lia.
  apply (ceil_log10_from_ge 11 0); [|lia..]. rewrite Nat2N.inj_succ, N.add_1_r in *. lia.
Qed.

(** ** The lines of a record *)

(** What goes before a line of a message of [n] lines, the [i]th of them: its number in a
field that is narrower the more digits the number has. *)
Definition lineno_field (n i : nat) : text :=
  let d := length (to_text (N.of_nat i)) in
  lit "(lineno: " ++ setw (length (to_text (N.of_nat n)) - d + 1) (to_text (N.of_nat i)) ++ lit ") ".
(** The lines written for a message of the lines [ls]. *)
Definition record_lines (prefix : text) (ls : list text) : list text :=
  match ls with
  | [l] => [prefix ++ l]
  | _ => imap (λ i l, prefix ++ lineno_field (length ls) i ++ l) ls
  end.

Lemma to_text_range x : (x < 2^32)%N → ∃ k, k < 10 ∧ length (to_text x) = S k
  ∧ (x < 10^N.of_nat (S k))%N ∧ (k = 0 ∨ (10^N.of_nat k ≤ x)%N).
Proof.
  intros Hx. destruct (decide (x = 0%N)) as [->|H0].
  - exists 0. split_and!; [lia|done|lia|by left].
  - destruct (decimal_range x 10) as (k & Hk & Hr); [lia|]. exists k.
    split_and!; [done|by apply to_text_length|lia|right; lia].
Qed.

Lemma to_text_length_mono x y : (x ≤ y < 2^32)%N → length (to_text x) ≤ length (to_text y) ≤ 10.
Proof.
  intros Hxy. destruct (to_text_range x) as (j & Hj & -> & Hxj & Hlow); [lia|].
  destruct (to_text_range y) as (k & Hk & -> & Hyk & _); [lia|]. split; [|lia].
  destruct (decide (j ≤ k)) as [|Hjk]; [lia|]. destruct Hlow as [->|Hlow]; [lia|].
  pose proof (N.pow_le_mono_r 10 (N.of_nat (S k)) (N.of_nat j) ltac:(lia) ltac:(lia)). lia.
Qed.

(** The subtraction does not wrap around. *)
Lemma lineno_width_spec n i : i < n → (N.of_nat n < 2^32 - 1)%N →
  N.to_nat (lineno_width (digits (N.of_nat n)) (N.of_nat i))
  = length (to_text (N.of_nat n)) - length (to_text (N.of_nat i)) + 1.
Proof.
  intros Hi Hn. destruct (to_text_length_mono (N.of_nat i) (N.of_nat n)) as [Hd H10]; [lia|].
  unfold lineno_width, u32. rewrite !digits_spec by lia.
  replace (2^32 + _ - _ + 1)%N with
    (N.of_nat (length (to_text (N.of_nat n)) - length (to_text (N.of_nat i)) + 1) + 1 * 2^32)%N by lia.
  rewrite N.Div0.mod_add, N.mod_small by lia. lia.
Qed.

Lemma write_line_spec prefix n i l : i < n → (N.of_nat n < 2^32 - 1)%N →
  write_line prefix (digits (N.of_nat n)) (N.of_nat i) l = (prefix ++ lineno_field n i ++ l) ++ [newline].
Proof.
  intros Hi Hn. unfold write_line, lineno_field. rewrite lineno_width_spec by done.
  change (setw 1 (lit ") ")) with (lit ") "). by rewrite <- !app_assoc.
Qed.

Lemma write_lines_spec prefix n k ls : (N.of_nat n < 2^32 - 1)%N → k + length ls = n →
  write_lines prefix (digits (N.of_nat n)) (N.of_nat k) ls
  = unlines (imap (λ i l, prefix ++ lineno_field n (k + i) ++ l) ls).
Proof.
  intros Hn. revert k. induction ls as [|l ls IH]; intros k Hk; [done|]. simpl in Hk. cbn [write_lines].
  rewrite write_line_spec by lia. unfold u32. rewrite N.mod_small by lia.
  replace (N.of_nat k + 1)%N with (N.of_nat (S k)) by lia. rewrite IH by lia.
  rewrite imap_cons, Nat.add_0_r. unfold unlines. rewrite fmap_cons. cbn [mjoin list_join]. do 3 f_equal.
  apply imap_ext. intros i x _. cbn [compose]. by rewrite Nat.add_succ_comm.
Qed.

(** A record that the active filter rejects is not written; of any other, every line
of the message is written on a line of its own, after the prefix and, when there are
several, its number. *)
Theorem log_raw_spec {regex} (regex_match : text → regex → bool) pid time r c :
  (N.of_nat (length (getlines (message r))) < 2^32 - 1)%N →
  written (log_raw regex_match pid time r c) = written c ++ unlines
    (if passes regex_match c r
     then record_lines (log_prefix pid time r (subsystem_name r)) (getlines (message r)) else []).
Proof.
  intros Hn. unfold log_raw. destruct (passes _ _ _); simpl; [|by rewrite app_nil_r]. f_equal.
  generalize (log_prefix pid time r (subsystem_name r)) as prefix. intros prefix.
  unfold write_message, record_lines. destruct (getlines (message r)) as [|l [|l' ls]]; [done| |].
  - unfold unlines. simpl. by rewrite app_nil_r, <- app_assoc.
  - unfold u32. rewrite N.mod_small by lia. by apply (write_lines_spec _ _ 0).
Qed.

(** ** Streams *)

(** Each character put into a stream with the severity in force. *)
Fixpoint in_force (current : severity_level) (items : list item) : list (severity_level * ascii) :=
  match items with
  | [] => []
  | Text t :: items => ((λ a, (current, a)) <$> t) ++ in_force current items
  | Severity s :: items => in_force s items
  end.
Definition spread (m : text * severity_level) : list (severity_level * ascii) := (λ a, (m.2, a)) <$> m.1.

Lemma flush_spread s : (flushed (flush s) ≫= spread) = (flushed s ≫= spread) ++ spread (ostream s, current_severity s).
Proof.
  unfold flush. destruct (ostream s); simpl; [by rewrite app_nil_r|]. rewrite bind_app. simpl. by rewrite app_nil_r.
Qed.
Lemma flush_empty s : ostream (flush s) = [] ∧ current_severity (flush s) = current_severity s.
Proof. unfold flush. by destruct (ostream s) eqn:Ho. Qed.
Lemma flush_nonempty s : Forall (λ m, m.1 ≠ []) (flushed s) → Forall (λ m, m.1 ≠ []) (flushed (flush s)).
Proof. unfold flush. destruct (ostream s); [done|]. intros. apply Forall_app. by repeat constructor. Qed.

(** The messages of a stream are what was put into it, cut where the severity changes:
each character is in a message of the severity that was in force, in order, and no
message is empty. *)
Theorem stream_logs_spec items :
  (stream_logs items ≫= spread) = in_force info items ∧ Forall (λ m, m.1 ≠ []) (stream_logs items).
Proof.
  unfold stream_logs.
  assert (∀ s, Forall (λ m, m.1 ≠ []) (flushed s) →
    let s' := foldl (λ s i, put_item i s) s items in
    (flushed (flush s') ≫= spread)
    = (flushed s ≫= spread) ++ spread (ostream s, current_severity s) ++ in_force (current_severity s) items
    ∧ Forall (λ m, m.1 ≠ []) (flushed (flush s'))) as Hs; [|by apply (Hs make_stream)].
  induction items as [|i items IH]; intros s Hne; simpl.
  - rewrite app_nil_r. split; [apply flush_spread|by apply flush_nonempty].
  - destruct i as [t|v]; simpl.
    + destruct (IH (put_text t s) Hne) as [-> ?]. split; [|done]. simpl.
      unfold spread. simpl. by rewrite fmap_app, <- app_assoc.
    + unfold put_severity. case_bool_decide as Hv.
      * destruct (flush_empty s) as [He Hc].
        destruct (IH (Stream v (ostream (flush s)) (flushed (flush s)))) as [-> ?]; [by apply flush_nonempty|].
        split; [|done]. simpl. rewrite He, flush_spread. by rewrite <- app_assoc.
      * destruct (decide (v = current_severity s)) as [->|]; [by apply IH|done].
Qed.

(** The number of a line has a narrower field when it has more digits: with a hundred
lines, two-digit numbers stand one column to the left of the others. *)
Example numbers_not_aligned :
  length (lineno_field 101 9) = 14 ∧ length (lineno_field 101 10) = 13 ∧ length (lineno_field 101 100) = 14.
Proof. vm_compute. done. Qed.

(** The name of a file is what follows the last separator. *)
Lemma filename_from_path_spec path : ∃ dir, path = dir ++ filename_from_path path
  ∧ Forall (λ a, is_separator a = false) (filename_from_path path)
  ∧ (dir = [] ∨ ∃ a, last dir = Some a ∧ is_separator a = true).
Proof.
  assert (∀ l, existsb is_separator l = false → Forall (λ a, is_separator a = false) l) as Hnone.
  { induction l as [|a l IH]; simpl; [constructor|]. intros [? ?]%orb_false_iff. constructor; auto. }
  induction path as [|a rest IH]; [exists []; by repeat constructor; left|]. cbn [filename_from_path].
  destruct (existsb is_separator (a :: rest)) eqn:Hs; [|exists []; split_and!; [done|by apply Hnone|by left]].
  destruct (existsb is_separator rest) eqn:Hr.
  - destruct IH as (dir & Heq & Hf & Hd). exists (a :: dir). rewrite Heq at 1. split_and!; [done..|].
    right. destruct Hd as [->|(b & Hb & Hsb)].
    + exfalso. apply existsb_exists in Hr as (b & Hin & Hb). rewrite Heq in Hin. simpl in Hin.
      eapply Forall_forall in Hf; [|by apply list_elem_of_In]. congruence.
    + exists b. split; [|done]. by destruct dir.
  - exists [a]. split_and!; [done|by apply Hnone|]. right. exists a. split; [done|].
    simpl in Hs. rewrite Hr in Hs. by destruct (is_separator a).
Qed.

(** With a registered level, a record of the subsystem passes the whitelist when it is at
most as important, and the blacklist when it is more important. *)
Lemma registered_filters {regex} (regex_match : text → regex → bool) f s l v :
  registered_subsystems (regex := regex) f !! s = Some l →
  whitelist_apply regex_match f s v = negb (blacklist_apply regex_match f s v)
  ∧ (whitelist_apply regex_match f s v = true ↔ (level v ≤ level l)%N).
Proof.
  intros Hl. unfold whitelist_apply, blacklist_apply. rewrite Hl. split; [|by rewrite bool_decide_eq_true].
  repeat case_bool_decide; done || lia.
Qed.

(** The whitelist drops the more important record of the two. *)
Example whitelist_drops_important :
  let f := Subsystems (regex := unit) {[lit "dpor" := info]} [] in
  apply (λ _ _, false) (whitelist_filter f) (lit "dpor") critical = false
  ∧ apply (λ _ _, false) (whitelist_filter f) (lit "dpor") debug = true.
Proof. vm_compute. done. Qed.

End Logger.

(** ** [mcmini_log] *)

Module LibLog.

Definition MCMINI_LOG_VERBOSE : Z := 0.
Definition MCMINI_LOG_DEBUG : Z := 1.
Definition MCMINI_LOG_INFO : Z := 2.
Definition MCMINI_LOG_WARNING : Z := 3.
Definition MCMINI_LOG_ERROR : Z := 4.
Definition MCMINI_LOG_FATAL : Z := 5.
Definition MCMINI_LOG_DISABLE : Z := 6.
Definition MCMINI_LOG_MINIMUM_LEVEL : Z := MCMINI_LOG_DEBUG.

(** The static variables, with the thread that holds [log_mut], and what was written to
the standard output: the level and the formatted message of each record. *)
Record log_state := LogState {
  global_log_level : Z;
  log_mut : option N;
  output : list (Z * text);
}.
Definition initial_log_state : log_state := LogState MCMINI_LOG_MINIMUM_LEVEL None [].

Definition mcmini_log_set_level (l : Z) (s : log_state) : log_state := LogState l (log_mut s) (output s).
Definition mcmini_log_toggle (enable : bool) (s : log_state) : log_state := mcmini_log_set_level MCMINI_LOG_DISABLE s.
Definition mcmini_log_reset_after_fork (s : log_state) : log_state := LogState (global_log_level s) None (output s).

(** A mutex that is not recursive. *)
Definition lock_log (t : N) : eff log_state unit := λ s,
  match log_mut s with
  | None => (Ok tt, LogState (global_log_level s) (Some t) (output s))
  | Some _ => (Throw Blocked, s)
  end.
Definition unlock_log : eff log_state unit := λ s, (Ok tt, LogState (global_log_level s) None (output s)).
(** [log_level_strs] has a name for each level. *)
Definition write_log (l : Z) (msg : text) : eff log_state unit := λ s,
  if bool_decide (0 ≤ l ≤ 6)%Z then (Ok tt, LogState (global_log_level s) (log_mut s) (output s ++ [(l, msg)]))
  else (Throw UB, s).
(** By the thread [t]. *)
Definition mcmini_log (t : N) (l : Z) (msg : text) : eff log_state unit :=
  let! s := get in
  if bool_decide (l < global_log_level s)%Z then ret tt else
  do! lock_log t in
  do! write_log l msg in
  unlock_log.

(** A record is written once, and the mutex is free again. *)
Lemma mcmini_log_spec t l msg s : log_mut s = None → (0 ≤ l ≤ 6)%Z →
  mcmini_log t l msg s =
    (Ok tt, if bool_decide (global_log_level s ≤ l)%Z
            then LogState (global_log_level s) None (output s ++ [(l, msg)]) else s).
Proof.
  intros Hm Hl. unfold mcmini_log, get, ebind at 1. case_bool_decide as Hlt.
  - by rewrite bool_decide_false by lia.
  - unfold ebind at 1, lock_log. rewrite Hm. unfold ebind, write_log.
    rewrite (bool_decide_true (0 ≤ l ≤ 6)%Z) by done. by rewrite bool_decide_true by lia.
Qed.

(** A thread that finds the mutex held waits for ever when nobody unlocks it. *)
Lemma mcmini_log_stranded t l msg s u : log_mut s = Some u → (global_log_level s ≤ l)%Z →
  mcmini_log t l msg s = (Throw Blocked, s).
Proof.
  intros Hm Hl. unfold mcmini_log, get, ebind at 1. rewrite bool_decide_false by lia.
  unfold ebind at 1, lock_log. by rewrite Hm.
Qed.

(** Logging is disabled also when it should be enabled. *)
Lemma mcmini_log_toggle_disables enable t l msg s : (l ≤ MCMINI_LOG_FATAL)%Z →
  mcmini_log t l msg (mcmini_log_toggle enable s) = (Ok tt, mcmini_log_toggle enable s).
Proof. intros Hl. unfold mcmini_log, get, ebind. simpl. rewrite bool_decide_true; [done|]. unfold MCMINI_LOG_FATAL, MCMINI_LOG_DISABLE in *. lia. Qed.

End LibLog.
