(* ===== verification/TsanSupport.v ===== *)
(** * Threads of ThreadSanitizer

[lib/tsan_support.c]: whether a thread blocks a signal, read from its status file in
/proc with the 64-bit mask in it, and the cached answer that [get_current_mode] asks
for on every call.  What the system calls give is an argument. *)

From stdpp Require Import strings list pretty.
From Stdlib Require Import Ascii.
From stdpp Require Import options.
From S2P Require Import Prelude CommandLine Text.

Definition NUL : ascii := "000"%char.
(** What a C function sees of a buffer. *)
Fixpoint c_string (s : text) : text :=
  match s with
  | [] => []
  | a :: s => if decide (a = NUL) then [] else a :: c_string s
  end.
Definition strstr (s p : text) : option text := (λ i, drop i s) <$> find_first p s.

(** ** The path *)

Definition digit (d : N) : ascii := ascii_of_N (48 + d).
(** The digits of an [unsigned int], the last one first; ten of them are enough. *)
Fixpoint digits_of (fuel : nat) (v : N) : text :=
  match fuel with
  | O => []
  | S fuel => if bool_decide (0 < v)%N then digit (v mod 10) :: digits_of fuel (v / 10)%N else []
  end.
Definition status_path (tid : Z) : text :=
  let v := if bool_decide (tid < 0)%Z then 0%N else u32_of_int tid in
  let digits := (if bool_decide (v = 0%N) then [digit 0] else []) ++ digits_of 10 v in
  lit "/proc/self/task/" ++ reverse digits ++ lit "/status".

(** ** The status file *)

Definition buf_size : nat := 4096.
(** [reads] are the bytes the calls of [read] give, one element for a call, before the call
that gives none. *)
Fixpoint read_loop (reads : list text) (buf : text) : text :=
  if bool_decide (length buf < buf_size - 1) then
    match reads with
    | [] => buf
    | r :: reads => match take (buf_size - 1 - length buf) r with
                    | [] => buf
                    | got => read_loop reads (buf ++ got)
                    end
    end
  else buf.

Fixpoint skip_blanks (s : text) : text :=
  match s with
  | a :: s' => if decide (a = " "%char ∨ a = "009"%char) then skip_blanks s' else s
  | [] => []
  end.
Definition hex_digit (a : ascii) : option N :=
  let n := N_of_ascii a in
  if bool_decide (48 ≤ n ≤ 57)%N then Some (n - 48)%N
  else if bool_decide (97 ≤ n ≤ 102)%N then Some (n - 97 + 10)%N
  else if bool_decide (65 ≤ n ≤ 70)%N then Some (n - 65 + 10)%N
  else None.
(** [sigblk] is an [unsigned long long]; the result tells whether there was a digit. *)
Fixpoint parse_hex (s : text) (sigblk : N) (any_digit : bool) : N * bool :=
  match s with
  | [] => (sigblk, any_digit)
  | a :: s => match hex_digit a with
              | Some d => parse_hex s (N.lor (u64 (N.shiftl sigblk 4)) d) true
              | None => (sigblk, any_digit)
              end
  end.

(** [status] is [None] when the file cannot be opened.  A shift by a negative number or by 64
and more is undefined. *)
Definition thread_blocks_signal (status : option (list text)) (signo : Z) : res bool :=
  match status with
  | None => Ok false
  | Some reads =>
      let buf := c_string (read_loop reads []) in
      match strstr buf (lit "SigBlk:") with
      | None => Ok false
      | Some sigblk_line =>
          let p := skip_blanks (drop (length (lit "SigBlk:")) sigblk_line) in
          let '(sigblk, any_digit) := parse_hex p 0 false in
          if negb any_digit then Ok false
          else if bool_decide (1 ≤ signo ≤ 64)%Z
               then Ok (bool_decide (N.land (N.shiftr sigblk (Z.to_N (signo - 1))) 1 ≠ 0%N))
               else Throw UB
      end
  end.

(** ** The thread's own identifier *)

(** [atoi]: the conversion of [strtol] to [int]. *)
Definition atoi (s : text) : Z :=
  s32 (Z.to_N ((strtol (String.string_of_list_ascii s)).1 mod 2^32)).
(** What [readlink] of /proc/thread-self gave, [None] for an error. *)
Definition mc_real_tid (link : option text) : Z :=
  match link with
  | None => (-1)%Z
  | Some target =>
      match strstr (c_string (take 63 target)) (lit "/task/") with
      | None => (-1)%Z
      | Some task => atoi (drop (length (lit "/task/")) task)
      end
  end.

(** ** The cached answer *)

(** -1 when nothing was computed yet.  [proc] gives the status file of a thread. *)
Definition mc_is_current_thread_tsan_internal (link : option text) (proc : text → option (list text))
    (SIG_MULTITHREADED_FORK : Z) (cached : Z) : res (bool * Z) :=
  if bool_decide (cached = -1)%Z then
    blocks ← thread_blocks_signal (proc (status_path (mc_real_tid link))) SIG_MULTITHREADED_FORK;
    let cached := if blocks : bool then 1%Z else 0%Z in
    Ok (bool_decide (cached = 1)%Z, cached)
  else Ok (bool_decide (cached = 1)%Z, cached).

(** ** The path is the decimal one, and fits *)

Lemma digits_of_pretty fuel v s : (v < 10^N.of_nat fuel)%N →
  String.list_ascii_of_string (pretty_N_go v s) = reverse (digits_of fuel v) ++ String.list_ascii_of_string s.
Proof.
  revert v s. induction fuel as [|fuel IH]; intros v s Hv; simpl.
  - change (10^N.of_nat 0)%N with 1%N in Hv. assert (v = 0%N) as -> by lia. by rewrite pretty_N_go_0.
  - case_bool_decide as H0.
    + rewrite Nat2N.inj_succ, N.pow_succ_r' in Hv.
      assert (v / 10 < 10^N.of_nat fuel)%N by (apply N.Div0.div_lt_upper_bound; lia).
      rewrite pretty_N_go_step, IH by done.
      rewrite reverse_cons, <- app_assoc. f_equal. simpl. f_equal.
      assert (v mod 10 < 10)%N as Hd by (apply N.mod_lt; lia). revert Hd.
      generalize (v mod 10)%N. intros d Hd. unfold digit, pretty_N_char.
      destruct (decide (d ∈ (N.of_nat <$> seq 0 10))) as [Hin|Hin].
      * unfold seq in Hin. simpl in Hin. set_unfold in Hin. naive_solver.
      * destruct Hin. apply list_elem_of_fmap. exists (N.to_nat d). rewrite N2Nat.id. split; [done|].
        apply elem_of_seq. lia.
    + assert (v = 0%N) as -> by lia. by rewrite pretty_N_go_0.
Qed.

Lemma digits_of_length fuel v : length (digits_of fuel v) ≤ fuel.
Proof. revert v. induction fuel as [|fuel IH]; intros v; simpl; [done|]. case_bool_decide; simpl; [|lia]. specialize (IH (v / 10)%N). lia. Qed.

(** The path that is built is that of the thread in decimal; its digits fit the array of
16 characters and it fits, with the null character, the buffer of 64. *)
Theorem status_path_spec tid : (- 2^31 ≤ tid < 2^31)%Z →
  status_path tid = lit "/proc/self/task/" ++ lit (pretty (Z.to_N tid)) ++ lit "/status"
  ∧ length (lit (pretty (Z.to_N tid))) ≤ 16 ∧ length (status_path tid) < 64.
Proof.
  intros Htid.
  set (v := if bool_decide (tid < 0)%Z then 0%N else u32_of_int tid).
  assert (v = Z.to_N tid) as Hv.
  { unfold v, u32_of_int. case_bool_decide; [lia|]. by rewrite Z.mod_small by lia. }
  assert (reverse ((if bool_decide (v = 0%N) then [digit 0] else []) ++ digits_of 10 v) = lit (pretty v)) as Hd.
  { unfold pretty, pretty_N. case_bool_decide as H0; [by rewrite H0|]. rewrite decide_False by done.
    assert (v < 10^N.of_nat 10)%N as H10 by (rewrite Hv; simpl; lia). clearbody v.
    unfold lit. rewrite (digits_of_pretty 10) by done. by rewrite app_nil_r. }
  assert (length (lit (pretty v)) ≤ 11) as Hlen.
  { rewrite <- Hd, length_reverse, length_app. pose proof (digits_of_length 10 v). case_bool_decide; cbn [length]; lia. }
  assert (status_path tid = lit "/proc/self/task/" ++ lit (pretty v) ++ lit "/status") as Hp.
  { unfold status_path. fold v. by rewrite Hd. }
  rewrite Hp, <- Hv. split_and!; [done|lia|]. rewrite !length_app. simpl. lia.
Qed.

(** ** The mask *)

Definition hex_char (d : N) : ascii := if bool_decide (d < 10)%N then ascii_of_N (48 + d) else ascii_of_N (87 + d).
(** As the kernel writes the mask: [n] digits, the most significant first. *)
Fixpoint hex_digits (n : nat) (m : N) : text :=
  match n with
  | O => []
  | S n => hex_digits n (m / 16)%N ++ [hex_char (m mod 16)%N]
  end.

Lemma hex_digit_char d : (d < 16)%N → hex_digit (hex_char d) = Some d.
Proof.
  intros Hd. destruct (decide (d ∈ (N.of_nat <$> seq 0 16))) as [Hin|Hin].
  - unfold seq in Hin. simpl in Hin. set_unfold in Hin. naive_solver.
  - destruct Hin. apply list_elem_of_fmap. exists (N.to_nat d). rewrite N2Nat.id. split; [done|].
    apply elem_of_seq. lia.
Qed.

Lemma hex_step acc d : (d < 16)%N → N.lor (u64 (N.shiftl acc 4)) d = u64 (16 * acc + d).
Proof.
  intros Hd. unfold u64. rewrite N.shiftl_mul_pow2. change (2^4)%N with 16%N. rewrite (N.mul_comm acc).
  change (2^64)%N with (16 * 2^60)%N. rewrite N.Div0.mul_mod_distr_l.
  assert (acc mod 2^60 < 2^60)%N as Hr by (apply N.mod_lt; lia).
  assert (N.land (16 * (acc mod 2^60)) d = 0%N) as Hland.
  { apply N.bits_inj_0. intros i. rewrite N.land_spec. destruct (decide (i < 4)%N) as [Hi|Hi].
    - replace (16 * (acc mod 2^60))%N with ((acc mod 2^60) * 2^4)%N by lia.
      by rewrite N.mul_pow2_bits_low.
    - rewrite (N.testbit_eqb d). rewrite (N.div_small d); [by rewrite andb_false_r|].
      eapply N.lt_le_trans; [exact Hd|]. change 16%N with (2^4)%N. apply N.pow_le_mono_r; lia. }
  rewrite <- N.lxor_lor, <- N.add_nocarry_lxor by done.
  rewrite <- N.Div0.add_mod_idemp_l, N.Div0.mul_mod_distr_l.
  generalize dependent (acc mod 2^60)%N. intros q Hq _. rewrite N.mod_small; lia.
Qed.

Lemma parse_hex_digits n m rest acc b :
  parse_hex (hex_digits (S n) m ++ rest) acc b
  = parse_hex rest (u64 (acc * 16^N.of_nat (S n) + m mod 16^N.of_nat (S n))) true.
Proof.
  revert m rest b. induction n as [|n IH]; intros m rest b.
  - simpl. rewrite hex_digit_char by (apply N.mod_lt; lia). rewrite hex_step by (apply N.mod_lt; lia).
    change (16^N.of_nat 1)%N with 16%N. f_equal. f_equal. lia.
  - change (hex_digits (S (S n)) m) with (hex_digits (S n) (m / 16) ++ [hex_char (m mod 16)]).
    rewrite <- app_assoc, IH. simpl parse_hex. rewrite hex_digit_char by (apply N.mod_lt; lia).
    rewrite hex_step by (apply N.mod_lt; lia). f_equal. unfold u64.
    rewrite <- N.Div0.add_mod_idemp_l, N.Div0.mul_mod_idemp_r, N.Div0.add_mod_idemp_l. f_equal.
    rewrite (Nat2N.inj_succ (S n)), N.pow_succ_r', N.Div0.mod_mul_r by lia. lia.
Qed.

Lemma land_1_testbit x k : bool_decide (N.land (N.shiftr x k) 1 ≠ 0%N) = N.testbit x k.
Proof.
  rewrite N.testbit_eqb, N.shiftr_div_pow2. rewrite (N.land_ones (x / 2^k) 1 : N.land _ 1 = _).
  change (2^1)%N with 2%N. assert (x / 2^k mod 2 < 2)%N by (apply N.mod_lt; lia).
  generalize dependent (x / 2^k mod 2)%N. intros b Hb.
  case_bool_decide; symmetry; [apply N.eqb_eq|apply N.eqb_neq]; lia.
Qed.

Lemma read_loop_all reads buf : Forall (λ r, r ≠ []) reads → length (buf ++ mjoin reads) ≤ buf_size - 1 →
  read_loop reads buf = buf ++ mjoin reads.
Proof.
  intros Hr. revert buf. induction Hr as [|r reads Hr _ IH]; intros buf Hl.
  - simpl. rewrite app_nil_r. by case_bool_decide.
  - simpl in *. rewrite !length_app in Hl. destruct r as [|a r]; [done|].
    rewrite bool_decide_true by (simpl in Hl; lia). rewrite take_ge by (simpl in *; lia).
    rewrite IH; [by rewrite <- app_assoc|]. rewrite !length_app. simpl in *. lia.
Qed.

Lemma c_string_id s : NUL ∉ s → c_string s = s.
Proof. induction s as [|a s IH]; intros Hs; [done|]. simpl. rewrite decide_False by set_solver. rewrite IH; [done|set_solver]. Qed.

Lemma skip_blanks_app s t : Forall (λ a, a = " "%char ∨ a = "009"%char) s → skip_blanks (s ++ t) = skip_blanks t.
Proof. induction 1 as [|a s Ha _ IH]; [done|]. simpl. by rewrite decide_True. Qed.

Lemma hex_digits_hex n m : Forall (λ a, is_Some (hex_digit a)) (hex_digits n m).
Proof.
  revert m. induction n as [|n IH]; intros m; simpl; [constructor|]. apply Forall_app. split; [done|].
  constructor; [|done]. rewrite hex_digit_char; [eauto|]. apply N.mod_lt. lia.
Qed.

Lemma skip_blanks_hex s t : Forall (λ a, is_Some (hex_digit a)) s → s ≠ [] → skip_blanks (s ++ t) = s ++ t.
Proof.
  intros [|a s' Ha _] Hs; [done|]. simpl. rewrite decide_False; [done|].
  intros [-> | ->]; by destruct Ha.
Qed.

Lemma hex_digits_nonempty n m : hex_digits (S n) m ≠ [].
Proof. simpl. by destruct (hex_digits n _). Qed.

(** With a status file whose first SigBlk line holds the mask in 16 hexadecimal digits,
the answer is the bit of the signal in the mask, however the bytes are cut into reads. *)
Theorem thread_blocks_signal_spec reads i blanks mask rest signo :
  Forall (λ r, r ≠ []) reads → length (mjoin reads) < buf_size → NUL ∉ mjoin reads →
  find_first (lit "SigBlk:") (mjoin reads) = Some i →
  drop (i + 7) (mjoin reads) = blanks ++ hex_digits 16 mask ++ newline :: rest →
  Forall (λ a, a = " "%char ∨ a = "009"%char) blanks → (mask < 2^64)%N → (1 ≤ signo ≤ 64)%Z →
  thread_blocks_signal (Some reads) signo = Ok (N.testbit mask (Z.to_N (signo - 1))).
Proof.
  intros Hr Hl Hn Hf Hd Hb Hm Hs. unfold thread_blocks_signal.
  rewrite read_loop_all by (try done; unfold buf_size in *; simpl; lia). cbn [app]. rewrite c_string_id by done.
  unfold strstr. rewrite Hf. cbn [fmap option_fmap option_map]. rewrite drop_drop.
  change (i + length (lit "SigBlk:")) with (i + 7). rewrite Hd, skip_blanks_app by done.
  assert (skip_blanks (hex_digits 16 mask ++ newline :: rest) = hex_digits 16 mask ++ newline :: rest) as ->.
  { apply skip_blanks_hex; [apply hex_digits_hex|apply hex_digits_nonempty]. }
  rewrite parse_hex_digits. cbn [parse_hex]. change (hex_digit newline) with (@None N). cbn iota. cbn [negb].
  rewrite bool_decide_true by done. change (16^N.of_nat 16)%N with (2^64)%N.
  rewrite N.mod_small by done. cbn [N.mul N.add]. unfold u64. rewrite N.mod_small by done.
  by rewrite land_1_testbit.
Qed.

(** A file that cannot be opened, has no such line or has no digit in it blocks nothing. *)
Lemma thread_blocks_signal_missing reads signo : find_first (lit "SigBlk:") (c_string (read_loop reads [])) = None →
  thread_blocks_signal None signo = Ok false ∧ thread_blocks_signal (Some reads) signo = Ok false.
Proof. intros Hf. unfold thread_blocks_signal, strstr. by rewrite Hf. Qed.

Lemma atoi_pretty n : (n < 2^31)%N → atoi (lit (pretty n)) = Z.of_N n.
Proof.
  intros Hn. unfold atoi, lit. rewrite String.string_of_list_ascii_of_string. unfold strtol.
  rewrite scan_pretty. cbn [fst]. unfold LONG_MAX. rewrite Z.min_r, Z.max_r by lia.
  rewrite Z.mod_small by lia. rewrite N2Z.id. unfold s32, u32. rewrite N.mod_small by lia.
  destruct (Z.ltb_spec (Z.of_N n) (2^31)); [done|lia].
Qed.

(** The number after "/task/" in the link. *)
Lemma mc_real_tid_spec target i n : length target ≤ 63 → NUL ∉ target →
  find_first (lit "/task/") target = Some i → drop (i + 6) target = lit (pretty n) → (n < 2^31)%N →
  mc_real_tid (Some target) = Z.of_N n.
Proof.
  intros Hl Hn Hf Hd Hlt. unfold mc_real_tid, strstr. rewrite take_ge by done. rewrite c_string_id by done.
  rewrite Hf. cbn [fmap option_fmap option_map]. rewrite drop_drop. change (i + length (lit "/task/")) with (i + 6).
  rewrite Hd. by apply atoi_pretty.
Qed.

(** Once computed, the answer of a thread does not change, whatever /proc says later. *)
Theorem tsan_internal_cached link proc sig cached b cached' :
  mc_is_current_thread_tsan_internal link proc sig cached = Ok (b, cached') →
  ∀ link' proc' sig', mc_is_current_thread_tsan_internal link' proc' sig' cached' = Ok (b, cached').
Proof.
  unfold mc_is_current_thread_tsan_internal. intros Hb link' proc' sig'. case_bool_decide as Hc.
  - apply bind_ok in Hb as (blocks & _ & [= <- <-]). by destruct blocks.
  - injection Hb as <- <-. by rewrite (bool_decide_false (cached = -1)%Z).
Qed.
