(* ===== verification/Memory.v ===== *)
(** * Memory without libc

[common/mem.c]: the allocator [mc_ts_alloc], for threads that may not enter libc yet, and
the copies of volatile memory [memset_v] and [memcpy_v], which go backwards. *)

From stdpp Require Import functions.
From stdpp Require Import options.
From S2P Require Import Prelude.

(** ** The arena *)

Definition MC_TS_ARENA_SIZE : N := 4 * 1024 * 1024.
(** [(n + 15u) & ~(size_t)15u]. *)
Definition rounded (n : N) : N := N.land (u64 (n + 15)) (N.lxor (2^64 - 1) 15).
(** The state is [mc_ts_off]; the result an offset in [mc_ts_arena].  The counter is the only
thing threads share and is accessed once in a call, so calls of several threads are calls one
after the other. *)
Definition mc_ts_alloc (n : N) : eff N N := λ mc_ts_off,
  let n := rounded n in
  let off := mc_ts_off in
  let mc_ts_off := u64 (mc_ts_off + n) in                      (* atomic_fetch_add *)
  if bool_decide (MC_TS_ARENA_SIZE < u64 (off + n))%N
  then (Throw (ExitCalled 1), mc_ts_off)                       (* write, exit_group *)
  else (Ok off, mc_ts_off).
(** The calls of all threads, those included that come before the process has ended. *)
Fixpoint allocations (ns : list N) (off : N) : list (res N) :=
  match ns with
  | [] => []
  | n :: ns => let '(r, off') := mc_ts_alloc n off in r :: allocations ns off'
  end.

Definition total (ns : list N) : N := foldr (λ n t, rounded n + t)%N 0%N ns.

Lemma rounded_spec n : (n + 15 < 2^64)%N → (rounded n = 16 * ((n + 15) / 16) ∧ n ≤ rounded n ∧ rounded n < n + 16)%N.
Proof.
  intros Hn. assert (rounded n = 16 * ((n + 15) / 16))%N as ->.
  2: { pose proof (N.div_mod (n + 15) 16 ltac:(done)) as Hd. pose proof (N.mod_lt (n + 15) 16 ltac:(done)) as Hm.
       generalize dependent ((n + 15) mod 16)%N. generalize ((n + 15) / 16)%N. clear Hn. lia. }
  unfold rounded, u64. rewrite (N.mod_small (n + 15)) by done.
  replace (16 * ((n + 15) / 16))%N with (N.shiftl (N.shiftr (n + 15) 4) 4)
    by (rewrite N.shiftl_mul_pow2, N.shiftr_div_pow2; change (2^4)%N with 16%N; lia).
  apply N.bits_inj. intros i. rewrite N.land_spec. destruct (decide (i < 4)%N) as [Hi|Hi].
  - rewrite N.shiftl_spec_low by done.
    assert (i = 0 ∨ i = 1 ∨ i = 2 ∨ i = 3)%N as [-> |[-> |[-> | ->]]] by lia; by rewrite andb_false_r.
  - rewrite N.shiftl_spec_high', N.shiftr_spec' by lia. replace (i - 4 + 4)%N with i by lia.
    destruct (decide (i < 64)%N) as [Hh|Hh].
    + rewrite N.lxor_spec. change 15%N with (N.ones 4). change (2^64 - 1)%N with (N.ones 64).
      by rewrite N.ones_spec_low, N.ones_spec_high, andb_true_r by lia.
    + rewrite (N.bits_above_log2 (n + 15)); [done|]. destruct (decide (n + 15 = 0)%N); [lia|].
      assert (N.log2 (n + 15) < 64)%N by (by apply N.log2_lt_pow2; lia). lia.
Qed.
Lemma total_app l1 l2 : total (l1 ++ l2) = (total l1 + total l2)%N.
Proof. induction l1 as [|n l1 IH]; simpl; [done|]. rewrite IH. lia. Qed.
Lemma total_insert l i n : l !! i = Some n → total (take (S i) l) = (total (take i l) + rounded n)%N.
Proof. intros Hi. erewrite take_S_r by exact Hi. rewrite total_app. simpl. lia. Qed.

Lemma allocations_at ns off i n :
  (off + total ns < 2^64)%N → ns !! i = Some n →
  allocations ns off !! i =
    Some (let at_ := (off + total (take i ns))%N in
          if bool_decide (at_ + rounded n ≤ MC_TS_ARENA_SIZE)%N then Ok at_ else Throw (ExitCalled 1)).
Proof.
  revert off i. induction ns as [|n0 ns IH]; intros off i Hlt Hi; [done|]. simpl in Hlt.
  cbn [allocations]. unfold mc_ts_alloc, u64. rewrite N.mod_small by lia.
  destruct i as [|i].
  - injection Hi as ->. cbn [take total foldr]. rewrite N.add_0_r.
    repeat case_bool_decide; try lia; done.
  - specialize (IH (off + rounded n0)%N i). cbn [take total foldr]. fold (total (take i ns)).
    rewrite N.add_assoc. case_bool_decide; cbn [lookup list_lookup]; apply IH; done || lia.
Qed.

(** Requests of any threads in any order, as long as their sizes do not add up to the range of
the counter: a request gets a block exactly when it and those before it fit the arena, and the
process ends otherwise; a block is aligned and in the arena, and blocks do not overlap. *)
Theorem blocks_disjoint ns :
  Forall (λ n, n + 15 < 2^64)%N ns → (total ns < 2^64)%N →
  (∀ i n, ns !! i = Some n → allocations ns 0 !! i =
     Some (if bool_decide (total (take (S i) ns) ≤ MC_TS_ARENA_SIZE)%N then Ok (total (take i ns)) else Throw (ExitCalled 1))) ∧
  (∀ i n a, ns !! i = Some n → allocations ns 0 !! i = Some (Ok a) → (a mod 16 = 0 ∧ a + n ≤ MC_TS_ARENA_SIZE)%N) ∧
  (∀ i j n a b, i < j → ns !! i = Some n → allocations ns 0 !! i = Some (Ok a) → allocations ns 0 !! j = Some (Ok b) → (a + n ≤ b)%N).
Proof.
  intros Hns Ht.
  assert (∀ i n, ns !! i = Some n → allocations ns 0 !! i =
     Some (if bool_decide (total (take (S i) ns) ≤ MC_TS_ARENA_SIZE)%N then Ok (total (take i ns)) else Throw (ExitCalled 1))) as Hat.
  { intros i n Hi. rewrite (allocations_at ns 0 i n) by done. cbv zeta. by rewrite N.add_0_l, <- (total_insert _ _ _ Hi). }
  assert (∀ i n, ns !! i = Some n → rounded n = 16 * ((n + 15) / 16) ∧ n ≤ rounded n)%N as Hr.
  { intros i n Hi. rewrite Forall_lookup in Hns. destruct (rounded_spec n (Hns i n Hi)) as (? & ? & _). done. }
  assert (∀ l, (∀ i n, l !! i = Some n → ∃ m, rounded n = 16 * m)%N → total l mod 16 = 0)%N as Hmod.
  { intros l. induction l as [|n l IH]; intros Hl; [done|]. simpl. destruct (Hl 0 n eq_refl) as [m ->].
    rewrite N.add_comm, N.mul_comm, N.Div0.mod_add. apply IH. intros i. apply (Hl (S i)). }
  split_and!.
  - done.
  - intros i n a Hi. rewrite (Hat i n Hi). case_bool_decide as Hfit; [|done]. intros [= <-]. split.
    + apply Hmod. intros k m Hk. apply lookup_take_Some in Hk as [Hk _]. destruct (Hr k m Hk) as [-> _]. by eexists.
    + rewrite (total_insert _ _ _ Hi) in Hfit. destruct (Hr i n Hi). lia.
  - intros i j n a b Hij Hi. rewrite (Hat i n Hi). case_bool_decide; [|done]. intros [= <-] Hb.
    destruct (ns !! j) as [m|] eqn:Hj.
    2: { apply lookup_ge_None in Hj. assert (length (allocations ns 0) = length ns) as Hl.
         { clear. generalize 0%N. induction ns as [|n ns IH]; intros o; [done|]. cbn [allocations].
           destruct (mc_ts_alloc n o). simpl. by rewrite IH. }
         rewrite lookup_ge_None_2 in Hb by lia. done. }
    rewrite (Hat j m Hj) in Hb. case_bool_decide; [|done]. injection Hb as <-.
    assert (take j ns = take (S i) ns ++ drop (S i) (take j ns)) as ->.
    { rewrite <- (take_drop (S i) (take j ns)) at 1. f_equal. rewrite take_take. f_equal. lia. }
    rewrite total_app, (total_insert _ _ _ Hi). destruct (Hr i n Hi). lia.
Qed.
(** A size at the end of the range is rounded to none: the block it gets has no bytes. *)
Lemma huge_request n off : (2^64 - 15 ≤ n < 2^64)%N → (off ≤ MC_TS_ARENA_SIZE)%N → mc_ts_alloc n off = (Ok off, off).
Proof.
  intros Hn Hoff. assert (rounded n = 0%N) as Hr.
  { unfold rounded. assert (u64 (n + 15) < 16)%N as Hlt.
    { unfold u64. rewrite (N.mod_eq (n + 15) (2^64)) by done.
      assert ((n + 15) / 2^64 = 1)%N as -> by (symmetry; apply (N.div_unique _ _ 1 (n + 15 - 2^64)); lia). lia. }
    generalize dependent (u64 (n + 15)). intros m Hm.
    assert (In m (N.of_nat <$> seq 0 16)) as Hin.
    { apply list_elem_of_In, list_elem_of_fmap. exists (N.to_nat m). split; [by rewrite N2Nat.id|]. apply elem_of_seq. lia. }
    repeat (destruct Hin as [<- |Hin]; [reflexivity|]). destruct Hin. }
  unfold mc_ts_alloc. rewrite Hr, N.add_0_r. unfold u64. rewrite N.mod_small by (unfold MC_TS_ARENA_SIZE in Hoff; lia).
  by rewrite bool_decide_eq_false_2 by lia.
Qed.

(** ** Volatile memory *)

(** Memory is what each address holds; both loops start at the last byte. *)
Fixpoint memset_v (dst ch : N) (n : nat) (m : N → N) : N → N :=
  match n with
  | O => m
  | S n => memset_v dst ch n (<[(dst + N.of_nat n)%N := N.land ch 255]> m)
  end.
Fixpoint memcpy_v (dst src : N) (n : nat) (m : N → N) : N → N :=
  match n with
  | O => m
  | S n => memcpy_v dst src n (<[(dst + N.of_nat n)%N := m (src + N.of_nat n)%N]> m)
  end.
Definition within (a dst : N) (n : nat) : bool := bool_decide (dst ≤ a < dst + N.of_nat n)%N.

Lemma memset_v_spec dst ch n m a : memset_v dst ch n m a = if within a dst n then N.land ch 255 else m a.
Proof.
  revert m. induction n as [|n IH]; intros m; cbn [memset_v].
  - unfold within. rewrite bool_decide_eq_false_2; [done|lia].
  - rewrite IH. unfold within. destruct (decide (a = dst + N.of_nat n)%N) as [->|Hne].
    + rewrite bool_decide_eq_false_2, bool_decide_eq_true_2 by lia. apply fn_lookup_insert.
    + rewrite fn_lookup_insert_ne by done. repeat case_bool_decide; done || lia.
Qed.
(** What [memcpy] documents, and more: also for overlapping blocks, when the destination is the
higher one. *)
Theorem memcpy_v_copies dst src n m a :
  (src ≤ dst ∨ dst + N.of_nat n ≤ src)%N →
  memcpy_v dst src n m a = if within a dst n then m (src + (a - dst))%N else m a.
Proof.
  revert m. induction n as [|n IH]; intros m Hd; cbn [memcpy_v].
  - unfold within. rewrite bool_decide_eq_false_2; [done|lia].
  - rewrite IH by lia. unfold within. destruct (decide (a = dst + N.of_nat n)%N) as [->|Hne].
    + rewrite bool_decide_eq_false_2, bool_decide_eq_true_2 by lia. rewrite fn_lookup_insert. f_equal. lia.
    + rewrite (fn_lookup_insert_ne _ _ a) by done. case_bool_decide as Hin.
      * rewrite bool_decide_eq_true_2 by lia. apply fn_lookup_insert_ne. lia.
      * rewrite bool_decide_eq_false_2; [done|lia].
Qed.
(** To a lower address that overlaps it copies bytes it has already overwritten. *)
Example memcpy_v_overlaps : memcpy_v 0 1 3 (λ a, a) <$> [0; 1; 2; 3]%N = [3; 3; 3; 3]%N.
Proof. reflexivity. Qed.
