(* ===== verification/InjectiveFunction.v ===== *)
(** * The two-way map of [include/mcmini/misc/injective_function.hpp]

[injective_function] keeps two hash maps, one per direction.  The comment of
the class states the invariant that the maps mirror each other; [mirrored] is
that invariant.  [insert] first inserts in the forward map and only then tests
the range, so that the insertion it refuses leaves the forward map changed. *)

From stdpp Require Import options.
From S2P Require Import Prelude.

Record injective_function (K V : Type) `{Countable K, Countable V} := InjectiveFunction {
  forward : gmap K V;
  backward : gmap V K;
}.
Arguments InjectiveFunction {_ _ _ _ _ _} _ _.
Arguments forward {_ _ _ _ _ _} _.
Arguments backward {_ _ _ _ _ _} _.

Section injective_function.
Context {K V : Type} `{Countable K, Countable V}.
Implicit Types f : injective_function K V.

Definition inj_empty : injective_function K V := InjectiveFunction ∅ ∅.

Definition inj_is_empty (f : injective_function K V) : bool := bool_decide (forward f = ∅).
Definition inj_size (f : injective_function K V) : nat := size (forward f).
Definition is_mapped (f : injective_function K V) (rt : V) : bool :=
  bool_decide (is_Some (backward f !! rt)).
Definition inj_at (f : injective_function K V) (key : K) : res V :=
  match forward f !! key with Some v => Ok v | None => Throw OutOfRange end.
Definition range_at (f : injective_function K V) (key : V) : res K :=
  match backward f !! key with Some k => Ok k | None => Throw OutOfRange end.
Definition count_domain (f : injective_function K V) (key : K) : bool :=
  bool_decide (is_Some (forward f !! key)).
Definition count_range (f : injective_function K V) (key : V) : bool :=
  bool_decide (is_Some (backward f !! key)).

(** [insert] returns whether the key was new.  [std::unordered_map::insert]
does nothing for a key that is already there. *)
Definition inj_insert (vt : K * V) : eff (injective_function K V) bool := λ f,
  let fresh := bool_decide (forward f !! vt.1 = None) in
  let f1 := InjectiveFunction
    (if fresh then <[vt.1 := vt.2]> (forward f) else forward f) (backward f) in
  if fresh && count_range f1 vt.2 then (Throw InvalidInsertion, f1)
  else if fresh then
    (Ok true, InjectiveFunction (forward f1)
       (if bool_decide (backward f !! vt.2 = None)
        then <[vt.2 := vt.1]> (backward f) else backward f))
  else (Ok false, f1).

(** The invariant the class documents. *)
Definition mirrored (f : injective_function K V) : Prop :=
  ∀ k v, forward f !! k = Some v ↔ backward f !! v = Some k.

Lemma count_domain_true f k : count_domain f k = true ↔ ∃ v, forward f !! k = Some v.
Proof. apply bool_decide_eq_true. Qed.

Lemma count_range_true f v : count_range f v = true ↔ ∃ k, backward f !! v = Some k.
Proof. apply bool_decide_eq_true. Qed.

Lemma count_range_false f v : count_range f v = false ↔ backward f !! v = None.
Proof.
  unfold count_range. rewrite bool_decide_eq_false, <- eq_None_not_Some. done.
Qed.

Lemma mirrored_empty : mirrored inj_empty.
Proof. intros k v. unfold inj_empty; simpl. by rewrite !lookup_empty. Qed.

Lemma mirrored_injective f k1 k2 v :
  mirrored f → forward f !! k1 = Some v → forward f !! k2 = Some v → k1 = k2.
Proof. intros Hm H1%Hm H2%Hm. congruence. Qed.

(** A fresh key and a fresh value: both maps gain the pair. *)
Lemma inj_insert_fresh f k v :
  forward f !! k = None → backward f !! v = None →
  inj_insert (k, v) f =
    (Ok true, InjectiveFunction (<[k := v]> (forward f)) (<[v := k]> (backward f))).
Proof.
  intros Hk Hv. unfold inj_insert, count_range; simpl.
  rewrite Hk, Hv. by rewrite !bool_decide_true by done.
Qed.

Lemma inj_insert_taken f k v w :
  forward f !! k = Some w → inj_insert (k, v) f = (Ok false, f).
Proof.
  intros Hk. unfold inj_insert; simpl. rewrite Hk. destruct f. done.
Qed.

Lemma inj_insert_refused f k v w :
  forward f !! k = None → backward f !! v = Some w →
  inj_insert (k, v) f =
    (Throw InvalidInsertion, InjectiveFunction (<[k := v]> (forward f)) (backward f)).
Proof.
  intros Hk Hv. unfold inj_insert, count_range; simpl. rewrite Hk, Hv. done.
Qed.

Lemma mirrored_insert_fresh f k v :
  mirrored f → forward f !! k = None → backward f !! v = None →
  mirrored (InjectiveFunction (<[k := v]> (forward f)) (<[v := k]> (backward f))).
Proof.
  intros Hm Hk Hv k1 v1; simpl.
  destruct (decide (k = k1)) as [->|Hne], (decide (v = v1)) as [->|Hne'].
  - by rewrite !lookup_insert_eq.
  - rewrite lookup_insert_eq, lookup_insert_ne by done.
    split; [intros; simplify_eq|]. intros H1%Hm. congruence.
  - rewrite lookup_insert_ne, lookup_insert_eq by done.
    split; [|intros; simplify_eq]. intros H1%Hm. congruence.
  - rewrite !lookup_insert_ne by done. apply Hm.
Qed.

(** [insert] keeps the mirror invariant on every call that returns, and the
one call it refuses breaks it. *)
Theorem inj_insert_mirrored f k v :
  mirrored f →
  match inj_insert (k, v) f with
  | (Ok _, f') => mirrored f'
  | (Throw e, f') => e = InvalidInsertion ∧ ¬ mirrored f'
  end.
Proof.
  intros Hm.
  destruct (forward f !! k) as [w|] eqn:Hk.
  { by rewrite (inj_insert_taken f k v w Hk). }
  destruct (backward f !! v) as [k'|] eqn:Hv.
  - rewrite (inj_insert_refused f k v k' Hk Hv). split; [done|].
    intros Hbad. pose proof (proj1 (Hbad k v)) as Hb; simpl in Hb.
    rewrite lookup_insert_eq in Hb. specialize (Hb eq_refl).
    assert (k' = k) as -> by congruence. apply Hm in Hv. congruence.
  - rewrite (inj_insert_fresh f k v Hk Hv). by apply mirrored_insert_fresh.
Qed.

End injective_function.
