(* ===== verification/DoubleDispatch.v ===== *)
(** * The double-dispatch table of [include/mcmini/misc/ddt.hpp]

[double_dispatch_member_function_table] maps a pair of dynamic types to a
member function.  A stored callback is modelled by the function it computes
from the two interface pointers once [casting_function] (or its reversed twin)
has cast them; [typeid] is a parameter [type_of]. *)

From stdpp Require Import options.
From S2P Require Import Prelude.

Record ddt (T I R : Type) `{Countable T} := Ddt {
  internal_table : gmap T (gmap T (I → I → R));
  interface_member_function_table : gmap T (I → I → R);
}.
Arguments Ddt {_ _ _ _ _} _ _.
Arguments internal_table {_ _ _ _ _} _.
Arguments interface_member_function_table {_ _ _ _ _} _.

Section ddt.
Context {T I R : Type} `{Countable T} (type_of : I → T).

Definition ddt_empty : ddt T I R := Ddt ∅ ∅.

Definition row (d : ddt T I R) (t : T) : gmap T (I → I → R) :=
  default ∅ (internal_table d !! t).

(** [register_dd_entry<T>(interface_function_callback)] *)
Definition register_interface_entry (t : T) (callback : I → I → R) (d : ddt T I R) : res (ddt T I R) :=
  match interface_member_function_table d !! t with
  | Some _ => Throw (RuntimeError AlreadyRegistered)
  | None => Ok (Ddt (internal_table d)
                 (<[t := callback]> (interface_member_function_table d)))
  end.

(** [register_dd_entry<T1, T2>(member_function_callback)]: the entry for
[(T1, T2)], then the reversed entry for [(T2, T1)]. *)
Definition register_dd_entry (t1 t2 : T) (callback : I → I → R) (d : ddt T I R) : res (ddt T I R) :=
  match row d t1 !! t2 with
  | Some _ => Throw (RuntimeError AlreadyRegistered)
  | None =>
      let d1 := Ddt (<[t1 := <[t2 := callback]> (row d t1)]> (internal_table d))
                    (interface_member_function_table d) in
      let reversed := λ i1 i2, callback i2 i1 in
      Ok (Ddt (<[t2 := <[t1 := reversed]> (row d1 t2)]> (internal_table d1))
              (interface_member_function_table d1))
  end.

(** [call_or]: note that the interface table is only consulted when the first
type has no row in the internal table. *)
Definition call_or (d : ddt T I R) (fallback : R) (t1 t2 : I) : R :=
  match internal_table d !! type_of t1 with
  | Some r =>
      match r !! type_of t2 with Some callback => callback t1 t2 | None => fallback end
  | None =>
      match interface_member_function_table d !! type_of t1 with
      | Some callback => callback t1 t2
      | None =>
          match interface_member_function_table d !! type_of t2 with
          | Some callback => callback t2 t1
          | None => fallback
          end
      end
  end.

Definition call (d : ddt T I R) (t1 t2 : I) : res R :=
  match internal_table d !! type_of t1 with
  | Some r =>
      match r !! type_of t2 with
      | Some callback => Ok (callback t1 t2)
      | None => Throw (RuntimeError NoRuntimeEntry)
      end
  | None => Throw (RuntimeError NoRuntimeEntry)
  end.

Lemma register_dd_entry_row d t1 t2 cb d' :
  register_dd_entry t1 t2 cb d = Ok d' → row d' t2 !! t1 = Some (λ i1 i2, cb i2 i1) ∧
  (t1 ≠ t2 → row d' t1 !! t2 = Some cb).
Proof.
  unfold register_dd_entry. destruct (row d t1 !! t2); intros; simplify_eq.
  unfold row; simpl. rewrite lookup_insert_eq; simpl. rewrite lookup_insert_eq.
  split; [done|]. intros Hne. rewrite lookup_insert_ne by done.
  rewrite lookup_insert_eq; simpl. by rewrite lookup_insert_eq.
Qed.

(** A registered pair answers in both orders, with the callback applied to the
objects in the order of its own parameters. *)
Lemma register_dd_entry_call_or d t1 t2 cb d' fallback i1 i2 :
  register_dd_entry t1 t2 cb d = Ok d' → t1 ≠ t2 →
  type_of i1 = t1 → type_of i2 = t2 →
  call_or d' fallback i1 i2 = cb i1 i2 ∧ call_or d' fallback i2 i1 = cb i1 i2.
Proof.
  intros [Hr2 Hr1]%register_dd_entry_row Hne <- <-. specialize (Hr1 Hne).
  unfold call_or, row in *.
  destruct (internal_table d' !! type_of i1); simpl in Hr1; [|done].
  destruct (internal_table d' !! type_of i2); simpl in Hr2; [|done].
  by rewrite Hr1, Hr2.
Qed.

(** Registering a type against itself keeps only the reversed entry: the
callback sees its two arguments exchanged. *)
Lemma register_dd_entry_same d t cb d' fallback i1 i2 :
  register_dd_entry t t cb d = Ok d' → type_of i1 = t → type_of i2 = t →
  call_or d' fallback i1 i2 = cb i2 i1.
Proof.
  intros [Hr _]%register_dd_entry_row Hi1 Hi2. unfold call_or, row in *.
  rewrite Hi1, Hi2 in *.
  destruct (internal_table d' !! t); simpl in Hr; [|done]. by rewrite Hr.
Qed.

(** An interface entry is dead as soon as the first operand's type has a row:
whatever is registered for the interface, the answer is the fallback. *)
Lemma call_or_interface_shadowed d fallback i1 i2 r :
  internal_table d !! type_of i1 = Some r → r !! type_of i2 = None →
  call_or d fallback i1 i2 = fallback.
Proof. intros Hr Hn. unfold call_or. by rewrite Hr, Hn. Qed.

End ddt.
