(* ===== verification/CondPolicy.v ===== *)
(** * Wake-up policies of condition variables

[WakeGroup] and the policies of [include/mcmini/misc/cond/] with their bodies in
[src/mcmini/model/cond_var_*.cpp].  The C++ class chain
[ConditionVariablePolicy] (interface), [ConditionVariableDefaultPolicy],
[ConditionVariableSingleGroupPolicy], [ConditionVariableArbitraryPolicy] is kept:
the interface is a type class with the laws its comments promise, and the most
derived class, the only one the program instantiates, is the instance. *)

From stdpp Require Import options.
From S2P Require Import Prelude.

(** [condition_variable_status] of [cv_status.h], in declaration order. *)
Inductive condition_variable_status :=
  | CV_UNINITIALIZED
  | CV_INITIALIZED
  | CV_WAITING
  | CV_SIGNALED
  | CV_PREWAITING
  | CV_DESTROYED.
#[export] Instance condition_variable_status_eq_dec : EqDecision condition_variable_status.
Proof. solve_decision. Defined.

(** ** Wake groups *)

(** [WakeGroup] is a [std::vector<runner_id_t>]. *)
Abbreviation WakeGroup := (list runner_id_t) (only parsing).

Definition contains (wg : list runner_id_t) (tid : runner_id_t) : bool := bool_decide (tid ∈ wg).
Definition remove_candidate_thread (tid : runner_id_t) (wg : list runner_id_t) : list runner_id_t :=
  filter (λ t, t ≠ tid) wg.

Lemma contains_true wg tid : contains wg tid = true ↔ tid ∈ wg.
Proof. apply bool_decide_eq_true. Qed.

Lemma contains_remove_candidate wg tid t :
  contains (remove_candidate_thread tid wg) t = contains wg t && bool_decide (t ≠ tid).
Proof.
  unfold contains, remove_candidate_thread. apply eq_bool_prop_intro.
  rewrite andb_True, !bool_decide_spec, list_elem_of_filter. tauto.
Qed.

(** ** The policy state *)

(** The data members of the class chain, base class first. *)
Record policy := Policy {
  broadcast_eligible_threads : gset runner_id_t;
  wake_groups : list (list runner_id_t);
  wait_queue : list runner_id_t;
  threads_with_states : gmap runner_id_t condition_variable_status;
}.

#[export] Instance policy_eq_dec : EqDecision policy.
Proof. solve_decision. Defined.

Definition new_policy : policy := Policy ∅ [] [] ∅.

Definition with_broadcast_eligible (s : gset runner_id_t) (p : policy) : policy :=
  Policy s (wake_groups p) (wait_queue p) (threads_with_states p).
Definition with_wake_groups (gs : list (list runner_id_t)) (p : policy) : policy :=
  Policy (broadcast_eligible_threads p) gs (wait_queue p) (threads_with_states p).
Definition with_wait_queue (q : list runner_id_t) (p : policy) : policy :=
  Policy (broadcast_eligible_threads p) (wake_groups p) q (threads_with_states p).
Definition with_thread_states (m : gmap runner_id_t condition_variable_status) (p : policy) : policy :=
  Policy (broadcast_eligible_threads p) (wake_groups p) (wait_queue p) m.

(** *** [ConditionVariableDefaultPolicy] *)

Definition default_receive_broadcast_message (p : policy) : policy :=
  with_wake_groups [] (with_broadcast_eligible
    (foldl (λ s wg, foldl (λ s t, {[t]} ∪ s) s wg)
       (broadcast_eligible_threads p) (wake_groups p)) p).

Definition thread_can_exit (p : policy) (tid : runner_id_t) : bool :=
  if bool_decide (tid ∈ broadcast_eligible_threads p) then true
  else existsb (λ wg, contains wg tid) (wake_groups p).

(** [std::find_if] followed by [erase] at the position found; [None] is [end()]. *)
Fixpoint erase_first_containing (tid : runner_id_t) (gs : list (list runner_id_t)) : option (list (list runner_id_t)) :=
  match gs with
  | [] => None
  | wg :: gs =>
      if contains wg tid then Some gs
      else cons wg <$> erase_first_containing tid gs
  end.

Definition default_wake_thread (tid : runner_id_t) (p : policy) : res policy :=
  p1 ← (if bool_decide (tid ∈ broadcast_eligible_threads p)
        then Ok (with_broadcast_eligible (broadcast_eligible_threads p ∖ {[tid]}) p)
        else match erase_first_containing tid (wake_groups p) with
             | Some gs => Ok (with_wake_groups gs p)
             | None => Throw AssertionFailed
             end);
  Ok (with_wake_groups (remove_candidate_thread tid <$> wake_groups p1) p1).

(** *** [ConditionVariableSingleGroupPolicy] *)

Definition receive_broadcast_message (p : policy) : policy :=
  let p1 := default_receive_broadcast_message p in
  with_wait_queue [] (with_broadcast_eligible
    (foldl (λ s t, {[t]} ∪ s) (broadcast_eligible_threads p1) (wait_queue p1)) p1).

(** [std::find] followed by [erase] at the position found, if any. *)
Fixpoint erase_first (tid : runner_id_t) (q : list runner_id_t) : list runner_id_t :=
  match q with
  | [] => []
  | t :: q => if bool_decide (t = tid) then q else t :: erase_first tid q
  end.

Definition wake_thread (tid : runner_id_t) (p : policy) : res policy :=
  p1 ← default_wake_thread tid p;
  Ok (with_wait_queue (erase_first tid (wait_queue p1)) p1).

Definition add_waiter (tid : runner_id_t) (p : policy) : policy :=
  with_wait_queue (wait_queue p ++ [tid]) p.

(** *** [ConditionVariableArbitraryPolicy] *)

Definition receive_signal_message (p : policy) : policy :=
  if bool_decide (wait_queue p = []) then p
  else with_wake_groups (wake_groups p ++ [wait_queue p]) p.

Definition has_waiters (p : policy) : bool := negb (bool_decide (wait_queue p = [])).
Definition return_wait_queue (p : policy) : list runner_id_t := wait_queue p.
Definition return_wake_groups (p : policy) : list (list runner_id_t) := wake_groups p.

Definition add_to_wake_groups (threads : list runner_id_t) (p : policy) : policy :=
  if bool_decide (threads = []) then p
  else with_wake_groups (wake_groups p ++ [threads]) p.

Definition add_waiter_with_state (tid : runner_id_t) (state : condition_variable_status) (p : policy) : policy :=
  let p1 := add_waiter tid p in
  with_thread_states (<[tid := state]> (threads_with_states p1)) p1.

Definition get_thread_cv_state (p : policy) (tid : runner_id_t) : condition_variable_status :=
  default CV_UNINITIALIZED (threads_with_states p !! tid).

Definition update_thread_cv_state (tid : runner_id_t) (state : condition_variable_status) (p : policy) : policy :=
  with_thread_states (<[tid := state]> (threads_with_states p)) p.

(** ** Helper lemmas *)

Lemma elem_of_foldl_insert t (s : gset runner_id_t) q :
  t ∈ foldl (λ s t, {[t]} ∪ s) s q ↔ t ∈ s ∨ t ∈ q.
Proof.
  revert s; induction q as [|u q IH]; intros s; simpl; [set_solver|].
  rewrite IH. set_solver.
Qed.

Lemma elem_of_foldl_groups t (s : gset runner_id_t) gs :
  t ∈ foldl (λ s wg, foldl (λ s t, {[t]} ∪ s) s wg) s gs ↔ t ∈ s ∨ ∃ wg, wg ∈ gs ∧ t ∈ wg.
Proof.
  revert s; induction gs as [|wg gs IH]; intros s; simpl.
  { set_solver. }
  rewrite IH, elem_of_foldl_insert. set_solver.
Qed.

Lemma thread_can_exit_spec p tid :
  thread_can_exit p tid = true ↔
  tid ∈ broadcast_eligible_threads p ∨ ∃ wg, wg ∈ wake_groups p ∧ tid ∈ wg.
Proof.
  unfold thread_can_exit. case_bool_decide as Hb; [by split; auto|].
  rewrite existsb_exists. setoid_rewrite contains_true.
  setoid_rewrite <- list_elem_of_In. naive_solver.
Qed.

Lemma erase_first_containing_spec tid gs gs' :
  erase_first_containing tid gs = Some gs' ↔
  ∃ l1 wg l2, gs = l1 ++ wg :: l2 ∧ gs' = l1 ++ l2 ∧ tid ∈ wg ∧
    Forall (λ g, tid ∉ g) l1.
Proof.
  revert gs'; induction gs as [|g gs IH]; intros gs'; simpl.
  { split; [done|]. intros (l1 & wg & l2 & Hl & _). by destruct l1. }
  destruct (contains g tid) eqn:Hc.
  - apply contains_true in Hc. split.
    + intros [= <-]. exists [], g, gs. eauto.
    + intros ([|g' l1] & wg & l2 & Heq & -> & Hin & Hall); simplify_eq/=; [done|].
      rewrite Forall_cons in Hall. by destruct Hall.
  - assert (tid ∉ g) as Hnin by (rewrite <- contains_true, Hc; done).
    rewrite fmap_Some. split.
    + intros (gs'' & (l1 & wg & l2 & -> & -> & Hin & Hall)%IH & ->).
      exists (g :: l1), wg, l2. eauto.
    + intros ([|g' l1] & wg & l2 & Heq & -> & Hin & Hall); simplify_eq/=; [done|].
      rewrite Forall_cons in Hall. destruct Hall as [_ Hall]. exists (l1 ++ l2).
      split; [|done]. apply IH. eauto 10.
Qed.

Lemma erase_first_containing_is_Some tid gs :
  is_Some (erase_first_containing tid gs) ↔ ∃ wg, wg ∈ gs ∧ tid ∈ wg.
Proof.
  induction gs as [|g gs IH]; simpl; [split; [by intros []|set_solver]|].
  destruct (contains g tid) eqn:Hc.
  - apply contains_true in Hc. split; [intros _|eauto].
    exists g. set_solver.
  - rewrite fmap_is_Some, IH. assert (tid ∉ g) by (rewrite <- contains_true, Hc; done).
    set_solver.
Qed.

Lemma erase_first_subset tid q t : t ∈ erase_first tid q → t ∈ q.
Proof.
  induction q as [|u q IH]; simpl; [done|]. case_bool_decide; set_solver.
Qed.

Lemma erase_first_NoDup tid q : NoDup q → erase_first tid q = filter (λ t, t ≠ tid) q.
Proof.
  induction q as [|u q IH]; [done|]. intros [Hu Hq]%NoDup_cons. simpl.
  case_bool_decide as Hut; subst.
  - rewrite filter_cons_False by auto. clear IH Hq.
    induction q as [|t q IH]; [done|].
    rewrite filter_cons_True by set_solver. f_equal. apply IH. set_solver.
  - rewrite filter_cons_True by done. by rewrite IH.
Qed.

Lemma can_exit_remove_candidates gs tid t :
  existsb (λ wg, contains wg t) (remove_candidate_thread tid <$> gs) =
  existsb (λ wg, contains wg t) gs && bool_decide (t ≠ tid).
Proof.
  induction gs as [|g gs IH]; [done|]. csimpl.
  rewrite IH, contains_remove_candidate.
  by destruct (contains g t), (existsb _ gs), (bool_decide _).
Qed.

(** What waking a thread computes, in one equation per way of waking. *)
Lemma wake_thread_eq tid p :
  wake_thread tid p =
  if bool_decide (tid ∈ broadcast_eligible_threads p) then
    Ok (Policy (broadcast_eligible_threads p ∖ {[tid]})
          (remove_candidate_thread tid <$> wake_groups p)
          (erase_first tid (wait_queue p)) (threads_with_states p))
  else match erase_first_containing tid (wake_groups p) with
       | Some gs =>
           Ok (Policy (broadcast_eligible_threads p)
                 (remove_candidate_thread tid <$> gs)
                 (erase_first tid (wait_queue p)) (threads_with_states p))
       | None => Throw AssertionFailed
       end.
Proof.
  unfold wake_thread, default_wake_thread.
  case_bool_decide; simpl; [done|]. by destruct (erase_first_containing _ _).
Qed.

(** ** The interface *)

(** What the comments of [cond_var_policy.hpp] promise about a policy [P]: a
thread can be woken exactly when it can exit, a woken thread is no longer
managed, a broadcast frees every sleeping thread, a signal frees only threads
that sleep. *)
Class ConditionVariablePolicy (P : Type) (sleeping : P → list runner_id_t)
    (can_exit : P → runner_id_t → bool) (wake : runner_id_t → P → res P)
    (broadcast signal : P → P) : Prop := {
  policy_wake_iff : ∀ p tid, is_ok (wake tid p) = can_exit p tid;
  policy_woken_gone : ∀ p tid p',
    wake tid p = Ok p' → can_exit p' tid = false;
  policy_woken_others : ∀ p tid p' t,
    wake tid p = Ok p' → t ∈ sleeping p' → t ∈ sleeping p;
  policy_broadcast_frees : ∀ p t,
    t ∈ sleeping p → can_exit (broadcast p) t = true;
  policy_broadcast_empties : ∀ p, sleeping (broadcast p) = [];
  policy_signal_frees : ∀ p t,
    can_exit (signal p) t = true ↔ can_exit p t = true ∨ t ∈ sleeping p;
}.

Lemma wake_thread_can_exit p tid p' t :
  wake_thread tid p = Ok p' →
  thread_can_exit p' t = true → thread_can_exit p t = true ∧ t ≠ tid.
Proof.
  rewrite wake_thread_eq, (thread_can_exit_spec p). unfold thread_can_exit.
  case_bool_decide as Hb; simpl.
  - intros [= <-]; simpl. rewrite can_exit_remove_candidates.
    case_bool_decide; [set_solver|].
    intros [Hex Hne%bool_decide_eq_true]%andb_true_iff.
    apply existsb_exists in Hex as (wg & ?%list_elem_of_In & ?%contains_true).
    eauto.
  - destruct (erase_first_containing _ _) as [gs|] eqn:He; [|done].
    intros [= <-]; simpl. rewrite can_exit_remove_candidates.
    case_bool_decide; [naive_solver|].
    intros [Hex Hne%bool_decide_eq_true]%andb_true_iff.
    apply existsb_exists in Hex as (wg & Hwg%list_elem_of_In & ?%contains_true).
    apply erase_first_containing_spec in He as (l1 & wg' & l2 & Hl & -> & _ & _).
    split; [right; exists wg; rewrite Hl; set_solver|done].
Qed.

Lemma receive_broadcast_message_eq p :
  receive_broadcast_message p =
  Policy (foldl (λ s t, {[t]} ∪ s)
            (foldl (λ s wg, foldl (λ s t, {[t]} ∪ s) s wg)
               (broadcast_eligible_threads p) (wake_groups p)) (wait_queue p))
         [] [] (threads_with_states p).
Proof. done. Qed.

Lemma broadcast_can_exit p t :
  thread_can_exit (receive_broadcast_message p) t = true ↔
  thread_can_exit p t = true ∨ t ∈ wait_queue p.
Proof.
  rewrite !thread_can_exit_spec, receive_broadcast_message_eq; simpl.
  rewrite elem_of_foldl_insert, elem_of_foldl_groups. set_solver.
Qed.

Lemma add_to_wake_groups_can_exit p threads t :
  thread_can_exit (add_to_wake_groups threads p) t = true ↔
  thread_can_exit p t = true ∨ t ∈ threads.
Proof.
  rewrite !thread_can_exit_spec. unfold add_to_wake_groups.
  case_bool_decide; [set_solver|]. simpl. set_solver.
Qed.

#[export] Instance arbitrary_policy_laws :
  ConditionVariablePolicy policy return_wait_queue thread_can_exit wake_thread
    receive_broadcast_message receive_signal_message.
Proof.
  split.
  - intros p tid. rewrite wake_thread_eq. unfold thread_can_exit.
    case_bool_decide; [done|].
    destruct (erase_first_containing tid (wake_groups p)) eqn:He; simpl; symmetry.
    + apply existsb_exists. apply mk_is_Some, erase_first_containing_is_Some in He.
      destruct He as (wg & ? & ?). exists wg. rewrite <- list_elem_of_In, contains_true. auto.
    + apply not_true_is_false. intros (wg & Hin & Hc)%existsb_exists.
      assert (is_Some (erase_first_containing tid (wake_groups p))) as [? ?]; [|congruence].
      apply erase_first_containing_is_Some. exists wg.
      rewrite list_elem_of_In, <- contains_true. auto.
  - intros p tid p' Hw. apply not_true_is_false. intros Hc.
    by destruct (wake_thread_can_exit p tid p' tid Hw Hc).
  - intros p tid p' t. rewrite wake_thread_eq. unfold return_wait_queue.
    case_bool_decide; [|destruct (erase_first_containing _ _); [|done]];
      intros [= <-]; apply erase_first_subset.
  - intros p t Ht. apply broadcast_can_exit. by right.
  - done.
  - intros p t. unfold receive_signal_message.
    change (thread_can_exit (add_to_wake_groups (wait_queue p) p) t = true ↔
            thread_can_exit p t = true ∨ t ∈ wait_queue p).
    apply add_to_wake_groups_can_exit.
Qed.

(** ** Theorems *)

(** The number of wake-ups a policy still owes: one per thread freed by a
broadcast, one per signal not consumed yet. *)
Definition pending_wakeups (p : policy) : nat :=
  size (broadcast_eligible_threads p) + length (wake_groups p).

(** Waking the given threads one after the other. *)
Fixpoint wake_all (tids : list runner_id_t) (p : policy) : res policy :=
  match tids with
  | [] => Ok p
  | tid :: tids => wake_thread tid p ≫= wake_all tids
  end.

Lemma wake_thread_pending p tid p' :
  wake_thread tid p = Ok p' → pending_wakeups p = S (pending_wakeups p').
Proof.
  rewrite wake_thread_eq. unfold pending_wakeups. case_bool_decide as Hb.
  - intros [= <-]; simpl. rewrite length_fmap.
    rewrite (union_difference_L {[tid]} (broadcast_eligible_threads p)) at 1 by set_solver.
    rewrite size_union, size_singleton by set_solver. lia.
  - destruct (erase_first_containing _ _) as [gs|] eqn:He; [|done].
    apply erase_first_containing_spec in He as (l1 & wg & l2 & Hl & -> & _ & _).
    intros [= <-]; simpl. rewrite Hl, length_fmap, !length_app. simpl. lia.
Qed.

(** A waiting thread never escapes for free: without new messages, the threads
that manage to leave the condition variable are distinct and at most as many as
the wake-ups owed. *)
Theorem wakeups_bounded p tids p' :
  wake_all tids p = Ok p' →
  NoDup tids ∧ length tids + pending_wakeups p' = pending_wakeups p ∧
  ∀ tid, tid ∈ tids → thread_can_exit p tid = true.
Proof.
  revert p; induction tids as [|tid tids IH]; intros p; simpl.
  { intros [= ->]. repeat split; [constructor|set_solver]. }
  intros (p1 & Hw & Hall)%bind_ok. specialize (IH p1 Hall) as (Hnd & Hlen & Hex).
  pose proof (wake_thread_pending p tid p1 Hw). repeat split; [|lia|].
  - constructor; [|done]. intros Hin%Hex.
    by destruct (wake_thread_can_exit p tid p1 tid Hw Hin).
  - intros t [->|Ht]%elem_of_cons.
    + rewrite <- (policy_wake_iff p tid). by rewrite Hw.
    + by destruct (wake_thread_can_exit p tid p1 t Hw (Hex t Ht)).
Qed.
