(* ===== verification/ThreadQueue.v ===== *)
(** * Queues of threads

[src/mcmini/Thread_queue.c], the C queue in which libmcmini records the threads
waiting on a condition variable: a singly linked list in the heap with pointers to
its first and last node.  Nodes are values at addresses of a finite map, [malloc]
and [free] add and remove them, and a walk that meets a freed node is undefined.

The specification is a list of entries ([spec_op]); [refines_list] is the
refinement, which fails for one operation in one case, shown by
[failed_dequeue_loses_queue]. *)

From stdpp Require Import options.
From S2P Require Import Prelude CondPolicy.

(** ** Data *)

Record thread_queue_node := ThreadQueueNode {
  thread : runner_id_t;
  thread_cv_state : condition_variable_status;
  next : option addr;
}.
Record thread_queue := ThreadQueue {
  front : option addr;
  rear : option addr;
  qsize : Z;                       (* size *)
}.
Record store := Store { nodes : gmap N thread_queue_node; queue : thread_queue }.

Definition set_nodes (h : gmap N thread_queue_node) (s : store) : store := Store h (queue s).
Definition set_front (p : option addr) (s : store) : store :=
  Store (nodes s) (ThreadQueue p (rear (queue s)) (qsize (queue s))).
Definition set_rear (p : option addr) (s : store) : store :=
  Store (nodes s) (ThreadQueue (front (queue s)) p (qsize (queue s))).
Definition add_size (z : Z) (s : store) : store :=
  Store (nodes s) (ThreadQueue (front (queue s)) (rear (queue s)) (qsize (queue s) + z)).

(** What a node holds for its thread. *)
Abbreviation entry := (runner_id_t * condition_variable_status)%type.

Definition modify_store (f : store → store) : eff store unit := λ s, (Ok tt, f s).
(** [p->...]: undefined when [p] is null or was freed. *)
Definition read_node (p : option addr) : eff store thread_queue_node :=
  query (λ s, a ← deref p; deref (nodes s !! a)).
Definition write_node (p : option addr) (f : thread_queue_node → thread_queue_node) : eff store unit :=
  let! a := query (λ _, deref p) in
  let! n := read_node p in
  modify_store (λ s, set_nodes (<[a := f n]> (nodes s)) s).
Definition set_next (p : option addr) (n : thread_queue_node) : thread_queue_node :=
  ThreadQueueNode (thread n) (thread_cv_state n) p.
Definition set_cv_state (st : condition_variable_status) (n : thread_queue_node) : thread_queue_node :=
  ThreadQueueNode (thread n) st (next n).
Definition free (p : option addr) : eff store unit :=
  let! a := query (λ _, deref p) in modify_store (λ s, set_nodes (delete a (nodes s)) s).

Definition EXIT_FAILURE : Z := 1.

(** ** Operations *)

Section operations.
(** [malloc] gives an address or [NULL]; what is in the memory is arbitrary. *)
Context (malloc : gmap N thread_queue_node → option addr) (garbage : thread_queue_node).

(** [size] is not written. *)
Definition create_thread_queue (old : Z) : thread_queue := ThreadQueue None None old.

Definition create_thread_queue_node : eff store addr :=
  let! s := get in
  match malloc (nodes s) with
  | None => throw (ExitCalled EXIT_FAILURE)
  | Some a => do! put (set_nodes (<[a := set_next None garbage]> (nodes s)) s) in ret a
  end.

Definition enqueue_thread (t : runner_id_t) (cv_state : condition_variable_status) : eff store unit :=
  let! node := create_thread_queue_node in
  do! write_node (Some node) (λ n, ThreadQueueNode t cv_state (next n)) in
  let! s := get in
  do! match rear (queue s) with
      | None => modify_store (λ s, set_rear (Some node) (set_front (Some node) s))
      | Some _ => do! write_node (rear (queue s)) (set_next (Some node)) in modify_store (set_rear (Some node))
      end in
  modify_store (add_size 1).

(** The loop of [dequeue_thread]: nodes that do not wait are skipped, not freed. *)
Fixpoint dequeue_loop (fuel : nat) : eff store runner_id_t :=
  match fuel with
  | O => throw LoopBound
  | S fuel =>
      let! s := get in
      match front (queue s) with
      | None => ret RID_INVALID
      | Some temp =>
          let! n := read_node (Some temp) in
          do! modify_store (set_front (next n)) in
          if bool_decide (thread_cv_state n = CV_WAITING) then
            do! modify_store (λ s, match front (queue s) with None => set_rear None s | _ => s end) in
            do! free (Some temp) in
            do! modify_store (add_size (-1)) in
            ret (thread n)
          else dequeue_loop fuel
      end
  end.
Definition dequeue_thread : eff store runner_id_t :=
  let! s := get in
  match front (queue s) with
  | None => throw (ExitCalled EXIT_FAILURE)
  | Some _ => dequeue_loop (S (size (nodes s)))
  end.

Definition peek_thread : eff store runner_id_t :=
  let! s := get in
  match front (queue s) with
  | None => throw (ExitCalled EXIT_FAILURE)
  | Some a => let! n := read_node (Some a) in ret (thread n)
  end.

(** [while (current != NULL) { if (...) return ...; current = current->next; }] *)
Fixpoint walk (fuel : nat) (P : thread_queue_node → bool) (current : option addr) : eff store (option addr) :=
  match fuel with
  | O => throw LoopBound
  | S fuel =>
      match current with
      | None => ret None
      | Some a =>
          let! n := read_node (Some a) in
          if P n then ret (Some a) else walk fuel P (next n)
      end
  end.
Definition find_node (P : thread_queue_node → bool) : eff store (option addr) :=
  let! s := get in walk (S (size (nodes s))) P (front (queue s)).
Definition of_thread (t : runner_id_t) (n : thread_queue_node) : bool := bool_decide (thread n = t).

Definition is_in_thread_queue (t : runner_id_t) : eff store bool :=
  let! found := find_node (of_thread t) in ret (bool_decide (is_Some found)).
Definition is_queue_empty : eff store bool :=
  let! s := get in ret (bool_decide (front (queue s) = None)).
Definition get_thread_cv_state (t : runner_id_t) : eff store condition_variable_status :=
  let! found := find_node (of_thread t) in
  match found with
  | Some _ => let! n := read_node found in ret (thread_cv_state n)
  | None => throw (ExitCalled EXIT_FAILURE)
  end.
Definition update_thread_cv_state (t : runner_id_t) (new_state : condition_variable_status) : eff store unit :=
  let! found := find_node (of_thread t) in
  match found with
  | Some _ => write_node found (set_cv_state new_state)
  | None => throw (ExitCalled EXIT_FAILURE)
  end.
Definition get_waiting_thread_node : eff store runner_id_t :=
  let! found := find_node (λ n, bool_decide (thread_cv_state n = CV_WAITING)) in
  match found with
  | Some _ => let! n := read_node found in ret (thread n)
  | None => ret RID_INVALID
  end.

(** The loop of [remove_thread_from_queue]: [current->next] is looked at. *)
Fixpoint remove_loop (fuel : nat) (tid : runner_id_t) (current : addr) : eff store Z :=
  match fuel with
  | O => throw LoopBound
  | S fuel =>
      let! cur := read_node (Some current) in
      match next cur with
      | None => ret (-1)%Z
      | Some to_remove =>
          let! n := read_node (Some to_remove) in
          if of_thread tid n then
            do! write_node (Some current) (set_next (next n)) in
            do! modify_store (λ s, if bool_decide (rear (queue s) = Some to_remove)
                                   then set_rear (Some current) s else s) in
            do! free (Some to_remove) in
            do! modify_store (add_size (-1)) in
            ret 0%Z
          else remove_loop fuel tid to_remove
      end
  end.
Definition remove_thread_from_queue (tid : runner_id_t) : eff store Z :=
  let! s := get in
  match front (queue s) with
  | None => ret (-1)%Z
  | Some a =>
      let! n := read_node (Some a) in
      if of_thread tid n then
        do! modify_store (set_front (next n)) in
        do! modify_store (λ s, match front (queue s) with None => set_rear None s | _ => s end) in
        do! free (Some a) in
        do! modify_store (add_size (-1)) in
        ret 0%Z
      else remove_loop (S (size (nodes s))) tid a
  end.

(** ** The specification: a list of entries *)

Inductive queue_op :=
  | Enqueue (t : runner_id_t) (cv_state : condition_variable_status)
  | Dequeue
  | Peek
  | IsIn (t : runner_id_t)
  | IsEmpty
  | GetState (t : runner_id_t)
  | UpdateState (t : runner_id_t) (new_state : condition_variable_status)
  | GetWaiting
  | Remove (t : runner_id_t).

Inductive value := VUnit | VRid (t : runner_id_t) | VBool (b : bool)
  | VState (st : condition_variable_status) | VInt (z : Z).

Definition returns {A} (f : A → value) (m : eff store A) : eff store value := let! a := m in ret (f a).

Definition run_op (op : queue_op) : eff store value :=
  match op with
  | Enqueue t st => returns (λ _, VUnit) (enqueue_thread t st)
  | Dequeue => returns VRid dequeue_thread
  | Peek => returns VRid peek_thread
  | IsIn t => returns VBool (is_in_thread_queue t)
  | IsEmpty => returns VBool is_queue_empty
  | GetState t => returns VState (get_thread_cv_state t)
  | UpdateState t st => returns (λ _, VUnit) (update_thread_cv_state t st)
  | GetWaiting => returns VRid get_waiting_thread_node
  | Remove t => returns VInt (remove_thread_from_queue t)
  end.
End operations.

Definition is_thread (t : runner_id_t) (e : entry) : Prop := e.1 = t.
Definition is_waiting (e : entry) : Prop := e.2 = CV_WAITING.
#[export] Instance is_thread_dec t e : Decision (is_thread t e).
Proof. unfold is_thread. apply _. Defined.
#[export] Instance is_waiting_dec e : Decision (is_waiting e).
Proof. unfold is_waiting. apply _. Defined.

(** The result, the entries after and the change of [size]. *)
Definition spec_op (op : queue_op) (l : list entry) : res value * list entry * Z :=
  let fails := (Throw (ExitCalled EXIT_FAILURE), l, 0%Z) in
  match op with
  | Enqueue t st => (Ok VUnit, l ++ [(t, st)], 1%Z)
  | Dequeue =>
      match l with
      | [] => fails
      | _ => match list_find is_waiting l with
             | Some (i, (t, _)) => (Ok (VRid t), drop (S i) l, (-1)%Z)
             | None => (Ok (VRid RID_INVALID), [], 0%Z)
             end
      end
  | Peek => match l with [] => fails | (t, _) :: _ => (Ok (VRid t), l, 0%Z) end
  | IsIn t => (Ok (VBool (bool_decide (t ∈ l.*1))), l, 0%Z)
  | IsEmpty => (Ok (VBool (bool_decide (l = []))), l, 0%Z)
  | GetState t =>
      match list_find (is_thread t) l with
      | Some (_, (_, st)) => (Ok (VState st), l, 0%Z)
      | None => fails
      end
  | UpdateState t st =>
      match list_find (is_thread t) l with
      | Some (i, _) => (Ok VUnit, <[i := (t, st)]> l, 0%Z)
      | None => fails
      end
  | GetWaiting =>
      (Ok (VRid match list_find is_waiting l with Some (_, (t, _)) => t | None => RID_INVALID end), l, 0%Z)
  | Remove t =>
      match list_find (is_thread t) l with
      | Some (i, _) => (Ok (VInt 0), delete i l, (-1)%Z)
      | None => (Ok (VInt (-1)), l, 0%Z)
      end
  end.

(** ** Representation *)

(** The nodes from [p] to [q], with their addresses. *)
Fixpoint segment (h : gmap N thread_queue_node) (p : option addr) (l : list (addr * entry)) (q : option addr) : Prop :=
  match l with
  | [] => p = q
  | (a, (t, st)) :: l => p = Some a ∧ ∃ n, h !! a = Some (ThreadQueueNode t st n) ∧ segment h n l q
  end.

Record represents (s : store) (l : list (addr * entry)) : Prop := Represents {
  rp_nodes : segment (nodes s) (front (queue s)) l None;
  rp_rear : rear (queue s) = last l.*1;
  rp_NoDup : NoDup l.*1;
}.

Lemma segment_app h p l1 l2 q : segment h p (l1 ++ l2) q ↔ ∃ m, segment h p l1 m ∧ segment h m l2 q.
Proof.
  revert p. induction l1 as [|[a [t st]] l1 IH]; intros p; simpl.
  - split; [eauto|]. by intros (? & -> & ?).
  - setoid_rewrite IH. naive_solver.
Qed.
Lemma segment_frame h h' p l q :
  (∀ a, a ∈ l.*1 → h' !! a = h !! a) → segment h p l q → segment h' p l q.
Proof.
  revert p. induction l as [|[a [t st]] l IH]; intros p Hh; simpl; [done|].
  intros [-> (n & Ha & Hl)]. split; [done|]. exists n. split.
  - rewrite Hh; [done|]. left.
  - apply IH; [|done]. intros b Hb. apply Hh. by right.
Qed.
Lemma segment_insert h p l q a n : a ∉ l.*1 → segment h p l q → segment (<[a := n]> h) p l q.
Proof. intros Ha. apply segment_frame. intros b Hb. by rewrite lookup_insert_ne by congruence. Qed.
Lemma segment_delete h p l q a : a ∉ l.*1 → segment h p l q → segment (delete a h) p l q.
Proof. intros Ha. apply segment_frame. intros b Hb. by rewrite lookup_delete_ne by congruence. Qed.
Lemma segment_elem h p l q a : segment h p l q → a ∈ l.*1 → is_Some (h !! a).
Proof.
  revert p. induction l as [|[b [t st]] l IH]; intros p; simpl; [by intros _ ?%elem_of_nil|].
  intros [_ (n & Hb & Hl)] [->|?]%elem_of_cons; [by eexists|by eapply IH].
Qed.
Lemma segment_length h p l q : NoDup l.*1 → segment h p l q → length l ≤ size h.
Proof.
  intros Hnd Hs. rewrite <- (length_fmap fst l), <- size_dom, <- (size_list_to_set (C := gset N)) by done.
  apply subseteq_size. intros a Ha%elem_of_list_to_set. apply elem_of_dom. by eapply segment_elem.
Qed.

Lemma read_node_ok s a n : nodes s !! a = Some n → read_node (Some a) s = (Ok n, s).
Proof. intros Ha. unfold read_node, query. simpl. by rewrite Ha. Qed.
Lemma write_node_ok s a n f :
  nodes s !! a = Some n → write_node (Some a) f s = (Ok tt, set_nodes (<[a := f n]> (nodes s)) s).
Proof. intros Ha. unfold write_node, ebind, query. simpl. by rewrite Ha. Qed.

(** One step of a sequence of effects. *)
Lemma ebind_run {S A B} (m : eff S A) (f : A → eff S B) s a s1 : m s = (Ok a, s1) → ebind m f s = f a s1.
Proof. intros Hm. unfold ebind. by rewrite Hm. Qed.

(** What a walk finds: the first node with a property of its entry. *)
Section walk.
Context (Q : entry → Prop) `{∀ e, Decision (Q e)} (P : thread_queue_node → bool).
Context (HP : ∀ n, P n = bool_decide (Q (thread n, thread_cv_state n))).

Lemma walk_segment fuel s p l :
  segment (nodes s) p l None → length l < fuel →
  walk fuel P p s = (Ok ((λ x, x.2.1) <$> list_find (Q ∘ snd) l), s).
Proof using HP.
  revert p fuel. induction l as [|[a [t st]] l IH]; intros p [|fuel] Hs Hf; simpl in *; [lia| |lia|].
  - by subst p.
  - destruct Hs as [-> (n & Ha & Hl)]. rewrite (ebind_run _ _ _ _ _ (read_node_ok _ _ _ Ha)), HP. simpl.
    case_bool_decide; case_decide; try done. rewrite IH by (done || lia). do 2 f_equal.
    by destruct (list_find (Q ∘ snd) l) as [[]|].
Qed.
Lemma find_node_represents s l :
  represents s l → find_node P s = (Ok ((λ x, x.2.1) <$> list_find (Q ∘ snd) l), s).
Proof using HP.
  intros [Hs _ Hnd]. unfold find_node, ebind, get. apply walk_segment; [done|].
  pose proof (segment_length _ _ _ _ Hnd Hs). lia.
Qed.
Lemma find_node_some s l i a e :
  represents s l → list_find (Q ∘ snd) l = Some (i, (a, e)) → find_node P s = (Ok (Some a), s).
Proof using HP. intros Hl Hf. by rewrite (find_node_represents _ _ Hl), Hf. Qed.
Lemma find_node_none s l :
  represents s l → list_find (Q ∘ snd) l = None → find_node P s = (Ok None, s).
Proof using HP. intros Hl Hf. by rewrite (find_node_represents _ _ Hl), Hf. Qed.
(** The node found is in the heap, with its entry. *)
Lemma found_node s l i a e :
  represents s l → list_find (Q ∘ snd) l = Some (i, (a, e)) →
  ∃ l1 l2 n, l = l1 ++ (a, e) :: l2 ∧ i = length l1 ∧ Q e ∧ nodes s !! a = Some (ThreadQueueNode e.1 e.2 n) ∧
    segment (nodes s) (front (queue s)) l1 (Some a) ∧ segment (nodes s) n l2 None ∧
    Forall (λ x, ¬ Q x.2) l1.
Proof.
  intros [Hs _ _] (Hi & HQ & Hnot)%list_find_Some.
  pose proof (list_elem_of_split_length _ _ _ Hi) as (l1 & l2 & -> & Hlen).
  apply segment_app in Hs as (m & H1 & H2). destruct e as [t st]. simpl in H2.
  destruct H2 as [-> (n & Ha & H2)]. exists l1, l2, n. split_and!; try done.
  apply Forall_lookup. intros j y Hj. apply (Hnot j y); [|by apply lookup_lt_Some in Hj; lia].
  by apply lookup_app_l_Some.
Qed.
End walk.

(** ** Refinement *)

Section refinement.
Context (malloc : gmap N thread_queue_node → option addr) (garbage : thread_queue_node).
Context (malloc_fresh : ∀ h a, malloc h = Some a → h !! a = None).

(** The operation gives the result of its specification, and its state represents the
entries the specification has then. *)
Definition refines (op : queue_op) (s : store) (l : list (addr * entry)) : Prop :=
  let '(r, entries, change) := spec_op op l.*2 in
  ∃ s' l', run_op malloc garbage op s = (r, s') ∧ represents s' l' ∧ l'.*2 = entries ∧
    qsize (queue s') = (qsize (queue s) + change)%Z.

Lemma refines_same op s l r :
  spec_op op l.*2 = (r, l.*2, 0%Z) → run_op malloc garbage op s = (r, s) → represents s l → refines op s l.
Proof.
  intros Hspec Hrun Hl. unfold refines. rewrite Hspec. exists s, l. split_and!; [done..|lia].
Qed.

Lemma found_snd (Q : entry → Prop) `{∀ e, Decision (Q e)} (l : list (addr * entry)) :
  list_find Q l.*2 = prod_map id snd <$> list_find (Q ∘ snd) l.
Proof. apply list_find_fmap. Qed.

Lemma is_thread_node t n : of_thread t n = bool_decide (is_thread t (thread n, thread_cv_state n)).
Proof. done. Qed.

Lemma refines_peek s l : represents s l → refines Peek s l.
Proof.
  intros Hl. pose proof Hl as [Hs _ _]. destruct l as [|[a [t st]] l]; simpl in Hs.
  - eapply refines_same; [done| |done]. unfold run_op, returns, peek_thread, ebind, get. by rewrite Hs.
  - destruct Hs as [Hf (n & Ha & _)]. eapply refines_same; [done| |done].
    unfold run_op, returns, peek_thread. simpl. unfold ebind, get. rewrite Hf.
    rewrite (read_node_ok _ _ _ Ha). done.
Qed.
Lemma refines_is_empty s l : represents s l → refines IsEmpty s l.
Proof.
  intros Hl. eapply refines_same; [done| |done]. pose proof Hl as [Hs _ _].
  unfold run_op, returns, is_queue_empty, ebind, get, ret. do 3 f_equal.
  apply bool_decide_ext. destruct l as [|[a [t st]] l]; simpl in *; [done|]. destruct Hs as [-> _]. done.
Qed.

Lemma refines_is_in t s l : represents s l → refines (IsIn t) s l.
Proof.
  intros Hl. eapply refines_same; [done| |done]. unfold run_op, returns, is_in_thread_queue, ebind, ret.
  rewrite (find_node_represents (is_thread t) (of_thread t) (is_thread_node t) _ _ Hl). do 3 f_equal. apply bool_decide_ext. rewrite fmap_is_Some, list_elem_of_fmap.
  destruct (list_find (is_thread t ∘ snd) l) as [[i [a e]]|] eqn:Hfind.
  - apply list_find_Some in Hfind as (Hi & He & _). split; [|eauto]. intros _. exists e. split; [done|].
    apply list_elem_of_fmap. exists (a, e). split; [done|]. by apply list_elem_of_lookup_2 in Hi.
  - apply list_find_None in Hfind. split; [by intros [? ?]|]. intros (e & -> & ([a e'] & -> & Hin)%list_elem_of_fmap).
    rewrite Forall_forall in Hfind. by destruct (Hfind _ Hin).
Qed.

Lemma refines_get_state t s l : represents s l → refines (GetState t) s l.
Proof.
  intros Hl. assert (spec_op (GetState t) l.*2 = match prod_map id snd <$> list_find (is_thread t ∘ snd) l with
    | Some (_, (_, st)) => (Ok (VState st), l.*2, 0%Z)
    | None => (Throw (ExitCalled EXIT_FAILURE), l.*2, 0%Z) end) as Hspec by by rewrite <- found_snd.
  destruct (list_find (is_thread t ∘ snd) l) as [[i [a [t' st]]]|] eqn:Hfind; simpl in Hspec.
  - eapply refines_same; [done| |done]. unfold run_op, returns, get_thread_cv_state, ebind, ret.
    destruct (found_node (is_thread t) _ _ _ _ _ Hl Hfind) as (l1 & l2 & n & _ & _ & _ & Ha & _). simpl in Ha.
    rewrite (find_node_some _ _ (is_thread_node t) _ _ _ _ _ Hl Hfind), (read_node_ok _ _ _ Ha). done.
  - eapply refines_same; [done| |done]. unfold run_op, returns, get_thread_cv_state, ebind.
    by rewrite (find_node_none _ _ (is_thread_node t) _ _ Hl Hfind).
Qed.
Lemma refines_get_waiting s l : represents s l → refines GetWaiting s l.
Proof.
  intros Hl. assert (spec_op GetWaiting l.*2 = (Ok (VRid match prod_map id snd <$> list_find (is_waiting ∘ snd) l with
    | Some (_, (t, _)) => t | None => RID_INVALID end), l.*2, 0%Z)) as Hspec by by rewrite <- found_snd.
  assert (∀ n, bool_decide (thread_cv_state n = CV_WAITING) = bool_decide (is_waiting (thread n, thread_cv_state n))) as HP by done.
  destruct (list_find (is_waiting ∘ snd) l) as [[i [a [t' st]]]|] eqn:Hfind; simpl in Hspec.
  - eapply refines_same; [done| |done]. unfold run_op, returns, get_waiting_thread_node, ebind, ret.
    destruct (found_node is_waiting _ _ _ _ _ Hl Hfind) as (l1 & l2 & n & _ & _ & _ & Ha & _). simpl in Ha.
    rewrite (find_node_some _ _ HP _ _ _ _ _ Hl Hfind), (read_node_ok _ _ _ Ha). done.
  - eapply refines_same; [done| |done]. unfold run_op, returns, get_waiting_thread_node, ebind.
    by rewrite (find_node_none _ _ HP _ _ Hl Hfind).
Qed.

Lemma NoDup_middle (l1 l2 : list (addr * entry)) a e :
  NoDup (l1 ++ ((a, e) :: l2)).*1 → (a ∉ l1.*1) ∧ (a ∉ l2.*1) ∧ NoDup (l1 ++ l2).*1.
Proof.
  rewrite !fmap_app, fmap_cons. simpl. intros (Hd1 & Hnot & (Ha & Hd2)%NoDup_cons)%NoDup_app.
  split_and!; [|done|].
  - intros Hin. apply (Hnot a Hin). left.
  - apply NoDup_app. split_and!; [done| |done]. intros b Hb Hb2. apply (Hnot b Hb). by right.
Qed.

Lemma refines_update_state t st s l : represents s l → refines (UpdateState t st) s l.
Proof.
  intros Hl. unfold refines, spec_op. rewrite found_snd.
  destruct (list_find (is_thread t ∘ snd) l) as [[i [a [t' st']]]|] eqn:Hfind; cbn [fmap option_fmap option_map prod_map].
  - destruct (found_node (is_thread t) _ _ _ _ _ Hl Hfind) as (l1 & l2 & n & -> & -> & Ht & Ha & H1 & H2 & _).
    simpl in Ha. unfold is_thread in Ht. simpl in Ht. subst t'. pose proof Hl as [_ Hr Hnd].
    apply NoDup_middle in Hnd as Hmid. destruct Hmid as (Hn1 & Hn2 & _).
    eexists _, (l1 ++ (a, (t, st)) :: l2). split; [|split_and!].
    + unfold run_op, returns, update_thread_cv_state, ebind, ret.
      rewrite (find_node_some _ _ (is_thread_node t) _ _ _ _ _ Hl Hfind), (write_node_ok _ _ _ _ Ha). done.
    + split; simpl.
      * apply segment_app. exists (Some a). split; [by apply segment_insert|]. simpl. split; [done|].
        exists n. rewrite lookup_insert_eq. split; [done|by apply segment_insert].
      * rewrite Hr. by rewrite !fmap_app.
      * by rewrite fmap_app in *.
    + simpl. rewrite !fmap_app. simpl. rewrite <- (length_fmap snd l1), <- (Nat.add_0_r (length _)), insert_app_r. done.
    + simpl. lia.
  - exists s, l. split_and!; [|done|done|lia]. unfold run_op, returns, update_thread_cv_state, ebind.
    by rewrite (find_node_none _ _ (is_thread_node t) _ _ Hl Hfind).
Qed.

(** [malloc] is not asked for, or gives an address. *)
Definition allocates (op : queue_op) (s : store) : Prop :=
  match op with Enqueue _ _ => is_Some (malloc (nodes s)) | _ => True end.

Lemma segment_snoc h p l b e a t st :
  segment h p (l ++ [(b, e)]) None → NoDup (l ++ [(b, e)]).*1 → a ∉ (l ++ [(b, e)]).*1 →
  segment (<[b := ThreadQueueNode e.1 e.2 (Some a)]> (<[a := ThreadQueueNode t st None]> h)) p
    ((l ++ [(b, e)]) ++ [(a, (t, st))]) None.
Proof.
  intros (m & H1 & H2)%segment_app (Hb & _ & _)%NoDup_middle Ha. destruct e as [t' st']. simpl in H2.
  rewrite fmap_app, elem_of_app in Ha. apply Decidable.not_or in Ha as [Ha1 Ha2]. simpl in Ha2.
  destruct H2 as [-> (n & Hn & ->)]. rewrite <- app_assoc. apply segment_app. exists (Some b). split.
  - by apply segment_insert, segment_insert.
  - simpl. split; [done|]. exists (Some a). rewrite lookup_insert_eq. split; [done|]. split; [done|].
    exists None. rewrite lookup_insert_ne, lookup_insert_eq; [done|]. intros ->. apply Ha2. left.
Qed.

Lemma refines_enqueue t st s l :
  represents s l → is_Some (malloc (nodes s)) → refines (Enqueue t st) s l.
Proof using malloc_fresh.
  intros Hl [a Ha]. pose proof Hl as [Hs Hr Hnd]. apply malloc_fresh in Ha as Hfree.
  assert (a ∉ l.*1) as Hnot. { intros Hin. destruct (segment_elem _ _ _ _ _ Hs Hin). congruence. }
  set (h1 := <[a := ThreadQueueNode t st None]> (nodes s)).
  assert (create_thread_queue_node malloc garbage s = (Ok a, set_nodes (<[a := set_next None garbage]> (nodes s)) s)) as Hnew.
  { unfold create_thread_queue_node, ebind, get. by rewrite Ha. }
  unfold refines. cbn [spec_op]. unfold run_op, returns, enqueue_thread, ebind. rewrite Hnew.
  erewrite write_node_ok by apply lookup_insert_eq. unfold set_nodes. cbn [nodes queue get].
  rewrite insert_insert_eq. cbn [set_next next]. fold h1.
  destruct l as [|[b e] l _] using rev_ind.
  - rewrite Hr. simpl in *. eexists _, [(a, (t, st))]. split_and!; [done| |done|done].
    split; simpl; [|done|by apply NoDup_singleton]. split; [done|]. exists None. unfold h1. by rewrite lookup_insert_eq.
  - rewrite fmap_app in Hr. simpl in Hr. rewrite last_snoc in Hr. rewrite Hr.
    assert (∃ n, h1 !! b = Some (ThreadQueueNode e.1 e.2 n)) as [n Hb].
    { apply segment_app in Hs as (m & _ & H2). destruct e as [t' st']. simpl in H2. destruct H2 as [-> (n & Hn & _)].
      exists n. unfold h1. rewrite lookup_insert_ne; [done|]. intros ->. congruence. }
    erewrite write_node_ok by exact Hb. cbn [modify_store set_nodes nodes queue].
    eexists _, ((l ++ [(b, e)]) ++ [(a, (t, st))]). split_and!; [done| |by rewrite (fmap_app snd (l ++ _))|done].
    split; simpl.
    + by apply segment_snoc.
    + rewrite fmap_app. simpl. by rewrite last_snoc.
    + rewrite fmap_app. apply NoDup_app. split_and!; [done| |by apply NoDup_singleton].
      intros x Hx ->%list_elem_of_singleton. done.
Qed.

(** Unlinking the node after [c]. *)
Lemma unlink s l1 c ec b eb l2 :
  represents s (l1 ++ (c, ec) :: (b, eb) :: l2) →
  ∃ n, nodes s !! c = Some (ThreadQueueNode ec.1 ec.2 (Some b)) ∧
    nodes s !! b = Some (ThreadQueueNode eb.1 eb.2 n) ∧
    represents (set_nodes (delete b (<[c := ThreadQueueNode ec.1 ec.2 n]> (nodes s)))
      (if bool_decide (rear (queue s) = Some b) then set_rear (Some c) s else s)) (l1 ++ (c, ec) :: l2).
Proof.
  destruct ec as [tc sc], eb as [tb sb]. intros [Hs Hr Hnd]. apply NoDup_middle in Hnd as Hc.
  destruct Hc as (Hc1 & Hc2 & _).
  replace (l1 ++ (c, (tc, sc)) :: (b, (tb, sb)) :: l2) with ((l1 ++ [(c, (tc, sc))]) ++ (b, (tb, sb)) :: l2) in Hnd
    by by rewrite <- app_assoc.
  apply NoDup_middle in Hnd. destruct Hnd as (Hb1 & Hb2 & Hnd). rewrite <- app_assoc in Hnd. simpl in Hnd.
  rewrite fmap_app, not_elem_of_app in Hb1. simpl in Hb1. destruct Hb1 as [Hb1 Hbc].
  rewrite list_elem_of_singleton in Hbc. simpl in Hc2. rewrite not_elem_of_cons in Hc2. destruct Hc2 as [_ Hc2].
  apply segment_app in Hs as (m & H1 & H2). simpl in H2.
  destruct H2 as (-> & n0 & Hnc & -> & n & Hnb & H2). exists n. split_and!; [done|done|]. split.
  - assert (front (queue (if bool_decide (rear (queue s) = Some b) then set_rear (Some c) s else s)) =
      front (queue s)) as Hf by by case_bool_decide.
    simpl. rewrite Hf. apply segment_app. exists (Some c). split.
    + by apply segment_delete, segment_insert.
    + simpl. split; [done|]. exists n. rewrite lookup_delete_ne, lookup_insert_eq by congruence.
      split; [done|]. by apply segment_delete, segment_insert.
  - rewrite fmap_app, !fmap_cons in Hr. rewrite last_app_cons, last_cons_cons, last_cons in Hr.
    rewrite fmap_app, fmap_cons, last_app_cons, last_cons. simpl. rewrite Hr. destruct (last l2.*1) as [y|] eqn:Hy.
    + rewrite bool_decide_eq_false_2; [done|]. intros [= ->]. by apply last_Some_elem_of in Hy.
    + by rewrite bool_decide_eq_true_2.
  - done.
Qed.

Lemma remove_loop_spec tid fuel s l1 c ec l2 :
  represents s (l1 ++ (c, ec) :: l2) → length l2 < fuel →
  match list_find (is_thread tid ∘ snd) l2 with
  | None => remove_loop fuel tid c s = (Ok (-1)%Z, s)
  | Some (j, _) => ∃ s', remove_loop fuel tid c s = (Ok 0%Z, s') ∧
      represents s' (l1 ++ (c, ec) :: delete j l2) ∧ qsize (queue s') = (qsize (queue s) - 1)%Z
  end.
Proof.
  revert fuel l1 c ec. induction l2 as [|[b eb] l2 IH]; intros [|fuel] l1 c ec Hl Hf; simpl in Hf; [lia| |lia|].
  - pose proof Hl as [Hs _ _]. apply segment_app in Hs as (m & _ & H2). destruct ec as [tc sc]. simpl in H2.
    destruct H2 as (-> & n & Hn & ->). simpl. by rewrite (ebind_run _ _ _ _ _ (read_node_ok _ _ _ Hn)).
  - pose proof (unlink _ _ _ _ _ _ _ Hl) as (n & Hc & Hb & Hun). cbn [list_find remove_loop].
    rewrite (ebind_run _ _ _ _ _ (read_node_ok _ _ _ Hc)). cbn [next].
    rewrite (ebind_run _ _ _ _ _ (read_node_ok _ _ _ Hb)).
    rewrite is_thread_node. cbn [thread thread_cv_state]. rewrite <- surjective_pairing.
    destruct (decide ((is_thread tid ∘ snd) (b, eb))) as [Ht|Ht];
      [rewrite (bool_decide_eq_true_2 (is_thread tid eb)) by done|rewrite (bool_decide_eq_false_2 (is_thread tid eb)) by done].
    + eexists. rewrite (ebind_run _ _ _ _ _ (write_node_ok _ _ _ _ Hc)). split; [done|].
      revert Hun. simpl. destruct (bool_decide (rear (queue s) = Some b)); intros [? ? ?]; simpl in *;
        (split; [by split|lia]).
    + specialize (IH fuel (l1 ++ [(c, ec)]) b eb). rewrite <- !app_assoc in IH. specialize (IH Hl ltac:(lia)).
      destruct (list_find (is_thread tid ∘ snd) l2) as [[j y]|]; simpl; [|done].
      rewrite <- app_assoc in IH. done.
Qed.

(** A queue some of whose first nodes were skipped: [rear] is right while nodes are left. *)
Record skipped (s : store) (l : list (addr * entry)) : Prop := Skipped {
  sk_nodes : segment (nodes s) (front (queue s)) l None;
  sk_rear : l ≠ [] → rear (queue s) = last l.*1;
  sk_NoDup : NoDup l.*1;
}.
Lemma represents_skipped s l : represents s l → skipped s l.
Proof. intros [? ? ?]. by split. Qed.

Lemma skipped_tail s a e l n :
  skipped s ((a, e) :: l) → nodes s !! a = Some n →
  skipped (set_front (next n) s) l ∧ segment (delete a (nodes s)) (next n) l None ∧
  match next n with None => None | _ => rear (queue s) end = last l.*1 ∧
  thread n = e.1 ∧ thread_cv_state n = e.2.
Proof.
  destruct e as [t st]. intros [Hs Hr Hnd] Ha. simpl in Hs. destruct Hs as (_ & n0 & Hn & Hl).
  rewrite Ha in Hn. injection Hn as ->. rewrite fmap_cons, NoDup_cons in Hnd. destruct Hnd as [Hnot Hnd].
  specialize (Hr ltac:(done)). rewrite fmap_cons, last_cons in Hr.
  assert (l ≠ [] → rear (queue s) = last l.*1) as Hrear.
  { intros Hne. rewrite Hr. destruct (last l.*1) eqn:Hlast; [done|]. apply last_None in Hlast.
    by apply fmap_nil_inv in Hlast. }
  split_and!; [by split|by apply segment_delete| |done|done]. simpl.
  destruct l as [|[b [t' st']] l]; simpl in Hl; [by subst n0|]. destruct Hl as [-> _]. by apply Hrear.
Qed.

Lemma refines_remove tid s l : represents s l → refines (Remove tid) s l.
Proof.
  intros Hl. pose proof Hl as [Hs _ Hnd]. unfold refines, spec_op. rewrite found_snd.
  unfold run_op, returns, remove_thread_from_queue, ebind, get.
  destruct l as [|[a e] l].
  { simpl in Hs. rewrite Hs. exists s, []. split_and!; [done..|simpl; lia]. }
  assert (front (queue s) = Some a ∧ ∃ n, nodes s !! a = Some n) as [Hf [n Ha]].
  { destruct e as [t st]. simpl in Hs. destruct Hs as [? (? & ? & ?)]. eauto. }
  pose proof (skipped_tail _ _ _ _ _ (represents_skipped _ _ Hl) Ha) as ([_ _ Hnd'] & Htl & Hrear & Ht & Hst).
  rewrite Hf, (read_node_ok _ _ _ Ha), is_thread_node, Ht, Hst, <- surjective_pairing. cbn [list_find].
  destruct (decide ((is_thread tid ∘ snd) (a, e))) as [Hd|Hd];
    [rewrite (bool_decide_eq_true_2 (is_thread tid e)) by done|rewrite (bool_decide_eq_false_2 (is_thread tid e)) by done].
  - exists (Store (delete a (nodes s)) (ThreadQueue (next n)
      match next n with None => None | _ => rear (queue s) end (qsize (queue s) - 1))), l.
    split_and!; [|by split|done|done]. simpl. unfold free, ebind. simpl. by destruct (next n).
  - pose proof (segment_length _ _ _ _ Hnd Hs) as Hlen. simpl in Hlen.
    pose proof (remove_loop_spec tid (S (size (nodes s))) s [] a e l Hl ltac:(lia)) as Hloop.
    destruct (list_find (is_thread tid ∘ snd) l) as [[j y]|]; cbn [fmap option_fmap option_map prod_map].
    + destruct Hloop as (s' & Hrun & Hrep & Hsz). exists s', ((a, e) :: delete j l). rewrite Hrun.
      split_and!; [done|done| |lia]. rewrite !fmap_cons. simpl. f_equal. apply list_fmap_delete.
    + rewrite Hloop. exists s, ((a, e) :: l). split_and!; [done..|lia].
Qed.

Lemma dequeue_loop_spec fuel s l :
  skipped s l → length l < fuel →
  match list_find (is_waiting ∘ snd) l with
  | None => dequeue_loop fuel s = (Ok RID_INVALID, set_front None s)
  | Some (i, (_, (t, _))) => ∃ s', dequeue_loop fuel s = (Ok t, s') ∧
      represents s' (drop (S i) l) ∧ qsize (queue s') = (qsize (queue s) - 1)%Z
  end.
Proof.
  revert fuel s. induction l as [|[a e] l IH]; intros [|fuel] s Hl Hf; simpl in Hf; [lia| |lia|].
  - destruct Hl as [Hs _ _], s as [h [p r z]]. simpl in *. by subst p.
  - pose proof Hl as [Hs _ _].
    assert (front (queue s) = Some a ∧ ∃ n, nodes s !! a = Some n) as [Hfr [n Ha]].
    { destruct e as [t st]. simpl in Hs. destruct Hs as [? (? & ? & ?)]. eauto. }
    pose proof (skipped_tail _ _ _ _ _ Hl Ha) as (Hsk & Htl & Hrear & Ht & Hst).
    set (q := ThreadQueue (next n) match next n with None => None | _ => rear (queue s) end (qsize (queue s) - 1)).
    assert (dequeue_loop (S fuel) s = if bool_decide (is_waiting e) then (Ok e.1, Store (delete a (nodes s)) q)
      else dequeue_loop fuel (set_front (next n) s)) as ->.
    { cbn [dequeue_loop]. unfold ebind, get. rewrite Hfr, (read_node_ok _ _ _ Ha). rewrite Ht, Hst.
      unfold is_waiting. case_bool_decide; case_bool_decide; try done. unfold q, modify_store, free, ebind, ret. simpl. by destruct (next n). }
    cbn [list_find].
    destruct (decide ((is_waiting ∘ snd) (a, e))) as [Hw|Hw];
      [rewrite bool_decide_eq_true_2 by done|rewrite bool_decide_eq_false_2 by done].
    + destruct e as [t st]. exists (Store (delete a (nodes s)) q).
      split_and!; [done|split; [done..|apply Hsk]|done].
    + specialize (IH fuel _ Hsk ltac:(lia)).
      destruct (list_find (is_waiting ∘ snd) l) as [[i [b [t st]]]|]; exact IH.
Qed.

Lemma refines_dequeue s l :
  represents s l → (l ≠ [] → ¬ Forall (λ e, ¬ is_waiting e) l.*2) → refines Dequeue s l.
Proof.
  intros Hl Hex. pose proof Hl as [Hs _ Hnd]. pose proof (segment_length _ _ _ _ Hnd Hs) as Hlen.
  unfold refines, spec_op. rewrite found_snd. unfold run_op, returns, dequeue_thread, ebind, get.
  destruct l as [|[a e] l].
  { simpl in Hs. rewrite Hs. exists s, []. split_and!; [done..|simpl; lia]. }
  assert (front (queue s) = Some a) as -> by (destruct e; by destruct Hs).
  pose proof (dequeue_loop_spec (S (size (nodes s))) s _ (represents_skipped _ _ Hl) ltac:(lia)) as Hloop.
  destruct (list_find (is_waiting ∘ snd) ((a, e) :: l)) as [[i [b [t st]]]|] eqn:Hfind.
  - destruct Hloop as (s' & Hrun & Hrep & Hsz). rewrite Hrun. rewrite fmap_cons. cbn [fmap option_fmap option_map prod_map].
    eexists s', _. split_and!; [done|exact Hrep| |simpl; lia]. simpl. by rewrite fmap_drop.
  - destruct Hex; [done|]. apply list_find_None in Hfind. by apply Forall_fmap.
Qed.

(** The one case where the queue does not do what its operations promise. *)
Definition no_waiting_thread (op : queue_op) (l : list entry) : Prop :=
  op = Dequeue ∧ l ≠ [] ∧ Forall (λ e, ¬ is_waiting e) l.

(** C26: a queue of threads is a list.  Every operation on a queue that represents a
list of threads and states gives the result of the list operation, exits included,
and leaves a queue that represents the list after it, with [size] changed by what
the operation counts (a dequeue counts one out, however many nodes it skips); except
[dequeue_thread] when threads are queued and none of them is
waiting, and an [enqueue_thread] that gets no memory. *)
Theorem refines_list op s l :
  represents s l → allocates op s → ¬ no_waiting_thread op l.*2 → refines op s l.
Proof using malloc_fresh.
  intros Hl Hal Hok. destruct op as [t st| | |t| |t|t st| |t].
  - by apply refines_enqueue.
  - apply refines_dequeue; [done|]. intros Hne Hno. apply Hok. split_and!; [done| |done]. by destruct l.
  - by apply refines_peek.
  - by apply refines_is_in.
  - by apply refines_is_empty.
  - by apply refines_get_state.
  - by apply refines_update_state.
  - by apply refines_get_waiting.
  - by apply refines_remove.
Qed.

(** A failed dequeue loses the queue.  When threads are queued and none is
waiting, [dequeue_thread] answers that there is none, drops all the nodes without
freeing them or counting them out, and leaves [rear] at the last of them: a thread
queued afterwards is linked behind that node, so the queue stays empty. *)
Theorem failed_dequeue_loses_queue s l t st :
  represents s l → no_waiting_thread Dequeue l.*2 → is_Some (malloc (nodes s)) →
  ∃ s1 s2,
    run_op malloc garbage Dequeue s = (Ok (VRid RID_INVALID), s1) ∧ nodes s1 = nodes s ∧
    qsize (queue s1) = qsize (queue s) ∧
    run_op malloc garbage (Enqueue t st) s1 = (Ok VUnit, s2) ∧
    qsize (queue s2) = (qsize (queue s) + 1)%Z ∧
    run_op malloc garbage IsEmpty s2 = (Ok (VBool true), s2) ∧
    run_op malloc garbage (IsIn t) s2 = (Ok (VBool false), s2).
Proof using malloc_fresh.
  intros Hl (_ & Hne & Hno) [a Ha]. pose proof Hl as [Hs Hr Hnd]. apply malloc_fresh in Ha as Hfree.
  pose proof (segment_length _ _ _ _ Hnd Hs) as Hlen.
  set (s1 := set_front None s).
  assert (run_op malloc garbage Dequeue s = (Ok (VRid RID_INVALID), s1)) as Hd.
  { unfold run_op, returns, dequeue_thread, ebind, get.
    pose proof (dequeue_loop_spec (S (size (nodes s))) s l (represents_skipped _ _ Hl) ltac:(lia)) as Hloop.
    apply Forall_fmap, (list_find_None (is_waiting ∘ snd)) in Hno. rewrite Hno in Hloop.
    assert (∃ b, front (queue s) = Some b) as [b ->].
    { destruct l as [|[b [t' st']] l]; [done|]. destruct Hs. eauto. }
    by rewrite Hloop. }
  destruct l as [|[b e] l _] using rev_ind; [done|]. rewrite fmap_app in Hr. simpl in Hr. rewrite last_snoc in Hr.
  set (h1 := <[a := ThreadQueueNode t st None]> (nodes s)).
  assert (∃ n, h1 !! b = Some n) as [n Hb].
  { destruct (segment_elem _ _ _ _ b Hs) as [n Hb]; [rewrite fmap_app; apply elem_of_app; right; left|].
    exists n. unfold h1. rewrite lookup_insert_ne; [done|]. intros ->. congruence. }
  exists s1, (Store (<[b := set_next (Some a) n]> h1) (ThreadQueue None (Some a) (qsize (queue s) + 1))).
  split_and!; try done.
  unfold run_op, returns, enqueue_thread, ebind.
  assert (create_thread_queue_node malloc garbage s1 = (Ok a, set_nodes (<[a := set_next None garbage]> (nodes s)) s1)) as ->.
  { unfold create_thread_queue_node, ebind, get. simpl. by rewrite Ha. }
  erewrite write_node_ok by apply lookup_insert_eq. unfold set_nodes. cbn [nodes queue get].
  rewrite insert_insert_eq. cbn [set_next next]. fold h1.
  change (rear (queue s1)) with (rear (queue s)). rewrite Hr. by erewrite write_node_ok by exact Hb.
Qed.
End refinement.
