(* ===== verification/Objects.v ===== *)
(** * Visible objects

The object states of [include/mcmini/model/objects/] (mutex, semaphore, thread,
condition variable) and the history of states of an object,
[include/mcmini/model/visible_object.hpp].

A copy of a [condition_variable] shares its policy pointer with the original.
Every transition clones the policy before it changes it, so a policy reachable
from a recorded state is never mutated, and the model keeps policies by value.
The field [hadwaiters] is neither initialised nor read and is left out. *)

From stdpp Require Import options.
From S2P Require Import Prelude CondPolicy.

(** ** Mutexes *)

Inductive mutex_state := mutex_uninitialized | mutex_unlocked | mutex_locked | mutex_destroyed.
#[export] Instance mutex_state_eq_dec : EqDecision mutex_state.
Proof. solve_decision. Defined.

Record mutex := Mutex {
  mutex_current_state : mutex_state;
  location : addr;
  owner : runner_id_t;
}.
#[export] Instance mutex_eq_dec : EqDecision mutex.
Proof. solve_decision. Defined.

(** The constructor call [mutex(s, loc)], whose [tid] defaults to [RID_INVALID]. *)
Definition new_mutex (s : mutex_state) (loc : addr) : mutex := Mutex s loc RID_INVALID.

(** [operator==] compares state and owner, [operator!=] the state only. *)
Definition mutex_eq (m1 m2 : mutex) : bool :=
  bool_decide (mutex_current_state m1 = mutex_current_state m2) &&
  bool_decide (owner m1 = owner m2).
Definition mutex_neq (m1 m2 : mutex) : bool :=
  negb (bool_decide (mutex_current_state m1 = mutex_current_state m2)).
Definition is_locked_by (m : mutex) (tid : runner_id_t) : bool :=
  bool_decide (mutex_current_state m = mutex_locked) && bool_decide (owner m = tid).
Definition is_locked (m : mutex) : bool := bool_decide (mutex_current_state m = mutex_locked).
Definition is_unlocked (m : mutex) : bool := bool_decide (mutex_current_state m = mutex_unlocked).
Definition mutex_is_destroyed (m : mutex) : bool :=
  bool_decide (mutex_current_state m = mutex_destroyed).
Definition mutex_is_initialized (m : mutex) : bool :=
  negb (bool_decide (mutex_current_state m = mutex_uninitialized)).
Definition get_location (m : mutex) : addr := location m.

(** ** Semaphores *)

Inductive semaphore_state := sem_uninitialized | sem_initialized | sem_destroyed.
#[export] Instance semaphore_state_eq_dec : EqDecision semaphore_state.
Proof. solve_decision. Defined.

(** [_count] is a signed [int], although [count()] and one constructor use
[unsigned]. *)
Record semaphore := Semaphore {
  sem_count : Z;
  sem_current_state : semaphore_state;
}.
#[export] Instance semaphore_eq_dec : EqDecision semaphore.
Proof. solve_decision. Defined.

Definition default_semaphore : semaphore := Semaphore 0 sem_uninitialized.
(** [semaphore(state, int)] *)
Definition semaphore_of (s : semaphore_state) (count : Z) : semaphore := Semaphore count s.
(** [semaphore(unsigned)], which converts its argument to [int]. *)
Definition new_semaphore (count : N) : semaphore := semaphore_of sem_initialized (s32 count).
(** [unsigned count() const] *)
Definition semaphore_count (s : semaphore) : N := u32_of_int (sem_count s).
Definition will_block (s : semaphore) : bool := (sem_count s <=? 0)%Z.

(** ** Threads *)

Inductive thread_state := running | exited | killed | embryo.
#[export] Instance thread_state_eq_dec : EqDecision thread_state.
Proof. solve_decision. Defined.

Record thread := Thread { thread_current_state : thread_state }.
#[export] Instance thread_eq_dec : EqDecision thread.
Proof. solve_decision. Defined.

(** [thread_status] of [spy/checkpointing/objects.h]. *)
Inductive thread_status := ALIVE | EXITED.

Definition thread_of_status (s : thread_status) : thread :=
  match s with ALIVE => Thread running | EXITED => Thread exited end.
Definition is_embryo (t : thread) : bool := bool_decide (thread_current_state t = embryo).
Definition is_running (t : thread) : bool := bool_decide (thread_current_state t = running).
Definition has_exited (t : thread) : bool := bool_decide (thread_current_state t = exited).
Definition is_killed (t : thread) : bool := bool_decide (thread_current_state t = killed).
(** [runner_state::is_active], overridden by [thread]. *)
Definition is_active (t : thread) : bool := is_running t.

(** ** Condition variables *)

Inductive cv_state :=
  | cv_uninitialized | cv_initialized | cv_waiting | cv_signaled | cv_transitional | cv_destroyed.
#[export] Instance cv_state_eq_dec : EqDecision cv_state.
Proof. solve_decision. Defined.

Record condition_variable := CondVar {
  cv_current_state : cv_state;
  numRemainingSpuriousWakeups : N;
  running_thread : runner_id_t;
  associated_mutex : addr;
  waiting_count : Z;
  lost_wakeups : Z;
  cv_policy : policy;
}.
#[export] Instance condition_variable_eq_dec : EqDecision condition_variable.
Proof. solve_decision. Defined.

Definition waits_or_prewaits (ts : runner_id_t * condition_variable_status) : bool :=
  bool_decide (ts.2 = CV_PREWAITING) || bool_decide (ts.2 = CV_WAITING).

(** The constructor: [p = None] is the null pointer for which a fresh policy is
created; the waiters, then the group of signaled threads, are added to it. *)
Definition new_condition_variable (s : cv_state) (tid : runner_id_t) (mutex : addr) (count : Z)
    (thread_states : list (runner_id_t * condition_variable_status)) (p : option policy) : condition_variable :=
  let p0 := default new_policy p in
  let p1 := foldl (λ p ts, if waits_or_prewaits ts then add_waiter_with_state ts.1 ts.2 p else p)
              p0 thread_states in
  let signaled_threads := fst <$> filter (λ ts, ts.2 = CV_SIGNALED) thread_states in
  let p2 := if bool_decide (signaled_threads = []) then p1
            else add_to_wake_groups signaled_threads p1 in
  CondVar s 0 tid mutex count 0 p2.

Definition set_policy (p : policy) (cv : condition_variable) : condition_variable :=
  CondVar (cv_current_state cv) (numRemainingSpuriousWakeups cv) (running_thread cv)
    (associated_mutex cv) (waiting_count cv) (lost_wakeups cv) p.
Definition set_associated_mutex (m : addr) (cv : condition_variable) : condition_variable :=
  CondVar (cv_current_state cv) (numRemainingSpuriousWakeups cv) (running_thread cv)
    m (waiting_count cv) (lost_wakeups cv) (cv_policy cv).

Definition is_initialized (cv : condition_variable) : bool :=
  bool_decide (cv_current_state cv = cv_initialized).
Definition is_waiting (cv : condition_variable) : bool :=
  bool_decide (cv_current_state cv = cv_waiting).
Definition is_signaled (cv : condition_variable) : bool :=
  bool_decide (cv_current_state cv = cv_signaled).
Definition is_uninitialized (cv : condition_variable) : bool :=
  bool_decide (cv_current_state cv = cv_uninitialized).
Definition is_transitional (cv : condition_variable) : bool :=
  bool_decide (cv_current_state cv = cv_transitional).
Definition is_destroyed (cv : condition_variable) : bool :=
  bool_decide (cv_current_state cv = cv_destroyed).
Definition get_policy (cv : condition_variable) : policy := cv_policy cv.
Definition get_mutex (cv : condition_variable) : addr := associated_mutex cv.
Definition cv_has_waiters (cv : condition_variable) : bool := has_waiters (cv_policy cv).
Definition waiter_can_exit (cv : condition_variable) (tid : runner_id_t) : bool :=
  (0 <? numRemainingSpuriousWakeups cv)%N || thread_can_exit (cv_policy cv) tid.

(** [remove_waiter]: the policy wakes the thread, and a spurious wake-up, if any
is left, is used up.  No transition calls it any more. *)
Definition remove_waiter (tid : runner_id_t) (cv : condition_variable) : res condition_variable :=
  p ← wake_thread tid (cv_policy cv);
  Ok (CondVar (cv_current_state cv) (N.pred (numRemainingSpuriousWakeups cv)) (running_thread cv)
    (associated_mutex cv) (waiting_count cv) (lost_wakeups cv) p).

(** [check_for_lost_wakeup] counts a lost wake-up (and warns on [stderr]). *)
Definition check_for_lost_wakeup (is_signal : bool) (prev_waiting_count : Z) (cv : condition_variable) : condition_variable :=
  if negb is_signal then cv
  else
    let any_thread_signaled :=
      existsb (λ id, bool_decide (get_thread_cv_state (cv_policy cv) id = CV_SIGNALED))
        (return_wait_queue (cv_policy cv)) in
    if negb any_thread_signaled && (0 <? prev_waiting_count)%Z then
      CondVar (cv_current_state cv) (numRemainingSpuriousWakeups cv) (running_thread cv)
        (associated_mutex cv) (waiting_count cv) (lost_wakeups cv + 1) (cv_policy cv)
    else cv.

(** ** States of visible objects *)

(** The subclasses of [visible_object_state]. *)
Inductive visible_object_state :=
  | VMutex (m : mutex)
  | VSemaphore (s : semaphore)
  | VThread (t : thread)
  | VCond (cv : condition_variable).
#[export] Instance visible_object_state_eq_dec : EqDecision visible_object_state.
Proof. solve_decision. Defined.

(** The [static_cast] of [get_state_of_object<T>]: casting to a type the object
does not have is undefined behaviour. *)
Definition as_mutex (o : visible_object_state) : res mutex :=
  match o with VMutex m => Ok m | _ => Throw UB end.
Definition as_semaphore (o : visible_object_state) : res semaphore :=
  match o with VSemaphore s => Ok s | _ => Throw UB end.
Definition as_thread (o : visible_object_state) : res thread :=
  match o with VThread t => Ok t | _ => Throw UB end.
Definition as_cond (o : visible_object_state) : res condition_variable :=
  match o with VCond cv => Ok cv | _ => Throw UB end.

(** ** Visible objects *)

(** A [visible_object] is the vector of its states, oldest first. *)
Abbreviation visible_object := (list visible_object_state) (only parsing).

Definition get_num_states (o : list visible_object_state) : nat := length o.
(** [history.size() - 1], a [size_t] that wraps around for an empty history. *)
Definition get_last_state_index (o : list visible_object_state) : N :=
  u64 (N.of_nat (length o) + (2^64 - 1)).
Definition state_at (o : list visible_object_state) (i : N) : res visible_object_state := vec_at o i.
Definition get_current_state (o : list visible_object_state) : res visible_object_state := vec_back o.
Definition push_state (s : visible_object_state) (o : list visible_object_state) : list visible_object_state := o ++ [s].
(** [slice(index)] keeps the states [0..index]; the iterator [begin() + index + 1]
must lie within the vector. *)
Definition slice (index : N) (o : list visible_object_state) : res (list visible_object_state) :=
  let k := N.to_nat (u64 (index + 1)) in
  if (k <=? length o)%nat then Ok (take k o) else Throw UB.
Definition copy_slice (num_states : nat) (o : list visible_object_state) : res (list visible_object_state) :=
  if (num_states <=? length o)%nat then Ok (take num_states o) else Throw OutOfRange.
(** The copy constructor builds a slice and move-assigns it. *)
Definition copy_construct (other : list visible_object_state) : list visible_object_state :=
  take (length other) other.
(** The copy assignment appends the other history to the one already there. *)
Definition copy_assign (this other : list visible_object_state) : list visible_object_state :=
  this ++ other.
(** The popped state, [None] for [nullptr], and what is left. *)
Definition consume_into_current_state (o : list visible_object_state) : option visible_object_state * list visible_object_state :=
  match last o with
  | None => (None, o)
  | Some s => (Some s, removelast o)
  end.

Lemma copy_construct_id o : copy_construct o = o.
Proof. apply firstn_all. Qed.

Lemma get_current_state_push s o : get_current_state (push_state s o) = Ok s.
Proof. unfold get_current_state, push_state, vec_back. by rewrite last_snoc. Qed.

Lemma get_last_state_index_spec o :
  o ≠ [] → (N.of_nat (length o) < 2^64)%N →
  N.to_nat (get_last_state_index o) = length o - 1.
Proof.
  intros Ho Hlen. destruct o as [|s o]; [done|]. unfold get_last_state_index, u64.
  rewrite <- N.Div0.add_mod_idemp_r. simpl length in *.
  replace ((N.of_nat (S (length o)) + (2 ^ 64 - 1) mod 2 ^ 64))%N
    with (N.of_nat (length o) + 1 * 2^64)%N by (rewrite N.mod_small; lia).
  rewrite N.Div0.mod_add, N.mod_small by lia. lia.
Qed.

Lemma s32_small n : (n < 2^31)%N → s32 n = Z.of_N n.
Proof.
  intros Hn. unfold s32, u32. rewrite N.mod_small by lia.
  case_match eqn:E; [done|]. lia.
Qed.

Lemma u32_of_int_small z : (0 ≤ z < 2^31)%Z → u32_of_int z = Z.to_N z.
Proof. intros Hz. unfold u32_of_int. by rewrite Z.mod_small by lia. Qed.
