(* ===== verification/State.v ===== *)
(** * States of the modelled program

The interfaces [model::state] and [model::mutable_state] of
[include/mcmini/model/state.hpp] as type classes, and their two free-standing
implementations: [detached_state] ([src/mcmini/model/detached_state.cpp]), which
owns its objects, and [diff_state] ([src/mcmini/model/diff_state.cpp]), a cache
of changes over a base state.  The third one, [state_sequence], is in
[StateSequence.v]. *)

From stdpp Require Import options.
From S2P Require Import Prelude InjectiveFunction CondPolicy Objects.

(** ** The interfaces *)

(** [get_state_of_runner] includes the [static_cast] to [runner_state], of which
[thread] is the only subclass. *)
Class State (S : Type) := {
  count : S → res nat;
  runner_count : S → res nat;
  is_runner : S → objid_t → res bool;
  contains_object_with_id : S → objid_t → res bool;
  contains_runner_with_id : S → runner_id_t → res bool;
  get_objid_for_runner : S → runner_id_t → res objid_t;
  get_runner_id_for_obj : S → objid_t → res runner_id_t;
  get_state_of_object : S → objid_t → res visible_object_state;
  get_state_of_runner : S → runner_id_t → res thread;
}.

Class MutableState (M : Type) `{State M} := {
  add_object : visible_object_state → eff M objid_t;
  add_runner : thread → eff M runner_id_t;
  add_state_for_obj : objid_t → visible_object_state → eff M unit;
  add_state_for_runner : runner_id_t → thread → eff M unit;
}.

(** [mutable_clone] of [diff_state], [state_sequence] and its elements only
throws. *)
Definition unimplemented_mutable_clone {M : Type} : res M := Throw (RuntimeError NotImplemented).

(** ** Detached states *)

Record detached_state := DetachedState {
  det_visible_objects : list (list visible_object_state);
  det_runner_to_obj_map : injective_function runner_id_t objid_t;
}.

Definition new_detached_state : detached_state := DetachedState [] inj_empty.

Definition det_contains_object_with_id (s : detached_state) (id : objid_t) : bool :=
  bool_decide (id < N.of_nat (length (det_visible_objects s)))%N.
Definition det_contains_runner_with_id (s : detached_state) (id : runner_id_t) : bool :=
  count_domain (det_runner_to_obj_map s) id.
Definition det_is_runner (s : detached_state) (id : objid_t) : bool :=
  count_range (det_runner_to_obj_map s) id.
Definition det_get_objid_for_runner (s : detached_state) (id : runner_id_t) : res objid_t :=
  if det_contains_runner_with_id s id then inj_at (det_runner_to_obj_map s) id
  else Ok invalid_objid.
Definition det_get_runner_id_for_obj (s : detached_state) (id : objid_t) : res runner_id_t :=
  if det_is_runner s id then range_at (det_runner_to_obj_map s) id else Ok invalid_rid.
Definition det_get_state_of_object (s : detached_state) (id : objid_t) : res visible_object_state :=
  o ← vec_at (det_visible_objects s) id; get_current_state o.
Definition det_get_state_of_runner (s : detached_state) (id : runner_id_t) : res thread :=
  objid ← det_get_objid_for_runner s id;
  det_get_state_of_object s objid ≫= as_thread.
Definition det_add_object (initial_state : visible_object_state) : eff detached_state objid_t := λ s,
  let objs := det_visible_objects s ++ [[initial_state]] in
  (Ok (u32 (N.of_nat (length objs) - 1)), DetachedState objs (det_runner_to_obj_map s)).
Definition det_add_runner (new_state : thread) : eff detached_state runner_id_t :=
  let! runner_objid := det_add_object (VThread new_state) in
  λ s,
    let next_runner_id := u16 (N.of_nat (inj_size (det_runner_to_obj_map s))) in
    let '(r, m) := inj_insert (next_runner_id, runner_objid) (det_runner_to_obj_map s) in
    (_ ← r; Ok next_runner_id, DetachedState (det_visible_objects s) m).
Definition det_add_state_for_obj (id : objid_t) (new_state : visible_object_state) : eff detached_state unit := λ s,
  if bool_decide (id = invalid_objid) then (Throw (RuntimeError InvalidObjectId), s)
  else match vec_at (det_visible_objects s) id with
       | Throw e => (Throw e, s)
       | Ok o =>
           (Ok tt, DetachedState (<[N.to_nat id := push_state new_state o]> (det_visible_objects s))
                     (det_runner_to_obj_map s))
       end.
Definition det_add_state_for_runner (id : runner_id_t) (new_state : thread) : eff detached_state unit :=
  let! objid := query (λ s, det_get_objid_for_runner s id) in
  det_add_state_for_obj objid (VThread new_state).
Definition det_mutable_clone (s : detached_state) : res detached_state :=
  Ok (DetachedState (copy_construct <$> det_visible_objects s) (det_runner_to_obj_map s)).

#[export] Instance detached_State : State detached_state := {
  count s := Ok (length (det_visible_objects s));
  runner_count s := Ok (inj_size (det_runner_to_obj_map s));
  is_runner s id := Ok (det_is_runner s id);
  contains_object_with_id s id := Ok (det_contains_object_with_id s id);
  contains_runner_with_id s id := Ok (det_contains_runner_with_id s id);
  get_objid_for_runner := det_get_objid_for_runner;
  get_runner_id_for_obj := det_get_runner_id_for_obj;
  get_state_of_object := det_get_state_of_object;
  get_state_of_runner := det_get_state_of_runner;
}.
#[export] Instance detached_MutableState : MutableState detached_state := {
  add_object := det_add_object;
  add_runner := det_add_runner;
  add_state_for_obj := det_add_state_for_obj;
  add_state_for_runner := det_add_state_for_runner;
}.

(** ** Differences from a base state *)

Record diff_state (S : Type) := DiffState {
  base_state : S;
  new_runners : injective_function runner_id_t objid_t;
  new_object_states : gmap objid_t (list visible_object_state);
}.
Arguments DiffState {_} _ _ _.
Arguments base_state {_} _.
Arguments new_runners {_} _.
Arguments new_object_states {_} _.

(** [diff_state(const state &)] *)
Definition new_diff_state {S} (s : S) : diff_state S := DiffState s inj_empty ∅.
(** The copy constructor copies the base and the object states, not the new
runners. *)
Definition diff_copy {S} (ds : diff_state S) : diff_state S :=
  DiffState (base_state ds) inj_empty (copy_construct <$> new_object_states ds).

Section diff_state.
Context {S : Type} `{State S}.
Implicit Types d : diff_state S.

Definition differs_from_base (d : diff_state S) : bool :=
  negb (bool_decide (new_object_states d = ∅)) || negb (inj_is_empty (new_runners d)).

Definition diff_count (d : diff_state S) : res nat :=
  n ← count (base_state d);
  map_fold (λ id _ acc,
      c ← acc;
      known ← contains_object_with_id (base_state d) id;
      Ok (if known : bool then Nat.pred c else c))
    (Ok (size (new_object_states d) + n)) (new_object_states d).
Definition diff_runner_count (d : diff_state S) : res nat :=
  n ← runner_count (base_state d); Ok (n + inj_size (new_runners d)).
Definition diff_get_objid_for_runner (d : diff_state S) (id : runner_id_t) : res objid_t :=
  if count_domain (new_runners d) id then inj_at (new_runners d) id
  else get_objid_for_runner (base_state d) id.
Definition diff_get_runner_id_for_obj (d : diff_state S) (id : objid_t) : res runner_id_t :=
  if count_range (new_runners d) id then range_at (new_runners d) id
  else get_runner_id_for_obj (base_state d) id.
Definition diff_is_runner (d : diff_state S) (id : objid_t) : res bool :=
  if count_range (new_runners d) id then Ok true else is_runner (base_state d) id.
Definition diff_contains_object_with_id (d : diff_state S) (id : objid_t) : res bool :=
  if bool_decide (is_Some (new_object_states d !! id)) then Ok true
  else contains_object_with_id (base_state d) id.
Definition diff_contains_runner_with_id (d : diff_state S) (id : runner_id_t) : res bool :=
  if count_domain (new_runners d) id then Ok true
  else contains_runner_with_id (base_state d) id.
Definition diff_get_state_of_object (d : diff_state S) (id : objid_t) : res visible_object_state :=
  match new_object_states d !! id with
  | Some o => get_current_state o
  | None => get_state_of_object (base_state d) id
  end.
Definition diff_get_state_of_runner (d : diff_state S) (id : runner_id_t) : res thread :=
  if count_domain (new_runners d) id then
    objid ← inj_at (new_runners d) id;
    diff_get_state_of_object d objid ≫= as_thread
  else get_state_of_runner (base_state d) id.
Definition diff_add_object (initial_state : visible_object_state) : eff (diff_state S) objid_t := λ d,
  match count (base_state d) with
  | Throw e => (Throw e, d)
  | Ok n =>
      let next_id := u32 (N.of_nat (n + size (new_object_states d))) in
      (Ok next_id, DiffState (base_state d) (new_runners d)
                     (<[next_id := [initial_state]]> (new_object_states d)))
  end.
Definition diff_add_runner (initial_state : thread) : eff (diff_state S) runner_id_t :=
  let! objid := diff_add_object (VThread initial_state) in
  let! n := query diff_runner_count in
  λ d,
    let next_runner_id := u32 (N.of_nat n) in
    let '(r, m) := inj_insert (u16 next_runner_id, objid) (new_runners d) in
    (_ ← r; Ok (u16 next_runner_id), DiffState (base_state d) m (new_object_states d)).
Definition diff_add_state_for_obj (id : objid_t) (new_state : visible_object_state) : eff (diff_state S) unit := λ d,
  if bool_decide (id = invalid_objid) then (Throw (RuntimeError InvalidObjectId), d)
  else
    let vobj := default [] (new_object_states d !! id) in
    (Ok tt, DiffState (base_state d) (new_runners d)
              (<[id := push_state new_state vobj]> (new_object_states d))).
Definition diff_add_state_for_runner (id : runner_id_t) (new_state : thread) : eff (diff_state S) unit :=
  let! objid := query (λ d, diff_get_objid_for_runner d id) in
  diff_add_state_for_obj objid (VThread new_state).

#[export] Instance diff_State : State (diff_state S) := {
  count := diff_count;
  runner_count := diff_runner_count;
  is_runner := diff_is_runner;
  contains_object_with_id := diff_contains_object_with_id;
  contains_runner_with_id := diff_contains_runner_with_id;
  get_objid_for_runner := diff_get_objid_for_runner;
  get_runner_id_for_obj := diff_get_runner_id_for_obj;
  get_state_of_object := diff_get_state_of_object;
  get_state_of_runner := diff_get_state_of_runner;
}.
#[export] Instance diff_MutableState : MutableState (diff_state S) := {
  add_object := diff_add_object;
  add_runner := diff_add_runner;
  add_state_for_obj := diff_add_state_for_obj;
  add_state_for_runner := diff_add_state_for_runner;
}.
End diff_state.
