(* ===== verification/Transitions.v ===== *)
(** * Transitions

[model::transition] ([include/mcmini/model/transition.hpp]) and its subclasses in
[include/mcmini/model/transitions/].  A transition is its executor and its
operation; [modify] is the virtual method, one definition per subclass, written
against the [mutable_state] interface; [apply_to] runs it on a [diff_state]. *)

From stdpp Require Import options.
From S2P Require Import Prelude InjectiveFunction CondPolicy Objects State.

(** The subclasses of [transition] with their data members. *)
Inductive operation :=
  | mutex_init (mutex_id : objid_t)
  | mutex_lock (mutex_id : objid_t)
  | mutex_unlock (mutex_id : objid_t)
  | sem_init (sem_id : objid_t) (count : N)
  | sem_post (sem_id : objid_t)
  | sem_wait (sem_id : objid_t)
  | thread_create (target : runner_id_t)
  | thread_exit
  | thread_join (target : runner_id_t)
  | thread_start
  | process_abort
  | process_exit (exit_code : Z)
  | condition_variable_init (cond_id : objid_t)
  | condition_variable_enqueue_thread (cond_id mutex_id : objid_t)
  | condition_variable_wait (cond_id mutex_id : objid_t)
  | condition_variable_signal (cond_id : objid_t)
  | condition_variable_broadcast (cond_id : objid_t)
  | condition_variable_destroy (cond_id : objid_t).
#[export] Instance operation_eq_dec : EqDecision operation.
Proof. solve_decision. Defined.

Record transition := Transition {
  executor : runner_id_t;
  operation_of : operation;
}.
#[export] Instance transition_eq_dec : EqDecision transition.
Proof. solve_decision. Defined.

Definition get_executor (t : transition) : runner_id_t := executor t.

(** [transition::status] *)
Inductive status := exists_ | disabled | undefined.
#[export] Instance status_eq_dec : EqDecision status.
Proof. solve_decision. Defined.

(** ** [modify], one definition per subclass *)

Section modify.
Context {M : Type} `{MutableState M}.
Variable executor : runner_id_t.

(** [get_state_of_object<T>(id)] and [get_state_of_runner<thread>(id)] *)
Definition get_mutex_state (id : objid_t) : eff M mutex :=
  query (λ s, get_state_of_object s id ≫= as_mutex).
Definition get_semaphore_state (id : objid_t) : eff M semaphore :=
  query (λ s, get_state_of_object s id ≫= as_semaphore).
Definition get_cond_state (id : objid_t) : eff M condition_variable :=
  query (λ s, get_state_of_object s id ≫= as_cond).
Definition get_thread_state (id : runner_id_t) : eff M thread :=
  query (λ s, get_state_of_runner s id).

Definition mutex_init_modify (mutex_id : objid_t) : eff M status :=
  let! ms := get_mutex_state mutex_id in
  do! add_state_for_obj mutex_id (VMutex (new_mutex mutex_unlocked (get_location ms))) in
  ret exists_.

Definition mutex_lock_modify (mutex_id : objid_t) : eff M status :=
  let! ms := get_mutex_state mutex_id in
  if is_locked ms then ret disabled
  else
    do! add_state_for_obj mutex_id (VMutex (Mutex mutex_locked (get_location ms) executor)) in
    ret exists_.

Definition mutex_unlock_modify (mutex_id : objid_t) : eff M status :=
  let! ms := get_mutex_state mutex_id in
  if negb (is_locked_by ms executor) then ret disabled
  else
    do! add_state_for_obj mutex_id (VMutex (new_mutex mutex_unlocked (get_location ms))) in
    ret exists_.

Definition sem_init_modify (sem_id : objid_t) (count : N) : eff M status :=
  do! add_state_for_obj sem_id (VSemaphore (new_semaphore count)) in
  ret exists_.

(** [sem->count() + 1] and [sem->count() - 1] are [unsigned] additions. *)
Definition sem_post_modify (sem_id : objid_t) : eff M status :=
  let! sem := get_semaphore_state sem_id in
  do! add_state_for_obj sem_id
        (VSemaphore (new_semaphore (u32 (semaphore_count sem + 1)))) in
  ret exists_.

Definition sem_wait_modify (sem_id : objid_t) : eff M status :=
  let! sem := get_semaphore_state sem_id in
  if will_block sem then ret disabled
  else
    do! add_state_for_obj sem_id
          (VSemaphore (new_semaphore (u32 (semaphore_count sem + (2^32 - 1))))) in
    ret exists_.

Definition thread_create_modify (target : runner_id_t) : eff M status :=
  do! add_state_for_runner target (Thread running) in
  ret exists_.

Definition thread_exit_modify : eff M status :=
  let! thread_state := get_thread_state executor in
  if negb (is_running thread_state) || bool_decide (executor = RID_MAIN_THREAD)
  then ret disabled
  else
    do! add_state_for_runner executor (Thread exited) in
    ret exists_.

Definition thread_join_modify (target : runner_id_t) : eff M status :=
  let! target_state := get_thread_state target in
  ret (if has_exited target_state then exists_ else disabled).

Definition thread_start_modify : eff M status :=
  let! thread_state := get_thread_state executor in
  ret (if is_embryo thread_state then disabled else exists_).

Definition process_abort_modify : eff M status := ret exists_.

Definition process_exit_modify : eff M status :=
  do! add_state_for_runner executor (Thread exited) in
  ret exists_.

Definition condition_variable_init_modify (cond_id : objid_t) : eff M status :=
  do! add_state_for_obj cond_id
        (VCond (new_condition_variable cv_initialized RID_INVALID 0 0 [] None)) in
  ret exists_.

Definition condition_variable_enqueue_thread_modify (cond_id mutex_id : objid_t) : eff M status :=
  let! cv := get_cond_state cond_id in
  let! m := get_mutex_state mutex_id in
  if is_unlocked m then ret disabled
  else if negb (is_locked_by m executor) then ret disabled
  else
    let p := get_policy cv in
    let current_state := get_thread_cv_state p executor in
    let p := if bool_decide (current_state = CV_PREWAITING)
             then update_thread_cv_state executor CV_WAITING p else p in
    let new_policy := add_waiter_with_state executor CV_WAITING p in
    let new_waiting_count := Z.of_nat (length (return_wait_queue new_policy)) in
    let new_cv := set_policy new_policy
      (new_condition_variable cv_waiting executor (get_location m) new_waiting_count [] None) in
    do! add_state_for_obj cond_id (VCond new_cv) in
    do! add_state_for_obj mutex_id (VMutex (new_mutex mutex_unlocked (get_location m))) in
    ret exists_.

Definition condition_variable_wait_modify (cond_id mutex_id : objid_t) : eff M status :=
  let! cv := get_cond_state cond_id in
  let! m := get_mutex_state mutex_id in
  if is_uninitialized cv || is_destroyed cv then ret undefined
  else if is_locked_by m executor then ret disabled
  else if negb (waiter_can_exit cv executor && bool_decide (get_location m = get_mutex cv)
                && is_unlocked m) then ret disabled
  else
    do! add_state_for_obj mutex_id (VMutex (Mutex mutex_locked (get_location m) executor)) in
    let! new_policy := query (λ _, wake_thread executor (get_policy cv)) in
    let new_waiting_count := Z.of_nat (length (return_wait_queue new_policy)) in
    let new_state := if (0 <? new_waiting_count)%Z then cv_waiting else cv_signaled in
    let new_cv := set_policy new_policy
      (new_condition_variable new_state executor (get_location m) new_waiting_count [] None) in
    do! add_state_for_obj cond_id (VCond new_cv) in
    ret exists_.

(** The threads of the wait queue in state [CV_WAITING], in queue order. *)
Definition waiting_threads (p : policy) : list runner_id_t :=
  filter (λ tid, get_thread_cv_state p tid = CV_WAITING) (return_wait_queue p).

(** The temporary [mutable_cv] on which [condition_variable_signal::modify]
calls [check_for_lost_wakeup]; it is destroyed on return. *)
Definition signal_mutable_cv (cv : condition_variable) : condition_variable :=
  let prev_waiting_count := Z.of_nat (length (waiting_threads (get_policy cv))) in
  let new_policy := add_to_wake_groups (waiting_threads (get_policy cv)) (get_policy cv) in
  let new_waiting_count := Z.of_nat (length (return_wait_queue new_policy)) in
  let new_state := if (0 <? new_waiting_count)%Z then cv_waiting else cv_signaled in
  check_for_lost_wakeup true prev_waiting_count
    (new_condition_variable new_state RID_INVALID 0 new_waiting_count [] None).

Definition condition_variable_signal_modify (cond_id : objid_t) : eff M status :=
  let! cv := get_cond_state cond_id in
  if is_uninitialized cv then ret undefined
  else if is_destroyed cv then ret undefined
  else if negb (cv_has_waiters cv) then ret exists_
  else
    let waiting := waiting_threads (get_policy cv) in
    let new_policy := if bool_decide (waiting = []) then get_policy cv
                      else add_to_wake_groups waiting (get_policy cv) in
    let new_waiting_count := Z.of_nat (length (return_wait_queue new_policy)) in
    let new_state := if (0 <? new_waiting_count)%Z then cv_waiting else cv_signaled in
    let new_cv := set_associated_mutex (get_mutex cv) (set_policy new_policy
      (new_condition_variable new_state RID_INVALID 0 new_waiting_count [] None)) in
    do! add_state_for_obj cond_id (VCond new_cv) in
    ret exists_.

Definition condition_variable_broadcast_modify (cond_id : objid_t) : eff M status :=
  let! cv := get_cond_state cond_id in
  if is_uninitialized cv then ret undefined
  else if is_destroyed cv then ret undefined
  else if negb (cv_has_waiters cv) then ret exists_
  else
    let waiting := waiting_threads (get_policy cv) in
    let p := if bool_decide (waiting = []) then get_policy cv
             else add_to_wake_groups waiting (get_policy cv) in
    let new_policy := receive_broadcast_message p in
    let new_waiting_count := Z.of_nat (length (return_wait_queue new_policy)) in
    let new_state := if (0 <? new_waiting_count)%Z then cv_waiting else cv_signaled in
    let new_cv := set_policy new_policy
      (new_condition_variable new_state executor (get_mutex cv) new_waiting_count [] None) in
    do! add_state_for_obj cond_id (VCond new_cv) in
    ret exists_.

Definition condition_variable_destroy_modify (cond_id : objid_t) : eff M status :=
  let! cv := get_cond_state cond_id in
  if is_uninitialized cv then ret undefined
  else if is_destroyed cv then ret undefined
  else if cv_has_waiters cv then ret undefined
  else
    do! add_state_for_obj cond_id
          (VCond (new_condition_variable cv_destroyed executor 0 0 [] None)) in
    ret exists_.

End modify.

Definition modify {M} `{MutableState M} (t : transition) : eff M status :=
  let e := executor t in
  match operation_of t with
  | mutex_init m => mutex_init_modify m
  | mutex_lock m => mutex_lock_modify e m
  | mutex_unlock m => mutex_unlock_modify e m
  | sem_init s c => sem_init_modify s c
  | sem_post s => sem_post_modify s
  | sem_wait s => sem_wait_modify s
  | thread_create target => thread_create_modify target
  | thread_exit => thread_exit_modify e
  | thread_join target => thread_join_modify target
  | thread_start => thread_start_modify e
  | process_abort => process_abort_modify
  | process_exit _ => process_exit_modify e
  | condition_variable_init c => condition_variable_init_modify c
  | condition_variable_enqueue_thread c m => condition_variable_enqueue_thread_modify e c m
  | condition_variable_wait c m => condition_variable_wait_modify e c m
  | condition_variable_signal c => condition_variable_signal_modify c
  | condition_variable_broadcast c => condition_variable_broadcast_modify e c
  | condition_variable_destroy c => condition_variable_destroy_modify e c
  end.

Create HintDb modify.
#[export] Hint Unfold mutex_init_modify mutex_lock_modify mutex_unlock_modify
  sem_init_modify sem_post_modify sem_wait_modify thread_create_modify
  thread_exit_modify thread_join_modify thread_start_modify process_abort_modify
  process_exit_modify condition_variable_init_modify
  condition_variable_enqueue_thread_modify condition_variable_wait_modify
  condition_variable_signal_modify condition_variable_broadcast_modify
  condition_variable_destroy_modify get_mutex_state get_semaphore_state
  get_cond_state get_thread_state : modify.

(** ** [transition] *)

(** [apply_to]: [modify] runs on a fresh [diff_state], which is copied into the
result; any status other than [exists] comes back as [disabled]. *)
Definition apply_to {S} `{State S} (t : transition) (s : S) : res (diff_state S * status) :=
  let s_prime := new_diff_state s in
  runner ← get_state_of_runner s (executor t);
  if is_active runner then
    match modify t s_prime with
    | (Throw e, _) => Throw e
    | (Ok st, s_prime') =>
        if bool_decide (st = exists_) then Ok (diff_copy s_prime', exists_)
        else Ok (diff_copy (new_diff_state s), disabled)
    end
  else Ok (diff_copy (new_diff_state s), disabled).

Definition is_enabled_in {S} `{State S} (t : transition) (s : S) : res bool :=
  r ← apply_to t s; Ok (bool_decide (r.2 = exists_)).
Definition is_disabled_in {S} `{State S} (t : transition) (s : S) : res bool :=
  negb <$> is_enabled_in t s.

(** [program_exit_code], overridden by [process_exit]. *)
Definition program_exit_code (t : transition) : Z :=
  match operation_of t with process_exit exit_code => exit_code | _ => -1 end.
(** [aborts_program_execution], overridden by [process_abort]. *)
Definition aborts_program_execution (t : transition) : bool :=
  match operation_of t with process_abort => true | _ => false end.
