(* ===== verification/AbstractState.v ===== *)
(** * The abstract state

What a [model::state] means: a finite map from object ids to object states and a
finite map from runner ids to object ids.  [represents] says that an
implementation of the [state] interface has a given meaning; [astep] is the
meaning of [transition::apply_to], and [apply_to_refines] says that [apply_to],
run on any implementation through a [diff_state], implements it. *)

From stdpp Require Import options.
From S2P Require Import Prelude InjectiveFunction CondPolicy Objects State Transitions.

(** ** Data *)

Record astate := AState {
  objs : gmap objid_t visible_object_state;
  runners : gmap runner_id_t objid_t;
}.
#[export] Instance astate_eq_dec : EqDecision astate.
Proof. solve_decision. Defined.

Definition objid_of (a : astate) (r : runner_id_t) : objid_t :=
  default invalid_objid (runners a !! r).
Definition obj_of (a : astate) (id : objid_t) : res visible_object_state := map_at (objs a) id.
Definition thread_of (a : astate) (r : runner_id_t) : res thread :=
  obj_of a (objid_of a r) ≫= as_thread.
Definition set_obj (id : objid_t) (o : visible_object_state) (a : astate) : astate :=
  AState (<[id := o]> (objs a)) (runners a).

Definition a_add_object (o : visible_object_state) : eff astate objid_t := λ a,
  let id := fresh (dom (objs a)) in (Ok id, set_obj id o a).
Definition a_add_runner (th : thread) : eff astate runner_id_t := λ a,
  let id := fresh (dom (objs a)) in
  let r := fresh (dom (runners a)) in
  (Ok r, AState (<[id := VThread th]> (objs a)) (<[r := id]> (runners a))).
Definition a_add_state_for_obj (id : objid_t) (o : visible_object_state) : eff astate unit := λ a,
  if bool_decide (id = invalid_objid) then (Throw (RuntimeError InvalidObjectId), a)
  else (Ok tt, set_obj id o a).

#[export] Instance astate_State : State astate := {
  count a := Ok (size (objs a));
  runner_count a := Ok (size (runners a));
  is_runner a id := Ok (bool_decide (map_Exists (λ _ o, o = id) (runners a)));
  contains_object_with_id a id := Ok (bool_decide (is_Some (objs a !! id)));
  contains_runner_with_id a r := Ok (bool_decide (is_Some (runners a !! r)));
  get_objid_for_runner a r := Ok (objid_of a r);
  get_runner_id_for_obj a id :=
    Ok (default invalid_rid (fst <$> head (filter (λ ro, ro.2 = id) (map_to_list (runners a)))));
  get_state_of_object := obj_of;
  get_state_of_runner := thread_of;
}.
#[export] Instance astate_MutableState : MutableState astate := {
  add_object := a_add_object;
  add_runner := a_add_runner;
  add_state_for_obj := a_add_state_for_obj;
  add_state_for_runner r th := λ a, a_add_state_for_obj (objid_of a r) (VThread th) a;
}.

(** The meaning of [apply_to]. *)
Definition astep (t : transition) (a : astate) : res (astate * status) :=
  runner ← thread_of a (executor t);
  if is_active runner then
    match modify t a with
    | (Throw e, _) => Throw e
    | (Ok st, a') => if bool_decide (st = exists_) then Ok (a', exists_) else Ok (a, disabled)
    end
  else Ok (a, disabled).

Definition represents {S} `{State S} (s : S) (a : astate) : Prop :=
  (∀ id, get_state_of_object s id = obj_of a id) ∧
  (∀ r, get_state_of_runner s r = thread_of a r) ∧
  (∀ r, get_objid_for_runner s r = Ok (objid_of a r)).

(** ** Simulation between implementations of [mutable_state] *)

(** From states related by [P], the two effects give the same result and end in
states related by [Q]. *)
Definition eff_sim {M1 M2 A} (P Q : M1 → M2 → Prop) (m1 : eff M1 A) (m2 : eff M2 A) : Prop :=
  ∀ s1 s2, P s1 s2 → (m1 s1).1 = (m2 s2).1 ∧ Q (m1 s1).2 (m2 s2).2.

(** ** Footprints *)

(** The objects a transition reads and writes, besides those of runners. *)
Definition op_objects (op : operation) : list objid_t :=
  match op with
  | mutex_init m | mutex_lock m | mutex_unlock m => [m]
  | sem_init s _ | sem_post s | sem_wait s => [s]
  | condition_variable_enqueue_thread c m | condition_variable_wait c m => [c; m]
  | condition_variable_init c | condition_variable_signal c
  | condition_variable_broadcast c | condition_variable_destroy c => [c]
  | _ => []
  end.
(** The runners whose state it reads, and those whose state it writes. *)
Definition runners_read (t : transition) : list runner_id_t :=
  match operation_of t with
  | thread_join target => [executor t; target]
  | _ => [executor t]
  end.
Definition runners_written (t : transition) : list runner_id_t :=
  match operation_of t with
  | thread_create target => [target]
  | thread_exit | process_exit _ => [executor t]
  | _ => []
  end.

(** [R] relates states before a transition writes, [W] once it has written.  A
[diff_state] answers [get_state_of_runner] from its base even after a write, so
that only [R] promises anything on runners.  The promises are limited to the
objects [O], the runners read [Rr] and the runners written [Rw]. *)
Class Simulation {M1 M2} `{MutableState M1, MutableState M2} (O : objid_t → Prop)
    (Rr Rw : runner_id_t → Prop) (R W : M1 → M2 → Prop) : Prop := {
  sim_weaken : ∀ s1 s2, R s1 s2 → W s1 s2;
  sim_object : ∀ s1 s2 id,
    W s1 s2 → O id → get_state_of_object s1 id = get_state_of_object s2 id;
  sim_runner : ∀ s1 s2 r,
    R s1 s2 → Rr r → get_state_of_runner s1 r = get_state_of_runner s2 r;
  sim_add_state_for_obj : ∀ id o,
    O id → eff_sim W W (add_state_for_obj id o) (add_state_for_obj id o);
  sim_add_state_for_runner : ∀ r th,
    Rw r → eff_sim W W (add_state_for_runner r th) (add_state_for_runner r th);
}.

Section simulation.
Context {M1 M2 : Type} `{MutableState M1, MutableState M2}.
Context (O : objid_t → Prop) (Rr Rw : runner_id_t → Prop) (R W : M1 → M2 → Prop).
Context `{HS : !Simulation O Rr Rw R W}.

Lemma eff_sim_ret {A} (x : A) : eff_sim W W (ret x) (ret x).
Proof using. by split. Qed.

Lemma eff_sim_weaken {A} (m1 : eff M1 A) m2 : eff_sim W W m1 m2 → eff_sim R W m1 m2.
Proof using HS. intros Hm s1 s2 HR. by apply Hm, sim_weaken. Qed.

Lemma eff_sim_bind {A B} m1 m2 (k1 : A → eff M1 B) (k2 : A → eff M2 B) :
  eff_sim W W m1 m2 → (∀ x, eff_sim W W (k1 x) (k2 x)) → eff_sim W W (ebind m1 k1) (ebind m2 k2).
Proof using.
  intros Hm Hk s1 s2 HR. destruct (Hm s1 s2 HR) as [Hres HR'].
  unfold ebind. destruct (m1 s1) as [r1 s1'], (m2 s2) as [r2 s2']. simpl in *; subst.
  destruct r2 as [x|e]; [by apply Hk|by split].
Qed.

Lemma eff_sim_query {A B} (P : M1 → M2 → Prop) (f1 : M1 → res A) f2 (k1 : A → eff M1 B) k2 :
  (∀ s1 s2, P s1 s2 → f1 s1 = f2 s2) → (∀ s1 s2, P s1 s2 → W s1 s2) →
  (∀ x, eff_sim P W (k1 x) (k2 x)) → eff_sim P W (ebind (query f1) k1) (ebind (query f2) k2).
Proof using.
  intros Hf HPW Hk s1 s2 HP. rewrite !ebind_query, (Hf s1 s2 HP).
  destruct (f2 s2) as [x|e]; [by apply Hk|]. split; [done|]. by apply HPW.
Qed.

Ltac sim_step :=
  match goal with
  | |- eff_sim _ _ (if ?b then _ else _) _ => destruct b
  | |- eff_sim _ _ (ebind (query _) _) _ =>
      apply eff_sim_query;
      [ intros ? ? HP; first [ done
          | by rewrite (sim_runner _ _ _ HP) by done
          | by rewrite (sim_object _ _ _ HP) by done
          | by rewrite (sim_object _ _ _ (sim_weaken _ _ HP)) by done ]
      | intros; first [done | by apply sim_weaken]
      | intros ? ]
  | |- eff_sim R _ _ _ => apply eff_sim_weaken
  | |- eff_sim _ _ (ret _) _ => apply eff_sim_ret
  | |- eff_sim _ _ (ebind _ _) _ =>
      apply eff_sim_bind;
      [first [by apply sim_add_state_for_obj | by apply sim_add_state_for_runner] | intros ?]
  end.

(** A transition that stays within the limits behaves alike on related states. *)
Lemma modify_sim t :
  Forall O (op_objects (operation_of t)) → Forall Rr (runners_read t) →
  Forall Rw (runners_written t) → eff_sim R W (modify t) (modify t).
Proof using HS.
  destruct t as [e []]; unfold modify, runners_read, runners_written;
    cbn [operation_of executor op_objects]; rewrite ?Forall_cons;
    intros HO HR HW; destruct_and?; autounfold with modify; repeat sim_step.
Qed.
End simulation.

(** ** [diff_state] implements the abstract state *)

Definition diff_written {S} `{State S} (s : S) (d : diff_state S) (a : astate) : Prop :=
  base_state d = s ∧ new_runners d = inj_empty ∧
  (∀ id, diff_get_state_of_object d id = obj_of a id) ∧
  (∀ r, get_objid_for_runner s r = Ok (objid_of a r)).
Definition diff_unwritten {S} `{State S} (s : S) (d : diff_state S) (a : astate) : Prop :=
  d = new_diff_state s ∧ represents s a.

Section diff.
Context {S : Type} `{State S}.
Implicit Types s : S.

Lemma new_diff_written s a : represents s a → diff_written s (new_diff_state s) a.
Proof. intros (Ho & Hr & Hi). done. Qed.

Lemma diff_written_add s id o :
  eff_sim (diff_written s) (diff_written s) (diff_add_state_for_obj id o) (a_add_state_for_obj id o).
Proof.
  intros d a (Hb & Hn & Ho & Hi). unfold diff_add_state_for_obj, a_add_state_for_obj.
  case_bool_decide; [done|]. split; [done|]. split_and!; [done..| |done].
  intros id'. unfold diff_get_state_of_object, obj_of, map_at; simpl.
  destruct (decide (id = id')) as [->|Hne].
  - rewrite !lookup_insert_eq. apply get_current_state_push.
  - rewrite !lookup_insert_ne by done. apply Ho.
Qed.

#[export] Instance diff_simulation s :
  Simulation (λ _, True) (λ _, True) (λ _, True) (diff_unwritten s) (diff_written s).
Proof.
  split.
  - intros d a [-> Ha]. by apply new_diff_written.
  - intros d a id (_ & _ & Ho & _) _. apply Ho.
  - intros d a r [-> (_ & Hr & _)] _. apply Hr.
  - intros id o _. apply diff_written_add.
  - intros r th _ d a HW. pose proof HW as (Hb & Hn & Ho & Hi). simpl.
    unfold diff_add_state_for_runner. rewrite ebind_query.
    unfold diff_get_objid_for_runner. rewrite Hn, Hb, Hi. simpl.
    by apply diff_written_add.
Qed.

Lemma diff_copy_written s d a : diff_written s d a → diff_copy d = d.
Proof.
  intros (_ & Hn & _). destruct d as [b n m]; simpl in *; subst. unfold diff_copy; simpl.
  f_equal. rewrite <- (map_fmap_id m) at 2. apply map_fmap_ext. intros. apply copy_construct_id.
Qed.

(** [apply_to] on an implementation [s] of the abstract state [a]: same
exceptions, same status, and a difference that turns [s] into the state [astep]
reaches. *)
Lemma apply_to_astep s a t :
  represents s a →
  match apply_to t s, astep t a with
  | Ok (d, st), Ok (a', st') => st = st' ∧ diff_written s d a'
  | Throw e, Throw e' => e = e'
  | _, _ => False
  end.
Proof.
  intros Ha. pose proof Ha as (Ho & Hr & Hi). unfold apply_to, astep. rewrite Hr.
  destruct (thread_of a (executor t)) as [th|]; [|done]. simpl.
  assert (diff_written s (diff_copy (new_diff_state s)) a) as Hcopy.
  { erewrite diff_copy_written by by apply new_diff_written. by apply new_diff_written. }
  destruct (is_active th); [|done].
  destruct (modify_sim (λ _, True) (λ _, True) (λ _, True) (diff_unwritten s) (diff_written s) t)
    with (new_diff_state s) a as [Hres HW]; [by apply Forall_true..|done|].
  destruct (modify t (new_diff_state s)) as [[st|e] d], (modify t a) as [[st'|e'] a'];
    simpl in *; simplify_eq; [|done].
  case_bool_decide; [|done]. split; [done|]. by erewrite diff_copy_written.
Qed.
End diff.

(** ** Footprint lemmas *)

(** The objects on which the outcome of a transition depends, and those it may
change. *)
Definition foot (t : transition) (a : astate) : gset objid_t :=
  list_to_set (op_objects (operation_of t) ++
               (objid_of a <$> runners_read t ++ runners_written t)).
Definition wr (t : transition) (a : astate) : gset objid_t :=
  list_to_set (op_objects (operation_of t) ++ (objid_of a <$> runners_written t)).

Definition agree (F : gset objid_t) (a1 a2 : astate) : Prop :=
  runners a1 = runners a2 ∧ ∀ id, id ∈ F → objs a1 !! id = objs a2 !! id.
Definition unchanged_outside (F : gset objid_t) (a0 a : astate) : Prop :=
  runners a = runners a0 ∧ ∀ id, id ∉ F → objs a !! id = objs a0 !! id.

Lemma wr_foot t a : wr t a ⊆ foot t a.
Proof. unfold wr, foot. rewrite fmap_app, !list_to_set_app_L. set_solver. Qed.

Lemma objid_of_runners a1 a2 r : runners a1 = runners a2 → objid_of a1 r = objid_of a2 r.
Proof. unfold objid_of. by intros ->. Qed.

Lemma foot_runners t a1 a2 : runners a1 = runners a2 → foot t a1 = foot t a2.
Proof.
  intros Hr. unfold foot. do 2 f_equal. apply list_fmap_ext. intros. by apply objid_of_runners.
Qed.
Lemma wr_runners t a1 a2 : runners a1 = runners a2 → wr t a1 = wr t a2.
Proof.
  intros Hr. unfold wr. do 2 f_equal. apply list_fmap_ext. intros. by apply objid_of_runners.
Qed.

Lemma obj_of_agree F a1 a2 id : agree F a1 a2 → id ∈ F → obj_of a1 id = obj_of a2 id.
Proof. intros [_ Ha] Hid. unfold obj_of, map_at. by rewrite Ha. Qed.
Lemma thread_of_agree F a1 a2 r :
  agree F a1 a2 → objid_of a1 r ∈ F → thread_of a1 r = thread_of a2 r.
Proof.
  intros Ha Hid. unfold thread_of. rewrite (obj_of_agree F a1 a2) by done.
  by rewrite (objid_of_runners a1 a2 r) by apply Ha.
Qed.

Lemma agree_set_obj F a1 a2 id o : agree F a1 a2 → agree F (set_obj id o a1) (set_obj id o a2).
Proof.
  intros [Hr Ha]. split; [done|]. intros id' Hid'; simpl.
  destruct (decide (id = id')) as [->|]; [by rewrite !lookup_insert_eq|].
  rewrite !lookup_insert_ne by done. by apply Ha.
Qed.

Lemma a_add_state_for_obj_agree F id o :
  eff_sim (agree F) (agree F) (a_add_state_for_obj id o) (a_add_state_for_obj id o).
Proof.
  intros a1 a2 Ha. unfold a_add_state_for_obj. case_bool_decide; [done|].
  split; [done|]. by apply agree_set_obj.
Qed.

(** The outcome depends on the footprint only. *)
Lemma modify_agree F t a1 a2 :
  foot t a1 ⊆ F → agree F a1 a2 →
  (modify t a1).1 = (modify t a2).1 ∧ agree F (modify t a1).2 (modify t a2).2.
Proof.
  intros HF Ha. set (P := λ s1 s2, agree F s1 s2 ∧ runners s1 = runners a1).
  assert (∀ r, r ∈ runners_read t ++ runners_written t → objid_of a1 r ∈ F) as Hrs.
  { intros r Hr. apply HF. unfold foot. set_solver. }
  assert (Simulation (λ id, id ∈ F) (λ r, objid_of a1 r ∈ F) (λ r, True) P P) as HS.
  { split.
    - done.
    - intros s1 s2 id [Hs _] Hid. by apply (obj_of_agree F).
    - intros s1 s2 r [Hs Hr] Hid. apply (thread_of_agree F); [done|].
      by rewrite (objid_of_runners s1 a1).
    - intros id o _ s1 s2 [Hs Hr]. destruct (a_add_state_for_obj_agree F id o s1 s2 Hs) as [? ?].
      split; [done|]. split; [done|]. simpl. unfold a_add_state_for_obj. by case_bool_decide.
    - intros r th _ s1 s2 [Hs Hr]. simpl.
      rewrite (objid_of_runners s2 s1) by by destruct Hs.
      destruct (a_add_state_for_obj_agree F (objid_of s1 r) (VThread th) s1 s2 Hs) as [? ?].
      split; [done|]. split; [done|]. unfold a_add_state_for_obj. by case_bool_decide. }
  destruct (modify_sim _ _ _ P P t) with a1 a2 as [Hres [Hag _]]; [..|done|done].
  - apply Forall_forall. intros id Hid. apply HF. unfold foot. set_solver.
  - apply Forall_forall. intros r Hr. apply Hrs. set_solver.
  - by apply Forall_true.
Qed.

(** A transition changes nothing outside its write set. *)
Lemma modify_unchanged t a : unchanged_outside (wr t a) a (modify t a).2.
Proof.
  set (P := λ s1 s2, s1 = s2 ∧ unchanged_outside (wr t a) a s2).
  assert (∀ id o s, id ∈ wr t a → unchanged_outside (wr t a) a s →
    unchanged_outside (wr t a) a (a_add_state_for_obj id o s).2) as Hadd.
  { intros id o s Hid [Hr Ho]. unfold a_add_state_for_obj. case_bool_decide; [done|].
    split; [done|]. intros id' Hid'. simpl. rewrite lookup_insert_ne by set_solver. by apply Ho. }
  assert (Simulation (λ id, id ∈ wr t a) (λ _, True) (λ r, r ∈ runners_written t) P P) as HS.
  { split; [done|by intros s1 s2 id [-> _]|by intros s1 s2 r [-> _]|..].
    - intros id o Hid s1 s2 [-> Hs]. split; [done|]. split; [done|]. by apply Hadd.
    - intros r th Hr s1 s2 [-> Hs]. split; [done|]. split; [done|]. apply Hadd; [|done].
      rewrite (objid_of_runners s2 a) by apply Hs. unfold wr. set_solver. }
  destruct (modify_sim _ _ _ P P t) with a a as [_ [_ Hun]]; [..|done].
  - apply Forall_forall. intros id Hid. unfold wr. set_solver.
  - by apply Forall_true.
  - by apply Forall_forall.
  - by repeat split.
Qed.

(** ** [astep] *)

Lemma astep_exists t a a' :
  astep t a = Ok (a', exists_) ↔
  thread_of a (executor t) = Ok (Thread running) ∧ modify t a = (Ok exists_, a').
Proof.
  unfold astep. destruct (thread_of a (executor t)) as [[ts]|]; simpl; [|naive_solver].
  unfold is_active, is_running; simpl. case_bool_decide as Hrun; [subst|naive_solver].
  destruct (modify t a) as [[st|] a'']; [|naive_solver].
  case_bool_decide; naive_solver.
Qed.

Lemma astep_status t a a' st : astep t a = Ok (a', st) → st = exists_ ∨ st = disabled ∧ a' = a.
Proof.
  unfold astep. intros H. res_inv. destruct (is_active _); [|naive_solver].
  destruct (modify t a) as [[st'|] a'']; [|done]. case_bool_decide; naive_solver.
Qed.

Lemma astep_unchanged t a a' st :
  astep t a = Ok (a', st) → unchanged_outside (wr t a) a a'.
Proof.
  intros Hs. pose proof (modify_unchanged t a) as Hm.
  destruct (astep_status t a a' st Hs) as [->|[-> ->]]; [|done].
  apply astep_exists in Hs as [_ Hs]. by rewrite Hs in Hm.
Qed.

Lemma astep_agree F t a1 a2 a1' st :
  foot t a1 ⊆ F → agree F a1 a2 → astep t a1 = Ok (a1', st) →
  ∃ a2', astep t a2 = Ok (a2', st) ∧ agree F a1' a2'.
Proof.
  intros HF Ha. unfold astep.
  rewrite (thread_of_agree F a1 a2)
    by (done || (apply HF; unfold foot, runners_read; destruct t as [e []]; set_solver)).
  destruct (thread_of a2 (executor t)) as [th|]; [simpl|done].
  destruct (is_active th); [|naive_solver].
  destruct (modify_agree F t a1 a2 HF Ha) as [Hres Hag].
  destruct (modify t a1) as [r1 s1], (modify t a2) as [r2 s2]; simpl in *; subst.
  destruct r2; [|done]. case_bool_decide; naive_solver.
Qed.

(** Transitions that do not write what the other reads commute, and neither
enables or disables the other. *)
Lemma astep_diamond t1 t2 a a1 a2 st2 :
  wr t1 a ## foot t2 a → wr t2 a ## foot t1 a →
  astep t1 a = Ok (a1, exists_) → astep t2 a = Ok (a2, st2) →
  ∃ a12, astep t2 a1 = Ok (a12, st2) ∧ (st2 = exists_ → astep t1 a2 = Ok (a12, exists_)).
Proof.
  intros Hd1 Hd2 Hs1 Hs2.
  destruct (astep_unchanged t1 a a1 _ Hs1) as [Hr1 Hu1].
  destruct (astep_unchanged t2 a a2 _ Hs2) as [Hr2 Hu2].
  destruct (astep_agree (foot t2 a) t2 a a1 a2 st2) as (a12 & Hs12 & Hag2); [done| |done|].
  { split; [done|]. intros id Hid. symmetry. apply Hu1. set_solver. }
  exists a12. split; [done|]. intros ->.
  destruct (astep_agree (foot t1 a) t1 a a2 a1 exists_) as (a21 & Hs21 & Hag1); [done| |done|].
  { split; [done|]. intros id Hid. symmetry. apply Hu2. set_solver. }
  rewrite Hs21. do 2 f_equal.
  destruct (astep_unchanged t2 a1 a12 _ Hs12) as [Hr12 Hu12].
  destruct (astep_unchanged t1 a2 a21 _ Hs21) as [Hr21 Hu21].
  rewrite (wr_runners t2 a1 a) in Hu12 by done. rewrite (wr_runners t1 a2 a) in Hu21 by done.
  pose proof (wr_foot t1 a). pose proof (wr_foot t2 a).
  destruct Hag1 as [_ Hag1], Hag2 as [_ Hag2].
  destruct a12 as [o12 r12], a21 as [o21 r21]; simpl in *. f_equal; [|congruence].
  apply map_eq. intros id.
  destruct (decide (id ∈ wr t2 a)) as [H2|H2].
  - rewrite Hu21 by set_solver. apply Hag2. set_solver.
  - rewrite Hu12 by done. destruct (decide (id ∈ wr t1 a)) as [H1|H1].
    + symmetry. apply Hag1. set_solver.
    + rewrite Hu21, Hu1, Hu2 by done. done.
Qed.
