(* ===== verification/Behaviour.v ===== *)
(** * Behaviour of the transitions

What the transitions do to well-formed states: they never reach undefined
behaviour or an assertion, they keep states well-formed, and each object follows
its own automaton (mutexes, semaphores, condition variables), from which the
properties of whole runs follow by rule induction. *)

From stdpp Require Import options.
From S2P Require Import Prelude InjectiveFunction CondPolicy Objects State Transitions.
From S2P Require Import AbstractState.

(** ** Well-formed states and well-typed transitions *)

Inductive kind := KMutex | KSemaphore | KThread | KCond.
#[export] Instance kind_eq_dec : EqDecision kind.
Proof. solve_decision. Defined.

Definition kind_of (o : visible_object_state) : kind :=
  match o with
  | VMutex _ => KMutex | VSemaphore _ => KSemaphore | VThread _ => KThread | VCond _ => KCond
  end.
Definition has_kind (a : astate) (id : objid_t) (k : kind) : Prop :=
  kind_of <$> objs a !! id = Some k.

(** Every runner has a thread object of its own, no object has the invalid id and
no condition variable grants spurious wake-ups (none ever does: the constructor
sets the counter to 0 and nothing increments it). *)
Record wf (a : astate) : Prop := Wf {
  wf_valid : objs a !! invalid_objid = None;
  wf_runner : ∀ r id, runners a !! r = Some id → has_kind a id KThread;
  wf_inj : ∀ r1 r2 id, runners a !! r1 = Some id → runners a !! r2 = Some id → r1 = r2;
  wf_spurious : ∀ id cv, objs a !! id = Some (VCond cv) → numRemainingSpuriousWakeups cv = 0%N;
}.

Definition unspurious (o : visible_object_state) : Prop :=
  match o with VCond cv => numRemainingSpuriousWakeups cv = 0%N | _ => True end.
#[export] Instance unspurious_dec o : Decision (unspurious o).
Proof. destruct o; simpl; apply _. Defined.
#[export] Instance has_kind_dec a id k : Decision (has_kind a id k).
Proof. unfold has_kind. apply _. Defined.

(** Well-formedness can be evaluated. *)
Definition wf_check (a : astate) : bool :=
  bool_decide (objs a !! invalid_objid = None) &&
  bool_decide (map_Forall (λ _ id, has_kind a id KThread) (runners a)) &&
  bool_decide (map_Forall (λ r1 id1, map_Forall (λ r2 id2, id1 = id2 → r1 = r2) (runners a)) (runners a)) &&
  bool_decide (map_Forall (λ _ o, unspurious o) (objs a)).
Lemma wf_check_ok a : wf_check a = true → wf a.
Proof.
  unfold wf_check. rewrite !andb_true_iff, !bool_decide_eq_true. intros [[[Hv Hk] Hi] Hs].
  split; [done|exact Hk| |].
  - intros r1 r2 id H1 H2. exact (Hi r1 id H1 r2 id H2 eq_refl).
  - intros id cv Ho. exact (Hs id _ Ho).
Qed.

(** The objects and runners a transition names exist and have the right type. *)
Definition typed (t : transition) (a : astate) : Prop :=
  is_Some (runners a !! executor t) ∧
  match operation_of t with
  | mutex_init m | mutex_lock m | mutex_unlock m => has_kind a m KMutex
  | sem_init s _ | sem_post s | sem_wait s => has_kind a s KSemaphore
  | thread_create target | thread_join target => is_Some (runners a !! target)
  | thread_exit | thread_start | process_abort | process_exit _ => True
  | condition_variable_init c | condition_variable_signal c
  | condition_variable_broadcast c | condition_variable_destroy c => has_kind a c KCond
  | condition_variable_enqueue_thread c m | condition_variable_wait c m =>
      has_kind a c KCond ∧ has_kind a m KMutex
  end.
#[export] Instance typed_dec t a : Decision (typed t a).
Proof. unfold typed, has_kind. destruct t as [e []]; simpl; apply _. Defined.

(** Two states with the same runners and the same types of objects. *)
Definition same_shape (a a' : astate) : Prop :=
  runners a' = runners a ∧ ∀ id, kind_of <$> objs a' !! id = kind_of <$> objs a !! id.

#[export] Instance same_shape_equiv : Equivalence same_shape.
Proof.
  split.
  - by intros a.
  - intros a b [? ?]. split; congruence.
  - intros a b c [? Hab] [? Hbc]. split; [congruence|]. intros id. by rewrite Hbc.
Qed.

#[export] Instance has_kind_shape : Proper (same_shape ==> eq ==> eq ==> iff) has_kind.
Proof. intros a a' [_ Hk] id ? <- k ? <-. unfold has_kind. by rewrite Hk. Qed.

Lemma typed_shape t a a' : same_shape a a' → typed t a ↔ typed t a'.
Proof.
  intros [Hr Hk]. unfold typed, has_kind. rewrite Hr.
  destruct (operation_of t); by rewrite ?Hk.
Qed.

Lemma has_kind_mutex a id : has_kind a id KMutex ↔ ∃ m, objs a !! id = Some (VMutex m).
Proof. unfold has_kind. destruct (objs a !! id) as [[]|]; naive_solver. Qed.
Lemma has_kind_semaphore a id : has_kind a id KSemaphore ↔ ∃ s, objs a !! id = Some (VSemaphore s).
Proof. unfold has_kind. destruct (objs a !! id) as [[]|]; naive_solver. Qed.
Lemma has_kind_thread a id : has_kind a id KThread ↔ ∃ th, objs a !! id = Some (VThread th).
Proof. unfold has_kind. destruct (objs a !! id) as [[]|]; naive_solver. Qed.
Lemma has_kind_cond a id : has_kind a id KCond ↔ ∃ cv, objs a !! id = Some (VCond cv).
Proof. unfold has_kind. destruct (objs a !! id) as [[]|]; naive_solver. Qed.

Lemma has_kind_valid a id k : wf a → has_kind a id k → id ≠ invalid_objid.
Proof. intros Hwf Hk ->. unfold has_kind in Hk. by rewrite (wf_valid a Hwf) in Hk. Qed.

Lemma runner_object a r :
  wf a → is_Some (runners a !! r) →
  has_kind a (objid_of a r) KThread ∧ ∃ th, thread_of a r = Ok th.
Proof.
  intros Hwf [id Hid]. unfold thread_of, objid_of. rewrite Hid. simpl.
  pose proof (wf_runner a Hwf r id Hid) as Hk. split; [done|].
  apply has_kind_thread in Hk as [th Hth]. unfold obj_of, map_at. rewrite Hth. by exists th.
Qed.

Lemma same_shape_set_obj a id o :
  has_kind a id (kind_of o) → same_shape a (set_obj id o a).
Proof.
  intros Hk. split; [done|]. intros id'; simpl.
  destruct (decide (id = id')) as [->|]; [by rewrite lookup_insert_eq|by rewrite lookup_insert_ne].
Qed.

Lemma wf_set_obj a id o :
  wf a → has_kind a id (kind_of o) → unspurious o → wf (set_obj id o a).
Proof.
  intros Hwf Hk Hu. pose proof (same_shape_set_obj a id o Hk) as Hs. split.
  - simpl. rewrite lookup_insert_ne by by eapply has_kind_valid. apply Hwf.
  - intros r id'. simpl. intros Hr. rewrite <- Hs. by eapply wf_runner.
  - apply Hwf.
  - intros id' cv. simpl. destruct (decide (id = id')) as [->|].
    + rewrite lookup_insert_eq. by intros [= ->].
    + rewrite lookup_insert_ne by done. by apply Hwf.
Qed.

(** A state reachable by writes that respect the types. *)
Definition good (a a' : astate) : Prop := wf a' ∧ same_shape a a'.

Lemma good_refl a : wf a → good a a.
Proof. by split. Qed.

Lemma good_set_obj a a' id o :
  good a a' → has_kind a id (kind_of o) → unspurious o → good a (set_obj id o a').
Proof.
  intros [Hwf Hs] Hk Hu. rewrite Hs in Hk. split; [by apply wf_set_obj|].
  etrans; [exact Hs|]. by apply same_shape_set_obj.
Qed.

(** Writing an object of the right type does what it says. *)
Lemma add_state_good a a' id o :
  good a a' → has_kind a id (kind_of o) →
  add_state_for_obj id o a' = (Ok tt, set_obj id o a').
Proof.
  intros [Hwf Hs] Hk. simpl. unfold a_add_state_for_obj.
  rewrite bool_decide_false; [done|]. rewrite Hs in Hk. by eapply has_kind_valid.
Qed.

(** ** Running effects *)

Lemma ebind_of_ok {S A B} (m : eff S A) (k : A → eff S B) s x s' :
  m s = (Ok x, s') → ebind m k s = k x s'.
Proof. unfold ebind. by intros ->. Qed.

Lemma query_ok {S A} (f : S → res A) s x : f s = Ok x → query f s = (Ok x, s).
Proof. unfold query. by intros ->. Qed.

(** The postcondition of a transition that is safe: a status and a good state. *)
Definition safe (a : astate) (r : res status * astate) : Prop :=
  ∃ st, r.1 = Ok st ∧ good a r.2.

Section safe.
Context (a : astate) (Hwf : wf a).

Lemma safe_ret a' st : good a a' → safe a (ret st a').
Proof using. intros Hg. by exists st. Qed.

Lemma safe_write a' id o k :
  good a a' → has_kind a id (kind_of o) → unspurious o →
  (∀ a2, good a a2 → safe a (k a2)) → safe a (ebind (add_state_for_obj id o) (λ _, k) a').
Proof using.
  intros Hg Hk Hu Hkk. rewrite (ebind_of_ok _ _ a' tt (set_obj id o a')).
  - apply Hkk. by apply good_set_obj.
  - by apply (add_state_good a).
Qed.

Lemma safe_write_runner a' r th k :
  good a a' → has_kind a (objid_of a r) KThread →
  (∀ a2, good a a2 → safe a (k a2)) → safe a (ebind (add_state_for_runner r th) (λ _, k) a').
Proof using.
  intros Hg Hk Hkk. pose proof Hg as [_ [Hr _]].
  rewrite (ebind_of_ok _ _ a' tt (set_obj (objid_of a r) (VThread th) a')).
  - apply Hkk. by apply good_set_obj.
  - rewrite <- (add_state_good a a' _ (VThread th)) by done. simpl.
    by rewrite (objid_of_runners a' a).
Qed.

Lemma safe_read {A} a' (f : astate → res A) k x :
  f a' = Ok x → safe a (k x a') → safe a (ebind (query f) k a').
Proof using. intros Hf Hs. by rewrite (ebind_of_ok _ _ a' x a') by by apply query_ok. Qed.
End safe.

(** What a transition reads of a state with the right types. *)
Lemma read_mutex a id :
  has_kind a id KMutex → ∃ m, objs a !! id = Some (VMutex m) ∧
    get_state_of_object a id ≫= as_mutex = Ok m.
Proof.
  intros [m Hm]%has_kind_mutex. exists m. simpl. unfold obj_of, map_at. by rewrite Hm.
Qed.
Lemma read_semaphore a id :
  has_kind a id KSemaphore → ∃ s, objs a !! id = Some (VSemaphore s) ∧
    get_state_of_object a id ≫= as_semaphore = Ok s.
Proof.
  intros [m Hm]%has_kind_semaphore. exists m. simpl. unfold obj_of, map_at. by rewrite Hm.
Qed.
Lemma read_cond a id :
  has_kind a id KCond → ∃ cv, objs a !! id = Some (VCond cv) ∧
    get_state_of_object a id ≫= as_cond = Ok cv.
Proof.
  intros [m Hm]%has_kind_cond. exists m. simpl. unfold obj_of, map_at. by rewrite Hm.
Qed.

Lemma good_kind a a' id k : good a a' → has_kind a id k → has_kind a' id k.
Proof. intros [_ Hs]. by rewrite Hs. Qed.

Ltac read_object lem Hk :=
  let x := fresh "x" in let Hx := fresh "Hx" in let Hr := fresh "Hread" in
  destruct (lem _ _ Hk) as (x & Hx & Hr);
  eapply safe_read; [exact Hr|cbv beta zeta].

Ltac safe_step :=
  match goal with
  | |- safe _ (ret _ _) => apply safe_ret; first [done | by apply good_refl]
  | |- safe _ ((if ?b then _ else _) _) => destruct b eqn:?
  | Hk : has_kind ?a ?id KMutex |- safe ?a (ebind (query (λ s, get_state_of_object s ?id ≫= as_mutex)) _ ?a) =>
      read_object read_mutex Hk
  | Hk : has_kind ?a ?id KSemaphore |- safe ?a (ebind (query (λ s, get_state_of_object s ?id ≫= as_semaphore)) _ ?a) =>
      read_object read_semaphore Hk
  | Hk : has_kind ?a ?id KCond |- safe ?a (ebind (query (λ s, get_state_of_object s ?id ≫= as_cond)) _ ?a) =>
      read_object read_cond Hk
  | Hr : thread_of ?a ?r = Ok ?th |- safe ?a (ebind (query (λ s, get_state_of_runner s ?r)) _ ?a) =>
      eapply safe_read; [exact Hr|cbv beta zeta]
  | |- safe _ (ebind (add_state_for_obj _ _) _ _) =>
      apply safe_write; [first [done | by apply good_refl]|done|done|intros ? ?]
  | |- safe _ (ebind (add_state_for_runner _ _) _ _) =>
      apply safe_write_runner; [first [done | by apply good_refl]|done|intros ? ?]
  end.

(** Without spurious wake-ups a waiter that can exit can be woken. *)
Lemma waiter_can_exit_wake cv r :
  numRemainingSpuriousWakeups cv = 0%N → waiter_can_exit cv r = true →
  thread_can_exit (cv_policy cv) r = true ∧ ∃ p, wake_thread r (cv_policy cv) = Ok p.
Proof.
  unfold waiter_can_exit. intros ->. simpl. intros Hc. split; [done|].
  rewrite <- policy_wake_iff in Hc. destruct (wake_thread r (cv_policy cv)); [eauto|done].
Qed.

Lemma modify_safe a t : wf a → typed t a → safe a (modify t a).
Proof.
  intros Hwf [He Ht]. destruct t as [e op]; simpl in *.
  pose proof (runner_object a e Hwf He) as [Hek [th Hth]].
  unfold modify; cbn [executor operation_of].
  destruct op as [| | | | | |target| |target| | | | | | | | |]; autounfold with modify;
    try (pose proof (runner_object a target Hwf Ht) as [Htk [tth Htth]]);
    destruct_and?; repeat safe_step.
  match goal with H : negb _ = false |- _ =>
    apply negb_false_iff in H; rewrite !andb_true_iff in H; destruct H as [[Hexit _] _] end.
  destruct (waiter_can_exit_wake x e) as (_ & p & Hp); [by eapply (wf_spurious a Hwf)|done|].
  eapply safe_read; [exact Hp|]. repeat safe_step.
Qed.

Lemma astep_safe a t :
  wf a → typed t a → ∃ a' st, astep t a = Ok (a', st) ∧ good a a'.
Proof.
  intros Hwf Ht. pose proof Ht as [He _].
  destruct (runner_object a (executor t) Hwf He) as [_ [th Hth]].
  destruct (modify_safe a t Hwf Ht) as (st & Hst & Hg).
  unfold astep. rewrite Hth. simpl. destruct (is_active th); [|by eexists _, _; split; [|apply good_refl]].
  destruct (modify t a) as [r a']; simpl in *; subst.
  case_bool_decide; eexists _, _; (split; [done|]); [done|by apply good_refl].
Qed.

(** ** Inverting effects *)

Lemma query_inv {S A} (f : S → res A) s x s' : query f s = (Ok x, s') → f s = Ok x ∧ s' = s.
Proof. unfold query. intros [= ? <-]. done. Qed.
Lemma ret_inv {S A} (x y : A) (s s' : S) : ret x s = (Ok y, s') → x = y ∧ s' = s.
Proof. unfold ret. by intros [= -> ->]. Qed.
Lemma add_state_inv a id o u a' :
  a_add_state_for_obj id o a = (Ok u, a') → id ≠ invalid_objid ∧ a' = set_obj id o a.
Proof. unfold a_add_state_for_obj. case_bool_decide; naive_solver. Qed.

Lemma read_mutex_inv a id m :
  get_state_of_object a id ≫= as_mutex = Ok m → objs a !! id = Some (VMutex m).
Proof. simpl. intros H. res_inv. unfold obj_of in *. res_inv. by destruct a0; simplify_eq/=. Qed.
Lemma read_semaphore_inv a id s :
  get_state_of_object a id ≫= as_semaphore = Ok s → objs a !! id = Some (VSemaphore s).
Proof. simpl. intros H. res_inv. unfold obj_of in *. res_inv. by destruct a0; simplify_eq/=. Qed.
Lemma read_cond_inv a id cv :
  get_state_of_object a id ≫= as_cond = Ok cv → objs a !! id = Some (VCond cv).
Proof. simpl. intros H. res_inv. unfold obj_of in *. res_inv. by destruct a0; simplify_eq/=. Qed.

Ltac eff_inv_step :=
  match goal with
  | H : ebind _ _ _ = (Ok _, _) |- _ =>
      let x := fresh "x" in let s := fresh "s" in let Hm := fresh "Hm" in
      apply ebind_ok in H as (x & s & Hm & H)
  | H : (if ?b then _ else _) _ = (Ok _, _) |- _ => destruct b eqn:?
  | H : query _ _ = (Ok _, _) |- _ => apply query_inv in H as [? ->]
  | H : ret _ _ = (Ok _, _) |- _ => apply ret_inv in H as [? ->]
  | H : add_state_for_obj _ _ _ = (Ok _, _) |- _ => apply add_state_inv in H as [? ->]
  | H : add_state_for_runner _ _ _ = (Ok _, _) |- _ => apply add_state_inv in H as [? ->]
  | H : get_state_of_object _ _ ≫= as_mutex = Ok _ |- _ => apply read_mutex_inv in H
  | H : get_state_of_object _ _ ≫= as_semaphore = Ok _ |- _ => apply read_semaphore_inv in H
  | H : get_state_of_object _ _ ≫= as_cond = Ok _ |- _ => apply read_cond_inv in H
  | H : exists_ = exists_ |- _ => clear H
  end.
Ltac eff_inv := repeat (eff_inv_step; simplify_eq).

(** Unfold an executed transition into its guards and writes. *)
Ltac astep_inv H :=
  apply astep_exists in H as [? H]; unfold modify in H; cbn [executor operation_of] in H;
  autounfold with modify in H; eff_inv.

(** ** Objects as automata *)

(** An object other than a thread changes only under an operation on it. *)
Lemma astep_other a t a' st id o :
  wf a → typed t a → astep t a = Ok (a', st) → objs a !! id = Some o →
  kind_of o ≠ KThread → id ∉ op_objects (operation_of t) → objs a' !! id = Some o.
Proof.
  intros Hwf [He Ht] Hs Ho Hk Hid. destruct (astep_unchanged t a a' st Hs) as [_ Hu].
  rewrite Hu; [done|]. unfold wr. rewrite list_to_set_app_L, elem_of_union, !elem_of_list_to_set.
  intros [?|(r & -> & Hr)%list_elem_of_fmap]; [done|].
  destruct (runner_object a r Hwf) as [Hkt _].
  { unfold runners_written in Hr. destruct t as [e []]; set_solver. }
  unfold has_kind in Hkt. rewrite Ho in Hkt. by injection Hkt.
Qed.

(** One step of the mutex [id]. *)
Inductive mutex_step (e : runner_id_t) (id : objid_t) : operation → mutex → mutex → Prop :=
  | mutex_step_init m :
      mutex_step e id (mutex_init id) m (new_mutex mutex_unlocked (location m))
  | mutex_step_lock m :
      is_locked m = false → mutex_step e id (mutex_lock id) m (Mutex mutex_locked (location m) e)
  | mutex_step_unlock m :
      is_locked_by m e = true →
      mutex_step e id (mutex_unlock id) m (new_mutex mutex_unlocked (location m))
  | mutex_step_enqueue c m :
      is_locked_by m e = true →
      mutex_step e id (condition_variable_enqueue_thread c id) m
        (new_mutex mutex_unlocked (location m))
  | mutex_step_wait c m :
      is_unlocked m = true →
      mutex_step e id (condition_variable_wait c id) m (Mutex mutex_locked (location m) e)
  | mutex_step_other op m : id ∉ op_objects op → mutex_step e id op m m.

Lemma lookup_set_obj id id' o a :
  objs (set_obj id o a) !! id' = if decide (id = id') then Some o else objs a !! id'.
Proof. simpl. case_decide; subst; [by rewrite lookup_insert_eq|by rewrite lookup_insert_ne]. Qed.

Lemma elem_of_singleton_list (x y : objid_t) : x ∈ [y] ↔ x = y.
Proof. set_solver. Qed.
Lemma elem_of_pair_list (x y z : objid_t) : x ∈ [y; z] ↔ x = y ∨ x = z.
Proof. set_solver. Qed.

(** Case analysis on an executed transition that names the object [id]: only the
operations on objects of the type of [id] remain. *)
Ltac op_cases t Hid Hin Ht Hs :=
  destruct t as [e op]; destruct Ht as [_ Ht]; simpl in Ht, Hin |- *;
  destruct op; cbn [op_objects] in Hin; try (by apply not_elem_of_nil in Hin);
  first [apply elem_of_singleton_list in Hin; subst
        |apply elem_of_pair_list in Hin as [Hin|Hin]; subst; destruct Ht as [Ht ?]];
  unfold has_kind in *; try (rewrite Hid in *; discriminate);
  astep_inv Hs; rewrite ?lookup_set_obj; repeat (rewrite decide_True by done || rewrite decide_False by congruence).

Ltac guards :=
  repeat match goal with
  | H : negb _ = false |- _ => apply negb_false_iff in H
  | H : negb _ = true |- _ => apply negb_true_iff in H
  | H : _ && _ = true |- _ => apply andb_true_iff in H as [? ?]
  | H : _ || _ = false |- _ => apply orb_false_iff in H as [? ?]
  end; try done.

Lemma astep_mutex a t a' id m :
  wf a → typed t a → astep t a = Ok (a', exists_) → objs a !! id = Some (VMutex m) →
  ∃ m', objs a' !! id = Some (VMutex m') ∧ mutex_step (executor t) id (operation_of t) m m'.
Proof.
  intros Hwf Ht Hs Hid.
  destruct (decide (id ∈ op_objects (operation_of t))) as [Hin|Hnin];
    [|exists m; split; [by eapply astep_other|by constructor]].
  op_cases t Hid Hin Ht Hs; repeat case_decide; simplify_eq; eexists; (split; [done|]);
    constructor; guards.
Qed.

(** One step of the semaphore [id]. *)
Inductive semaphore_step (id : objid_t) : operation → semaphore → semaphore → Prop :=
  | semaphore_step_init s count : semaphore_step id (sem_init id count) s (new_semaphore count)
  | semaphore_step_post s :
      semaphore_step id (sem_post id) s (new_semaphore (u32 (semaphore_count s + 1)))
  | semaphore_step_wait s :
      will_block s = false →
      semaphore_step id (sem_wait id) s (new_semaphore (u32 (semaphore_count s + (2^32 - 1))))
  | semaphore_step_other op s : id ∉ op_objects op → semaphore_step id op s s.

Lemma astep_semaphore a t a' id s :
  wf a → typed t a → astep t a = Ok (a', exists_) → objs a !! id = Some (VSemaphore s) →
  ∃ s', objs a' !! id = Some (VSemaphore s') ∧ semaphore_step id (operation_of t) s s'.
Proof.
  intros Hwf Ht Hs Hid.
  destruct (decide (id ∈ op_objects (operation_of t))) as [Hin|Hnin];
    [|exists s; split; [by eapply astep_other|by constructor]].
  op_cases t Hid Hin Ht Hs; simplify_eq; eexists; (split; [done|]); constructor; guards.
Qed.

(** One step of the condition variable [id], as far as its policy goes. *)
Inductive policy_step (e : runner_id_t) (id : objid_t) : operation → policy → policy → Prop :=
  | policy_step_init p : policy_step e id (condition_variable_init id) p new_policy
  | policy_step_destroy p :
      has_waiters p = false → policy_step e id (condition_variable_destroy id) p new_policy
  | policy_step_enqueue m p p' :
      wait_queue p' = wait_queue p ++ [e] → wake_groups p' = wake_groups p →
      broadcast_eligible_threads p' = broadcast_eligible_threads p →
      threads_with_states p' = <[e := CV_WAITING]> (threads_with_states p) →
      policy_step e id (condition_variable_enqueue_thread id m) p p'
  | policy_step_signal p :
      policy_step e id (condition_variable_signal id) p (add_to_wake_groups (waiting_threads p) p)
  | policy_step_broadcast_nobody p :
      has_waiters p = false → policy_step e id (condition_variable_broadcast id) p p
  | policy_step_broadcast p :
      has_waiters p = true →
      policy_step e id (condition_variable_broadcast id) p
        (receive_broadcast_message (add_to_wake_groups (waiting_threads p) p))
  | policy_step_wait m p p' :
      thread_can_exit p e = true → wake_thread e p = Ok p' →
      policy_step e id (condition_variable_wait id m) p p'
  | policy_step_other op p : id ∉ op_objects op → policy_step e id op p p.

Lemma has_waiters_false p : has_waiters p = false → waiting_threads p = [].
Proof.
  unfold has_waiters, waiting_threads, return_wait_queue.
  rewrite negb_false_iff, bool_decide_eq_true. by intros ->.
Qed.

Lemma add_to_wake_groups_nil p : add_to_wake_groups [] p = p.
Proof. done. Qed.

Lemma signal_policy p :
  (if bool_decide (waiting_threads p = []) then p else add_to_wake_groups (waiting_threads p) p) =
  add_to_wake_groups (waiting_threads p) p.
Proof. case_bool_decide as Hw; [by rewrite Hw|done]. Qed.

Lemma astep_cond a t a' id cv :
  wf a → typed t a → astep t a = Ok (a', exists_) → objs a !! id = Some (VCond cv) →
  ∃ cv', objs a' !! id = Some (VCond cv') ∧
    policy_step (executor t) id (operation_of t) (cv_policy cv) (cv_policy cv').
Proof.
  intros Hwf Ht Hs Hid.
  destruct (decide (id ∈ op_objects (operation_of t))) as [Hin|Hnin];
    [|exists cv; split; [by eapply astep_other|by constructor]].
  op_cases t Hid Hin Ht Hs; repeat case_decide; simplify_eq; eexists; (split; [first [done|eassumption]|]);
    unfold get_policy, cv_has_waiters in *; cbn [cv_policy set_policy set_associated_mutex];
    rewrite ?signal_policy.
  all: first
    [ by constructor; guards
    | by eapply policy_step_wait; [eapply waiter_can_exit_wake; [by eapply (wf_spurious a Hwf)|guards]|]
    | by apply policy_step_enqueue;
      repeat case_bool_decide; simpl; rewrite ?insert_insert_eq
    | apply negb_true_iff in Heqb1; pose proof (policy_step_signal e cond_id (cv_policy x)) as Hsig;
      by rewrite (has_waiters_false _ Heqb1) in Hsig ].
Qed.

(** ** Runs *)

(** Executions of enabled, well-typed transitions. *)
Inductive arun : astate → list transition → astate → Prop :=
  | arun_nil a : arun a [] a
  | arun_cons a t a1 ts a2 :
      typed t a → astep t a = Ok (a1, exists_) → arun a1 ts a2 → arun a (t :: ts) a2.

Lemma astep_good a t a' st : wf a → typed t a → astep t a = Ok (a', st) → good a a'.
Proof.
  intros Hwf Ht Hs. destruct (astep_safe a t Hwf Ht) as (a1 & st1 & Hs1 & Hg). congruence.
Qed.

Lemma arun_good a ts a' : arun a ts a' → wf a → good a a'.
Proof.
  induction 1 as [a|a t a1 ts a2 Ht Hs _ IH]; intros Hwf; [by apply good_refl|].
  destruct (astep_good a t a1 _ Hwf Ht Hs) as [Hwf1 Hsh1].
  destruct (IH Hwf1) as [Hwf2 Hsh2]. split; [done|]. by etrans.
Qed.

(** Rule induction for one object of a run: an invariant of the object's
automaton, with the list of operations done so far, holds at the end. *)
Lemma arun_object {T} (inj : T → visible_object_state) (id : objid_t)
    (step : runner_id_t → operation → T → T → Prop) (I : list transition → T → Prop) :
  (∀ a t a' x, wf a → typed t a → astep t a = Ok (a', exists_) → objs a !! id = Some (inj x) →
     ∃ x', objs a' !! id = Some (inj x') ∧ step (executor t) (operation_of t) x x') →
  (∀ ts t x x', I ts x → step (executor t) (operation_of t) x x' → I (ts ++ [t]) x') →
  ∀ a ts a', arun a ts a' → wf a → ∀ done x, objs a !! id = Some (inj x) → I done x →
  ∃ x', objs a' !! id = Some (inj x') ∧ I (done ++ ts) x'.
Proof.
  intros Hstep Hinv a ts a' Hrun.
  induction Hrun as [a|a t a1 ts a2 Ht Hs _ IH]; intros Hwf done x Hx HI.
  { exists x. by rewrite app_nil_r. }
  destruct (Hstep a t a1 x Hwf Ht Hs Hx) as (x1 & Hx1 & Hst).
  destruct (astep_good a t a1 _ Hwf Ht Hs) as [Hwf1 _].
  destruct (IH Hwf1 (done ++ [t]) x1 Hx1) as (x2 & Hx2 & HI2); [by eapply Hinv|].
  exists x2. rewrite <- app_assoc in HI2. done.
Qed.

(** ** Mutual exclusion *)

(** The operations by which runner [r] gives the mutex [id] up, and those by
which any runner takes it. *)
Definition releases (r : runner_id_t) (id : objid_t) (t : transition) : bool :=
  match operation_of t with
  | mutex_init m => bool_decide (m = id)
  | mutex_unlock m | condition_variable_enqueue_thread _ m =>
      bool_decide (m = id) && bool_decide (executor t = r)
  | _ => false
  end.
Definition acquires (id : objid_t) (t : transition) : bool :=
  match operation_of t with
  | mutex_lock m | condition_variable_wait _ m => bool_decide (m = id)
  | _ => false
  end.

Lemma is_locked_by_true m r :
  is_locked_by m r = true ↔ mutex_current_state m = mutex_locked ∧ owner m = r.
Proof. unfold is_locked_by. by rewrite andb_true_iff, !bool_decide_eq_true. Qed.
Lemma is_locked_by_is_locked m r : is_locked_by m r = true → is_locked m = true.
Proof. rewrite is_locked_by_true. unfold is_locked. intros [-> _]. done. Qed.
Lemma is_unlocked_not_locked m : is_unlocked m = true → is_locked m = false.
Proof. unfold is_unlocked, is_locked. rewrite bool_decide_eq_true. by intros ->. Qed.

Lemma mutex_step_held t id m m' r :
  mutex_step (executor t) id (operation_of t) m m' → is_locked_by m r = true →
  releases r id t = false → m' = m ∧ acquires id t = false.
Proof.
  intros Hst Hl Hrel. pose proof (is_locked_by_is_locked m r Hl) as Hlk.
  unfold releases, acquires in *. inversion Hst; subst;
    repeat match goal with
    | H : _ = operation_of t |- _ => rewrite <- H in *
    | H : is_unlocked _ = true |- _ => apply is_unlocked_not_locked in H
    | H : is_locked_by _ (executor t) = true |- _ => apply is_locked_by_true in H as [? ?]
    | H : is_locked_by _ r = true |- _ => apply is_locked_by_true in H as [? ?] end;
    rewrite ?bool_decide_true in Hrel by congruence; try done; try congruence.
  split; [done|]. destruct (operation_of t); try done;
    apply bool_decide_eq_false; intros ->; set_solver.
Qed.

(** C9: mutual exclusion.  While a runner holds a mutex, and until it unlocks
it, enqueues itself on a condition variable with it, or somebody initialises it
again, no run contains a transition that takes the mutex, and the runner still
holds it at the end. *)
Theorem mutual_exclusion a ts a' id m r :
  wf a → arun a ts a' → objs a !! id = Some (VMutex m) → is_locked_by m r = true →
  Forall (λ t, releases r id t = false) ts →
  objs a' !! id = Some (VMutex m) ∧ Forall (λ t, acquires id t = false) ts.
Proof.
  intros Hwf Hrun Hm Hl Hrel.
  destruct (arun_object VMutex id (λ e, mutex_step e id)
    (λ ts x, Forall (λ t, releases r id t = false) ts →
       x = m ∧ Forall (λ t, acquires id t = false) ts)) with a ts a' (@nil transition) m
    as (m' & Hm' & HI); [..|done|done|done|by intros _|].
  - intros. by eapply astep_mutex.
  - intros ts0 t x x' HI Hst Hall. apply Forall_app in Hall as [Hall [Ht _]%Forall_cons].
    destruct (HI Hall) as [-> Hacq]. destruct (mutex_step_held t id m x' r Hst Hl Ht) as [-> ?].
    split; [done|]. apply Forall_app; split; [done|]. by constructor.
  - destruct (HI Hrel) as [-> ?]. done.
Qed.

(** ** Semaphores *)

Definition count_ops (f : operation → bool) (ts : list transition) : Z :=
  Z.of_nat (length (filter (λ t, f (operation_of t) = true) ts)).
Definition posts_to (id : objid_t) (op : operation) : bool :=
  match op with sem_post s => bool_decide (s = id) | _ => false end.
Definition waits_on (id : objid_t) (op : operation) : bool :=
  match op with sem_wait s => bool_decide (s = id) | _ => false end.
Definition inits (id : objid_t) (op : operation) : bool :=
  match op with sem_init s _ => bool_decide (s = id) | _ => false end.

Lemma count_ops_app f ts1 ts2 : count_ops f (ts1 ++ ts2) = (count_ops f ts1 + count_ops f ts2)%Z.
Proof. unfold count_ops. rewrite filter_app, length_app. lia. Qed.
Lemma count_ops_one f t : count_ops f [t] = if f (operation_of t) then 1%Z else 0%Z.
Proof.
  unfold count_ops. destruct (f (operation_of t)) eqn:Hf.
  - by rewrite filter_cons_True.
  - rewrite filter_cons_False by congruence. done.
Qed.
Lemma count_ops_nonneg f ts : (0 ≤ count_ops f ts)%Z.
Proof. unfold count_ops. lia. Qed.

(** [count() + 1] and [count() - 1] through [unsigned] and back, for counts that
fit in an [int]. *)
Lemma semaphore_incr z :
  (0 ≤ z < 2^31 - 1)%Z → sem_count (new_semaphore (u32 (u32_of_int z + 1))) = (z + 1)%Z.
Proof.
  intros Hz. simpl. rewrite u32_of_int_small by lia. unfold u32.
  rewrite N.mod_small by lia. rewrite s32_small by lia. lia.
Qed.
Lemma semaphore_decr z :
  (0 < z < 2^31)%Z → sem_count (new_semaphore (u32 (u32_of_int z + (2^32 - 1)))) = (z - 1)%Z.
Proof.
  intros Hz. simpl. rewrite u32_of_int_small by lia. unfold u32.
  replace (Z.to_N z + (2 ^ 32 - 1))%N with (Z.to_N (z - 1) + 1 * 2^32)%N by lia.
  rewrite N.Div0.mod_add, N.mod_small by lia. rewrite s32_small by lia. lia.
Qed.

Lemma will_block_false s : will_block s = false ↔ (0 < sem_count s)%Z.
Proof. unfold will_block. lia. Qed.

(** C10: conservation of semaphore units.  Along a run without re-initialisation
whose posts cannot overflow an [int], the counter is the initial one plus the
posts minus the waits, and it never becomes negative. *)
Theorem semaphore_conservation a ts a' id s :
  wf a → arun a ts a' → objs a !! id = Some (VSemaphore s) → (0 ≤ sem_count s)%Z →
  (sem_count s + count_ops (posts_to id) ts < 2^31)%Z → count_ops (inits id) ts = 0%Z →
  ∃ s', objs a' !! id = Some (VSemaphore s') ∧ (0 ≤ sem_count s')%Z ∧
    sem_count s' = (sem_count s + count_ops (posts_to id) ts - count_ops (waits_on id) ts)%Z.
Proof.
  intros Hwf Hrun Hs Hpos Hmax Hinit.
  destruct (arun_object VSemaphore id (λ _, semaphore_step id)
    (λ ts x, (sem_count s + count_ops (posts_to id) ts < 2^31)%Z → count_ops (inits id) ts = 0%Z →
       (0 ≤ sem_count x)%Z ∧
       sem_count x = (sem_count s + count_ops (posts_to id) ts - count_ops (waits_on id) ts)%Z))
    with a ts a' (@nil transition) s as (s' & Hs' & HI); [..|done|done|done| |].
  - intros. by eapply astep_semaphore.
  - intros ts0 t x x' HI Hst. rewrite !count_ops_app, !count_ops_one.
    pose proof (count_ops_nonneg (posts_to id) ts0). pose proof (count_ops_nonneg (waits_on id) ts0).
    pose proof (count_ops_nonneg (inits id) ts0).
    inversion Hst; subst; cbn [posts_to waits_on inits]; rewrite ?bool_decide_true by done; intros Hlt Hz.
    + lia.
    + destruct HI as [Hx HI]; [lia..|]. unfold semaphore_count. rewrite semaphore_incr; lia.
    + destruct HI as [Hx HI]; [lia..|].
      match goal with Hw : will_block x = false |- _ => apply will_block_false in Hw end.
      unfold semaphore_count. rewrite semaphore_decr; lia.
    + assert (posts_to id (operation_of t) = false ∧ waits_on id (operation_of t) = false ∧
        inits id (operation_of t) = false) as (Hp & Hw & Hi).
      { destruct (operation_of t); simpl in *; rewrite ?bool_decide_eq_false; set_solver. }
      rewrite Hp, Hw, Hi in *. destruct HI as [Hx HI]; lia.
  - simpl. unfold count_ops. simpl. lia.
  - exists s'. destruct HI as [? ?]; eauto.
Qed.

(** The overflow of a semaphore.  A post at [INT_MAX] wraps the counter to
[INT_MIN], after which every wait blocks. *)
Theorem semaphore_overflow a id e r :
  wf a → thread_of a e = Ok (Thread running) → thread_of a r = Ok (Thread running) →
  objs a !! id = Some (VSemaphore (semaphore_of sem_initialized (2^31 - 1))) →
  ∃ a', astep (Transition e (sem_post id)) a = Ok (a', exists_) ∧
    objs a' !! id = Some (VSemaphore (semaphore_of sem_initialized (- 2^31))) ∧
    astep (Transition r (sem_wait id)) a' = Ok (a', disabled).
Proof.
  intros Hwf He Hr Hs.
  assert (has_kind a id KSemaphore) as Hk by (apply has_kind_semaphore; eauto).
  pose proof (has_kind_valid a id _ Hwf Hk) as Hid.
  exists (set_obj id (VSemaphore (semaphore_of sem_initialized (- 2^31))) a).
  assert (objid_of a r ≠ id) as Hne.
  { intros <-. unfold thread_of, obj_of, map_at in Hr. by rewrite Hs in Hr. }
  split_and!.
  - apply astep_exists. split; [done|]. unfold modify. cbn [executor operation_of].
    autounfold with modify. rewrite (ebind_of_ok _ _ a (semaphore_of sem_initialized (2^31-1)) a).
    + rewrite (ebind_of_ok _ _ a tt (set_obj id (VSemaphore (semaphore_of sem_initialized (- 2^31))) a)); [done|].
      simpl. unfold a_add_state_for_obj. by rewrite bool_decide_false.
    + apply query_ok. simpl. unfold obj_of, map_at. by rewrite Hs.
  - rewrite lookup_set_obj. by rewrite decide_True.
  - unfold astep, thread_of, obj_of, map_at in *. cbn [executor]. rewrite lookup_set_obj.
    change (objid_of (set_obj _ _ a) r) with (objid_of a r). rewrite decide_False by done.
    rewrite Hr. unfold modify. cbn [executor operation_of]. autounfold with modify. simpl.
    unfold ebind, query. cbn [get_state_of_object astate_State]. unfold obj_of, map_at.
    rewrite lookup_set_obj, decide_True by done. done.
Qed.

(** ** Condition variables *)

Definition signals (id : objid_t) (op : operation) : bool :=
  match op with condition_variable_signal c => bool_decide (c = id) | _ => false end.
Definition broadcasts (id : objid_t) (op : operation) : bool :=
  match op with condition_variable_broadcast c => bool_decide (c = id) | _ => false end.
Definition returns_from_wait (id : objid_t) (op : operation) : bool :=
  match op with condition_variable_wait c _ => bool_decide (c = id) | _ => false end.

Lemma pending_add_to_wake_groups threads p :
  pending_wakeups (add_to_wake_groups threads p) ≤ S (pending_wakeups p).
Proof.
  unfold add_to_wake_groups, pending_wakeups. case_bool_decide; simpl; [lia|].
  rewrite length_app. simpl. lia.
Qed.

(** C11: no spurious wake-ups.  Along a run without broadcasts on a condition
variable, the waits that return are at most the wake-ups owed at the start plus
the signals sent. *)
Theorem no_spurious_wakeups a ts a' id cv :
  wf a → arun a ts a' → objs a !! id = Some (VCond cv) → count_ops (broadcasts id) ts = 0%Z →
  ∃ cv', objs a' !! id = Some (VCond cv') ∧
    (count_ops (returns_from_wait id) ts + Z.of_nat (pending_wakeups (cv_policy cv')) ≤
     Z.of_nat (pending_wakeups (cv_policy cv)) + count_ops (signals id) ts)%Z.
Proof.
  intros Hwf Hrun Hcv Hb.
  destruct (arun_object VCond id
    (λ e op x x', policy_step e id op (cv_policy x) (cv_policy x'))
    (λ ts x, count_ops (broadcasts id) ts = 0%Z →
       (count_ops (returns_from_wait id) ts + Z.of_nat (pending_wakeups (cv_policy x)) ≤
        Z.of_nat (pending_wakeups (cv_policy cv)) + count_ops (signals id) ts)%Z))
    with a ts a' (@nil transition) cv as (cv' & Hcv' & HI); [..|done|done|done| |].
  - intros. by eapply astep_cond.
  - intros ts0 t x x' HI Hst. rewrite !count_ops_app, !count_ops_one.
    pose proof (count_ops_nonneg (broadcasts id) ts0).
    inversion Hst; subst; cbn [signals broadcasts returns_from_wait];
      rewrite ?bool_decide_true by done; intros Hz; try (specialize (HI ltac:(lia))).
    + change (pending_wakeups new_policy) with 0. lia.
    + change (pending_wakeups new_policy) with 0. lia.
    + assert (pending_wakeups (cv_policy x') = pending_wakeups (cv_policy x)) as ->; [|lia].
      unfold pending_wakeups. congruence.
    + pose proof (pending_add_to_wake_groups (waiting_threads (cv_policy x)) (cv_policy x)). lia.
    + lia.
    + lia.
    + match goal with Hw : wake_thread _ _ = Ok _ |- _ => apply wake_thread_pending in Hw end. lia.
    + assert (signals id (operation_of t) = false ∧ returns_from_wait id (operation_of t) = false ∧
        broadcasts id (operation_of t) = false) as (Hp & Hw & Hi).
      { destruct (operation_of t); simpl in *; rewrite ?bool_decide_eq_false; set_solver. }
      rewrite Hp, Hw, Hi in *. replace (cv_policy x') with (cv_policy x). specialize (HI ltac:(lia)). lia.
  - intros _. unfold count_ops. simpl. lia.
  - exists cv'. split; [done|]. by apply HI.
Qed.

(** Run a transition on a state whose relevant objects are known. *)
Ltac exec :=
  unfold astep, modify; cbn [executor operation_of];
  autounfold with modify; unfold ebind, query, ret;
  cbn [get_state_of_object get_state_of_runner add_state_for_obj add_state_for_runner
       astate_State astate_MutableState];
  unfold a_add_state_for_obj, thread_of, obj_of, map_at in *.

Lemma thread_of_set_obj a r id o th :
  thread_of a r = Ok th → kind_of o ≠ KThread → has_kind a id (kind_of o) →
  thread_of (set_obj id o a) r = Ok th.
Proof.
  intros Hth Hk Hid. unfold thread_of, obj_of, map_at in *. rewrite lookup_set_obj.
  change (objid_of (set_obj id o a) r) with (objid_of a r).
  case_decide as Heq; [|done]. subst. exfalso. unfold has_kind in Hid.
  destruct (objs a !! objid_of a r) as [[]|]; simpl in *; congruence.
Qed.

(** [signal] on a usable condition variable somebody waits on. *)
Lemma astep_signal a e c cv :
  wf a → thread_of a e = Ok (Thread running) → objs a !! c = Some (VCond cv) →
  is_uninitialized cv = false → is_destroyed cv = false → cv_has_waiters cv = true →
  ∃ cv', astep (Transition e (condition_variable_signal c)) a = Ok (set_obj c (VCond cv') a, exists_) ∧
    cv_policy cv' = add_to_wake_groups (waiting_threads (cv_policy cv)) (cv_policy cv) ∧
    get_mutex cv' = get_mutex cv ∧ is_uninitialized cv' = false ∧ is_destroyed cv' = false ∧
    numRemainingSpuriousWakeups cv' = 0%N.
Proof.
  intros Hwf He Hc Hu Hd Hw.
  assert (c ≠ invalid_objid) as Hid by (eapply has_kind_valid, has_kind_cond; eauto).
  eexists. split; [|].
  - unfold astep. cbn [executor]. rewrite He. change (is_active (Thread running)) with true.
    exec. rewrite Hc. cbn [mbind res_bind as_cond]. rewrite Hu, Hd, Hw. cbn [negb].
    rewrite bool_decide_false by done. rewrite signal_policy. done.
  - cbn [cv_policy set_policy set_associated_mutex]. split_and!; try done;
      unfold is_uninitialized, is_destroyed; simpl; by case_match.
Qed.

(** [wait] by a runner that can exit, on an unlocked mutex. *)
Lemma astep_wait a e c mid cv m p :
  wf a → thread_of a e = Ok (Thread running) →
  objs a !! c = Some (VCond cv) → objs a !! mid = Some (VMutex m) →
  is_uninitialized cv = false → is_destroyed cv = false → is_unlocked m = true →
  get_location m = get_mutex cv → wake_thread e (cv_policy cv) = Ok p →
  ∃ a' cv', astep (Transition e (condition_variable_wait c mid)) a = Ok (a', exists_) ∧
    objs a' !! mid = Some (VMutex (Mutex mutex_locked (location m) e)) ∧
    objs a' !! c = Some (VCond cv') ∧ cv_policy cv' = p.
Proof.
  intros Hwf He Hc Hm Hu Hd Hul Hloc Hp.
  assert (c ≠ invalid_objid) as Hcid by (eapply has_kind_valid, has_kind_cond; eauto).
  assert (mid ≠ invalid_objid) as Hmid by (eapply has_kind_valid, has_kind_mutex; eauto).
  assert (c ≠ mid) as Hne by congruence.
  assert (thread_can_exit (cv_policy cv) e = true) as Hex.
  { rewrite <- policy_wake_iff. by rewrite Hp. }
  eexists _, _. split_and!.
  - unfold astep. cbn [executor]. rewrite He. exec. rewrite Hc, Hm. simpl. rewrite Hu, Hd. simpl.
    replace (is_locked_by m e) with false.
    2:{ symmetry. apply not_true_is_false. intros Hl%is_locked_by_is_locked.
        apply is_unlocked_not_locked in Hul. congruence. }
    unfold waiter_can_exit. rewrite Hex, orb_true_r. rewrite bool_decide_true by done.
    rewrite Hul. simpl. rewrite !bool_decide_false by done.
    unfold get_policy. rewrite Hp. done.
  - simpl. rewrite lookup_insert_ne by done. by rewrite lookup_insert_eq.
  - simpl. by rewrite lookup_insert_eq.
  - done.
Qed.

(** C30: a signal is not lost.  If a runner waits on a condition variable, then
after a signal by any running thread it can return from its wait as soon as its
mutex is free: it holds the mutex and is owed no further wake-up. *)
Theorem signalled_waiter_proceeds a e r c mid cv m :
  wf a → thread_of a e = Ok (Thread running) → thread_of a r = Ok (Thread running) →
  objs a !! c = Some (VCond cv) → objs a !! mid = Some (VMutex m) →
  is_uninitialized cv = false → is_destroyed cv = false →
  r ∈ wait_queue (cv_policy cv) → get_thread_cv_state (cv_policy cv) r = CV_WAITING →
  get_location m = get_mutex cv → is_unlocked m = true →
  ∃ a1 a2 cv2,
    astep (Transition e (condition_variable_signal c)) a = Ok (a1, exists_) ∧
    astep (Transition r (condition_variable_wait c mid)) a1 = Ok (a2, exists_) ∧
    objs a2 !! mid = Some (VMutex (Mutex mutex_locked (location m) r)) ∧
    objs a2 !! c = Some (VCond cv2) ∧ thread_can_exit (cv_policy cv2) r = false.
Proof.
  intros Hwf He Hr Hc Hm Hu Hd Hq Hst Hloc Hul.
  assert (cv_has_waiters cv = true) as Hw.
  { unfold cv_has_waiters, has_waiters. apply negb_true_iff, bool_decide_eq_false.
    intros Hq'. by rewrite Hq' in Hq; apply not_elem_of_nil in Hq. }
  destruct (astep_signal a e c cv Hwf He Hc Hu Hd Hw) as (cv1 & Hs1 & Hp1 & Hmu1 & Hu1 & Hd1 & Hsp1).
  assert (has_kind a c KCond) as Hkc by (apply has_kind_cond; eauto).
  assert (thread_can_exit (cv_policy cv1) r = true) as Hex.
  { rewrite Hp1. apply add_to_wake_groups_can_exit. right.
    unfold waiting_threads. by apply list_elem_of_filter. }
  rewrite <- policy_wake_iff in Hex.
  destruct (wake_thread r (cv_policy cv1)) as [p|] eqn:Hp; [|done].
  destruct (astep_wait (set_obj c (VCond cv1) a) r c mid cv1 m p) as (a2 & cv2 & Hs2 & Hm2 & Hc2 & Hp2).
  - by apply wf_set_obj.
  - by apply thread_of_set_obj.
  - by rewrite lookup_set_obj, decide_True.
  - rewrite lookup_set_obj, decide_False by congruence. done.
  - done.
  - done.
  - done.
  - congruence.
  - done.
  - exists (set_obj c (VCond cv1) a), a2, cv2. split_and!; try done.
    rewrite Hp2. by eapply policy_woken_gone.
Qed.

Lemma astep_wait_disabled a e c mid cv m :
  thread_of a e = Ok (Thread running) →
  objs a !! c = Some (VCond cv) → objs a !! mid = Some (VMutex m) →
  is_uninitialized cv = false → is_destroyed cv = false → waiter_can_exit cv e = false →
  astep (Transition e (condition_variable_wait c mid)) a = Ok (a, disabled).
Proof.
  intros He Hc Hm Hu Hd Hex. unfold astep. cbn [executor]. rewrite He.
  change (is_active (Thread running)) with true.
  exec. rewrite Hc, Hm. cbn [mbind res_bind as_cond as_mutex]. rewrite Hu, Hd, Hex. cbn [orb andb negb].
  by destruct (is_locked_by m e).
Qed.

Lemma astep_signal_unheard a e c cv :
  thread_of a e = Ok (Thread running) → objs a !! c = Some (VCond cv) →
  is_uninitialized cv = false → is_destroyed cv = false → wait_queue (cv_policy cv) = [] →
  astep (Transition e (condition_variable_signal c)) a = Ok (a, exists_).
Proof.
  intros He Hc Hu Hd Hq. unfold astep. cbn [executor]. rewrite He. change (is_active (Thread running)) with true.
  exec. rewrite Hc. cbn [mbind res_bind as_cond]. rewrite Hu, Hd. cbn [negb].
  unfold cv_has_waiters, has_waiters. by rewrite Hq.
Qed.

(** Starting to wait gives no right to leave. *)
Lemma modify_enqueue a r c mid cv m :
  c ≠ invalid_objid → mid ≠ invalid_objid →
  objs a !! c = Some (VCond cv) → objs a !! mid = Some (VMutex m) →
  thread_can_exit (cv_policy cv) r = false → is_locked_by m r = true →
  ∃ a1 cv1, modify (Transition r (condition_variable_enqueue_thread c mid)) a = (Ok exists_, a1) ∧
    objs a1 !! c = Some (VCond cv1) ∧ is_uninitialized cv1 = false ∧ is_destroyed cv1 = false ∧
    waiter_can_exit cv1 r = false.
Proof.
  intros Hcid Hmid Hc Hm Hex Hl. assert (mid ≠ c) as Hne by congruence.
  assert (is_unlocked m = false) as Hul.
  { apply not_true_is_false. intros Hf%is_unlocked_not_locked. apply is_locked_by_is_locked in Hl. congruence. }
  unfold modify. cbn [executor operation_of]. autounfold with modify.
  unfold ebind, query, ret. cbn [get_state_of_object add_state_for_obj astate_State astate_MutableState].
  unfold a_add_state_for_obj, obj_of, map_at. rewrite Hc, Hm. cbn [mbind res_bind as_cond as_mutex].
  rewrite Hul, Hl. cbn [negb]. rewrite !bool_decide_false by done.
  do 2 eexists. split; [reflexivity|]. split_and!.
  - by rewrite (lookup_set_obj mid c), decide_False, lookup_set_obj, decide_True.
  - done.
  - done.
  - unfold get_policy. case_bool_decide; exact Hex.
Qed.

(** A step that does not write a runner's object leaves its thread. *)
Lemma thread_of_unwritten a t a1 st r th :
  astep t a = Ok (a1, st) → thread_of a r = Ok th → objid_of a r ∉ wr t a → thread_of a1 r = Ok th.
Proof.
  intros Hs Hr Hin. destruct (astep_unchanged t a a1 _ Hs) as [Hrs Hun].
  unfold thread_of, obj_of, map_at in *. rewrite (objid_of_runners a1 a) by done. by rewrite Hun.
Qed.

(** A signal is not remembered.  A signal with nobody waiting changes
nothing, and a runner that starts to wait afterwards cannot return. *)
Theorem signal_not_remembered a e r c mid cv m :
  wf a → thread_of a e = Ok (Thread running) → thread_of a r = Ok (Thread running) →
  is_Some (runners a !! r) → objs a !! c = Some (VCond cv) → objs a !! mid = Some (VMutex m) →
  is_uninitialized cv = false → is_destroyed cv = false →
  wait_queue (cv_policy cv) = [] → thread_can_exit (cv_policy cv) r = false →
  is_locked_by m r = true →
  astep (Transition e (condition_variable_signal c)) a = Ok (a, exists_) ∧
  ∃ a1, astep (Transition r (condition_variable_enqueue_thread c mid)) a = Ok (a1, exists_) ∧
    ∀ m1, astep (Transition r (condition_variable_wait c mid))
            (set_obj mid (VMutex m1) a1) = Ok (set_obj mid (VMutex m1) a1, disabled).
Proof.
  intros Hwf He Hr Hrun Hc Hm Hu Hd Hq Hex Hl. split; [by eapply astep_signal_unheard|].
  assert (has_kind a c KCond) as Hkc by (apply has_kind_cond; eauto).
  assert (has_kind a mid KMutex) as Hkm by (apply has_kind_mutex; eauto).
  destruct (modify_enqueue a r c mid cv m) as (a1 & cv1 & Hmod & Hc1 & Hu1 & Hd1 & Hex1);
    [by eapply has_kind_valid..|done|done|done|done|].
  set (t := Transition r (condition_variable_enqueue_thread c mid)) in *.
  assert (astep t a = Ok (a1, exists_)) as Hs by (apply astep_exists; split; assumption).
  exists a1. split; [done|]. intros m1.
  destruct (astep_good a t a1 exists_) as [Hwf1 Hsh]; [done| |done|].
  { split; [done|]. by split. }
  assert (thread_of a1 r = Ok (Thread running)) as Hr1.
  { eapply thread_of_unwritten; [done|done|]. unfold wr; simpl.
    unfold thread_of, obj_of, map_at in Hr.
    destruct (objs a !! objid_of a r) as [[]|] eqn:Ho; simpl in Hr; try done.
    intros Hin. assert (objid_of a r = c ∨ objid_of a r = mid) as [?|?] by set_solver; congruence. }
  eapply astep_wait_disabled; [|..|exact Hu1|exact Hd1|exact Hex1].
  - apply thread_of_set_obj; [done|done|]. by rewrite <- Hsh.
  - rewrite lookup_set_obj, decide_False by congruence. done.
  - by rewrite lookup_set_obj, decide_True.
Qed.

(** [check_for_lost_wakeup] is called on a fresh condition variable, whose
policy is empty: every signal sent to a waiting thread is counted (and warned
about) as a lost wake-up. *)
Theorem signal_always_counts_lost_wakeup cv :
  waiting_threads (get_policy cv) ≠ [] → lost_wakeups (signal_mutable_cv cv) = 1%Z.
Proof.
  intros Hw. unfold signal_mutable_cv, check_for_lost_wakeup. simpl.
  destruct (waiting_threads (get_policy cv)); [done|]. done.
Qed.

(** The statuses of a sequence of transitions. *)
Fixpoint statuses (ts : list transition) (a : astate) : res (list status) :=
  match ts with
  | [] => Ok []
  | t :: ts => '(a1, st) ← astep t a; cons st <$> statuses ts a1
  end.

(** Two running threads, a locked mutex and the given condition variable. *)
Definition two_threads (cv : condition_variable) : astate :=
  AState (list_to_map [(0, VThread (Thread running)); (1, VThread (Thread running));
                       (2, VMutex (Mutex mutex_locked 512 1)); (3, VCond cv)]%N)
    (list_to_map [(0, 0); (1, 1)]%N).
Definition wait_cycle : list transition :=
  [Transition 1 (condition_variable_enqueue_thread 3 2); Transition 0 (condition_variable_signal 3);
   Transition 1 (condition_variable_wait 3 2); Transition 0 (condition_variable_destroy 3)]%N.

(** A thread restored as pre-waiting is queued twice.  It takes part in a
whole wait cycle, after which its first entry is still in the queue: the
condition variable, on which nobody waits, cannot be destroyed.  Without the
restored entry the same cycle ends with the destruction. *)
Theorem prewaiting_thread_queued_twice :
  statuses wait_cycle (two_threads (new_condition_variable cv_waiting 0 512 1 [(1%N, CV_PREWAITING)] None)) =
    Ok [exists_; exists_; exists_; disabled] ∧
  statuses wait_cycle (two_threads (new_condition_variable cv_initialized 0 0 0 [] None)) =
    Ok [exists_; exists_; exists_; exists_].
Proof. split; vm_compute; reflexivity. Qed.

(** ** [apply_to] *)

(** C29: type soundness.  On every implementation of a well-formed state, a
well-typed transition is either enabled or disabled: it raises no exception, it
reaches neither undefined behaviour nor an assertion, the status [undefined]
never comes out, and the difference returned describes a well-formed state on
which the same transitions are well-typed. *)
Theorem apply_to_safe {S} `{State S} (s : S) a t :
  represents s a → wf a → typed t a →
  ∃ d st a', apply_to t s = Ok (d, st) ∧ (st = exists_ ∨ st = disabled) ∧
    astep t a = Ok (a', st) ∧ diff_written s d a' ∧ wf a' ∧ ∀ t', typed t' a ↔ typed t' a'.
Proof.
  intros Hrep Hwf Ht. destruct (astep_safe a t Hwf Ht) as (a' & st & Hs & Hwf' & Hsh).
  pose proof (apply_to_astep s a t Hrep) as Happ. rewrite Hs in Happ.
  destruct (apply_to t s) as [[d st']|]; [|done]. destruct Happ as [-> Hd].
  exists d, st, a'. split_and!; try done.
  - destruct (astep_status t a a' st Hs) as [->|[-> _]]; auto.
  - intros t'. by apply typed_shape.
Qed.
