(* ===== verification/Dependency.v ===== *)
(** * The dependency and co-enabledness relations

The methods [depends] and [coenabled_with] of the transition classes, the tables
[classic_dpor::default_dependencies] and [default_coenabledness] that register
them, and the tests [are_dependent], [are_coenabled] of
[src/mcmini/model_checking/algorithms/classic_dpor.cpp].  The theorems compare
the relations with what the transitions do ([AbstractState.v]): transitions
declared independent commute, and most pairs declared not co-enabled are never
enabled together; the exceptions are exhibited. *)

From stdpp Require Import options.
From S2P Require Import Prelude InjectiveFunction DoubleDispatch CondPolicy Objects State.
From S2P Require Import Transitions AbstractState Behaviour.

(** ** The dynamic types of transitions *)

Inductive transition_class :=
  | c_mutex_init | c_mutex_lock | c_mutex_unlock | c_sem_init | c_sem_post | c_sem_wait
  | c_thread_create | c_thread_exit | c_thread_join | c_thread_start
  | c_process_abort | c_process_exit
  | c_condition_variable_init | c_condition_variable_enqueue_thread | c_condition_variable_wait
  | c_condition_variable_signal | c_condition_variable_broadcast | c_condition_variable_destroy.
#[export] Instance transition_class_eq_dec : EqDecision transition_class.
Proof. solve_decision. Defined.

Definition all_classes : list transition_class :=
  [c_mutex_init; c_mutex_lock; c_mutex_unlock; c_sem_init; c_sem_post; c_sem_wait;
   c_thread_create; c_thread_exit; c_thread_join; c_thread_start; c_process_abort; c_process_exit;
   c_condition_variable_init; c_condition_variable_enqueue_thread; c_condition_variable_wait;
   c_condition_variable_signal; c_condition_variable_broadcast; c_condition_variable_destroy].
Definition class_index (c : transition_class) : nat :=
  match c with
  | c_mutex_init => 0 | c_mutex_lock => 1 | c_mutex_unlock => 2 | c_sem_init => 3
  | c_sem_post => 4 | c_sem_wait => 5 | c_thread_create => 6 | c_thread_exit => 7
  | c_thread_join => 8 | c_thread_start => 9 | c_process_abort => 10 | c_process_exit => 11
  | c_condition_variable_init => 12 | c_condition_variable_enqueue_thread => 13
  | c_condition_variable_wait => 14 | c_condition_variable_signal => 15
  | c_condition_variable_broadcast => 16 | c_condition_variable_destroy => 17
  end.
#[export] Instance transition_class_countable : Countable transition_class.
Proof.
  refine (inj_countable class_index (λ n, all_classes !! n) _). by intros [].
Defined.

(** [typeid] of a transition. *)
Definition class_of (t : transition) : transition_class :=
  match operation_of t with
  | mutex_init _ => c_mutex_init | mutex_lock _ => c_mutex_lock | mutex_unlock _ => c_mutex_unlock
  | sem_init _ _ => c_sem_init | sem_post _ => c_sem_post | sem_wait _ => c_sem_wait
  | thread_create _ => c_thread_create | thread_exit => c_thread_exit
  | thread_join _ => c_thread_join | thread_start => c_thread_start
  | process_abort => c_process_abort | process_exit _ => c_process_exit
  | condition_variable_init _ => c_condition_variable_init
  | condition_variable_enqueue_thread _ _ => c_condition_variable_enqueue_thread
  | condition_variable_wait _ _ => c_condition_variable_wait
  | condition_variable_signal _ => c_condition_variable_signal
  | condition_variable_broadcast _ => c_condition_variable_broadcast
  | condition_variable_destroy _ => c_condition_variable_destroy
  end.

(** ** The methods *)

(** The private member [mutex_id] and the method [get_id], which all classes on
objects have.  For a class without it the result is meaningless: the tables
never call a method on a transition of another class. *)
Definition mutex_id (t : transition) : objid_t :=
  match operation_of t with
  | condition_variable_enqueue_thread _ m | condition_variable_wait _ m => m
  | mutex_init m | mutex_lock m | mutex_unlock m => m
  | _ => invalid_objid
  end.
Definition get_id (t : transition) : objid_t :=
  match operation_of t with
  | mutex_init id | mutex_lock id | mutex_unlock id
  | sem_init id _ | sem_post id | sem_wait id
  | condition_variable_init id | condition_variable_enqueue_thread id _
  | condition_variable_wait id _ | condition_variable_signal id
  | condition_variable_broadcast id | condition_variable_destroy id => id
  | _ => invalid_objid
  end.
Definition get_target (t : transition) : runner_id_t :=
  match operation_of t with
  | thread_create target | thread_join target => target
  | _ => RID_INVALID
  end.

Definition thread_create_depends (this t : transition) : bool :=
  bool_decide (get_target this = get_executor t).
Definition thread_create_coenabled_with (this t : transition) : bool :=
  negb (bool_decide (get_target this = get_executor t)).
Definition thread_join_depends (this t : transition) : bool :=
  bool_decide (get_target this = get_executor t).
Definition thread_join_coenabled_with (this t : transition) : bool :=
  negb (bool_decide (get_target this = get_executor t)).
Definition mutex_lock_depends_mutex_init (this mi : transition) : bool :=
  bool_decide (mutex_id this = get_id mi).
Definition mutex_lock_depends_mutex_lock (this ml : transition) : bool :=
  bool_decide (mutex_id this = get_id ml).
Definition mutex_lock_coenabled_with_mutex_unlock (this mu : transition) : bool :=
  negb (bool_decide (mutex_id this = get_id mu)).
Definition condition_variable_wait_depends_init (this ci : transition) : bool :=
  bool_decide (get_id this = get_id ci).
Definition condition_variable_wait_depends_mutex_lock (this ml : transition) : bool :=
  bool_decide (mutex_id this = get_id ml).
Definition condition_variable_signal_depends_wait (this cw : transition) : bool :=
  bool_decide (get_id this = get_id cw).
Definition condition_variable_signal_depends_mutex_lock (this ml : transition) : bool :=
  bool_decide (get_id this = get_id ml).
Definition condition_variable_signal_coenabled_with_mutex_unlock (this mu : transition) : bool :=
  negb (bool_decide (get_id this = get_id mu)).
Definition condition_variable_signal_coenabled_with_wait (this cw : transition) : bool :=
  negb (bool_decide (get_id this = get_id cw)).
Definition condition_variable_broadcast_coenabled_with_wait (this cw : transition) : bool := true.
Definition condition_variable_broadcast_coenabled_with_mutex_unlock (this mu : transition) : bool := true.
Definition condition_variable_destroy_coenabled_with_wait (this cw : transition) : bool :=
  negb (bool_decide (get_id this = get_id cw)).
Definition condition_variable_destroy_coenabled_with_signal (this cs : transition) : bool :=
  negb (bool_decide (get_id this = get_id cs)).

(** ** The tables *)

Abbreviation relation_type := (ddt transition_class transition bool) (only parsing).

Definition default_dependencies : res (ddt transition_class transition bool) :=
  dr ← register_interface_entry c_thread_create thread_create_depends ddt_empty;
  dr ← register_interface_entry c_thread_join thread_join_depends dr;
  dr ← register_dd_entry c_mutex_lock c_mutex_init mutex_lock_depends_mutex_init dr;
  dr ← register_dd_entry c_mutex_lock c_mutex_lock mutex_lock_depends_mutex_lock dr;
  dr ← register_dd_entry c_condition_variable_wait c_condition_variable_init
    condition_variable_wait_depends_init dr;
  dr ← register_dd_entry c_condition_variable_wait c_mutex_lock
    condition_variable_wait_depends_mutex_lock dr;
  dr ← register_dd_entry c_condition_variable_signal c_condition_variable_wait
    condition_variable_signal_depends_wait dr;
  dr ← register_dd_entry c_condition_variable_signal c_mutex_lock
    condition_variable_signal_depends_mutex_lock dr;
  Ok dr.

Definition default_coenabledness : res (ddt transition_class transition bool) :=
  cr ← register_interface_entry c_thread_create thread_create_coenabled_with ddt_empty;
  cr ← register_interface_entry c_thread_join thread_join_coenabled_with cr;
  cr ← register_dd_entry c_mutex_lock c_mutex_unlock mutex_lock_coenabled_with_mutex_unlock cr;
  cr ← register_dd_entry c_condition_variable_signal c_condition_variable_wait
    condition_variable_signal_coenabled_with_wait cr;
  cr ← register_dd_entry c_condition_variable_signal c_mutex_unlock
    condition_variable_signal_coenabled_with_mutex_unlock cr;
  cr ← register_dd_entry c_condition_variable_broadcast c_condition_variable_wait
    condition_variable_broadcast_coenabled_with_wait cr;
  cr ← register_dd_entry c_condition_variable_broadcast c_mutex_unlock
    condition_variable_broadcast_coenabled_with_mutex_unlock cr;
  cr ← register_dd_entry c_condition_variable_destroy c_condition_variable_wait
    condition_variable_destroy_coenabled_with_wait cr;
  cr ← register_dd_entry c_condition_variable_destroy c_condition_variable_signal
    condition_variable_destroy_coenabled_with_signal cr;
  Ok cr.

(** [classic_dpor::configuration] *)
Record configuration := Configuration {
  dependency_relation : ddt transition_class transition bool;
  coenabled_relation : ddt transition_class transition bool;
  maximum_total_execution_depth : N;
  assumes_linear_program_flow : bool;
}.
Definition default_configuration : res configuration :=
  dr ← default_dependencies; cr ← default_coenabledness;
  Ok (Configuration dr cr 1500 false).

Definition are_dependent (config : configuration) (t1 t2 : transition) : bool :=
  bool_decide (get_executor t1 = get_executor t2) ||
  call_or class_of (dependency_relation config) true t1 t2.
Definition are_independent (config : configuration) (t1 t2 : transition) : bool :=
  negb (are_dependent config t1 t2).
Definition are_coenabled (config : configuration) (t1 t2 : transition) : bool :=
  negb (bool_decide (get_executor t1 = get_executor t2)) &&
  call_or class_of (coenabled_relation config) true t1 t2.

(** ** What the tables answer *)

Definition dependent_spec (t1 t2 : transition) : bool :=
  match operation_of t1, operation_of t2 with
  | mutex_lock m1, mutex_lock m2 => bool_decide (m2 = m1)
  | mutex_lock m1, mutex_init m2 => bool_decide (m1 = m2)
  | mutex_init m1, mutex_lock m2 => bool_decide (m2 = m1)
  | condition_variable_wait c1 _, condition_variable_init c2 => bool_decide (c1 = c2)
  | condition_variable_init c1, condition_variable_wait c2 _ => bool_decide (c2 = c1)
  | condition_variable_wait _ m1, mutex_lock m2 => bool_decide (m1 = m2)
  | mutex_lock m1, condition_variable_wait _ m2 => bool_decide (m2 = m1)
  | condition_variable_signal c1, condition_variable_wait c2 _ => bool_decide (c1 = c2)
  | condition_variable_wait c1 _, condition_variable_signal c2 => bool_decide (c2 = c1)
  | condition_variable_signal c1, mutex_lock m2 => bool_decide (c1 = m2)
  | mutex_lock m1, condition_variable_signal c2 => bool_decide (c2 = m1)
  | (mutex_lock _ | mutex_init _ | condition_variable_wait _ _ | condition_variable_init _
     | condition_variable_signal _), _ => true
  | (thread_create target | thread_join target), _ => bool_decide (target = executor t2)
  | _, (thread_create target | thread_join target) => bool_decide (target = executor t1)
  | _, _ => true
  end.
Definition coenabled_spec (t1 t2 : transition) : bool :=
  match operation_of t1, operation_of t2 with
  | mutex_lock m1, mutex_unlock m2 => negb (bool_decide (m1 = m2))
  | mutex_unlock m1, mutex_lock m2 => negb (bool_decide (m2 = m1))
  | condition_variable_signal c1, condition_variable_wait c2 _ => negb (bool_decide (c1 = c2))
  | condition_variable_wait c1 _, condition_variable_signal c2 => negb (bool_decide (c2 = c1))
  | condition_variable_signal c1, mutex_unlock m2 => negb (bool_decide (c1 = m2))
  | mutex_unlock m1, condition_variable_signal c2 => negb (bool_decide (c2 = m1))
  | condition_variable_destroy c1, condition_variable_wait c2 _ => negb (bool_decide (c1 = c2))
  | condition_variable_wait c1 _, condition_variable_destroy c2 => negb (bool_decide (c2 = c1))
  | condition_variable_destroy c1, condition_variable_signal c2 => negb (bool_decide (c1 = c2))
  | condition_variable_signal c1, condition_variable_destroy c2 => negb (bool_decide (c2 = c1))
  | (mutex_lock _ | mutex_unlock _ | condition_variable_wait _ _ | condition_variable_signal _
     | condition_variable_broadcast _ | condition_variable_destroy _), _ => true
  | (thread_create target | thread_join target), _ => negb (bool_decide (target = executor t2))
  | _, (thread_create target | thread_join target) => negb (bool_decide (target = executor t1))
  | _, _ => true
  end.

(** The function [call_or] picks. *)
Definition dispatch (d : ddt transition_class transition bool) (k1 k2 : transition_class) :
    option (transition → transition → bool) :=
  match internal_table d !! k1 with
  | Some r => r !! k2
  | None =>
      match interface_member_function_table d !! k1 with
      | Some callback => Some callback
      | None => (λ callback t1 t2, callback t2 t1) <$> interface_member_function_table d !! k2
      end
  end.

Lemma call_or_dispatch d fallback t1 t2 :
  call_or class_of d fallback t1 t2 =
  match dispatch d (class_of t1) (class_of t2) with Some f => f t1 t2 | None => fallback end.
Proof.
  unfold call_or, dispatch. repeat destruct_match; simplify_eq/=; done.
Qed.

(** The two tables for arbitrary callbacks, so that they can be evaluated. *)
Lemma dispatch_dependencies k1 k2 :
  (λ d, dispatch d k1 k2) <$> default_dependencies = Ok
  match k1, k2 with
  | c_mutex_lock, c_mutex_lock => Some (λ t1 t2, mutex_lock_depends_mutex_lock t2 t1)
  | c_mutex_lock, c_mutex_init => Some mutex_lock_depends_mutex_init
  | c_mutex_init, c_mutex_lock => Some (λ t1 t2, mutex_lock_depends_mutex_init t2 t1)
  | c_condition_variable_wait, c_condition_variable_init => Some condition_variable_wait_depends_init
  | c_condition_variable_init, c_condition_variable_wait =>
      Some (λ t1 t2, condition_variable_wait_depends_init t2 t1)
  | c_condition_variable_wait, c_mutex_lock => Some condition_variable_wait_depends_mutex_lock
  | c_mutex_lock, c_condition_variable_wait =>
      Some (λ t1 t2, condition_variable_wait_depends_mutex_lock t2 t1)
  | c_condition_variable_signal, c_condition_variable_wait => Some condition_variable_signal_depends_wait
  | c_condition_variable_wait, c_condition_variable_signal =>
      Some (λ t1 t2, condition_variable_signal_depends_wait t2 t1)
  | c_condition_variable_signal, c_mutex_lock => Some condition_variable_signal_depends_mutex_lock
  | c_mutex_lock, c_condition_variable_signal =>
      Some (λ t1 t2, condition_variable_signal_depends_mutex_lock t2 t1)
  | (c_mutex_lock | c_mutex_init | c_condition_variable_wait | c_condition_variable_init
     | c_condition_variable_signal), _ => None
  | c_thread_create, _ => Some thread_create_depends
  | c_thread_join, _ => Some thread_join_depends
  | _, c_thread_create => Some (λ t1 t2, thread_create_depends t2 t1)
  | _, c_thread_join => Some (λ t1 t2, thread_join_depends t2 t1)
  | _, _ => None
  end.
Proof.
  unfold default_dependencies.
  generalize thread_create_depends, thread_join_depends, mutex_lock_depends_mutex_init,
    mutex_lock_depends_mutex_lock, condition_variable_wait_depends_init,
    condition_variable_wait_depends_mutex_lock, condition_variable_signal_depends_wait,
    condition_variable_signal_depends_mutex_lock.
  intros. destruct k1, k2; vm_compute; reflexivity.
Qed.

Lemma dispatch_coenabledness k1 k2 :
  (λ d, dispatch d k1 k2) <$> default_coenabledness = Ok
  match k1, k2 with
  | c_mutex_lock, c_mutex_unlock => Some mutex_lock_coenabled_with_mutex_unlock
  | c_mutex_unlock, c_mutex_lock => Some (λ t1 t2, mutex_lock_coenabled_with_mutex_unlock t2 t1)
  | c_condition_variable_signal, c_condition_variable_wait =>
      Some condition_variable_signal_coenabled_with_wait
  | c_condition_variable_wait, c_condition_variable_signal =>
      Some (λ t1 t2, condition_variable_signal_coenabled_with_wait t2 t1)
  | c_condition_variable_signal, c_mutex_unlock =>
      Some condition_variable_signal_coenabled_with_mutex_unlock
  | c_mutex_unlock, c_condition_variable_signal =>
      Some (λ t1 t2, condition_variable_signal_coenabled_with_mutex_unlock t2 t1)
  | c_condition_variable_broadcast, c_condition_variable_wait =>
      Some condition_variable_broadcast_coenabled_with_wait
  | c_condition_variable_wait, c_condition_variable_broadcast =>
      Some (λ t1 t2, condition_variable_broadcast_coenabled_with_wait t2 t1)
  | c_condition_variable_broadcast, c_mutex_unlock =>
      Some condition_variable_broadcast_coenabled_with_mutex_unlock
  | c_mutex_unlock, c_condition_variable_broadcast =>
      Some (λ t1 t2, condition_variable_broadcast_coenabled_with_mutex_unlock t2 t1)
  | c_condition_variable_destroy, c_condition_variable_wait =>
      Some condition_variable_destroy_coenabled_with_wait
  | c_condition_variable_wait, c_condition_variable_destroy =>
      Some (λ t1 t2, condition_variable_destroy_coenabled_with_wait t2 t1)
  | c_condition_variable_destroy, c_condition_variable_signal =>
      Some condition_variable_destroy_coenabled_with_signal
  | c_condition_variable_signal, c_condition_variable_destroy =>
      Some (λ t1 t2, condition_variable_destroy_coenabled_with_signal t2 t1)
  | (c_mutex_lock | c_mutex_unlock | c_condition_variable_wait | c_condition_variable_signal
     | c_condition_variable_broadcast | c_condition_variable_destroy), _ => None
  | c_thread_create, _ => Some thread_create_coenabled_with
  | c_thread_join, _ => Some thread_join_coenabled_with
  | _, c_thread_create => Some (λ t1 t2, thread_create_coenabled_with t2 t1)
  | _, c_thread_join => Some (λ t1 t2, thread_join_coenabled_with t2 t1)
  | _, _ => None
  end.
Proof.
  unfold default_coenabledness.
  generalize thread_create_coenabled_with, thread_join_coenabled_with,
    mutex_lock_coenabled_with_mutex_unlock, condition_variable_signal_coenabled_with_wait,
    condition_variable_signal_coenabled_with_mutex_unlock,
    condition_variable_broadcast_coenabled_with_wait,
    condition_variable_broadcast_coenabled_with_mutex_unlock,
    condition_variable_destroy_coenabled_with_wait,
    condition_variable_destroy_coenabled_with_signal.
  intros. destruct k1, k2; vm_compute; reflexivity.
Qed.

Lemma default_dependencies_spec dr t1 t2 :
  default_dependencies = Ok dr → call_or class_of dr true t1 t2 = dependent_spec t1 t2.
Proof.
  intros Hdr. pose proof (dispatch_dependencies (class_of t1) (class_of t2)) as Hd.
  rewrite Hdr in Hd. injection Hd as Hd. rewrite call_or_dispatch, Hd. clear.
  destruct t1 as [e1 o1], t2 as [e2 o2].
  destruct o1; cbn [class_of operation_of dependent_spec coenabled_spec]; destruct o2; reflexivity.
Qed.
Lemma default_coenabledness_spec cr t1 t2 :
  default_coenabledness = Ok cr → call_or class_of cr true t1 t2 = coenabled_spec t1 t2.
Proof.
  intros Hcr. pose proof (dispatch_coenabledness (class_of t1) (class_of t2)) as Hd.
  rewrite Hcr in Hd. injection Hd as Hd. rewrite call_or_dispatch, Hd. clear.
  destruct t1 as [e1 o1], t2 as [e2 o2].
  destruct o1; cbn [class_of operation_of dependent_spec coenabled_spec]; destruct o2; reflexivity.
Qed.

Lemma default_configuration_inv config :
  default_configuration = Ok config →
  default_dependencies = Ok (dependency_relation config) ∧
  default_coenabledness = Ok (coenabled_relation config) ∧
  maximum_total_execution_depth config = 1500%N.
Proof.
  unfold default_configuration. generalize default_dependencies, default_coenabledness.
  intros [dr|] [cr|]; cbn [mbind res_bind]; try discriminate. by intros [= <-].
Qed.

Lemma default_configuration_ok : ∃ config, default_configuration = Ok config.
Proof.
  unfold default_configuration.
  pose proof (dispatch_dependencies c_mutex_init c_mutex_init) as Hd.
  pose proof (dispatch_coenabledness c_mutex_init c_mutex_init) as Hc.
  revert Hd Hc. generalize default_dependencies, default_coenabledness.
  intros [dr|] [cr|]; try discriminate. intros _ _. by eexists.
Qed.

Lemma are_dependent_spec config t1 t2 :
  default_configuration = Ok config →
  are_dependent config t1 t2 = bool_decide (executor t1 = executor t2) || dependent_spec t1 t2.
Proof.
  intros (Hd & _)%default_configuration_inv. unfold are_dependent.
  by rewrite (default_dependencies_spec _ _ _ Hd).
Qed.
Lemma are_coenabled_spec config t1 t2 :
  default_configuration = Ok config →
  are_coenabled config t1 t2 = negb (bool_decide (executor t1 = executor t2)) && coenabled_spec t1 t2.
Proof.
  intros (_ & Hc & _)%default_configuration_inv. unfold are_coenabled.
  by rewrite (default_coenabledness_spec _ _ _ Hc).
Qed.

(** ** Independent transitions commute *)

(** A thread about to be created has not started. *)
Definition creates_embryo (t : transition) (a : astate) : Prop :=
  match operation_of t with
  | thread_create target => thread_of a target = Ok (Thread embryo)
  | _ => True
  end.

Lemma op_object_kind t a id :
  typed t a → id ∈ op_objects (operation_of t) → ∃ k, has_kind a id k ∧ k ≠ KThread.
Proof.
  intros [_ Ht] Hid. destruct (operation_of t); simpl in *;
    first [by apply not_elem_of_nil in Hid
          |apply elem_of_singleton_list in Hid; subst; by eauto
          |destruct Ht; apply elem_of_pair_list in Hid as [->| ->]; by eauto].
Qed.

Lemma runner_exists t a r :
  typed t a → r ∈ runners_read t ++ runners_written t → is_Some (runners a !! r).
Proof.
  intros [He Ht]. unfold runners_read, runners_written. destruct t as [e []]; simpl in *; set_solver.
Qed.

Lemma objid_of_inj a r1 r2 :
  wf a → is_Some (runners a !! r1) → is_Some (runners a !! r2) → objid_of a r1 = objid_of a r2 → r1 = r2.
Proof.
  intros Hwf [o1 H1] [o2 H2]. unfold objid_of. rewrite H1, H2. simpl. intros ->.
  by eapply (wf_inj a Hwf).
Qed.

Lemma foot_disjoint a t1 t2 :
  wf a → typed t1 a → typed t2 a →
  (∀ id, id ∈ op_objects (operation_of t1) → id ∉ op_objects (operation_of t2)) →
  (∀ r, r ∈ runners_written t1 → r ∉ runners_read t2 ++ runners_written t2) →
  wr t1 a ## foot t2 a.
Proof.
  intros Hwf Ht1 Ht2 Hop Hr id. unfold wr, foot.
  rewrite !elem_of_list_to_set, !elem_of_app, !list_elem_of_fmap.
  assert (∀ t t' id r, typed t a → typed t' a → id ∈ op_objects (operation_of t) →
    r ∈ runners_read t' ++ runners_written t' → id ≠ objid_of a r) as Hkind.
  { intros t t' i r Ht Ht' Hi Hr' ->. destruct (op_object_kind t a _ Ht Hi) as (k & Hk & Hne).
    destruct (runner_object a r Hwf) as [Hk' _]; [by eapply (runner_exists t')|].
    unfold has_kind in *. congruence. }
  intros [H1|(r1 & -> & H1)] [H2|(r2 & Heq & H2)].
  - by eapply Hop.
  - by eapply (Hkind t1 t2 id r2).
  - eapply (Hkind t2 t1 (objid_of a r1) r1); [done..|apply elem_of_app; by right|done].
  - apply (Hr r1); [done|]. replace r1 with r2; [done|].
    eapply objid_of_inj; [done| | |by symmetry].
    + by eapply (runner_exists t2).
    + eapply (runner_exists t1); [done|]. apply elem_of_app. by right.
Qed.

Lemma independent_objects config t1 t2 a :
  default_configuration = Ok config → are_dependent config t1 t2 = false →
  typed t1 a → typed t2 a →
  executor t1 ≠ executor t2 ∧ dependent_spec t1 t2 = false ∧
  ∀ id, id ∈ op_objects (operation_of t1) → id ∉ op_objects (operation_of t2).
Proof.
  intros Hc. rewrite (are_dependent_spec _ _ _ Hc), orb_false_iff, bool_decide_eq_false.
  intros [He Hd] [_ Ht1] [_ Ht2]. split; [done|]. split; [done|].
  destruct t1 as [e1 o1], t2 as [e2 o2]; unfold dependent_spec in Hd; simpl in *.
  destruct o1; destruct o2; try discriminate Hd; cbn [op_objects]; intros id Hin1 Hin2;
    first [by apply not_elem_of_nil in Hin1 | by apply not_elem_of_nil in Hin2 | idtac].
  all: clear Hc; apply bool_decide_eq_false in Hd.
  all: try apply elem_of_singleton_list in Hin1; try apply elem_of_singleton_list in Hin2.
  all: try apply elem_of_pair_list in Hin1; try apply elem_of_pair_list in Hin2.
  all: destruct_or?; subst; destruct_and?; unfold has_kind in *; congruence.
Qed.

Lemma thread_of_set_thread a target r th :
  wf a → is_Some (runners a !! target) → is_Some (runners a !! r) →
  thread_of (set_obj (objid_of a target) (VThread th) a) r =
  if decide (r = target) then Ok th else thread_of a r.
Proof.
  intros Hwf Ht Hr. unfold thread_of, obj_of, map_at. rewrite lookup_set_obj.
  change (objid_of (set_obj _ _ a) r) with (objid_of a r).
  destruct (decide (r = target)) as [->|Hne]; [by rewrite decide_True|].
  rewrite decide_False; [done|]. intros Heq. apply Hne. symmetry. by eapply objid_of_inj.
Qed.

Lemma astep_inactive a t th :
  thread_of a (executor t) = Ok th → is_active th = false → astep t a = Ok (a, disabled).
Proof. intros Hth Hact. unfold astep. rewrite Hth. cbn [mbind res_bind]. by rewrite Hact. Qed.

Lemma astep_create a e target :
  wf a → thread_of a e = Ok (Thread running) → is_Some (runners a !! target) →
  astep (Transition e (thread_create target)) a =
    Ok (set_obj (objid_of a target) (VThread (Thread running)) a, exists_).
Proof.
  intros Hwf He Ht. destruct (runner_object a target Hwf Ht) as [Hk _].
  apply astep_exists. split; [done|]. unfold modify. cbn [executor operation_of].
  autounfold with modify. unfold ebind, ret. cbn [add_state_for_runner astate_MutableState].
  unfold a_add_state_for_obj. by rewrite bool_decide_false by by eapply has_kind_valid.
Qed.

Lemma astep_join a e target th :
  thread_of a e = Ok (Thread running) → thread_of a target = Ok th →
  astep (Transition e (thread_join target)) a =
    Ok (a, if has_exited th then exists_ else disabled).
Proof.
  intros He Ht. unfold astep. cbn [executor]. rewrite He. unfold modify.
  cbn [executor operation_of mbind res_bind]. change (is_active (Thread running)) with true.
  autounfold with modify. unfold ebind, query, ret.
  cbn [get_state_of_runner astate_State]. rewrite Ht. by destruct (has_exited th).
Qed.

Lemma not_active_or_running th : is_active th = false ∨ th = Thread running.
Proof. destruct th as [[]]; [by right|by left..]. Qed.

(** A creation and another runner's operation on the created thread that the
tables overlook: [pthread_join], and a second creation. *)
Lemma create_join_commute a e1 e2 target a1 a2 st2 :
  wf a → is_Some (runners a !! target) → is_Some (runners a !! e2) → target ≠ e2 →
  thread_of a target = Ok (Thread embryo) →
  astep (Transition e1 (thread_create target)) a = Ok (a1, exists_) →
  astep (Transition e2 (thread_join target)) a = Ok (a2, st2) →
  st2 = disabled ∧ astep (Transition e2 (thread_join target)) a1 = Ok (a1, disabled).
Proof.
  intros Hwf Ht He2 Hne Hemb Hs1 Hs2. pose proof Hs1 as [He1 _]%astep_exists.
  rewrite astep_create in Hs1 by done. injection Hs1 as <-.
  destruct (runner_object a e2 Hwf He2) as [_ [th Hth]].
  destruct (not_active_or_running th) as [Hact| ->].
  - rewrite (astep_inactive a _ th) in Hs2 by done. injection Hs2 as _ <-. split; [done|].
    apply (astep_inactive _ _ th); [|done]. cbn [executor].
    by rewrite thread_of_set_thread, decide_False.
  - rewrite (astep_join a e2 target (Thread embryo)) in Hs2 by done. injection Hs2 as _ <-.
    split; [done|]. apply (astep_join _ e2 target (Thread running)).
    + by rewrite thread_of_set_thread, decide_False.
    + by rewrite thread_of_set_thread, decide_True.
Qed.

Lemma create_create_commute a e1 e2 target a1 a2 st2 :
  wf a → is_Some (runners a !! target) → is_Some (runners a !! e2) → is_Some (runners a !! e1) →
  target ≠ e2 → thread_of a target = Ok (Thread embryo) →
  astep (Transition e1 (thread_create target)) a = Ok (a1, exists_) →
  astep (Transition e2 (thread_create target)) a = Ok (a2, st2) →
  ∃ a12, astep (Transition e2 (thread_create target)) a1 = Ok (a12, st2) ∧
    (st2 = exists_ → astep (Transition e1 (thread_create target)) a2 = Ok (a12, exists_)).
Proof.
  intros Hwf Ht He2 Hex1 Hne Hemb Hs1 Hs2. pose proof Hs1 as [He1 _]%astep_exists. cbn [executor] in He1.
  assert (e1 ≠ target) as Hne1 by (intros ->; congruence).
  pose proof (runner_object a target Hwf Ht) as [Hk _].
  assert (typed (Transition e1 (thread_create target)) a) as Htyp by done.
  destruct (astep_good _ _ _ _ Hwf Htyp Hs1) as [Hwf1 [Hr1 _]].
  rewrite astep_create in Hs1 by done. injection Hs1 as <-.
  assert (∀ e, is_Some (runners a !! e) → e ≠ target → thread_of a e = Ok (Thread running) →
    astep (Transition e (thread_create target))
      (set_obj (objid_of a target) (VThread (Thread running)) a) =
    Ok (set_obj (objid_of a target) (VThread (Thread running)) a, exists_)) as Hagain.
  { intros e Hsome Hnt Hrun. rewrite astep_create; [|done| |done].
    - unfold set_obj; simpl. by rewrite insert_insert_eq.
    - by rewrite thread_of_set_thread, decide_False. }
  destruct (runner_object a e2 Hwf He2) as [_ [th Hth]].
  destruct (not_active_or_running th) as [Hact| ->].
  - rewrite (astep_inactive a _ th) in Hs2 by done. injection Hs2 as _ <-. eexists. split; [|done].
    apply (astep_inactive _ _ th); [|done]. cbn [executor].
    by rewrite thread_of_set_thread, decide_False.
  - rewrite astep_create in Hs2 by done. injection Hs2 as <- <-.
    eexists. split; [apply Hagain; by auto|]. intros _. by apply Hagain.
Qed.

(** An enabled transition reads no thread that is not yet running, apart from
the target of a join, which has exited. *)
Lemma enabled_reads_no_embryo t a a' r :
  astep t a = Ok (a', exists_) → thread_of a r = Ok (Thread embryo) → r ∉ runners_read t.
Proof.
  intros Hs Hemb Hr. pose proof Hs as [He _]%astep_exists. unfold runners_read in Hr.
  destruct t as [e op]; simpl in *.
  assert (r ≠ e) as Hne by (intros ->; congruence).
  destruct op; try set_solver. apply elem_of_pair_list in Hr as [?|Hr]; [done|subst].
  rewrite (astep_join a e target _ He Hemb) in Hs. done.
Qed.

Lemma independent_runners a a1 t1 t2 :
  executor t1 ≠ executor t2 → dependent_spec t1 t2 = false →
  creates_embryo t1 a → creates_embryo t2 a → astep t1 a = Ok (a1, exists_) →
  (∃ target, operation_of t1 = thread_create target ∧ target ≠ executor t2 ∧
     (operation_of t2 = thread_join target ∨ operation_of t2 = thread_create target)) ∨
  (∀ r, r ∈ runners_written t1 → r ∉ runners_read t2 ++ runners_written t2) ∧
  (∀ r, r ∈ runners_written t2 → r ∉ runners_read t1 ++ runners_written t1).
Proof.
  intros Hne Hd Hemb1 Hemb2 Hs1.
  assert (∀ r, thread_of a r = Ok (Thread embryo) → r ∉ runners_read t1) as Hreads.
  { intros r. by eapply enabled_reads_no_embryo. }
  destruct t1 as [e1 o1], t2 as [e2 o2]; unfold dependent_spec in Hd; simpl in *.
  unfold runners_read, runners_written in *; simpl in *.
  destruct o1; destruct o2; try discriminate Hd; simpl in *;
    try apply bool_decide_eq_false in Hd; try (right; split; set_solver).
  all: unfold creates_embryo in *; simpl in *.
  - pose proof (Hreads _ Hemb2). destruct (decide (target0 = target)) as [->|].
    + left. by eauto.
    + right. split; set_solver.
  - destruct (decide (target0 = target)) as [->|].
    + left. by eauto.
    + right. split; set_solver.
  - pose proof (Hreads _ Hemb2). right. split; set_solver.
Qed.

(** C6: declared independence is sound.  In a well-formed state, for well-typed
transitions that create only threads that have not started: if the default
configuration declares two transitions independent and the first is enabled,
then it neither enables nor disables the second, and when both are enabled the
two orders lead to the same state. *)
Theorem independent_commute config t1 t2 a a1 a2 st2 :
  default_configuration = Ok config → are_dependent config t1 t2 = false →
  wf a → typed t1 a → typed t2 a → creates_embryo t1 a → creates_embryo t2 a →
  astep t1 a = Ok (a1, exists_) → astep t2 a = Ok (a2, st2) →
  ∃ a12, astep t2 a1 = Ok (a12, st2) ∧ (st2 = exists_ → astep t1 a2 = Ok (a12, exists_)).
Proof.
  intros Hc Hd Hwf Ht1 Ht2 Hemb1 Hemb2 Hs1 Hs2.
  destruct (independent_objects config t1 t2 a Hc Hd Ht1 Ht2) as (Hne & Hspec & Hobj). clear Hc Hd.
  destruct (independent_runners a a1 t1 t2) as [(target & Hop1 & Hte2 & Hop2)|[Hr1 Hr2]]; try done.
  - destruct t1 as [e1 o1], t2 as [e2 o2], Ht1 as [He1 Ht1], Ht2 as [He2 Ht2].
    unfold creates_embryo in Hemb1. simpl in *. subst o1. simpl in Hemb1.
    destruct Hop2 as [-> | ->].
    + destruct (create_join_commute a e1 e2 target a1 a2 st2) as [-> Hj]; try done. by eexists.
    + by eapply create_create_commute.
  - eapply astep_diamond; [by apply foot_disjoint| |done|done].
    apply foot_disjoint; try done. intros id H2 H1. by eapply Hobj.
Qed.

(** ** Co-enabledness *)

Definition is_signal_or_destroy (op : operation) : bool :=
  match op with condition_variable_signal _ | condition_variable_destroy _ => true | _ => false end.

Lemma lock_excludes_unlock a e1 e2 m a1 a2 :
  astep (Transition e1 (mutex_lock m)) a = Ok (a1, exists_) →
  astep (Transition e2 (mutex_unlock m)) a = Ok (a2, exists_) → False.
Proof.
  intros H1 H2. astep_inv H1. astep_inv H2. apply negb_false_iff in Heqb0.
  apply is_locked_by_is_locked in Heqb0. congruence.
Qed.

Lemma create_excludes_target a e1 e2 op a1 a2 target :
  astep (Transition e1 (thread_create target)) a = Ok (a1, exists_) →
  thread_of a target = Ok (Thread embryo) → target = e2 →
  astep (Transition e2 op) a = Ok (a2, exists_) → False.
Proof. intros _ Hemb -> [He _]%astep_exists. simpl in He. congruence. Qed.

Lemma join_excludes_target a e1 e2 op a1 a2 target :
  target = e2 → astep (Transition e1 (thread_join target)) a = Ok (a1, exists_) →
  astep (Transition e2 op) a = Ok (a2, exists_) → False.
Proof.
  intros -> H1 [He2 _]%astep_exists. simpl in He2. pose proof H1 as [He1 _]%astep_exists.
  by rewrite (astep_join a e1 e2 _ He1 He2) in H1.
Qed.

(** C7: co-enabledness.  In a state where the threads that the two transitions create, if they
create any, have not started ([creates_embryo]), and apart from the entries of
[pthread_cond_signal] and [pthread_cond_destroy], transitions of different runners that the
default configuration declares not co-enabled are never both enabled: where one is, the
other is not.  Of a thread that runs it is false ([create_of_running_thread]). *)
Theorem not_coenabled_sound config t1 t2 a a1 :
  default_configuration = Ok config → are_coenabled config t1 t2 = false →
  executor t1 ≠ executor t2 → creates_embryo t1 a → creates_embryo t2 a →
  is_signal_or_destroy (operation_of t1) = false → is_signal_or_destroy (operation_of t2) = false →
  astep t1 a = Ok (a1, exists_) → ∀ a2, astep t2 a ≠ Ok (a2, exists_).
Proof.
  intros Hc. rewrite (are_coenabled_spec _ _ _ Hc). clear Hc. intros Hd Hne.
  rewrite bool_decide_false in Hd by done. cbn [negb andb] in Hd.
  destruct t1 as [e1 o1], t2 as [e2 o2]; unfold coenabled_spec, creates_embryo in *;
    cbn [operation_of executor is_signal_or_destroy] in *.
  destruct o1; destruct o2; try discriminate Hd; intros Hemb1 Hemb2 Hn1 Hn2; try discriminate;
    apply negb_false_iff, bool_decide_eq_true in Hd; subst; intros Hs1 a2 Hs2;
    first [ by eapply lock_excludes_unlock | by eapply (join_excludes_target a e1 e2)
          | by eapply (join_excludes_target a e2 e1) | by eapply (create_excludes_target a e1 e2)
          | by eapply (create_excludes_target a e2 e1)].
Qed.

(** A thread created again while it runs: the two are declared not co-enabled, and both are
enabled. *)
Lemma create_of_running_thread config : default_configuration = Ok config →
  let t1 := Transition 0 (thread_create 1) in let t2 := Transition 1 thread_exit in
  let a := AState (list_to_map [(0, VThread (Thread running)); (1, VThread (Thread running))]%N) (list_to_map [(0, 0); (1, 1)]%N) in
  are_coenabled config t1 t2 = false ∧ (∃ a1, astep t1 a = Ok (a1, exists_)) ∧ ∃ a2, astep t2 a = Ok (a2, exists_).
Proof.
  intros Hc. cbv zeta. rewrite (are_coenabled_spec _ _ _ Hc). split; [by vm_compute|]. split; eexists; vm_compute; reflexivity.
Qed.

Lemma default_are_coenabled t1 t2 :
  (λ c, are_coenabled c t1 t2) <$> default_configuration =
  Ok (negb (bool_decide (executor t1 = executor t2)) && coenabled_spec t1 t2).
Proof.
  destruct default_configuration_ok as [c Hc]. pose proof (are_coenabled_spec c t1 t2 Hc) as H.
  rewrite Hc. cbn [fmap res_fmap]. by rewrite H.
Qed.

Lemma default_are_dependent t1 t2 :
  (λ c, are_dependent c t1 t2) <$> default_configuration =
  Ok (bool_decide (executor t1 = executor t2) || dependent_spec t1 t2).
Proof.
  destruct default_configuration_ok as [c Hc]. pose proof (are_dependent_spec c t1 t2 Hc) as H.
  rewrite Hc. cbn [fmap res_fmap]. by rewrite H.
Qed.

(** C8: the double-dispatch tables, the class entries and the fallbacks of the default
configuration together compute one relation each: [are_dependent] and
[are_coenabled], which look entries up by the classes of two transitions and swap
them when the second class has the entry, equal the functions [dependent_spec] and
[coenabled_spec], written by cases on the operations, but for transitions of the same
runner, which are always dependent and never co-enabled. *)
Theorem default_tables_compute config t1 t2 :
  default_configuration = Ok config →
  are_dependent config t1 t2 = bool_decide (executor t1 = executor t2) || dependent_spec t1 t2 ∧
  are_coenabled config t1 t2 = negb (bool_decide (executor t1 = executor t2)) && coenabled_spec t1 t2.
Proof. intros Hc. split; [by apply are_dependent_spec|by apply are_coenabled_spec]. Qed.

(** Thread 1, freed by a broadcast, may return from its wait on the condition
variable 3 (mutex 2), on which [waiters] wait. *)
Definition broadcast_received (waiters : list runner_id_t) : astate :=
  AState (list_to_map [(0, VThread (Thread running)); (1, VThread (Thread running));
     (2, VMutex (new_mutex mutex_unlocked 512));
     (3, VCond (CondVar cv_signaled 0 0 512 0 0 (Policy {[1%N]} [] waiters ∅)))]%N)
    (list_to_map [(0, 0); (1, 1)]%N).

(** The entries of [pthread_cond_signal] and [pthread_cond_destroy] are
wrong: a signal and a wait, a destruction and a wait, a destruction and a signal
on one condition variable are declared not co-enabled, and each pair is enabled
in some state. *)
Theorem signal_and_destroy_coenabled :
  let signal := Transition 0 (condition_variable_signal 3) in
  let wait := Transition 1 (condition_variable_wait 3 2) in
  let destroy := Transition 0 (condition_variable_destroy 3) in
  let signal' := Transition 1 (condition_variable_signal 3) in
  let a := broadcast_received [] in
  let enabled t := snd <$> astep t a in
  (λ c, are_coenabled c signal wait) <$> default_configuration = Ok false ∧
  (λ c, are_coenabled c destroy wait) <$> default_configuration = Ok false ∧
  (λ c, are_coenabled c destroy signal') <$> default_configuration = Ok false ∧
  enabled signal = Ok exists_ ∧ enabled wait = Ok exists_ ∧
  enabled destroy = Ok exists_ ∧ enabled signal' = Ok exists_.
Proof.
  intros. rewrite !default_are_coenabled. split_and!; vm_compute; reflexivity.
Qed.

(** Dispatch through the interface entries is not symmetric.  For a class
with pair entries the interface entries are never consulted, so that a
[mutex_lock] depends on every [thread_create], while a [thread_create] depends
on the [mutex_lock] of its target only. *)
Theorem dependency_not_symmetric :
  let lock := Transition 0 (mutex_lock 3) in
  let create := Transition 1 (thread_create 2) in
  (λ c, are_dependent c lock create) <$> default_configuration = Ok true ∧
  (λ c, are_dependent c create lock) <$> default_configuration = Ok false.
Proof.
  intros. rewrite !default_are_dependent. split; vm_compute; reflexivity.
Qed.
