(* ===== verification/StateSequence.v ===== *)
(** * State sequences

[model::state_sequence] ([src/mcmini/model/state_sequence.cpp]): the histories
of all visible objects, and for each state of the sequence an [element] that
says which entry of each history belongs to it.  The abstraction of a sequence is
the list of the abstract states of its elements: [follow] appends the state the
transition leads to, [consume_into_subsequence] is [take].

The class keeps no object alive that the sequence has gone back before: objects
and runners discovered after a state stay in the sequence when it is cut back to
that state ([hidden]), and the next state [follow] pushes contains them. *)

From stdpp Require Import options.
From S2P Require Import Prelude InjectiveFunction CondPolicy Objects State Transitions.
From S2P Require Import AbstractState Behaviour.

(** ** Data *)

Record element := Element {
  visible_object_indices : gmap objid_t N;
  max_visible_runner_id : runner_id_t;
}.
Record state_sequence := StateSequence {
  runner_to_obj_map : injective_function runner_id_t objid_t;
  visible_objects : list (list visible_object_state);
  states_in_sequence : list element;
}.

Definition with_visible_objects (o : list (list visible_object_state)) (ss : state_sequence) : state_sequence :=
  StateSequence (runner_to_obj_map ss) o (states_in_sequence ss).
Definition with_states (l : list element) (ss : state_sequence) : state_sequence :=
  StateSequence (runner_to_obj_map ss) (visible_objects ss) l.

(** ** Elements *)

(** [element(const state_sequence *owner)] *)
Definition new_element (owner : state_sequence) : element :=
  Element
    (get_last_state_index <$> indexed (visible_objects owner))
    (u16 (N.of_nat (inj_size (runner_to_obj_map owner)))).
Definition record_new_runner (el : element) : element :=
  Element (visible_object_indices el) (u16 (max_visible_runner_id el + 1)).
Definition point_to_next_state_for (id : objid_t) (el : element) : element :=
  Element (<[id := match visible_object_indices el !! id with
                   | Some i => u64 (i + 1) | None => 0%N end]> (visible_object_indices el))
    (max_visible_runner_id el).

Section element.
Variable owner : state_sequence.

Definition element_count (el : element) : nat := size (visible_object_indices el).
Definition element_runner_count (el : element) : nat := N.to_nat (max_visible_runner_id el).
Definition element_contains_object_with_id (el : element) (id : objid_t) : bool :=
  bool_decide (id < N.of_nat (size (visible_object_indices el)))%N.
Definition element_contains_runner_with_id (el : element) (id : runner_id_t) : bool :=
  bool_decide (id < max_visible_runner_id el)%N && count_domain (runner_to_obj_map owner) id.
Definition element_is_runner (el : element) (id : objid_t) : bool :=
  element_contains_object_with_id el id && count_range (runner_to_obj_map owner) id.
Definition element_get_runner_id_for_obj (el : element) (id : objid_t) : res runner_id_t :=
  if element_is_runner el id then range_at (runner_to_obj_map owner) id else Ok invalid_rid.
Definition element_get_objid_for_runner (el : element) (id : runner_id_t) : res objid_t :=
  if element_contains_runner_with_id el id then inj_at (runner_to_obj_map owner) id
  else Ok invalid_objid.
Definition element_get_state_of_object (el : element) (id : objid_t) : res visible_object_state :=
  o ← vec_at (visible_objects owner) id;
  i ← map_at (visible_object_indices el) id;
  state_at o i.
Definition element_get_state_of_runner (el : element) (id : runner_id_t) : res thread :=
  objid ← element_get_objid_for_runner el id;
  element_get_state_of_object el objid ≫= as_thread.
End element.

(** ** The sequence as a [mutable_state] *)

(** [*states_in_sequence.back()] *)
Definition get_representative_state (ss : state_sequence) : res element :=
  vec_back (states_in_sequence ss).
Definition update_representative_state (f : element → element) : eff state_sequence unit := λ ss,
  match get_representative_state ss with
  | Throw e => (Throw e, ss)
  | Ok el => (Ok tt, with_states (removelast (states_in_sequence ss) ++ [f el]) ss)
  end.
Definition push_state_snapshot : eff state_sequence unit := λ ss,
  (Ok tt, with_states (states_in_sequence ss ++ [new_element ss]) ss).

(** Run a query of the element that represents the sequence. *)
Definition via_representative {A} (f : state_sequence → element → res A) (ss : state_sequence) : res A :=
  el ← get_representative_state ss; f ss el.

Definition seq_count : state_sequence → res nat :=
  via_representative (λ _ el, Ok (element_count el)).
Definition seq_runner_count : state_sequence → res nat :=
  via_representative (λ _ el, Ok (element_runner_count el)).
Definition seq_is_runner (ss : state_sequence) (id : objid_t) : res bool :=
  via_representative (λ ss el, Ok (element_is_runner ss el id)) ss.
Definition seq_get_objid_for_runner (ss : state_sequence) (id : runner_id_t) : res objid_t :=
  via_representative (λ ss el, element_get_objid_for_runner ss el id) ss.
Definition seq_get_runner_id_for_obj (ss : state_sequence) (id : objid_t) : res runner_id_t :=
  via_representative (λ ss el, element_get_runner_id_for_obj ss el id) ss.
Definition seq_contains_object_with_id (ss : state_sequence) (id : objid_t) : res bool :=
  via_representative (λ _ el, Ok (element_contains_object_with_id el id)) ss.
Definition seq_contains_runner_with_id (ss : state_sequence) (id : runner_id_t) : res bool :=
  via_representative (λ ss el, Ok (element_contains_runner_with_id ss el id)) ss.
Definition seq_get_state_of_object (ss : state_sequence) (id : objid_t) : res visible_object_state :=
  via_representative (λ ss el, element_get_state_of_object ss el id) ss.
Definition seq_get_state_of_runner (ss : state_sequence) (id : runner_id_t) : res thread :=
  via_representative (λ ss el, element_get_state_of_runner ss el id) ss.

Definition seq_add_object (s : visible_object_state) : eff state_sequence objid_t := λ ss,
  let id := u32 (N.of_nat (length (visible_objects ss))) in
  (do! update_representative_state (point_to_next_state_for id) in
   λ ss, (Ok id, with_visible_objects (visible_objects ss ++ [[s]]) ss)) ss.
Definition insert_runner (p : runner_id_t * objid_t) : eff state_sequence bool := λ ss,
  let '(r, m) := inj_insert p (runner_to_obj_map ss) in
  (r, StateSequence m (visible_objects ss) (states_in_sequence ss)).
Definition seq_add_runner (s : thread) : eff state_sequence runner_id_t :=
  let! runner_objid := seq_add_object (VThread s) in
  let! n := query (λ ss, Ok (inj_size (runner_to_obj_map ss))) in
  let next_runner_id := u16 (N.of_nat n) in
  do! insert_runner (next_runner_id, runner_objid) in
  do! update_representative_state record_new_runner in
  ret next_runner_id.
(** [visible_objects.at(id).push_state(new_state)] *)
Definition push_state_at (id : objid_t) (s : visible_object_state) : eff state_sequence unit := λ ss,
  match vec_at (visible_objects ss) id with
  | Throw e => (Throw e, ss)
  | Ok o => (Ok tt, with_visible_objects (<[N.to_nat id := push_state s o]> (visible_objects ss)) ss)
  end.
Definition seq_add_state_for_obj (id : objid_t) (new_state : visible_object_state) : eff state_sequence unit :=
  if bool_decide (id = invalid_objid) then throw (RuntimeError InvalidObjectId)
  else
    do! update_representative_state (point_to_next_state_for id) in
    push_state_at id new_state.
Definition seq_add_state_for_runner (id : runner_id_t) (new_state : thread) : eff state_sequence unit :=
  let! objid := query (λ ss, seq_get_objid_for_runner ss id) in
  if bool_decide (objid = invalid_objid) then throw (RuntimeError NoSuchRunner)
  else seq_add_state_for_obj objid (VThread new_state).

#[export] Instance sequence_State : State state_sequence := {
  count := seq_count;
  runner_count := seq_runner_count;
  is_runner := seq_is_runner;
  contains_object_with_id := seq_contains_object_with_id;
  contains_runner_with_id := seq_contains_runner_with_id;
  get_objid_for_runner := seq_get_objid_for_runner;
  get_runner_id_for_obj := seq_get_runner_id_for_obj;
  get_state_of_object := seq_get_state_of_object;
  get_state_of_runner := seq_get_state_of_runner;
}.
#[export] Instance sequence_MutableState : MutableState state_sequence := {
  add_object := seq_add_object;
  add_runner := seq_add_runner;
  add_state_for_obj := seq_add_state_for_obj;
  add_state_for_runner := seq_add_state_for_runner;
}.

(** ** Constructors *)

Definition empty_sequence : state_sequence := StateSequence inj_empty [] [].
(** [state_sequence()] *)
Definition new_state_sequence : state_sequence := (push_state_snapshot empty_sequence).2.
(** [state_sequence(std::vector<visible_object> &&)] *)
Definition state_sequence_of_objects (initial_objects : list (list visible_object_state)) : state_sequence :=
  (push_state_snapshot (StateSequence inj_empty initial_objects [])).2.
(** [state_sequence(const state &)] *)
Definition state_sequence_of_state {S} `{State S} (s : S) : res state_sequence :=
  let copy : eff state_sequence unit :=
    let! num_objs := query (λ _, count s) in
    do! for_each (N.of_nat <$> seq 0 num_objs) (λ i,
      let! st := query (λ _, get_state_of_object s i) in
      do! seq_add_object st in ret tt) in
    let! num_runners := query (λ _, runner_count s) in
    for_each (N.of_nat <$> seq 0 num_runners) (λ p,
      do! update_representative_state record_new_runner in
      let! objid := query (λ _, get_objid_for_runner s p) in
      do! insert_runner (p, objid) in ret tt) in
  match copy new_state_sequence with (Ok _, ss) => Ok ss | (Throw e, _) => Throw e end.

(** ** The sequence *)

Definition get_num_states_in_sequence (ss : state_sequence) : nat := length (states_in_sequence ss).
Definition seq_state_at (ss : state_sequence) (i : N) : res element := vec_at (states_in_sequence ss) i.
Definition seq_front (ss : state_sequence) : res element := vec_at (states_in_sequence ss) 0.
Definition seq_back (ss : state_sequence) : res element := vec_back (states_in_sequence ss).

(** [visible_objects.at(i).slice(idx)] *)
Definition slice_at (i : objid_t) (idx : N) : eff state_sequence unit := λ ss,
  match o ← vec_at (visible_objects ss) i; slice idx o with
  | Throw e => (Throw e, ss)
  | Ok o => (Ok tt, with_visible_objects (<[N.to_nat i := o]> (visible_objects ss)) ss)
  end.

Definition seq_consume_into_subsequence (num_states : nat) : eff state_sequence unit := λ ss,
  if bool_decide (length (states_in_sequence ss) ≤ num_states) then (Ok tt, ss)
  else
    (let! current_state := query get_representative_state in
     for_each (N.of_nat <$> seq 0 (length (visible_objects ss))) (λ i,
       if element_contains_object_with_id current_state i then
         let! idx := query (λ _, map_at (visible_object_indices current_state) i) in
         slice_at i idx
       else slice_at i 0))
    (with_states (take num_states (states_in_sequence ss)) ss).

(** [visible_objects[new_state.first].push_state(...release())]: out of bounds the
[operator[]] is undefined, and so is the null pointer an empty history would
leave. *)
Definition push_new_state (new_state : objid_t * list visible_object_state) : eff state_sequence unit := λ ss,
  match visible_objects ss !! N.to_nat new_state.1, (consume_into_current_state new_state.2).1 with
  | Some o, Some s =>
      (Ok tt, with_visible_objects (<[N.to_nat new_state.1 := push_state s o]> (visible_objects ss)) ss)
  | _, _ => (Throw UB, ss)
  end.

Definition follow (t : transition) : eff state_sequence status := λ ss,
  match apply_to t ss with
  | Throw e => (Throw e, ss)
  | Ok (d, st) =>
      if bool_decide (st = exists_) then
        (do! for_each (map_to_list (new_object_states d)) push_new_state in
         do! push_state_snapshot in
         ret st) ss
      else (Ok st, ss)
  end.

(** ** The abstraction *)

Definition abs_element (ss : state_sequence) (el : element) : astate :=
  AState (map_imap (λ id i, h ← visible_objects ss !! N.to_nat id; h !! N.to_nat i)
            (visible_object_indices el))
    (filter (λ ro, (ro.1 < max_visible_runner_id el)%N) (forward (runner_to_obj_map ss))).
Definition abs_states (ss : state_sequence) : list astate := abs_element ss <$> states_in_sequence ss.

(** An element sees the first [n] objects; its indices lie within the histories
and the runners it sees have objects it sees. *)
Record wf_element (ss : state_sequence) (n : nat) (el : element) : Prop := WfElement {
  we_dom : ∀ id, is_Some (visible_object_indices el !! id) ↔ (id < N.of_nat n)%N;
  we_size : size (visible_object_indices el) = n;
  we_n : n ≤ length (visible_objects ss);
  we_idx : ∀ id i h, visible_object_indices el !! id = Some i →
    visible_objects ss !! N.to_nat id = Some h → N.to_nat i < length h;
  we_runners : ∀ r id, forward (runner_to_obj_map ss) !! r = Some id →
    (r < max_visible_runner_id el)%N → (id < N.of_nat n)%N;
  we_max : N.to_nat (max_visible_runner_id el) ≤ inj_size (runner_to_obj_map ss);
}.

(** What cutting a sequence back needs of the state it goes back to. *)
Record prefix_element (ss : state_sequence) (n : nat) (el : element) : Prop := PrefixElement {
  pe_dom : ∀ id, is_Some (visible_object_indices el !! id) ↔ (id < N.of_nat n)%N;
  pe_size : size (visible_object_indices el) = n;
  pe_idx : ∀ id i h, visible_object_indices el !! id = Some i →
    visible_objects ss !! N.to_nat id = Some h → N.to_nat i < length h;
}.
Lemma wf_element_prefix ss n el : wf_element ss n el → prefix_element ss n el.
Proof. by intros []. Qed.

Record wf_seq (ss : state_sequence) : Prop := WfSeq {
  ws_nonempty : states_in_sequence ss ≠ [];
  ws_mirrored : mirrored (runner_to_obj_map ss);
  ws_runner_dom : ∀ r, is_Some (forward (runner_to_obj_map ss) !! r) ↔
    (r < N.of_nat (inj_size (runner_to_obj_map ss)))%N;
  ws_runner_range : ∀ r id, forward (runner_to_obj_map ss) !! r = Some id →
    (id < N.of_nat (length (visible_objects ss)))%N;
  ws_history : Forall (λ h, h ≠ []) (visible_objects ss);
  ws_element : ∀ k el, states_in_sequence ss !! k = Some el → ∃ n, wf_element ss n el;
  ws_mono : ∀ j k ej ek id i, j ≤ k → states_in_sequence ss !! j = Some ej →
    states_in_sequence ss !! k = Some ek → visible_object_indices ej !! id = Some i →
    ∃ i', visible_object_indices ek !! id = Some i' ∧ (i ≤ i')%N;
  ws_last : ∀ el id i h, last (states_in_sequence ss) = Some el →
    visible_object_indices el !! id = Some i → visible_objects ss !! N.to_nat id = Some h →
    N.to_nat i = length h - 1;
}.

(** The sizes fit the machine integers. *)
Record fits (ss : state_sequence) : Prop := Fits {
  fits_objects : (N.of_nat (length (visible_objects ss)) < invalid_objid)%N;
  fits_history : Forall (λ h : list visible_object_state, (N.of_nat (length h) < 2^63)%N) (visible_objects ss);
  fits_runners : (N.of_nat (inj_size (runner_to_obj_map ss)) < RUNNER_ID_MAX)%N;
}.

#[export] Instance fits_dec ss : Decision (fits ss).
Proof.
  refine (cast_if (decide ((N.of_nat (length (visible_objects ss)) < invalid_objid)%N ∧
    Forall (λ h : list visible_object_state, (N.of_nat (length h) < 2^63)%N) (visible_objects ss) ∧
    (N.of_nat (inj_size (runner_to_obj_map ss)) < RUNNER_ID_MAX)%N))).
  - abstract (by destruct_and!).
  - abstract (by intros []; naive_solver).
Defined.

(** The latest state of every object, visible or not. *)
Definition latest (ss : state_sequence) : gmap objid_t visible_object_state :=
  omap last (indexed (visible_objects ss)).

Lemma lookup_latest ss id : latest ss !! id = visible_objects ss !! N.to_nat id ≫= last.
Proof. unfold latest. by rewrite lookup_omap, lookup_indexed. Qed.

Lemma lookup_abs_element ss el id :
  objs (abs_element ss el) !! id =
  i ← visible_object_indices el !! id; h ← visible_objects ss !! N.to_nat id; h !! N.to_nat i.
Proof. simpl. by rewrite map_lookup_imap. Qed.

Lemma objid_of_abs ss el r :
  objid_of (abs_element ss el) r =
  if element_contains_runner_with_id ss el r
  then default invalid_objid (forward (runner_to_obj_map ss) !! r) else invalid_objid.
Proof.
  unfold objid_of, element_contains_runner_with_id, count_domain; simpl.
  rewrite map_lookup_filter. simpl.
  destruct (forward (runner_to_obj_map ss) !! r) eqn:Hr; simpl; [|by rewrite andb_false_r].
  rewrite andb_true_r. unfold guard. case_decide; simpl.
  - by rewrite bool_decide_true.
  - by rewrite bool_decide_false.
Qed.

(** An element is an implementation of its abstraction. *)
Lemma element_represents ss el :
  (∀ id, element_get_state_of_object ss el id = obj_of (abs_element ss el) id) ∧
  (∀ r, element_get_objid_for_runner ss el r = Ok (objid_of (abs_element ss el) r)) ∧
  (∀ r, element_get_state_of_runner ss el r = thread_of (abs_element ss el) r).
Proof.
  assert (∀ id, element_get_state_of_object ss el id = obj_of (abs_element ss el) id) as Ho.
  { intros id. unfold element_get_state_of_object, obj_of, map_at, vec_at, state_at.
    rewrite lookup_abs_element.
    destruct (visible_objects ss !! N.to_nat id) as [h|] eqn:Hh; simpl.
    - destruct (visible_object_indices el !! id) as [i|] eqn:Hi; simpl; [|done].
      unfold vec_at. by destruct (h !! N.to_nat i).
    - by destruct (visible_object_indices el !! id). }
  assert (∀ r, element_get_objid_for_runner ss el r = Ok (objid_of (abs_element ss el) r)) as Hr.
  { intros r. rewrite objid_of_abs. unfold element_get_objid_for_runner.
    destruct (element_contains_runner_with_id ss el r) eqn:Hc; [|done].
    unfold element_contains_runner_with_id in Hc. apply andb_true_iff in Hc as [_ Hc].
    apply count_domain_true in Hc as [v Hv]. unfold inj_at. by rewrite Hv. }
  split_and!; [done|done|]. intros r. unfold element_get_state_of_runner, thread_of.
  rewrite Hr. simpl. by rewrite Ho.
Qed.

Lemma sequence_represents ss el :
  last (states_in_sequence ss) = Some el → represents ss (abs_element ss el).
Proof.
  intros Hl. destruct (element_represents ss el) as (Ho & Hi & Hr). unfold represents. simpl.
  unfold seq_get_state_of_object, seq_get_state_of_runner, seq_get_objid_for_runner,
    via_representative, get_representative_state, vec_back, deref. rewrite Hl. simpl. auto.
Qed.

(** ** Growing the histories *)

(** [ss'] has the histories of [ss], some of them extended, and otherwise agrees
with [ss]. *)
Definition extends (ss ss' : state_sequence) : Prop :=
  runner_to_obj_map ss' = runner_to_obj_map ss ∧
  states_in_sequence ss' = states_in_sequence ss ∧
  length (visible_objects ss') = length (visible_objects ss) ∧
  ∀ id h, visible_objects ss !! id = Some h → ∃ k, visible_objects ss' !! id = Some (h ++ k).

#[export] Instance extends_preorder : PreOrder extends.
Proof.
  split.
  - intros ss. split_and!; try done. intros id h Hh. exists []. by rewrite app_nil_r.
  - intros s1 s2 s3 (Hr1 & Hs1 & Hl1 & H1) (Hr2 & Hs2 & Hl2 & H2).
    split_and!; [congruence..|]. intros id h Hh.
    destruct (H1 id h Hh) as [k1 Hk1]. destruct (H2 _ _ Hk1) as [k2 Hk2].
    exists (k1 ++ k2). by rewrite app_assoc.
Qed.

Lemma extends_back ss ss' id h' :
  extends ss ss' → visible_objects ss' !! id = Some h' →
  ∃ h k, visible_objects ss !! id = Some h ∧ h' = h ++ k.
Proof.
  intros (_ & _ & Hl & He) Hh'.
  destruct (visible_objects ss !! id) as [h|] eqn:Hh.
  - destruct (He id h Hh) as [k Hk]. exists h, k. split; [done|congruence].
  - apply lookup_ge_None in Hh. apply lookup_lt_Some in Hh'. lia.
Qed.

Lemma wf_element_extends ss ss' n el : extends ss ss' → wf_element ss n el → wf_element ss' n el.
Proof.
  intros Hext Hw. pose proof Hext as (Hr & _ & Hl & He).
  destruct Hw as [Hdom Hsize Hn Hidx Hrun Hmax]. split; rewrite ?Hr; try done; [lia|].
  intros id i h' Hi Hh'. destruct (extends_back _ _ _ _ Hext Hh') as (h & k & Hh & ->).
  rewrite length_app. specialize (Hidx id i h Hi Hh). lia.
Qed.

Lemma wf_element_with_states ss l n el : wf_element ss n el → wf_element (with_states l ss) n el.
Proof. by intros []. Qed.

Lemma abs_element_extends ss ss' n el :
  extends ss ss' → wf_element ss n el → abs_element ss' el = abs_element ss el.
Proof.
  intros Hext Hw. pose proof Hext as (Hr & _ & Hl & He).
  unfold abs_element. rewrite Hr. f_equal. apply map_eq. intros id. rewrite !map_lookup_imap.
  destruct (visible_object_indices el !! id) as [i|] eqn:Hi; simpl; [|done].
  destruct (visible_objects ss !! N.to_nat id) as [h|] eqn:Hh.
  - destruct (He _ h Hh) as [k ->]. simpl. rewrite lookup_app_l; [done|]. by eapply we_idx.
  - destruct (visible_objects ss' !! N.to_nat id) as [h'|] eqn:Hh'; [|done].
    destruct (extends_back _ _ _ _ Hext Hh') as (h & k & Hh2 & _). congruence.
Qed.

(** ** The snapshot *)

Lemma get_last_state_index_nat h :
  h ≠ [] → (N.of_nat (length h) < 2^63)%N → N.to_nat (get_last_state_index h) = length h - 1.
Proof. intros. apply get_last_state_index_spec; [done|lia]. Qed.

Lemma lookup_new_element ss id :
  visible_object_indices (new_element ss) !! id =
  get_last_state_index <$> visible_objects ss !! N.to_nat id.
Proof. unfold new_element; simpl. by rewrite lookup_fmap, lookup_indexed. Qed.

Lemma max_new_element ss :
  fits ss → max_visible_runner_id (new_element ss) = N.of_nat (inj_size (runner_to_obj_map ss)).
Proof.
  intros Hf. simpl. unfold u16. apply N.mod_small. pose proof (fits_runners ss Hf).
  unfold RUNNER_ID_MAX in *. lia.
Qed.

(** What the snapshot of the histories needs; unlike [wf_seq] it does not ask the
last element to be up to date. *)
Record wf_base (ss : state_sequence) : Prop := WfBase {
  wb_mirrored : mirrored (runner_to_obj_map ss);
  wb_runner_dom : ∀ r, is_Some (forward (runner_to_obj_map ss) !! r) ↔
    (r < N.of_nat (inj_size (runner_to_obj_map ss)))%N;
  wb_runner_range : ∀ r id, forward (runner_to_obj_map ss) !! r = Some id →
    (id < N.of_nat (length (visible_objects ss)))%N;
  wb_history : Forall (λ h, h ≠ []) (visible_objects ss);
}.

Lemma wf_seq_base ss : wf_seq ss → wf_base ss.
Proof. by intros []. Qed.

Lemma wf_new_element ss :
  wf_base ss → fits ss → wf_element ss (length (visible_objects ss)) (new_element ss).
Proof.
  intros Hwf Hf. split.
  - intros id. rewrite lookup_new_element, fmap_is_Some, lookup_lt_is_Some. lia.
  - simpl. rewrite map_size_fmap. apply size_indexed.
  - done.
  - intros id i h. rewrite lookup_new_element. intros Hi Hh. rewrite Hh in Hi. simpl in Hi.
    injection Hi as <-.
    pose proof (Forall_lookup_1 _ _ _ _ (wb_history ss Hwf) Hh) as Hne.
    rewrite get_last_state_index_nat; [|done|].
    + destruct h; simpl; [done|lia].
    + apply (Forall_lookup_1 _ _ _ _ (fits_history ss Hf) Hh).
  - intros r id Hr _. by eapply wb_runner_range.
  - rewrite max_new_element by done. lia.
Qed.

(** The state the snapshot stands for: the latest states, and all runners. *)
Lemma abs_snapshot ss :
  (∀ r, is_Some (forward (runner_to_obj_map ss) !! r) → (r < N.of_nat (inj_size (runner_to_obj_map ss)))%N) →
  Forall (λ h, h ≠ []) (visible_objects ss) → fits ss →
  abs_element ss (new_element ss) = AState (latest ss) (forward (runner_to_obj_map ss)).
Proof.
  intros Hdom Hne Hf. unfold abs_element. f_equal.
  - apply map_eq. intros id. rewrite map_lookup_imap, lookup_new_element, lookup_latest.
    destruct (visible_objects ss !! N.to_nat id) as [h|] eqn:Hh; simpl; [|done].
    rewrite get_last_state_index_nat.
    + rewrite last_lookup. by rewrite Nat.sub_1_r.
    + apply (Forall_lookup_1 _ _ _ _ Hne Hh).
    + apply (Forall_lookup_1 _ _ _ _ (fits_history ss Hf) Hh).
  - rewrite max_new_element by done. apply map_filter_id. intros r id Hr. apply Hdom. eauto.
Qed.
Lemma abs_new_element ss :
  wf_base ss → fits ss →
  abs_element ss (new_element ss) = AState (latest ss) (forward (runner_to_obj_map ss)).
Proof. intros Hwf. apply abs_snapshot; [|apply Hwf]. intros r. by apply wb_runner_dom. Qed.

(** Pushing a snapshot on a sequence whose elements are still valid. *)
Lemma push_snapshot_wf ss :
  wf_base ss → fits ss →
  (∀ k el, states_in_sequence ss !! k = Some el → ∃ n, wf_element ss n el) →
  (∀ j k ej ek id i, j ≤ k → states_in_sequence ss !! j = Some ej →
     states_in_sequence ss !! k = Some ek → visible_object_indices ej !! id = Some i →
     ∃ i', visible_object_indices ek !! id = Some i' ∧ (i ≤ i')%N) →
  wf_seq (push_state_snapshot ss).2 ∧
  abs_states (push_state_snapshot ss).2 =
    abs_states ss ++ [AState (latest ss) (forward (runner_to_obj_map ss))].
Proof.
  intros Hwf Hf Hel Hmono. pose proof (wf_new_element ss Hwf Hf) as Hnew. split.
  - destruct Hwf as [Hmir Hdom Hran Hhist]. split; simpl; try done.
    + intros Hn. apply app_eq_nil in Hn as [_ Hn]. discriminate Hn.
    + intros k el. rewrite lookup_app_Some. intros [Hk|[_ Hk]].
      * destruct (Hel k el Hk) as [n Hn]. exists n. by apply wf_element_with_states.
      * apply list_lookup_singleton_Some in Hk as [_ <-]. eexists. by apply wf_element_with_states.
    + intros j k ej ek id i Hjk Hj Hk Hi. rewrite !lookup_app_Some in *.
      destruct Hj as [Hj|[Hlen Hj]], Hk as [Hk|[_ Hk]].
      * by eapply (Hmono j k ej ek).
      * apply list_lookup_singleton_Some in Hk as [_ <-].
        destruct (Hel j ej Hj) as [n Hn].
        assert (id < N.of_nat (length (visible_objects ss)))%N as Hid.
        { pose proof (proj1 (we_dom _ _ _ Hn id) (mk_is_Some _ _ Hi)). pose proof (we_n _ _ _ Hn). lia. }
        destruct (lookup_lt_is_Some_2 (visible_objects ss) (N.to_nat id)) as [h Hh]; [lia|].
        exists (get_last_state_index h). rewrite lookup_new_element, Hh. split; [done|].
        pose proof (we_idx _ _ _ Hn id i h Hi Hh).
        assert (N.to_nat (get_last_state_index h) = length h - 1); [|lia].
        apply get_last_state_index_nat.
        -- apply (Forall_lookup_1 _ _ _ _ Hhist Hh).
        -- apply (Forall_lookup_1 _ _ _ _ (fits_history ss Hf) Hh).
      * apply lookup_lt_Some in Hk. lia.
      * apply list_lookup_singleton_Some in Hj as [_ <-], Hk as [_ <-]. eauto.
    + intros el id i h. rewrite last_snoc. intros [= <-]. rewrite lookup_new_element.
      intros Hi Hh. rewrite Hh in Hi. injection Hi as <-. apply get_last_state_index_nat.
      * apply (Forall_lookup_1 _ _ _ _ Hhist Hh).
      * apply (Forall_lookup_1 _ _ _ _ (fits_history ss Hf) Hh).
  - unfold abs_states. simpl. rewrite fmap_app. simpl.
    change (abs_element (with_states _ ss)) with (abs_element ss).
    by rewrite abs_new_element.
Qed.

(** ** [follow] *)

(** What the loop of [follow] adds to the history of an object. *)
Definition pushed (m : gmap objid_t (list visible_object_state)) (id : objid_t) : list visible_object_state :=
  match m !! id with Some h => option_list (last h) | None => [] end.

Lemma push_new_state_ok ss id hs h s :
  visible_objects ss !! N.to_nat id = Some h → last hs = Some s →
  push_new_state (id, hs) ss =
    (Ok tt, with_visible_objects (<[N.to_nat id := h ++ [s]]> (visible_objects ss)) ss).
Proof.
  intros Hh Hs. unfold push_new_state, consume_into_current_state. simpl. by rewrite Hh, Hs.
Qed.

Lemma push_loop l ss :
  NoDup l.*1 → Forall (λ p, N.to_nat p.1 < length (visible_objects ss) ∧ p.2 ≠ []) l →
  ∃ ss', for_each l push_new_state ss = (Ok tt, ss') ∧ extends ss ss' ∧
    ∀ id h, visible_objects ss !! N.to_nat id = Some h →
      visible_objects ss' !! N.to_nat id = Some (h ++ pushed (list_to_map l) id).
Proof.
  revert ss; induction l as [|[id0 hs] l IH]; intros ss Hnd Hall; simpl.
  { exists ss. split_and!; [done..|]. intros id h Hh. unfold pushed. rewrite lookup_empty.
    by rewrite app_nil_r. }
  apply Forall_cons in Hall as [[Hlt Hne] Hall]. simpl in Hlt, Hne.
  simpl in Hnd. apply NoDup_cons in Hnd as [Hnin Hnd].
  destruct (lookup_lt_is_Some_2 _ _ Hlt) as [h0 Hh0].
  destruct (last_is_Some hs) as [_ Hl]. destruct (Hl Hne) as [s Hs].
  rewrite (ebind_of_ok _ _ ss tt _ (push_new_state_ok ss id0 hs h0 s Hh0 Hs)).
  set (ss1 := with_visible_objects _ ss).
  assert (extends ss ss1) as Hext1.
  { split_and!; try done; simpl; [by rewrite length_insert|]. intros i h Hh.
    destruct (decide (i = N.to_nat id0)) as [->|Hi].
    - rewrite list_lookup_insert_eq by done. exists [s]. congruence.
    - rewrite list_lookup_insert_ne by done. exists []. by rewrite app_nil_r. }
  destruct (IH ss1 Hnd) as (ss' & Hfor & Hext & Hpush).
  { eapply Forall_impl; [exact Hall|]. simpl. by rewrite length_insert. }
  exists ss'. split; [done|]. split; [by etrans|]. intros id h Hh.
  destruct (decide (id = id0)) as [->|Hid].
  - unfold pushed. rewrite lookup_insert_eq, Hs. simpl.
    assert (visible_objects ss1 !! N.to_nat id0 = Some (h0 ++ [s])) as Hh1.
    { simpl. by rewrite list_lookup_insert_eq. }
    rewrite (Hpush id0 _ Hh1). unfold pushed.
    rewrite (not_elem_of_list_to_map_1 l id0) by done. rewrite app_nil_r. congruence.
  - unfold pushed. rewrite lookup_insert_ne by done. apply Hpush. simpl.
    rewrite list_lookup_insert_ne by lia. done.
Qed.

Lemma last_pushed h m id :
  last (h ++ pushed m id) = match m !! id ≫= last with Some s => Some s | None => last h end.
Proof.
  unfold pushed. destruct (m !! id) as [hs|]; simpl; [|by rewrite app_nil_r].
  destruct (last hs); simpl; [by rewrite last_snoc|by rewrite app_nil_r].
Qed.

Lemma extends_base ss ss' : extends ss ss' → wf_base ss → wf_base ss'.
Proof.
  intros Hext [Hmir Hdom Hran Hhist]. pose proof Hext as (Hr & _ & Hl & _).
  split; rewrite ?Hr, ?Hl; try done. apply Forall_lookup. intros i h' Hh'.
  destruct (extends_back _ _ _ _ Hext Hh') as (h & k & Hh & ->).
  intros [-> _]%app_eq_nil. by apply (Forall_lookup_1 _ _ _ _ Hhist) in Hh.
Qed.

(** What a snapshot pushed after the histories have grown amounts to. *)
Lemma grow_and_snapshot ss ss1 :
  wf_seq ss → extends ss ss1 → fits ss1 →
  wf_seq (push_state_snapshot ss1).2 ∧
  abs_states (push_state_snapshot ss1).2 =
    abs_states ss ++ [AState (latest ss1) (forward (runner_to_obj_map ss))].
Proof.
  intros Hwf Hext Hf. pose proof Hext as (Hr & Hs & Hl & _).
  destruct (push_snapshot_wf ss1) as [Hwf' Habs].
  - by eapply extends_base, wf_seq_base.
  - done.
  - rewrite Hs. intros k el Hk. destruct (ws_element ss Hwf k el Hk) as [n Hn].
    exists n. by eapply wf_element_extends.
  - rewrite Hs. apply (ws_mono ss Hwf).
  - split; [done|]. rewrite Habs, Hr. f_equal. unfold abs_states. rewrite Hs.
    apply list_fmap_ext. intros i el Hi. destruct (ws_element ss Hwf i el Hi) as [n Hn].
    by eapply abs_element_extends.
Qed.

Lemma fits_pushed ss ss' m :
  extends ss ss' → fits ss →
  Forall (λ h : list visible_object_state, (N.of_nat (length h) + 1 < 2^63)%N) (visible_objects ss) →
  (∀ id h, visible_objects ss !! N.to_nat id = Some h →
     visible_objects ss' !! N.to_nat id = Some (h ++ pushed m id)) → fits ss'.
Proof.
  intros Hext Hf Hlen Hpush. pose proof Hext as (Hr & _ & Hl & _).
  split; rewrite ?Hr, ?Hl; [apply Hf| |apply Hf]. apply Forall_lookup. intros i h' Hh'.
  destruct (extends_back _ _ _ _ Hext Hh') as (h & k & Hh & ->).
  pose proof (Hpush (N.of_nat i) h) as Hp. rewrite Nat2N.id in Hp. specialize (Hp Hh).
  rewrite Hh' in Hp. injection Hp as Hp%app_inv_head. subst k. rewrite length_app.
  pose proof (Forall_lookup_1 _ _ _ _ Hlen Hh). simpl in *.
  assert (length (pushed m (N.of_nat i)) ≤ 1); [|lia].
  unfold pushed. destruct (m !! N.of_nat i) as [hs|]; simpl; [|lia]. by destruct (last hs); simpl; lia.
Qed.

(** One more entry can be added to every history. *)
Definition room (ss : state_sequence) : Prop :=
  fits ss ∧
  Forall (λ h : list visible_object_state, (N.of_nat (length h) + 1 < 2^63)%N) (visible_objects ss).

(** The state that [follow] appends when the step leads to [a']: [a'], plus the
objects and runners the sequence holds that the current state does not see. *)
Definition with_hidden (ss : state_sequence) (a' : astate) : astate :=
  AState (objs a' ∪ latest ss) (forward (runner_to_obj_map ss)).

(** What the changes recorded by a transition say of the state it leads to. *)
Lemma written_new {S} `{State S} (s : S) d a' id hs :
  diff_written s d a' → new_object_states d !! id = Some hs →
  last hs = objs a' !! id ∧ is_Some (objs a' !! id).
Proof.
  intros (_ & _ & Ho & _) Hhs. specialize (Ho id). unfold diff_get_state_of_object in Ho. rewrite Hhs in Ho.
  unfold get_current_state, vec_back, deref, obj_of, map_at in Ho.
  destruct (last hs), (objs a' !! id); simplify_eq; eauto.
Qed.

Lemma written_old {S} `{State S} (s : S) d a a' id :
  represents s a → diff_written s d a' → new_object_states d !! id = None → objs a' !! id = objs a !! id.
Proof.
  intros (Hro & _) (Hb & _ & Ho & _) Hnone. specialize (Ho id). unfold diff_get_state_of_object in Ho.
  rewrite Hnone, Hb, Hro in Ho. unfold obj_of, map_at in Ho.
  destruct (objs a !! id), (objs a' !! id); congruence.
Qed.

Lemma same_shape_range ss el a' id :
  same_shape (abs_element ss el) a' → is_Some (objs a' !! id) → N.to_nat id < length (visible_objects ss).
Proof.
  intros [_ Hk] Hid. specialize (Hk id). destruct (objs (abs_element ss el) !! id) eqn:Ha.
  - rewrite lookup_abs_element in Ha. destruct (visible_object_indices el !! id); simpl in Ha; [|done].
    destruct (visible_objects ss !! N.to_nat id) eqn:Hv; simpl in Ha; [|done]. by eapply lookup_lt_Some.
  - rewrite fmap_None in Hk. rewrite Hk in Hid. by destruct Hid.
Qed.

(** The latest states once the changes are pushed. *)
Lemma latest_pushed ss ss1 el d a' :
  wf_seq ss → last (states_in_sequence ss) = Some el → represents ss (abs_element ss el) →
  diff_written ss d a' → same_shape (abs_element ss el) a' → extends ss ss1 →
  (∀ id h, visible_objects ss !! N.to_nat id = Some h →
    visible_objects ss1 !! N.to_nat id = Some (h ++ pushed (new_object_states d) id)) →
  latest ss1 = objs a' ∪ latest ss.
Proof.
  intros Hwf Hl Hrep Hd Hsh (_ & _ & Hlen & _) Hpush. apply map_eq. intros id.
  rewrite lookup_latest, lookup_union, lookup_latest.
  destruct (visible_objects ss !! N.to_nat id) as [h|] eqn:Hh.
  - rewrite (Hpush id h Hh). simpl. rewrite last_pushed.
    destruct (new_object_states d !! id) as [hs|] eqn:Hhs; simpl.
    + destruct (written_new _ _ _ _ _ Hd Hhs) as [-> [o Ho']]. rewrite Ho'. simpl. by destruct (last h).
    + rewrite (written_old _ _ _ _ _ Hrep Hd Hhs), lookup_abs_element, Hh. simpl.
      destruct (visible_object_indices el !! id) as [i|] eqn:Hi; simpl; [|by destruct (last h)].
      rewrite (ws_last ss Hwf el id i h Hl Hi Hh), last_lookup, Nat.sub_1_r.
      by destruct (h !! Nat.pred (length h)).
  - apply lookup_ge_None in Hh. rewrite lookup_ge_None_2 by lia.
    simpl. destruct (objs a' !! id) eqn:Ha'; [|done].
    pose proof (same_shape_range _ _ _ id Hsh (mk_is_Some _ _ Ha')). lia.
Qed.

Lemma follow_astep ss el t a' st :
  wf_seq ss → room ss → last (states_in_sequence ss) = Some el →
  astep t (abs_element ss el) = Ok (a', st) → same_shape (abs_element ss el) a' →
  ∃ ss', follow t ss = (Ok st, ss') ∧ wf_seq ss' ∧
    runner_to_obj_map ss' = runner_to_obj_map ss ∧
    length (visible_objects ss') = length (visible_objects ss) ∧
    abs_states ss' = abs_states ss ++ (if decide (st = exists_) then [with_hidden ss a'] else []).
Proof.
  intros Hwf [Hf Hroom] Hl Hs Hsh. pose proof (sequence_represents ss el Hl) as Hrep.
  pose proof (apply_to_astep ss _ t Hrep) as Happ. rewrite Hs in Happ.
  unfold follow. destruct (apply_to t ss) as [[d st']|e]; [|done]. destruct Happ as [-> Hd].
  destruct (astep_status t _ a' st Hs) as [->|[-> ->]].
  2:{ rewrite bool_decide_false by done. exists ss. rewrite decide_False by done.
      by rewrite app_nil_r. }
  rewrite bool_decide_true by done. rewrite decide_True by done.
  destruct (push_loop (map_to_list (new_object_states d)) ss) as (ss1 & Hfor & Hext & Hpush).
  { apply NoDup_fst_map_to_list. }
  { apply Forall_forall. intros [id hs] Hin%elem_of_map_to_list. simpl.
    destruct (written_new _ _ _ _ _ Hd Hin) as [Hlast His]. split; [by eapply same_shape_range|].
    intros ->. rewrite <- Hlast in His. by destruct His. }
  rewrite list_to_map_to_list in Hpush.
  rewrite (ebind_of_ok _ _ ss tt ss1 Hfor).
  rewrite (ebind_of_ok _ _ ss1 tt (push_state_snapshot ss1).2) by done.
  exists (push_state_snapshot ss1).2. split; [done|].
  destruct (grow_and_snapshot ss ss1 Hwf Hext) as [Hwf' Habs]; [by eapply fits_pushed|].
  pose proof Hext as (Hr & _ & Hlen & _). split_and!; try done.
  rewrite Habs. unfold with_hidden. by rewrite (latest_pushed ss ss1 el d a').
Qed.

(** ** [consume_into_subsequence] *)

(** The part of a history that an element keeps. *)
Definition kept (el : element) (id : objid_t) (h : list visible_object_state) : list visible_object_state :=
  take (match visible_object_indices el !! id with Some i => S (N.to_nat i) | None => 1 end) h.

Lemma slice_ok i h :
  N.to_nat i < length h → (N.of_nat (length h) < 2^63)%N → slice i h = Ok (take (S (N.to_nat i)) h).
Proof.
  intros Hi Hh. unfold slice, u64. rewrite N.mod_small by lia.
  replace (N.to_nat (i + 1)) with (S (N.to_nat i)) by lia. by rewrite (proj2 (Nat.leb_le _ _)) by lia.
Qed.

Definition slice_body (el : element) (i : objid_t) : eff state_sequence unit :=
  if element_contains_object_with_id el i then
    let! idx := query (λ _, map_at (visible_object_indices el) i) in
    slice_at i idx
  else slice_at i 0.

Lemma slice_body_ok ss n el i h :
  prefix_element ss n el → visible_objects ss !! N.to_nat i = Some h → h ≠ [] →
  (N.of_nat (length h) < 2^63)%N →
  ∀ ss1, visible_objects ss1 !! N.to_nat i = Some h →
  slice_body el i ss1 =
    (Ok tt, with_visible_objects (<[N.to_nat i := kept el i h]> (visible_objects ss1)) ss1).
Proof.
  intros Hw Hh Hne Hlen ss1 Hh1. unfold slice_body, element_contains_object_with_id, kept.
  rewrite (pe_size _ _ _ Hw).
  case_bool_decide as Hlt.
  - apply (pe_dom _ _ _ Hw) in Hlt as [idx Hidx].
    unfold ebind, query, map_at. rewrite Hidx. unfold slice_at, vec_at. rewrite Hh1. simpl.
    rewrite slice_ok; [done| |done]. by eapply pe_idx.
  - assert (visible_object_indices el !! i = None) as ->.
    { apply eq_None_not_Some. by rewrite (pe_dom _ _ _ Hw). }
    unfold slice_at, vec_at. rewrite Hh1. simpl. rewrite slice_ok; [done| |done].
    destruct h; simpl; [done|lia].
Qed.

Lemma slice_loop ss n el l :
  prefix_element ss n el → Forall (λ h, h ≠ []) (visible_objects ss) → fits ss → NoDup l →
  Forall (λ i, N.to_nat i < length (visible_objects ss)) l →
  ∀ ss1, (∀ i, i ∈ l → visible_objects ss1 !! N.to_nat i = visible_objects ss !! N.to_nat i) →
  ∃ vis, for_each l (slice_body el) ss1 = (Ok tt, with_visible_objects vis ss1) ∧
    length vis = length (visible_objects ss1) ∧
    ∀ i, vis !! N.to_nat i =
      if decide (i ∈ l) then kept el i <$> visible_objects ss !! N.to_nat i
      else visible_objects ss1 !! N.to_nat i.
Proof.
  intros Hw Hne Hf. induction l as [|i l IH]; intros Hnd Hall ss1 Heq; simpl.
  { exists (visible_objects ss1). by destruct ss1. }
  apply NoDup_cons in Hnd as [Hnin Hnd]. apply Forall_cons in Hall as [Hlt Hall].
  destruct (lookup_lt_is_Some_2 _ _ Hlt) as [h Hh].
  rewrite (ebind_of_ok _ _ ss1 tt _ (slice_body_ok ss n el i h Hw Hh
    (Forall_lookup_1 _ _ _ _ Hne Hh) (Forall_lookup_1 _ _ _ _ (fits_history ss Hf) Hh) ss1
    (eq_trans (Heq i (list_elem_of_here _ _)) Hh))).
  destruct (IH Hnd Hall (with_visible_objects (<[N.to_nat i:=kept el i h]> (visible_objects ss1)) ss1))
    as (vis & Hfor & Hlen & Hvis).
  { intros j Hj. simpl. rewrite list_lookup_insert_ne; [by apply Heq; right|].
    intros ?. assert (i = j) by lia. by subst. }
  exists vis. rewrite Hfor. simpl in *. rewrite length_insert in Hlen. split_and!; [done..|].
  intros j. rewrite Hvis. destruct (decide (i = j)) as [<-|Hij].
  - rewrite decide_False by done. rewrite decide_True by set_solver.
    rewrite list_lookup_insert_eq; [by rewrite Hh|]. apply lookup_lt_is_Some.
    rewrite Heq by set_solver. by eexists.
  - rewrite list_lookup_insert_ne by lia.
    destruct (decide (j ∈ l)); [rewrite decide_True by set_solver|rewrite decide_False by set_solver]; done.
Qed.

Lemma lookup_abs_kept ss vis ej ek id :
  (∀ i, vis !! N.to_nat i = kept ek i <$> visible_objects ss !! N.to_nat i) →
  (∀ i, visible_object_indices ej !! id = Some i →
     ∃ i', visible_object_indices ek !! id = Some i' ∧ (i ≤ i')%N) →
  objs (abs_element (with_visible_objects vis ss) ej) !! id = objs (abs_element ss ej) !! id.
Proof.
  intros Hvis Hmono. rewrite !lookup_abs_element. simpl. rewrite Hvis.
  destruct (visible_object_indices ej !! id) as [i|] eqn:Hi; simpl; [|done].
  destruct (Hmono i eq_refl) as (i' & Hi' & Hle).
  destruct (visible_objects ss !! N.to_nat id) as [h|]; simpl; [|done].
  unfold kept. rewrite Hi', lookup_take. by rewrite decide_True by lia.
Qed.

Lemma take_last_lookup {A} (l : list A) n x :
  n ≠ 0 → last (take n l) = Some x → ∃ k, l !! k = Some x ∧ k < n ∧ k = length (take n l) - 1.
Proof.
  intros Hn Hl. apply last_lookup_length in Hl. exists (length (take n l) - 1).
  apply lookup_take_Some in Hl as [? ?]. done.
Qed.

Lemma consume_wf ss n vis ek :
  wf_seq ss → n ≠ 0 → last (take n (states_in_sequence ss)) = Some ek →
  (∀ i, vis !! N.to_nat i = kept ek i <$> visible_objects ss !! N.to_nat i) →
  length vis = length (visible_objects ss) →
  let ss' := with_visible_objects vis (with_states (take n (states_in_sequence ss)) ss) in
  wf_seq ss' ∧ abs_states ss' = take n (abs_states ss).
Proof.
  intros Hwf Hn Hl Hvis Hlen ss'.
  destruct (take_last_lookup _ _ _ Hn Hl) as (k & Hk & Hkn & Hklen).
  assert (∀ j ej id i, take n (states_in_sequence ss) !! j = Some ej →
    visible_object_indices ej !! id = Some i →
    ∃ i', visible_object_indices ek !! id = Some i' ∧ (i ≤ i')%N) as Hmono.
  { intros j ej id i Hj Hi. pose proof (lookup_lt_Some _ _ _ Hj).
    apply lookup_take_Some in Hj as [Hj Hjn].
    eapply (ws_mono ss Hwf j k ej ek id i); [lia|done..]. }
  assert (∀ id h', vis !! N.to_nat id = Some h' →
    ∃ h, visible_objects ss !! N.to_nat id = Some h ∧ h' = kept ek id h) as Hback.
  { intros id h' Hh'. rewrite Hvis in Hh'. apply fmap_Some in Hh' as (h & ? & ?). eauto. }
  split.
  - destruct (ws_element ss Hwf _ _ Hk) as [m Hm]. split; simpl.
    + intros He. by rewrite He in Hl.
    + apply Hwf.
    + apply Hwf.
    + rewrite Hlen. apply Hwf.
    + apply Forall_lookup. intros i h' Hh'.
      rewrite <- (Nat2N.id i) in Hh'. destruct (Hback _ _ Hh') as (h & Hh & ->).
      pose proof (Forall_lookup_1 _ _ _ _ (ws_history ss Hwf) Hh) as Hne.
      unfold kept. destruct h; [done|]. by case_match.
    + intros j ej Hj. pose proof Hj as [Hj' _]%lookup_take_Some.
      destruct (ws_element ss Hwf _ _ Hj') as [n' [Hdom Hsize Hle Hidx Hrun Hmax]].
      exists n'. split; simpl; try done; [lia|].
      intros id i h' Hi Hh'. destruct (Hback _ _ Hh') as (h & Hh & ->).
      destruct (Hmono j ej id i Hj Hi) as (i' & Hi' & Hii').
      unfold kept. rewrite Hi', length_take. specialize (Hidx id i h Hi Hh). lia.
    + intros j1 j2 e1 e2 id i Hj H1 H2.
      apply lookup_take_Some in H1 as [H1 _], H2 as [H2 _]. by apply (ws_mono ss Hwf j1 j2 e1 e2).
    + intros el id i h'. rewrite Hl. intros [= <-] Hi Hh'.
      destruct (Hback _ _ Hh') as (h & Hh & ->).
      unfold kept. rewrite Hi, length_take. pose proof (we_idx _ _ _ Hm id i h Hi Hh). lia.
  - unfold abs_states, ss'. simpl. rewrite <- fmap_take. apply list_fmap_ext. intros j ej Hj.
    unfold abs_element at 1 2. f_equal. apply map_eq. intros id.
    apply (lookup_abs_kept ss vis ej ek id Hvis). intros i Hi. by eapply Hmono.
Qed.

Lemma consume_take ss n :
  wf_seq ss → fits ss → n ≠ 0 →
  ∃ ss', seq_consume_into_subsequence n ss = (Ok tt, ss') ∧ wf_seq ss' ∧
    abs_states ss' = take n (abs_states ss) ∧
    states_in_sequence ss' = take n (states_in_sequence ss) ∧
    length (visible_objects ss') = length (visible_objects ss) ∧
    runner_to_obj_map ss' = runner_to_obj_map ss.
Proof.
  intros Hwf Hf Hn. unfold seq_consume_into_subsequence. case_bool_decide as Hle.
  { exists ss. unfold abs_states. rewrite !take_ge by (rewrite ?length_fmap; done). done. }
  assert (is_Some (last (take n (states_in_sequence ss)))) as [ek Hek].
  { apply last_is_Some. intros Hnil. apply (f_equal length) in Hnil. rewrite length_take in Hnil.
    simpl in Hnil. lia. }
  destruct (take_last_lookup _ _ _ Hn Hek) as (k & Hk & _).
  destruct (ws_element ss Hwf _ _ Hk) as [m Hm].
  set (ss0 := with_states (take n (states_in_sequence ss)) ss).
  rewrite (ebind_of_ok _ _ ss0 ek ss0).
  2:{ unfold query, get_representative_state, vec_back, deref. simpl. by rewrite Hek. }
  destruct (slice_loop ss m ek (N.of_nat <$> seq 0 (length (visible_objects ss)))
    (wf_element_prefix _ _ _ Hm)
    (ws_history ss Hwf) Hf (NoDup_N_seq _ _)) with ss0 as (vis & Hfor & Hlen & Hvis).
  { apply Forall_forall. intros i Hi%elem_of_N_seq. lia. }
  { done. }
  unfold slice_body in Hfor. rewrite Hfor.
  assert (∀ i, vis !! N.to_nat i = kept ek i <$> visible_objects ss !! N.to_nat i) as Hvis'.
  { intros i. rewrite Hvis. case_decide as Hin; [done|]. rewrite elem_of_N_seq in Hin. simpl.
    assert (visible_objects ss !! N.to_nat i = None) as ->; [|done]. apply lookup_ge_None. lia. }
  destruct (consume_wf ss n vis ek Hwf Hn Hek Hvis' Hlen) as [Hwf' Habs].
  eexists. split; [done|]. split_and!; done.
Qed.

(** ** New objects and runners *)

(** The current state sees everything the sequence holds. *)
Definition all_visible (ss : state_sequence) (el : element) : Prop :=
  size (visible_object_indices el) = length (visible_objects ss) ∧
  max_visible_runner_id el = N.of_nat (inj_size (runner_to_obj_map ss)).

Lemma lookup_removelast_snoc {A} (l : list A) x y k z :
  last l = Some x → (removelast l ++ [y]) !! k = Some z →
  (l !! k = Some z ∧ S k < length l) ∨ (z = y ∧ S k = length l).
Proof.
  intros Hl. destruct (last_Some l x) as [Hsome _]. destruct (Hsome Hl) as [l' ->].
  rewrite removelast_last, lookup_app_Some, length_app. simpl. intros [Hk|[Hle Hk]].
  - left. pose proof (lookup_lt_Some _ _ _ Hk). split; [by apply lookup_app_l_Some|lia].
  - right. apply list_lookup_singleton_Some in Hk as [Heq <-]. split; [done|]. lia.
Qed.

Lemma update_representative_ok f ss el :
  last (states_in_sequence ss) = Some el →
  update_representative_state f ss =
    (Ok tt, with_states (removelast (states_in_sequence ss) ++ [f el]) ss).
Proof.
  intros Hl. unfold update_representative_state, get_representative_state, vec_back, deref. by rewrite Hl.
Qed.

Lemma last_element ss : wf_seq ss → ∃ el n, last (states_in_sequence ss) = Some el ∧ wf_element ss n el.
Proof.
  intros Hwf. destruct (last_is_Some (states_in_sequence ss)) as [_ Hl].
  destruct (Hl (ws_nonempty ss Hwf)) as [el Hel]. exists el.
  pose proof Hel as Hk. rewrite last_lookup in Hk.
  destruct (ws_element ss Hwf _ _ Hk) as [n Hn]. by exists n.
Qed.

(** Replacing the last element by one that is up to date, over histories that
have grown and a runner map that has grown. *)
Lemma replace_last_wf ss ss' el el' n' :
  wf_seq ss → last (states_in_sequence ss) = Some el →
  states_in_sequence ss' = removelast (states_in_sequence ss) ++ [el'] →
  wf_base ss' →
  (∀ k, visible_objects ss !! k = None ∨ visible_objects ss' !! k = visible_objects ss !! k) →
  length (visible_objects ss) ≤ length (visible_objects ss') →
  (∀ r id, (r < N.of_nat (inj_size (runner_to_obj_map ss)))%N →
     forward (runner_to_obj_map ss') !! r = Some id → forward (runner_to_obj_map ss) !! r = Some id) →
  inj_size (runner_to_obj_map ss) ≤ inj_size (runner_to_obj_map ss') →
  wf_element ss' n' el' →
  (∀ id i, visible_object_indices el !! id = Some i → visible_object_indices el' !! id = Some i) →
  (∀ id i h, visible_object_indices el' !! id = Some i → visible_objects ss' !! N.to_nat id = Some h →
     N.to_nat i = length h - 1) →
  wf_seq ss' ∧
  (∀ ej n, wf_element ss n ej → wf_element ss' n ej).
Proof.
  intros Hwf Hl Hst [Hb1 Hb2 Hb3 Hb4] Hvis Hlen Hmap Hsize Hel' Hext Hlast.
  assert (∀ ej n, wf_element ss n ej → wf_element ss' n ej) as Hkeep.
  { intros ej n [Hdom Hsz Hle Hidx Hrun Hmax]. split; try done; try lia.
    - intros id i h Hi Hh. assert (id < N.of_nat n)%N by (apply Hdom; eauto).
      destruct (Hvis (N.to_nat id)) as [Hnone|Heq]; [apply lookup_ge_None in Hnone; lia|].
      rewrite Heq in Hh. by eapply Hidx.
    - intros r id Hr Hm. apply (Hrun r); [|done]. apply Hmap; [lia|done]. }
  split; [|done]. split; try done.
  - rewrite Hst. intros He. by apply app_eq_nil in He as [_ He].
  - rewrite Hst. intros k ek Hk.
    destruct (lookup_removelast_snoc _ _ _ _ _ Hl Hk) as [[Hk' _]|[-> _]]; [|by eexists].
    destruct (ws_element ss Hwf k ek Hk') as [n Hn]. exists n. by apply Hkeep.
  - rewrite Hst. intros j k ej ek id i Hjk Hj Hk Hi.
    destruct (lookup_removelast_snoc _ _ _ _ _ Hl Hj) as [[Hj' Hjl]|[-> Hjl]],
             (lookup_removelast_snoc _ _ _ _ _ Hl Hk) as [[Hk' Hkl]|[-> Hkl]].
    + by apply (ws_mono ss Hwf j k ej ek).
    + rewrite last_lookup in Hl.
      destruct (ws_mono ss Hwf j (Nat.pred (length (states_in_sequence ss))) ej el id i)
        as (i' & Hi' & ?); [lia|done..|]. eauto.
    + lia.
    + eauto.
  - rewrite Hst. intros e id i h. rewrite last_snoc. intros [= <-]. by apply Hlast.
Qed.

Lemma removelast_fmap {A B} (f : A → B) l : f <$> removelast l = removelast (f <$> l).
Proof.
  induction l as [|x [|y l] IH]; try done. change (f x :: (f <$> removelast (y :: l)) = f x :: removelast (f <$> y :: l)).
  by rewrite IH.
Qed.

(** An element that sees every object counts them all. *)
Lemma last_all_visible ss el :
  wf_seq ss → last (states_in_sequence ss) = Some el → all_visible ss el →
  wf_element ss (length (visible_objects ss)) el.
Proof.
  intros Hwf Hk [Hv _]. rewrite last_lookup in Hk.
  destruct (ws_element ss Hwf _ _ Hk) as [n Hn]. by rewrite <- Hv, (we_size _ _ _ Hn).
Qed.

(** What [add_object] leaves: the history of the new object, and the last element
pointing to its first state. *)
Definition next_id (ss : state_sequence) : objid_t := N.of_nat (length (visible_objects ss)).
Definition add_object_to (s : visible_object_state) (el : element) (ss : state_sequence) : state_sequence :=
  with_visible_objects (visible_objects ss ++ [[s]])
    (with_states (removelast (states_in_sequence ss) ++ [point_to_next_state_for (next_id ss) el]) ss).

Lemma lookup_point_to_new ss el id :
  wf_element ss (length (visible_objects ss)) el →
  visible_object_indices (point_to_next_state_for (next_id ss) el) !! id =
    if decide (next_id ss = id) then Some 0%N else visible_object_indices el !! id.
Proof.
  intros Hn. assert (visible_object_indices el !! next_id ss = None) as Hnone.
  { apply eq_None_not_Some. rewrite (we_dom _ _ _ Hn). unfold next_id. lia. }
  unfold point_to_next_state_for. simpl. rewrite Hnone.
  case_decide; subst; [by rewrite lookup_insert_eq|by rewrite lookup_insert_ne].
Qed.

Lemma lookup_new_history s el ss :
  visible_objects (add_object_to s el ss) !! N.to_nat (next_id ss) = Some [s].
Proof. unfold next_id. rewrite Nat2N.id. simpl. by rewrite list_lookup_middle. Qed.

Lemma lookup_old_history s el ss n ej id :
  wf_element ss n ej → is_Some (visible_object_indices ej !! id) →
  visible_objects (add_object_to s el ss) !! N.to_nat id = visible_objects ss !! N.to_nat id.
Proof.
  intros Hn Hi%(we_dom _ _ _ Hn). pose proof (we_n _ _ _ Hn). simpl. by rewrite lookup_app_l by lia.
Qed.

Lemma abs_element_add_object s el ss n ej :
  wf_element ss n ej → abs_element (add_object_to s el ss) ej = abs_element ss ej.
Proof.
  intros Hn. unfold abs_element. f_equal. apply map_eq. intros id. rewrite !map_lookup_imap.
  destruct (visible_object_indices ej !! id) as [i|] eqn:Hi; simpl; [|done].
  by erewrite <- (lookup_old_history s el) by eauto.
Qed.

Lemma wf_element_add_object s ss el :
  wf_element ss (length (visible_objects ss)) el →
  wf_element (add_object_to s el ss) (S (length (visible_objects ss))) (point_to_next_state_for (next_id ss) el).
Proof.
  intros Hn. split.
  - intros id. rewrite lookup_point_to_new by done. case_decide as Hid.
    + subst. unfold next_id. split; [intros _; lia|by eexists].
    + unfold next_id in Hid. rewrite (we_dom _ _ _ Hn). lia.
  - unfold point_to_next_state_for; simpl. rewrite map_size_insert_None.
    + by rewrite (we_size _ _ _ Hn).
    + apply eq_None_not_Some. rewrite (we_dom _ _ _ Hn). unfold next_id. lia.
  - simpl. rewrite length_app. simpl. lia.
  - intros id i h. rewrite lookup_point_to_new by done. case_decide; subst.
    + intros [= <-]. rewrite lookup_new_history. intros [= <-]. simpl. lia.
    + intros Hi. erewrite lookup_old_history by eauto. by apply (we_idx _ _ _ Hn).
  - intros r id Hr Hm. pose proof (we_runners _ _ _ Hn r id Hr Hm). lia.
  - apply (we_max _ _ _ Hn).
Qed.

Lemma add_object_to_wf s ss el :
  wf_seq ss → last (states_in_sequence ss) = Some el → all_visible ss el →
  wf_seq (add_object_to s el ss) ∧ ∀ ej n, wf_element ss n ej → wf_element (add_object_to s el ss) n ej.
Proof.
  intros Hwf Hl Hv. pose proof (last_all_visible ss el Hwf Hl Hv) as Hn.
  apply (replace_last_wf ss _ el (point_to_next_state_for (next_id ss) el)
           (S (length (visible_objects ss))) Hwf Hl); try done.
  - split; simpl; try apply Hwf.
    + intros r id Hr. rewrite length_app. simpl. pose proof (ws_runner_range ss Hwf r id Hr). lia.
    + apply Forall_app. split; [apply Hwf|]. by apply Forall_singleton.
  - intros k. destruct (visible_objects ss !! k) eqn:E; [right|by left]. by apply lookup_app_l_Some.
  - simpl. rewrite length_app. lia.
  - by apply wf_element_add_object.
  - intros id i Hi. rewrite lookup_point_to_new by done. rewrite decide_False; [done|].
    intros <-. assert (next_id ss < next_id ss)%N; [|lia]. apply (we_dom _ _ _ Hn). eauto.
  - intros id i h. rewrite lookup_point_to_new by done. case_decide; subst.
    + intros [= <-]. rewrite lookup_new_history. by intros [= <-].
    + intros Hi. erewrite lookup_old_history by eauto. by apply (ws_last ss Hwf el).
Qed.

Lemma abs_add_object s ss el :
  wf_element ss (length (visible_objects ss)) el →
  abs_element (add_object_to s el ss) (point_to_next_state_for (next_id ss) el) =
    set_obj (next_id ss) s (abs_element ss el).
Proof.
  intros Hn. rewrite <- (abs_element_add_object s el ss _ el Hn).
  unfold set_obj, abs_element. simpl. f_equal. apply map_eq. intros id. rewrite map_lookup_imap.
  pose proof (lookup_point_to_new ss el id Hn) as Hid. pose proof (lookup_new_history s el ss) as Hnew.
  unfold point_to_next_state_for in Hid. simpl in Hid, Hnew. rewrite Hid. case_decide; subst.
  - simpl. rewrite Hnew. simpl. by rewrite lookup_insert_eq.
  - rewrite lookup_insert_ne by done. by rewrite map_lookup_imap.
Qed.

(** [add_object] on a current state that sees everything: a new object with the
next id, in the current state only. *)
Lemma add_object_ok ss el s :
  wf_seq ss → fits ss → last (states_in_sequence ss) = Some el → all_visible ss el →
  let el' := point_to_next_state_for (next_id ss) el in
  seq_add_object s ss = (Ok (next_id ss), add_object_to s el ss) ∧ wf_seq (add_object_to s el ss) ∧
  all_visible (add_object_to s el ss) el' ∧
  abs_element (add_object_to s el ss) el' = set_obj (next_id ss) s (abs_element ss el) ∧
  ∀ ej n, wf_element ss n ej → wf_element (add_object_to s el ss) n ej ∧
    abs_element (add_object_to s el ss) ej = abs_element ss ej.
Proof.
  intros Hwf Hf Hl Hv el'. pose proof (last_all_visible ss el Hwf Hl Hv) as Hn.
  destruct (add_object_to_wf s ss el Hwf Hl Hv) as [Hwf' Hkeep]. split_and!; [|done|..].
  - assert (u32 (N.of_nat (length (visible_objects ss))) = next_id ss) as Hu.
    { apply N.mod_small. pose proof (fits_objects ss Hf). unfold next_id, invalid_objid in *. lia. }
    unfold seq_add_object. rewrite Hu.
    by rewrite (ebind_of_ok _ _ ss tt _ (update_representative_ok _ ss el Hl)).
  - unfold el'. split; [|apply Hv]. rewrite (we_size _ _ _ (wf_element_add_object s ss el Hn)).
    simpl. rewrite length_app. simpl. lia.
  - by apply abs_add_object.
  - intros ej n Hej. split; [by apply Hkeep|by eapply abs_element_add_object].
Qed.

(** What recording the runner leaves, once its object [id] is the last one. *)
Definition next_runner (ss : state_sequence) : runner_id_t := N.of_nat (inj_size (runner_to_obj_map ss)).
Definition map_runner (r : runner_id_t) (id : objid_t) (ss : state_sequence) : state_sequence :=
  StateSequence (InjectiveFunction (<[r := id]> (forward (runner_to_obj_map ss)))
    (<[id := r]> (backward (runner_to_obj_map ss)))) (visible_objects ss) (states_in_sequence ss).
Definition record_runner_to (id : objid_t) (el : element) (ss : state_sequence) : state_sequence :=
  with_states (removelast (states_in_sequence ss) ++ [record_new_runner el]) (map_runner (next_runner ss) id ss).

Lemma next_runner_small ss : fits ss → (next_runner ss + 1 < 2^16)%N.
Proof. intros Hf. pose proof (fits_runners ss Hf). unfold next_runner, RUNNER_ID_MAX in *. lia. Qed.

Lemma max_record_new_runner ss el :
  (next_runner ss + 1 < 2^16)%N → all_visible ss el → max_visible_runner_id (record_new_runner el) = (next_runner ss + 1)%N.
Proof.
  intros Hf [_ Hv]. unfold record_new_runner. simpl. rewrite Hv. fold (next_runner ss).
  by apply N.mod_small.
Qed.

Lemma next_runner_fresh ss : wf_seq ss → forward (runner_to_obj_map ss) !! next_runner ss = None.
Proof. intros Hwf. apply eq_None_not_Some. rewrite (ws_runner_dom ss Hwf). unfold next_runner. lia. Qed.

Lemma inj_size_map_runner id ss :
  wf_seq ss →
  inj_size (runner_to_obj_map (map_runner (next_runner ss) id ss)) = S (inj_size (runner_to_obj_map ss)).
Proof. intros Hwf. unfold inj_size. simpl. by apply map_size_insert_None, next_runner_fresh. Qed.

Lemma insert_runner_ok ss r id :
  forward (runner_to_obj_map ss) !! r = None → backward (runner_to_obj_map ss) !! id = None →
  insert_runner (r, id) ss = (Ok true, map_runner r id ss).
Proof. intros Hr Hid. unfold insert_runner. by rewrite inj_insert_fresh. Qed.

Lemma map_runner_base ss id :
  wf_seq ss → backward (runner_to_obj_map ss) !! id = None →
  (id < N.of_nat (length (visible_objects ss)))%N → wf_base (map_runner (next_runner ss) id ss).
Proof.
  intros Hwf Hid Hlt. pose proof (next_runner_fresh ss Hwf) as Hfr. split.
  - apply mirrored_insert_fresh; [by apply ws_mirrored|done|done].
  - intros r. rewrite inj_size_map_runner by done. simpl. destruct (decide (next_runner ss = r)) as [<-|Hne].
    + rewrite lookup_insert_eq. unfold next_runner. split; [intros _; lia|by eexists].
    + rewrite lookup_insert_ne by done. rewrite (ws_runner_dom ss Hwf). unfold next_runner in Hne. lia.
  - intros r id'. simpl. rewrite lookup_insert_Some. intros [[_ <-]|[_ Hr]]; [done|]. by eapply ws_runner_range.
  - apply Hwf.
Qed.

Lemma wf_element_record_runner ss el id :
  wf_seq ss → (next_runner ss + 1 < 2^16)%N → last (states_in_sequence ss) = Some el → all_visible ss el →
  (id < N.of_nat (length (visible_objects ss)))%N →
  wf_element (record_runner_to id el ss) (length (visible_objects ss)) (record_new_runner el).
Proof.
  intros Hwf Hf Hl Hv Hlt. destruct (last_all_visible ss el Hwf Hl Hv) as [Hdom Hsz Hle Hix Hrn Hmx].
  split; try done.
  - intros r id'. simpl. rewrite lookup_insert_Some. intros [[_ <-]|[_ Hr]] _; [done|].
    by eapply ws_runner_range.
  - rewrite (max_record_new_runner ss) by done. unfold record_runner_to. cbn [with_states runner_to_obj_map].
    rewrite inj_size_map_runner by done. unfold next_runner. lia.
Qed.

Lemma record_runner_to_wf ss el id :
  wf_seq ss → (next_runner ss + 1 < 2^16)%N → last (states_in_sequence ss) = Some el → all_visible ss el →
  backward (runner_to_obj_map ss) !! id = None → (id < N.of_nat (length (visible_objects ss)))%N →
  wf_seq (record_runner_to id el ss).
Proof.
  intros Hwf Hf Hl Hv Hid Hlt.
  apply (replace_last_wf ss _ el (record_new_runner el) (length (visible_objects ss)) Hwf Hl); try done.
  - destruct (map_runner_base ss id Hwf Hid Hlt). by split.
  - by right.
  - intros r id' Hr. simpl. by rewrite lookup_insert_ne by (unfold next_runner; lia).
  - unfold record_runner_to. cbn [with_states runner_to_obj_map]. rewrite inj_size_map_runner by done. lia.
  - by apply wf_element_record_runner.
  - intros id' i h. by apply (ws_last ss Hwf el).
Qed.

Lemma abs_record_runner ss el id :
  wf_seq ss → (next_runner ss + 1 < 2^16)%N → all_visible ss el →
  abs_element (record_runner_to id el ss) (record_new_runner el) =
    AState (objs (abs_element ss el)) (<[next_runner ss := id]> (runners (abs_element ss el))).
Proof.
  intros Hwf Hf Hv. unfold abs_element at 1. f_equal. rewrite (max_record_new_runner ss) by done.
  simpl. rewrite map_filter_insert_True by (simpl; lia). f_equal.
  apply map_filter_ext. intros r id' Hr. simpl. destruct Hv as [_ ->]. fold (next_runner ss).
  assert (r < next_runner ss)%N; [|lia]. apply (ws_runner_dom ss Hwf). eauto.
Qed.

(** The earlier elements do not see the new runner. *)
Lemma abs_record_runner_old ss el id ej n :
  wf_seq ss → wf_element ss n ej → abs_element (record_runner_to id el ss) ej = abs_element ss ej.
Proof.
  intros Hwf Hej. unfold abs_element. simpl. f_equal. rewrite map_filter_insert_False.
  - by rewrite delete_id by (by apply next_runner_fresh).
  - simpl. pose proof (we_max _ _ _ Hej). unfold next_runner. lia.
Qed.

Definition add_runner_of (r : runner_id_t) (id : objid_t) (th : thread) (a : astate) : astate :=
  AState (<[id := VThread th]> (objs a)) (<[r := id]> (runners a)).

Lemma next_id_fresh ss : wf_seq ss → backward (runner_to_obj_map ss) !! next_id ss = None.
Proof.
  intros Hwf. apply eq_None_not_Some. intros [r Hr%(ws_mirrored ss Hwf)].
  pose proof (ws_runner_range ss Hwf _ _ Hr). unfold next_id in *. lia.
Qed.

(** [add_runner] on a current state that sees everything. *)
Definition add_runner_to (th : thread) (el : element) (ss : state_sequence) : state_sequence :=
  record_runner_to (next_id ss) (point_to_next_state_for (next_id ss) el) (add_object_to (VThread th) el ss).

Lemma seq_add_runner_eq ss el th :
  wf_seq ss → fits ss → last (states_in_sequence ss) = Some el → all_visible ss el →
  seq_add_runner th ss = (Ok (next_runner ss), add_runner_to th el ss).
Proof.
  intros Hwf Hf Hl Hv. destruct (add_object_ok ss el (VThread th) Hwf Hf Hl Hv) as (Hadd & Hwf1 & _).
  unfold seq_add_runner. rewrite (ebind_of_ok _ _ ss _ _ Hadd).
  set (ss1 := add_object_to (VThread th) el ss) in *.
  rewrite (ebind_of_ok _ _ ss1 (inj_size (runner_to_obj_map ss1)) ss1) by done.
  assert (u16 (N.of_nat (inj_size (runner_to_obj_map ss1))) = next_runner ss1) as ->.
  { apply N.mod_small. pose proof (next_runner_small ss Hf). unfold next_runner in *. simpl. lia. }
  cbv zeta. rewrite (ebind_of_ok _ _ ss1 true _ (insert_runner_ok ss1 _ _ (next_runner_fresh ss1 Hwf1) (next_id_fresh ss Hwf))).
  erewrite (ebind_of_ok _ _ (map_runner _ _ ss1) tt); [|apply update_representative_ok; simpl; apply last_snoc].
  done.
Qed.

Lemma add_runner_ok ss el th :
  wf_seq ss → fits ss → last (states_in_sequence ss) = Some el → all_visible ss el →
  let r := N.of_nat (inj_size (runner_to_obj_map ss)) in
  let id := N.of_nat (length (visible_objects ss)) in
  ∃ ss' el', seq_add_runner th ss = (Ok r, ss') ∧ wf_seq ss' ∧
    last (states_in_sequence ss') = Some el' ∧ all_visible ss' el' ∧
    abs_element ss' el' = add_runner_of r id th (abs_element ss el) ∧
    removelast (abs_states ss') = removelast (abs_states ss) ∧
    visible_objects ss' = visible_objects ss ++ [[VThread th]] ∧
    inj_size (runner_to_obj_map ss') = S (inj_size (runner_to_obj_map ss)).
Proof.
  intros Hwf Hf Hl Hv r id.
  destruct (add_object_ok ss el (VThread th) Hwf Hf Hl Hv) as (_ & Hwf1 & Hv1 & Habs1 & Hkeep).
  set (el1 := point_to_next_state_for (next_id ss) el) in *.
  set (ss1 := add_object_to (VThread th) el ss) in *.
  assert (last (states_in_sequence ss1) = Some el1) as Hl1 by (simpl; apply last_snoc).
  exists (add_runner_to th el ss), (record_new_runner el1).
  assert (next_runner ss1 + 1 < 2^16)%N as Hsmall by apply (next_runner_small ss Hf).
  assert (next_id ss < N.of_nat (length (visible_objects ss1)))%N as Hlt.
  { simpl. rewrite length_app. unfold next_id. simpl. lia. }
  split; [by apply seq_add_runner_eq|]. split_and!.
  - by apply record_runner_to_wf; [..|apply (next_id_fresh ss)|].
  - simpl. apply last_snoc.
  - split; [apply Hv1|]. rewrite (max_record_new_runner ss1) by done.
    unfold add_runner_to, record_runner_to. cbn [with_states runner_to_obj_map]. fold ss1.
    rewrite inj_size_map_runner by done. unfold next_runner. lia.
  - unfold add_runner_to. fold ss1 el1. rewrite abs_record_runner by done. by rewrite Habs1.
  - unfold abs_states. rewrite <- !removelast_fmap. simpl. rewrite !removelast_last.
    apply list_fmap_ext. intros k ej Hk.
    rewrite removelast_firstn_len in Hk. apply lookup_take_Some in Hk as [Hk _].
    destruct (ws_element ss Hwf k ej Hk) as [n Hn]. destruct (Hkeep ej n Hn) as [Hn1 <-].
    by eapply abs_record_runner_old.
  - done.
  - by apply (inj_size_map_runner (next_id ss) ss1).
Qed.

(** The first state of a sequence made of objects and runners. *)
Lemma first_snapshot_wf ss :
  wf_base ss → fits ss → states_in_sequence ss = [] →
  wf_seq (push_state_snapshot ss).2 ∧
  abs_states (push_state_snapshot ss).2 = [AState (latest ss) (forward (runner_to_obj_map ss))].
Proof.
  intros Hwf Hf Hnil. destruct (push_snapshot_wf ss Hwf Hf) as [Hwf' Habs].
  - by rewrite Hnil.
  - by rewrite Hnil.
  - split; [done|]. rewrite Habs. unfold abs_states. by rewrite Hnil.
Qed.
Lemma new_state_sequence_wf : wf_seq new_state_sequence.
Proof.
  apply first_snapshot_wf; [|by apply (bool_decide_eq_true_1 _); vm_compute|done].
  split; simpl; [apply mirrored_empty| |by intros r id|constructor].
  intros r. rewrite lookup_empty. split; [by intros []|]. unfold inj_size. simpl. rewrite map_size_empty. lia.
Qed.

(** ** Theorems *)

(** C3: [follow] implements the abstract step.  On a well-formed sequence whose
current state is well-formed and types the transition, [follow] returns the
status of the step; when it is enabled the sequence gains exactly one state, the
one the step leads to together with the objects and runners hidden since the last
cut, and otherwise nothing changes; all earlier states keep their meaning. *)
Theorem follow_refines ss el t :
  wf_seq ss → room ss → last (states_in_sequence ss) = Some el →
  wf (abs_element ss el) → typed t (abs_element ss el) →
  ∃ a' st ss', astep t (abs_element ss el) = Ok (a', st) ∧ follow t ss = (Ok st, ss') ∧ wf_seq ss' ∧
    abs_states ss' = abs_states ss ++ (if decide (st = exists_) then [with_hidden ss a'] else []).
Proof.
  intros Hwf Hroom Hl Ha Ht. destruct (astep_safe _ t Ha Ht) as (a' & st & Hs & _ & Hsh).
  destruct (follow_astep ss el t a' st Hwf Hroom Hl Hs Hsh) as (ss' & Hf & Hwf' & _ & _ & Habs).
  by exists a', st, ss'.
Qed.

(** Cutting a sequence back.  [consume_into_subsequence] keeps the first
states of the sequence, with their meaning, although it throws parts of the
shared histories away; it never fails for a positive length. *)
Theorem consume_refines ss n :
  wf_seq ss → fits ss → n ≠ 0 →
  ∃ ss', seq_consume_into_subsequence n ss = (Ok tt, ss') ∧ wf_seq ss' ∧
    abs_states ss' = take n (abs_states ss).
Proof.
  intros Hwf Hf Hn. destruct (consume_take ss n Hwf Hf Hn) as (ss' & ? & ? & ? & _). by exists ss'.
Qed.

(** Discovering a thread.  When the current state sees everything,
[add_runner] hands out the next runner id and changes the current state only: it
gains the runner and its thread object. *)
Theorem add_runner_refines ss el th :
  wf_seq ss → fits ss → last (states_in_sequence ss) = Some el → all_visible ss el →
  let r := N.of_nat (inj_size (runner_to_obj_map ss)) in
  let id := N.of_nat (length (visible_objects ss)) in
  ∃ ss', seq_add_runner th ss = (Ok r, ss') ∧ wf_seq ss' ∧
    abs_states ss' = removelast (abs_states ss) ++ [add_runner_of r id th (abs_element ss el)].
Proof.
  intros Hwf Hf Hl Hv r id.
  destruct (add_runner_ok ss el th Hwf Hf Hl Hv) as (ss' & el' & Hadd & Hwf' & Hl' & _ & Habs & Hprev & _).
  exists ss'. split; [done|]. split; [done|]. unfold r, id. rewrite <- Habs, <- Hprev.
  unfold abs_states. rewrite <- removelast_fmap.
  destruct (last_Some (states_in_sequence ss') el') as [Hsome _]. destruct (Hsome Hl') as [l' Hl''].
  rewrite Hl''. by rewrite removelast_last, fmap_app.
Qed.

(** A main thread, a step, an object discovered after the step, the sequence cut
back before the step, and another object. *)
Definition rediscovery : state_sequence :=
  let ss := (seq_add_runner (Thread running) new_state_sequence).2 in
  let ss := (follow (Transition 0 thread_start) ss).2 in
  let ss := (seq_add_object (VMutex (new_mutex mutex_unlocked 8)) ss).2 in
  let ss := (seq_consume_into_subsequence 1 ss).2 in
  (seq_add_object (VMutex (new_mutex mutex_unlocked 16)) ss).2.

(** Discovery after a cut breaks the sequence.  The element counts its
objects to decide which ids it contains, but the object hidden by the cut leaves
a gap: the id just handed out is reported as unknown, the hidden one as known
although reading it raises [out_of_range], and so does cutting back again. *)
Theorem discovery_after_cut_breaks_sequence :
  seq_contains_object_with_id rediscovery 2 = Ok false ∧
  seq_get_state_of_object rediscovery 2 = Ok (VMutex (new_mutex mutex_unlocked 16)) ∧
  seq_contains_object_with_id rediscovery 1 = Ok true ∧
  seq_get_state_of_object rediscovery 1 = Throw OutOfRange ∧
  (seq_consume_into_subsequence 1 (follow (Transition 0 thread_start) rediscovery).2).1 = Throw OutOfRange.
Proof. split_and!; vm_compute; reflexivity. Qed.
