(* ===== verification/Trajectory.v ===== *)
(** * What the states of a sequence are

The guarantees of [StateSequence.v] are about well-formed sequences, and a sequence
that was cut back and then gains an object is not one.  [steady] is weaker: it
survives every operation of the checker that returns, in any order.  It is enough to
say where the states of a sequence come from: [follow] appends the state its
transition leads to, discovering adds to the last state, cutting keeps a prefix, up
to objects and runners discovered before ([grows]). *)

From stdpp Require Import options.
From S2P Require Import Prelude InjectiveFunction CondPolicy Objects State Transitions.
From S2P Require Import AbstractState Behaviour StateSequence.

(** ** States with more objects *)

Definition grows : relation astate := λ a b, objs a ⊆ objs b ∧ runners a ⊆ runners b.
#[export] Instance grows_preorder : PreOrder grows.
Proof. split; [by intros a|]. intros a b c [] []. split; by etrans. Qed.

(** ** Steady sequences *)

Record steady (ss : state_sequence) : Prop := Steady {
  sd_idx : ∀ k el id i, states_in_sequence ss !! k = Some el → visible_object_indices el !! id = Some i →
    N.to_nat i ≤ k ∧ ∃ h, visible_objects ss !! N.to_nat id = Some h ∧ N.to_nat i < length h;
  sd_mono : ∀ j k ej ek id i, j ≤ k → states_in_sequence ss !! j = Some ej →
    states_in_sequence ss !! k = Some ek → visible_object_indices ej !! id = Some i →
    ∃ i', visible_object_indices ek !! id = Some i' ∧ (i ≤ i')%N;
  sd_last : ∀ el id i h, last (states_in_sequence ss) = Some el →
    visible_object_indices el !! id = Some i → visible_objects ss !! N.to_nat id = Some h →
    N.to_nat i = length h - 1;
  sd_history : ∀ id h, visible_objects ss !! id = Some h → h ≠ [] ∧ length h ≤ length (states_in_sequence ss);
  sd_max : ∀ k el, states_in_sequence ss !! k = Some el →
    N.to_nat (max_visible_runner_id el) ≤ inj_size (runner_to_obj_map ss);
  sd_dom : ∀ r, is_Some (forward (runner_to_obj_map ss) !! r) ↔ (r < N.of_nat (inj_size (runner_to_obj_map ss)))%N;
}.

(** The ids have not run out; the sequence is not too long. *)
Record roomy (ss : state_sequence) : Prop := Roomy {
  ro_objects : (N.of_nat (length (visible_objects ss)) < invalid_objid)%N;
  ro_runners : (N.of_nat (inj_size (runner_to_obj_map ss)) < RUNNER_ID_MAX)%N;
}.
Definition short (ss : state_sequence) : Prop := (N.of_nat (length (states_in_sequence ss)) ≤ 2^32)%N.

Lemma steady_fits ss : steady ss → roomy ss → short ss → fits ss.
Proof.
  intros Hs [Ho Hr] Hsh. split; [done| |done]. apply Forall_lookup. intros i h [_ Hlen]%(sd_history ss Hs).
  unfold short in Hsh. lia.
Qed.
Lemma last_abs_states ss : last (abs_states ss) = abs_element ss <$> last (states_in_sequence ss).
Proof. unfold abs_states. by rewrite fmap_last. Qed.

(** ** Discovering *)

(** What a change of the last state leaves. *)
Record appended (ss ss' : state_sequence) (el el' : element) : Prop := Appended {
  ap_states : states_in_sequence ss' = removelast (states_in_sequence ss) ++ [el'];
  ap_kept : ∀ id h, visible_objects ss !! id = Some h → visible_objects ss' !! id = Some h;
  ap_new : ∀ id h, visible_objects ss' !! id = Some h → visible_objects ss !! id = Some h ∨ length h = 1;
  ap_seen : ∀ id i, visible_object_indices el !! id = Some i → visible_object_indices el' !! id = Some i;
  ap_fresh : ∀ id i, visible_object_indices el' !! id = Some i →
    visible_object_indices el !! id = Some i ∨
    i = 0%N ∧ ∃ h, visible_objects ss' !! N.to_nat id = Some h ∧ length h = 1;
  ap_size : inj_size (runner_to_obj_map ss) ≤ inj_size (runner_to_obj_map ss');
  ap_dom : ∀ r, is_Some (forward (runner_to_obj_map ss') !! r) ↔ (r < N.of_nat (inj_size (runner_to_obj_map ss')))%N;
  ap_map : ∀ r, (r < N.of_nat (inj_size (runner_to_obj_map ss)))%N →
    forward (runner_to_obj_map ss') !! r = forward (runner_to_obj_map ss) !! r;
  ap_max : (max_visible_runner_id el ≤ max_visible_runner_id el')%N ∧
    N.to_nat (max_visible_runner_id el') ≤ inj_size (runner_to_obj_map ss');
}.

Section appended.
Context (ss ss' : state_sequence) (el el' : element).
Hypotheses (Hsteady : steady ss) (Hlast : last (states_in_sequence ss) = Some el) (Hap : appended ss ss' el el').

Lemma appended_lookup k ek :
  states_in_sequence ss' !! k = Some ek →
  (states_in_sequence ss !! k = Some ek ∧ S k < length (states_in_sequence ss)) ∨
  (ek = el' ∧ S k = length (states_in_sequence ss)).
Proof using Hlast Hap. rewrite (ap_states _ _ _ _ Hap). by apply (lookup_removelast_snoc _ el). Qed.
Lemma appended_length : length (states_in_sequence ss') = length (states_in_sequence ss).
Proof using Hlast Hap.
  rewrite (ap_states _ _ _ _ Hap). destruct (proj1 (last_Some _ _) Hlast) as [l ->].
  by rewrite removelast_last, !length_app.
Qed.
Lemma last_at : states_in_sequence ss !! pred (length (states_in_sequence ss)) = Some el.
Proof using Hlast. by rewrite <- last_lookup. Qed.

Lemma appended_idx k ek id i :
  states_in_sequence ss' !! k = Some ek → visible_object_indices ek !! id = Some i →
  N.to_nat i ≤ k ∧ ∃ h, visible_objects ss' !! N.to_nat id = Some h ∧ N.to_nat i < length h.
Proof using Hsteady Hlast Hap.
  intros Hk Hi. assert (∀ k' e, states_in_sequence ss !! k' = Some e → visible_object_indices e !! id = Some i → k' = k →
    N.to_nat i ≤ k ∧ ∃ h, visible_objects ss' !! N.to_nat id = Some h ∧ N.to_nat i < length h) as Hold.
  { intros k' e He Hie <-. destruct (sd_idx ss Hsteady _ _ _ _ He Hie) as [? (h & Hh & ?)]. split; [done|].
    exists h. split; [by apply (ap_kept _ _ _ _ Hap)|done]. }
  destruct (appended_lookup k ek Hk) as [[Hk' _]|[-> Hlen]]; [by eapply Hold|].
  destruct (ap_fresh _ _ _ _ Hap id i Hi) as [Hi'|[-> (h & Hh & Hl)]].
  - eapply Hold; [apply last_at|done|lia].
  - split; [lia|]. exists h. split; [done|]. simpl. lia.
Qed.

Lemma appended_steady : steady ss'.
Proof using Hsteady Hlast Hap.
  split.
  - apply appended_idx.
  - intros j k ej ek id i Hjk Hj Hk Hi.
    destruct (appended_lookup j ej Hj) as [[Hj' Hjl]|[-> Hjl]], (appended_lookup k ek Hk) as [[Hk' Hkl]|[-> Hkl]].
    + by apply (sd_mono ss Hsteady j k ej ek).
    + destruct (sd_mono ss Hsteady j (pred (length (states_in_sequence ss))) ej el id i)
        as (i' & Hi' & ?); [lia|done|apply last_at|done|].
      exists i'. split; [by apply (ap_seen _ _ _ _ Hap)|done].
    + lia.
    + by exists i.
  - intros e id i h. rewrite (ap_states _ _ _ _ Hap), last_snoc. intros [= <-] Hi Hh.
    destruct (ap_fresh _ _ _ _ Hap id i Hi) as [Hi'|[-> (h' & Hh' & Hl)]].
    + destruct (sd_idx ss Hsteady _ _ _ _ last_at Hi') as [_ (h' & Hh' & _)].
      pose proof (ap_kept _ _ _ _ Hap _ _ Hh') as Hk. rewrite Hh in Hk. injection Hk as <-.
      by apply (sd_last ss Hsteady el id).
    + rewrite Hh in Hh'. injection Hh' as <-. rewrite Hl. done.
  - intros id h Hh. rewrite appended_length. destruct (ap_new _ _ _ _ Hap id h Hh) as [Hh'|Hl].
    + by apply (sd_history ss Hsteady id).
    + split; [by intros ->|]. rewrite Hl. destruct (states_in_sequence ss); [done|simpl; lia].
  - intros k ek Hk. destruct (appended_lookup k ek Hk) as [[Hk' _]|[-> _]].
    + pose proof (sd_max ss Hsteady _ _ Hk'). pose proof (ap_size _ _ _ _ Hap). lia.
    + apply (ap_max _ _ _ _ Hap).
  - apply (ap_dom _ _ _ _ Hap).
Qed.

Lemma appended_abs_old k ek : states_in_sequence ss !! k = Some ek → abs_element ss' ek = abs_element ss ek.
Proof using Hsteady Hap.
  intros Hk. unfold abs_element. f_equal.
  - apply map_eq. intros id. rewrite !map_lookup_imap.
    destruct (visible_object_indices ek !! id) as [i|] eqn:Hi; [|done]. simpl.
    destruct (sd_idx ss Hsteady _ _ _ _ Hk Hi) as [_ (h & Hh & _)]. rewrite Hh. by rewrite (ap_kept _ _ _ _ Hap _ _ Hh).
  - apply map_eq. intros r. rewrite !map_lookup_filter. cbn [fst].
    destruct (decide (r < N.of_nat (inj_size (runner_to_obj_map ss)))%N) as [Hr|Hr].
    + by rewrite (ap_map _ _ _ _ Hap r Hr).
    + pose proof (sd_max ss Hsteady _ _ Hk).
      destruct (forward (runner_to_obj_map ss') !! r), (forward (runner_to_obj_map ss) !! r); simpl;
        rewrite ?option_guard_False by lia; done.
Qed.
Lemma appended_abs_last : grows (abs_element ss el) (abs_element ss' el').
Proof using Hsteady Hlast Hap.
  rewrite <- (appended_abs_old _ _ last_at). split; unfold abs_element; cbn [objs runners]; apply map_subseteq_spec.
  - intros id o. rewrite !map_lookup_imap. destruct (visible_object_indices el !! id) as [i|] eqn:Hi; [|done].
    by rewrite (ap_seen _ _ _ _ Hap id i Hi).
  - intros r id. rewrite !map_lookup_filter_Some. cbn [fst]. intros [? ?]. split; [done|].
    pose proof (proj1 (ap_max _ _ _ _ Hap)). lia.
Qed.
End appended.

(** What a discovery makes of a sequence, while ids have not run out: the last state
grows, the others stay. *)
Record discovered (ss ss' : state_sequence) : Prop := Discovered {
  dv_objects : length (visible_objects ss) ≤ length (visible_objects ss');
  dv_runners : inj_size (runner_to_obj_map ss) ≤ inj_size (runner_to_obj_map ss');
  dv_states : length (states_in_sequence ss') = length (states_in_sequence ss);
  dv_ok : roomy ss' → steady ss → steady ss' ∧
    (∀ k a, S k < length (states_in_sequence ss) → abs_states ss !! k = Some a → abs_states ss' !! k = Some a) ∧
    ∀ a, last (abs_states ss) = Some a → ∃ b, last (abs_states ss') = Some b ∧ grows a b;
}.
Lemma roomy_mono ss ss' : discovered ss ss' → roomy ss' → roomy ss.
Proof. intros [Ho Hr _ _] []. split; lia. Qed.
#[export] Instance discovered_preorder : PreOrder discovered.
Proof.
  split.
  - intros ss. split; [done..|]. intros _ Hs. split_and!; [done..|]. intros a Ha. by exists a.
  - intros s1 s2 s3 H12 H23. pose proof H12 as [Ho1 Hr1 Hl1 Hok1]. pose proof H23 as [Ho2 Hr2 Hl2 Hok2].
    split; [lia|lia|lia|]. intros Hroom Hs1.
    destruct Hok1 as (Hs2 & Hold1 & Hlast1); [by eapply roomy_mono|done|].
    destruct Hok2 as (Hs3 & Hold2 & Hlast2); [done..|]. split_and!; [done| |].
    + intros k a Hk Ha. apply Hold2; [lia|]. by apply Hold1.
    + intros a Ha. destruct (Hlast1 a Ha) as (b & Hb & Hab). destruct (Hlast2 b Hb) as (d & Hd & Hbd).
      exists d. split; [done|]. by etrans.
Qed.

Lemma appended_discovered ss ss' el el' :
  last (states_in_sequence ss) = Some el → length (visible_objects ss) ≤ length (visible_objects ss') →
  inj_size (runner_to_obj_map ss) ≤ inj_size (runner_to_obj_map ss') →
  states_in_sequence ss' = removelast (states_in_sequence ss) ++ [el'] →
  (roomy ss' → steady ss → appended ss ss' el el') → discovered ss ss'.
Proof.
  intros Hl Ho Hr Hst Hap. split; [done..| |].
  - rewrite Hst. destruct (proj1 (last_Some _ _) Hl) as [l ->]. by rewrite removelast_last, !length_app.
  - intros Hroom Hs. specialize (Hap Hroom Hs). split_and!; [by eapply appended_steady| |].
    + intros k a Hk Ha. unfold abs_states in *. rewrite list_lookup_fmap in *. rewrite Hst.
      destruct (states_in_sequence ss !! k) as [ek|] eqn:Hek; [|done]. injection Ha as <-.
      rewrite lookup_app_l by (rewrite removelast_firstn_len, length_take; lia).
      rewrite removelast_firstn_len, lookup_take, decide_True, Hek by lia. simpl. f_equal. by eapply appended_abs_old.
    + intros a. rewrite !last_abs_states, Hst, last_snoc, Hl. intros [= <-]. eexists. split; [done|].
      by eapply appended_abs_last.
Qed.

Lemma add_object_discovers s ss id ss' : seq_add_object s ss = (Ok id, ss') → discovered ss ss'.
Proof.
  unfold seq_add_object, update_representative_state, get_representative_state, vec_back.
  intros (u & ss1 & Hu & Ha)%ebind_ok. destruct (last (states_in_sequence ss)) as [el|] eqn:Hl; [|done].
  injection Hu as _ <-. injection Ha as <- <-.
  apply (appended_discovered _ _ el (point_to_next_state_for (u32 (N.of_nat (length (visible_objects ss)))) el));
    [done|simpl; rewrite length_app; lia|done..|].
  intros [Ho _] Hs. simpl in Ho. rewrite length_app in Ho. simpl in Ho.
  assert (u32 (N.of_nat (length (visible_objects ss))) = next_id ss) as ->.
  { apply N.mod_small. unfold invalid_objid, next_id in *. lia. }
  change (appended ss (add_object_to s el ss) el (point_to_next_state_for (next_id ss) el)).
  assert (visible_object_indices el !! next_id ss = None) as Hfresh.
  { destruct (visible_object_indices el !! next_id ss) as [i|] eqn:Hi; [|done].
    destruct (sd_idx ss Hs _ _ _ _ (last_at _ _ Hl) Hi) as [_ (h & Hh%lookup_lt_Some & _)]. unfold next_id in Hh. lia. }
  split; [done|..].
  - intros k h Hh. by apply lookup_app_l_Some.
  - intros k h [?|[_ Hh]]%lookup_app_Some; [by left|right]. by apply list_lookup_singleton_Some in Hh as [_ <-].
  - intros k i Hi. simpl. rewrite lookup_insert_ne; [done|]. intros <-. congruence.
  - intros k i. simpl. rewrite Hfresh. intros [[<- <-]|[_ ?]]%lookup_insert_Some; [right|by left].
    split; [done|]. exists [s]. by rewrite <- (lookup_new_history s el ss).
  - done.
  - apply (sd_dom ss Hs).
  - done.
  - split; [done|]. apply (sd_max ss Hs _ _ (last_at _ _ Hl)).
Qed.

Lemma record_runner_discovers ss id el b ss1 u ss' :
  last (states_in_sequence ss) = Some el →
  insert_runner (u16 (N.of_nat (inj_size (runner_to_obj_map ss))), id) ss = (Ok b, ss1) →
  update_representative_state record_new_runner ss1 = (Ok u, ss') → discovered ss ss'.
Proof.
  intros Hl Hins Hup. unfold insert_runner in Hins. set (n := inj_size (runner_to_obj_map ss)) in *.
  assert (states_in_sequence ss1 = states_in_sequence ss ∧ visible_objects ss1 = visible_objects ss ∧
    ((forward (runner_to_obj_map ss) !! u16 (N.of_nat n) = None ∧
      runner_to_obj_map ss1 = InjectiveFunction (<[u16 (N.of_nat n) := id]> (forward (runner_to_obj_map ss)))
        (<[id := u16 (N.of_nat n)]> (backward (runner_to_obj_map ss)))) ∨
     (is_Some (forward (runner_to_obj_map ss) !! u16 (N.of_nat n)) ∧ runner_to_obj_map ss1 = runner_to_obj_map ss)))
    as (Hst & Hvis & Hmap).
  { destruct (forward (runner_to_obj_map ss) !! u16 (N.of_nat n)) as [w|] eqn:Hf.
    - rewrite (inj_insert_taken _ _ _ _ Hf) in Hins. injection Hins as _ <-. split_and!; [done..|right]. by split.
    - destruct (backward (runner_to_obj_map ss) !! id) as [w|] eqn:Hb.
      { by rewrite (inj_insert_refused _ _ _ _ Hf Hb) in Hins. }
      rewrite (inj_insert_fresh _ _ _ Hf Hb) in Hins. injection Hins as _ <-. split_and!; [done..|by left]. }
  rewrite (update_representative_ok _ ss1 el) in Hup by by rewrite Hst. injection Hup as _ <-. rewrite Hst.
  assert (n ≤ inj_size (runner_to_obj_map ss1)) as Hsize.
  { destruct Hmap as [[Hf ->]|[_ ->]]; [|done]. unfold inj_size, n. simpl. rewrite map_size_insert_None by done.
    unfold inj_size. lia. }
  apply (appended_discovered _ _ el (record_new_runner el)); simpl; [done|by rewrite Hvis|done|done|].
  intros [_ Hr] Hs. simpl in Hr. unfold RUNNER_ID_MAX in Hr.
  assert (u16 (N.of_nat n) = N.of_nat n) as Hu by (apply N.mod_small; lia). rewrite Hu in Hmap.
  destruct Hmap as [[Hf Hm]|[Hf%(sd_dom ss Hs) _]]; [|lia].
  assert (inj_size (runner_to_obj_map ss1) = S n) as Hs1.
  { rewrite Hm. unfold inj_size. simpl. by rewrite map_size_insert_None. }
  pose proof (sd_max ss Hs _ _ (last_at _ _ Hl)) as Hmax. fold n in Hmax.
  assert (max_visible_runner_id (record_new_runner el) = (max_visible_runner_id el + 1)%N) as Hmx.
  { simpl. apply N.mod_small. lia. }
  split; cbn [states_in_sequence visible_objects runner_to_obj_map with_states]; rewrite ?Hvis, ?Hs1, ?Hmx;
    [done|done|by left|done|by left|fold n; lia| |by rewrite Hm; simpl; intros r Hr'; rewrite lookup_insert_ne by (fold n in Hr'; lia)|lia].
  intros r. rewrite Hm. simpl. rewrite lookup_insert_is_Some, (sd_dom ss Hs). fold n.
  destruct (decide (N.of_nat n = r)); lia.
Qed.
Lemma add_runner_discovers th ss r ss' : seq_add_runner th ss = (Ok r, ss') → discovered ss ss'.
Proof.
  unfold seq_add_runner. intros (id & ss1 & Hobj & Ha)%ebind_ok. rewrite ebind_query in Ha.
  apply ebind_ok in Ha as (b & ss2 & Hins & Ha). apply ebind_ok in Ha as (u & ss3 & Hup & Ha). injection Ha as _ <-.
  etrans; [by eapply add_object_discovers|].
  assert (∃ el, last (states_in_sequence ss1) = Some el) as [el Hl].
  { unfold seq_add_object, update_representative_state, get_representative_state, vec_back in Hobj.
    apply ebind_ok in Hobj as (v & ss4 & Hv & Hx). destruct (last (states_in_sequence ss)); [|done].
    injection Hv as _ <-. injection Hx as _ <-. eexists. simpl. apply last_snoc. }
  by eapply record_runner_discovers.
Qed.

(** ** Following *)

Lemma push_loop_inv l ss ss' :
  for_each l push_new_state ss = (Ok tt, ss') →
  Forall (λ p, N.to_nat p.1 < length (visible_objects ss) ∧ p.2 ≠ []) l.
Proof.
  revert ss. induction l as [|[id hs] l IH]; intros ss; cbn [for_each]; [by constructor|].
  intros (u & ss1 & Hp & Hl)%ebind_ok. unfold push_new_state in Hp. cbn [fst snd] in Hp.
  destruct (visible_objects ss !! N.to_nat id) as [h|] eqn:Hh; [|done]. apply lookup_lt_Some in Hh.
  unfold consume_into_current_state in Hp. cbn [fst] in Hp.
  destruct (last hs) as [s|] eqn:Hs; [|done]. injection Hp as _ <-. apply IH in Hl. constructor.
  - split; [done|]. cbn. by intros ->.
  - eapply Forall_impl; [exact Hl|]. intros p [Hlt ?]. simpl in Hlt. by rewrite length_insert in Hlt.
Qed.

(** The latest states contain the state the transition leads to. *)
Lemma latest_reached ss ss1 el d a' :
  steady ss → last (states_in_sequence ss) = Some el → diff_written ss d a' → runners a' = runners (abs_element ss el) →
  (∀ id hs, new_object_states d !! id = Some hs → N.to_nat id < length (visible_objects ss)) →
  (∀ id h, visible_objects ss !! N.to_nat id = Some h →
    visible_objects ss1 !! N.to_nat id = Some (h ++ pushed (new_object_states d) id)) →
  grows a' (AState (latest ss1) (forward (runner_to_obj_map ss))).
Proof.
  intros Hs Hl Hd Hrun Hrange Hpush. pose proof (sequence_represents ss el Hl) as Hrep. split; cbn [objs runners].
  - apply map_subseteq_spec. intros id o Ho. rewrite lookup_latest.
    destruct (new_object_states d !! id) as [hs|] eqn:Hhs.
    + destruct (written_new _ _ _ _ _ Hd Hhs) as [Hlast _].
      destruct (lookup_lt_is_Some_2 _ _ (Hrange _ _ Hhs)) as [h Hh]. rewrite (Hpush _ _ Hh). simpl.
      rewrite last_pushed, Hhs. simpl. by rewrite Hlast, Ho.
    + rewrite (written_old _ _ _ _ _ Hrep Hd Hhs), lookup_abs_element in Ho.
      destruct (visible_object_indices el !! id) as [i|] eqn:Hi; [|done]. simpl in Ho.
      destruct (visible_objects ss !! N.to_nat id) as [h|] eqn:Hh; [|done]. simpl in Ho.
      rewrite (Hpush _ _ Hh). simpl. rewrite last_pushed, Hhs. simpl.
      rewrite (sd_last ss Hs el id i h Hl Hi Hh) in Ho. by rewrite last_lookup, <- Nat.sub_1_r.
  - rewrite Hrun. apply map_filter_subseteq.
Qed.

(** A snapshot of histories that have grown by at most one state. *)
Lemma snapshot_steady ss ss1 :
  steady ss → roomy ss → short ss → StateSequence.extends ss ss1 →
  (∀ id h h', visible_objects ss !! id = Some h → visible_objects ss1 !! id = Some h' → length h' ≤ S (length h)) →
  steady (push_state_snapshot ss1).2 ∧
  abs_states (push_state_snapshot ss1).2 = abs_states ss ++ [AState (latest ss1) (forward (runner_to_obj_map ss))].
Proof.
  intros Hs [Ho Hr] Hsh Hext Hone. pose proof Hext as (Hrm & Hst & Hlen & Hgrow).
  assert (∀ id h', visible_objects ss1 !! id = Some h' →
    h' ≠ [] ∧ length h' ≤ S (length (states_in_sequence ss))) as Hhist.
  { intros id h' Hh'. destruct (extends_back _ _ _ _ Hext Hh') as (h & k & Hh & ->).
    destruct (sd_history ss Hs id h Hh) as [Hne Hle]. specialize (Hone _ _ _ Hh Hh'). split; [by destruct h|lia]. }
  assert (fits ss1) as Hf.
  { split; [by rewrite Hlen| |by rewrite Hrm]. apply Forall_lookup. intros i h' [_ Hle]%Hhist.
    unfold short in Hsh. lia. }
  assert (∀ id i, visible_object_indices (new_element ss1) !! id = Some i →
    ∃ h, visible_objects ss1 !! N.to_nat id = Some h ∧ N.to_nat i = length h - 1 ∧ h ≠ [] ∧
      length h ≤ S (length (states_in_sequence ss))) as Hnew.
  { intros id i. rewrite lookup_new_element. destruct (visible_objects ss1 !! N.to_nat id) as [h|] eqn:Hh; [|done].
    intros [= <-]. destruct (Hhist _ _ Hh) as [Hne Hle]. exists h. split_and!; try done.
    apply get_last_state_index_nat; [done|]. apply (Forall_lookup_1 _ _ _ _ (fits_history ss1 Hf) Hh). }
  assert (∀ k ek id i, states_in_sequence ss !! k = Some ek → visible_object_indices ek !! id = Some i →
    N.to_nat i ≤ k ∧ ∃ h, visible_objects ss1 !! N.to_nat id = Some h ∧ N.to_nat i < length h) as Hold.
  { intros k ek id i Hk Hi. destruct (sd_idx ss Hs _ _ _ _ Hk Hi) as [? (h & Hh & ?)]. split; [done|].
    destruct (Hgrow _ _ Hh) as [h2 Hh2]. exists (h ++ h2). rewrite length_app. split; [done|lia]. }
  split.
  - split; cbn [push_state_snapshot snd states_in_sequence visible_objects runner_to_obj_map with_states]; rewrite ?Hst, ?Hrm.
    + intros k ek id i [Hk|[Hk Hek]]%lookup_app_Some Hi; [by eapply Hold|].
      apply list_lookup_singleton_Some in Hek as [Hk0 <-]. destruct (Hnew _ _ Hi) as (h & Hh & Hi' & Hne & Hle).
      assert (length h ≠ 0) by by intros ?%nil_length_inv. split; [lia|]. exists h. split; [done|lia].
    + intros j k ej ek id i Hjk [Hj|[Hjl Hj]]%lookup_app_Some [Hk|[Hkl Hk]]%lookup_app_Some Hi.
      * by apply (sd_mono ss Hs j k ej ek).
      * apply list_lookup_singleton_Some in Hk as [_ <-]. destruct (Hold _ _ _ _ Hj Hi) as [_ (h & Hh & Hlt)].
        destruct (visible_object_indices (new_element ss1) !! id) as [i'|] eqn:Hi'.
        -- exists i'. split; [done|]. destruct (Hnew _ _ Hi') as (h' & Hh' & Heq & _). rewrite Hh in Hh'. injection Hh' as <-. lia.
        -- by rewrite lookup_new_element, Hh in Hi'.
      * apply lookup_lt_Some in Hk. lia.
      * apply list_lookup_singleton_Some in Hj as [_ <-], Hk as [_ <-]. by exists i.
    + intros el id i h. rewrite last_snoc. intros [= <-] Hi Hh. destruct (Hnew _ _ Hi) as (h' & Hh' & ? & _). congruence.
    + intros id h [Hne Hle]%Hhist. rewrite length_app. simpl. split; [done|lia].
    + intros k ek [Hk|[_ Hk]]%lookup_app_Some; [by apply (sd_max ss Hs k)|].
      apply list_lookup_singleton_Some in Hk as [_ <-]. rewrite max_new_element by done. rewrite Hrm. lia.
    + apply (sd_dom ss Hs).
  - unfold abs_states. cbn [push_state_snapshot snd states_in_sequence with_states]. rewrite fmap_app, Hst. f_equal.
    + apply list_fmap_ext. intros k ek Hk. unfold abs_element. cbn [runner_to_obj_map visible_objects with_states].
      rewrite Hrm. f_equal. apply map_eq. intros id. rewrite !map_lookup_imap.
      destruct (visible_object_indices ek !! id) as [i|] eqn:Hi; [|done]. simpl.
      destruct (sd_idx ss Hs _ _ _ _ Hk Hi) as [_ (h & Hh & Hlt)]. destruct (Hgrow _ _ Hh) as [h2 Hh2].
      rewrite Hh, Hh2. simpl. by apply lookup_app_l.
    + cbn [fmap list_fmap]. f_equal. rewrite <- Hrm. apply (abs_snapshot ss1); [|apply Forall_lookup; intros ?? Hx; apply (Hhist _ _ Hx)|done].
      rewrite Hrm. intros r. apply (sd_dom ss Hs).
Qed.

(** The loops over histories leave the counts and the states. *)
Definition same_counts : relation state_sequence := λ ss ss',
  length (visible_objects ss') = length (visible_objects ss) ∧ runner_to_obj_map ss' = runner_to_obj_map ss ∧
  states_in_sequence ss' = states_in_sequence ss.
#[export] Instance same_counts_preorder : PreOrder same_counts.
Proof. split; [by intros ss|]. unfold same_counts. intros x y z. intuition congruence. Qed.
Lemma push_new_state_counts x : preserves same_counts (push_new_state x).
Proof.
  intros ss r ss'. unfold push_new_state. repeat case_match; intros [= <- <-]; [|done..].
  split_and!; [|done..]. simpl. by rewrite length_insert.
Qed.
Lemma slice_body_counts el i : preserves same_counts (slice_body el i).
Proof.
  assert (∀ j, preserves same_counts (slice_at i j)) as Hs.
  { intros j ss r ss'. unfold slice_at. destruct (vec_at _ _ ≫= _); intros [= <- <-]; [|done].
    split_and!; [|done..]. simpl. by rewrite length_insert. }
  unfold slice_body. destruct (element_contains_object_with_id el i); [|apply Hs].
  apply preserves_bind; [apply _|apply preserves_query, _|apply Hs].
Qed.
Lemma follow_counts t ss ss' :
  follow t ss = (Ok exists_, ss') →
  length (visible_objects ss') = length (visible_objects ss) ∧ runner_to_obj_map ss' = runner_to_obj_map ss ∧
  length (states_in_sequence ss') = S (length (states_in_sequence ss)).
Proof.
  unfold follow. destruct (apply_to t ss) as [[d st]|e]; [|done]. case_bool_decide as Hst; [subst|by intros [= ?]].
  intros (u & ss1 & Hpush & Hfol)%ebind_ok. injection Hfol as <-.
  assert (same_counts ss ss1) as (Ho & Hr & Hs).
  { eapply preserves_for_each; [apply _|apply push_new_state_counts|exact Hpush]. }
  simpl. by rewrite Hs, length_app, Nat.add_1_r.
Qed.
Lemma consume_counts n ss ss' :
  seq_consume_into_subsequence n ss = (Ok tt, ss') →
  length (visible_objects ss') = length (visible_objects ss) ∧ runner_to_obj_map ss' = runner_to_obj_map ss ∧
  states_in_sequence ss' = take n (states_in_sequence ss).
Proof.
  unfold seq_consume_into_subsequence. case_bool_decide as Hle; [intros [= <-]; by rewrite take_ge|].
  intros (ek & ss1 & Hq & Hloop)%ebind_ok. unfold query in Hq. injection Hq as _ <-.
  assert (∀ l, preserves same_counts (for_each l (slice_body ek))) as Hp.
  { intros l. apply preserves_for_each; [apply _|apply slice_body_counts]. }
  by apply (Hp (N.of_nat <$> seq 0 (length (visible_objects ss)))) in Hloop.
Qed.

(** [follow] appends the state the transition leads to. *)
Lemma follow_steady ss el t ss' :
  steady ss → roomy ss → short ss → last (states_in_sequence ss) = Some el →
  follow t ss = (Ok exists_, ss') →
  steady ss' ∧ ∃ a' b, astep t (abs_element ss el) = Ok (a', exists_) ∧ grows a' b ∧ abs_states ss' = abs_states ss ++ [b].
Proof.
  intros Hs Hr Hsh Hl Hfol. pose proof (apply_to_astep ss _ t (sequence_represents ss el Hl)) as Happ.
  unfold follow in Hfol. destruct (apply_to t ss) as [[d st]|e]; [|done].
  destruct (astep t (abs_element ss el)) as [[a' st']|e] eqn:Hstep; [|done]. destruct Happ as [<- Hd].
  case_bool_decide as Hst; [subst st|by injection Hfol as ?].
  apply ebind_ok in Hfol as (u & ss1 & Hpush & Hfol). destruct u. injection Hfol as <-.
  pose proof (push_loop_inv _ _ _ Hpush) as Hall.
  destruct (push_loop (map_to_list (new_object_states d)) ss) as (ss2 & Hpush2 & Hext & Hgrow);
    [apply NoDup_fst_map_to_list|done|].
  rewrite Hpush in Hpush2. injection Hpush2 as <-. rewrite list_to_map_to_list in Hgrow.
  destruct (snapshot_steady ss ss1 Hs Hr Hsh Hext) as [Hs' Habs].
  { intros id h h' Hh Hh'. specialize (Hgrow (N.of_nat id) h). rewrite Nat2N.id in Hgrow.
    specialize (Hgrow Hh). rewrite Hh' in Hgrow. injection Hgrow as ->. rewrite length_app.
    unfold pushed. destruct (new_object_states d !! N.of_nat id) as [hs|]; simpl; [|lia].
    destruct (last hs); simpl; lia. }
  split; [done|]. eexists a', _. split; [done|]. split; [|exact Habs].
  apply (latest_reached ss ss1 el d a'); [done..| | |done].
  - apply (astep_unchanged t _ a' exists_). done.
  - intros id hs Hin%elem_of_map_to_list. rewrite Forall_forall in Hall. apply (Hall (id, hs) Hin).
Qed.

(** ** Cutting back *)

Lemma slice_body_seen el i ss ss' :
  slice_body el i ss = (Ok tt, ss') → element_contains_object_with_id el i = true → is_Some (visible_object_indices el !! i).
Proof.
  unfold slice_body. intros Hb Hc. rewrite Hc in Hb. rewrite ebind_query in Hb. unfold map_at in Hb.
  by destruct (visible_object_indices el !! i).
Qed.
Lemma slice_loop_seen el l ss ss' :
  for_each l (slice_body el) ss = (Ok tt, ss') →
  ∀ i, i ∈ l → element_contains_object_with_id el i = true → is_Some (visible_object_indices el !! i).
Proof.
  revert ss. induction l as [|j l IH]; intros ss; cbn [for_each]; [by intros _ i ?%elem_of_nil|].
  intros ([] & ss1 & Hb & Hl)%ebind_ok i [->|Hin]%elem_of_cons; [by eapply slice_body_seen|by eapply IH].
Qed.

(** A set of [n] ids that contains all below [n] has no other. *)
Lemma prefix_domain (m : gmap objid_t N) :
  (∀ i, (i < N.of_nat (size m))%N → is_Some (m !! i)) → ∀ i, is_Some (m !! i) ↔ (i < N.of_nat (size m))%N.
Proof.
  intros Hall i. split; [|apply Hall]. intros Hi.
  destruct (decide (i < N.of_nat (size m))%N) as [|Hge]; [done|].
  set (P := list_to_set (N.of_nat <$> seq 0 (size m)) : gset N).
  assert ({[i]} ∪ P ⊆ dom m) as Hsub.
  { apply union_subseteq. split; [by apply singleton_subseteq_l, elem_of_dom|]. intros j Hj%elem_of_list_to_set.
    apply elem_of_dom, Hall. apply elem_of_N_seq in Hj. done. }
  apply subseteq_size in Hsub. rewrite size_union, size_singleton in Hsub.
  2:{ apply disjoint_singleton_l. intros Hj%elem_of_list_to_set%elem_of_N_seq. lia. }
  assert (size P = size m) as Hp.
  { unfold P. rewrite size_list_to_set by apply NoDup_N_seq. by rewrite length_fmap, length_seq. }
  rewrite Hp, size_dom in Hsub. lia.
Qed.

Lemma seen_prefix ss k el ss1 ss2 :
  steady ss → states_in_sequence ss !! k = Some el →
  for_each (N.of_nat <$> seq 0 (length (visible_objects ss))) (slice_body el) ss1 = (Ok tt, ss2) →
  prefix_element ss (size (visible_object_indices el)) el.
Proof.
  intros Hs Hk Hloop. split; [|done|].
  - apply prefix_domain. intros i Hi. apply (slice_loop_seen _ _ _ _ Hloop); [|by apply bool_decide_eq_true].
    apply elem_of_N_seq. assert (size (visible_object_indices el) ≤ length (visible_objects ss)); [|lia].
    rewrite <- size_dom. trans (size (list_to_set (N.of_nat <$> seq 0 (length (visible_objects ss))) : gset N)).
    + apply subseteq_size. intros j [x Hx]%elem_of_dom. apply elem_of_list_to_set, elem_of_N_seq.
      destruct (sd_idx ss Hs _ _ _ _ Hk Hx) as [_ (h & Hh%lookup_lt_Some & _)]. lia.
    + rewrite size_list_to_set by apply NoDup_N_seq. by rewrite length_fmap, length_seq.
  - intros id i h Hi Hh. destruct (sd_idx ss Hs _ _ _ _ Hk Hi) as [_ (h' & Hh' & ?)]. congruence.
Qed.

(** Trimming the histories to what the state [k] needs. *)
Lemma trimmed_steady ss n k ek vis :
  steady ss → n ≠ 0 → last (take n (states_in_sequence ss)) = Some ek →
  (∀ i, vis !! N.to_nat i = kept ek i <$> visible_objects ss !! N.to_nat i) →
  states_in_sequence ss !! k = Some ek → S k = length (take n (states_in_sequence ss)) →
  steady (with_visible_objects vis (with_states (take n (states_in_sequence ss)) ss)).
Proof.
  intros Hs Hn Hl Hvis Hk Hkl.
  assert (∀ j ej id i, take n (states_in_sequence ss) !! j = Some ej → visible_object_indices ej !! id = Some i →
    states_in_sequence ss !! j = Some ej ∧ ∃ i', visible_object_indices ek !! id = Some i' ∧ (i ≤ i')%N) as Hup.
  { intros j ej id i Hj Hi. pose proof (lookup_lt_Some _ _ _ Hj). apply lookup_take_Some in Hj as [Hj _]. split; [done|].
    apply (sd_mono ss Hs j k ej ek id i); [lia|done..]. }
  split; cbn [states_in_sequence visible_objects runner_to_obj_map with_states with_visible_objects].
  - intros j ej id i Hj Hi. destruct (Hup j ej id i Hj Hi) as (Hj' & i' & Hi' & Hle).
    destruct (sd_idx ss Hs _ _ _ _ Hj' Hi) as [? (h & Hh & ?)]. split; [done|].
    exists (kept ek id h). rewrite Hvis, Hh. split; [done|]. unfold kept. rewrite Hi', length_take. lia.
  - intros j1 j2 e1 e2 id i Hj [H1 _]%lookup_take_Some [H2 _]%lookup_take_Some. by apply (sd_mono ss Hs j1 j2 e1 e2).
  - intros el id i h'. rewrite Hl. intros [= <-] Hi. rewrite Hvis.
    destruct (sd_idx ss Hs _ _ _ _ Hk Hi) as [_ (h & Hh & ?)]. rewrite Hh. intros [= <-].
    unfold kept. rewrite Hi, length_take. lia.
  - intros id h'. rewrite <- (Nat2N.id id), Hvis. intros (h & Hh & ->)%fmap_Some.
    destruct (sd_history ss Hs _ _ Hh) as [Hne Hlen]. unfold kept.
    destruct (visible_object_indices ek !! N.of_nat id) as [i|] eqn:Hi.
    + destruct (sd_idx ss Hs _ _ _ _ Hk Hi) as [? _]. split; [by destruct h|]. rewrite length_take. lia.
    + split; [by destruct h|]. rewrite (length_take h 1). lia.
  - intros j ej [Hj _]%lookup_take_Some. by apply (sd_max ss Hs j).
  - apply (sd_dom ss Hs).
Qed.

Lemma consume_steady ss n ss' :
  steady ss → roomy ss → short ss → n ≠ 0 → seq_consume_into_subsequence n ss = (Ok tt, ss') →
  steady ss' ∧ abs_states ss' = take n (abs_states ss).
Proof.
  intros Hs Hr Hsh Hn. unfold seq_consume_into_subsequence. case_bool_decide as Hle.
  { intros [= <-]. split; [done|]. rewrite take_ge; [done|]. unfold abs_states. by rewrite length_fmap. }
  set (ss0 := with_states (take n (states_in_sequence ss)) ss).
  intros (ek & ss1 & Hq & Hloop)%ebind_ok. unfold query in Hq. injection Hq as Hek <-.
  unfold get_representative_state, vec_back in Hek. cbn [states_in_sequence ss0 with_states] in Hek.
  destruct (last (take n (states_in_sequence ss))) as [e|] eqn:Hl; [|done]. injection Hek as ->.
  destruct (take_last_lookup _ _ _ Hn Hl) as (k & Hk & _ & Hkl).
  change (for_each (N.of_nat <$> seq 0 (length (visible_objects ss))) (slice_body ek) ss0 = (Ok tt, ss')) in Hloop.
  pose proof (seen_prefix ss k ek _ _ Hs Hk Hloop) as Hpre.
  assert (Forall (λ h, h ≠ []) (visible_objects ss)) as Hne.
  { apply Forall_lookup. intros i h Hh. by apply (sd_history ss Hs i). }
  destruct (slice_loop ss _ ek (N.of_nat <$> seq 0 (length (visible_objects ss))) Hpre Hne
    (steady_fits ss Hs Hr Hsh) (NoDup_N_seq _ _)) with ss0 as (vis & Hfor & Hlen & Hvis).
  { apply Forall_forall. intros i Hi%elem_of_N_seq. lia. }
  { done. }
  rewrite Hloop in Hfor. injection Hfor as ->.
  assert (∀ i, vis !! N.to_nat i = kept ek i <$> visible_objects ss !! N.to_nat i) as Hvis'.
  { intros i. rewrite Hvis. case_decide as Hin; [done|]. rewrite elem_of_N_seq in Hin. simpl.
    assert (visible_objects ss !! N.to_nat i = None) as ->; [|done]. apply lookup_ge_None. lia. }
  split.
  - apply (trimmed_steady ss n k ek); try done. destruct (take n (states_in_sequence ss)); [done|simpl in *; lia].
  - unfold abs_states. cbn [states_in_sequence ss0 with_states with_visible_objects]. rewrite <- fmap_take.
    apply list_fmap_ext. intros j ej Hj. unfold abs_element. f_equal. apply map_eq. intros id.
    apply (lookup_abs_kept ss vis ej ek id Hvis'). intros i Hi. pose proof (lookup_lt_Some _ _ _ Hj) as Hlt.
    apply lookup_take_Some in Hj as [Hj _]. eapply (sd_mono ss Hs j k ej ek id i); [lia|done..].
Qed.
