(* ===== verification/Program.v ===== *)
(** * Programs

[model::program] ([src/mcmini/model/program.cpp]): the state sequence, the trace
of executed transitions ([transition_sequence.cpp]) and the next step of each
runner ([pending_transitions.hpp]).  Executing a runner extends all three;
restoring an earlier depth undoes executions, which [restore_undoes_executions]
proves for every depth but 0. *)

From stdpp Require Import options.
From S2P Require Import Prelude InjectiveFunction CondPolicy Objects State Transitions.
From S2P Require Import AbstractState Behaviour StateSequence.

(** ** Pending transitions *)

(** A [std::map] from runners to transitions. *)
Abbreviation pending_transitions := (gmap runner_id_t transition) (only parsing).

Definition get_transition_for_runner (next_steps : gmap runner_id_t transition) (id : runner_id_t) : option transition :=
  next_steps !! id.
(** [replace_unowned] returns the old transition, [nullptr] if there was none. *)
Definition replace_unowned (new_transition : transition) (next_steps : gmap runner_id_t transition) : option transition * gmap runner_id_t transition :=
  (next_steps !! get_executor new_transition, <[get_executor new_transition := new_transition]> next_steps).
Definition set_transition (new_transition : transition) (next_steps : gmap runner_id_t transition) : gmap runner_id_t transition :=
  (replace_unowned new_transition next_steps).2.

(** ** Transition sequences *)

(** [None] is the null pointer that [extract_at] leaves behind. *)
Abbreviation transition_sequence := (list (option transition)) (only parsing).

Definition trace_push (t : option transition) (contents : list (option transition)) : list (option transition) :=
  contents ++ [t].
Definition trace_at (contents : list (option transition)) (i : N) : res (option transition) :=
  vec_at contents i.
Definition extract_at (i : N) (contents : list (option transition)) : res (option transition * list (option transition)) :=
  result ← vec_at contents i;
  Ok (result, <[N.to_nat i := None]> contents).
Definition trace_consume_into_subsequence (depth : N) (contents : list (option transition)) : list (option transition) :=
  if bool_decide (depth ≤ N.of_nat (length contents))%N then take (N.to_nat depth) contents else contents.

(** ** Programs *)

Record program := Program {
  state_seq : state_sequence;
  trace : list (option transition);
  next_steps : gmap runner_id_t transition;
}.

(** [program(const state &, pending_transitions &&)] *)
Definition new_program {S} `{State S} (initial_state : S) (initial_first_steps : gmap runner_id_t transition) : res program :=
  ss ← state_sequence_of_state initial_state;
  Ok (Program ss [] initial_first_steps).

Definition starting_from_main : res program :=
  match det_add_runner (Thread running) new_detached_state with
  | (Throw e, _) => Throw e
  | (Ok main_thread_id, state_of_program_at_main) =>
      new_program state_of_program_at_main
        (set_transition (Transition main_thread_id thread_start) ∅)
  end.

Definition get_num_runners (p : program) : nat := size (next_steps p).
Definition get_pending_transition_for (p : program) (rid : runner_id_t) : option transition :=
  get_transition_for_runner (next_steps p) rid.

(** The pending transitions in the order of the [std::map]. *)
Definition pending_list (next_steps : gmap runner_id_t transition) : list (runner_id_t * transition) :=
  omap (λ r, t ← next_steps !! r; Some (r, t)) (ascending (dom next_steps)).

Definition get_enabled_runners (p : program) : res (gset runner_id_t) :=
  foldl (λ acc rt,
      enabled_runners ← acc;
      enabled ← is_enabled_in rt.2 (state_seq p);
      Ok (if enabled : bool then {[rt.1]} ∪ enabled_runners else enabled_runners))
    (Ok ∅) (pending_list (next_steps p)).

(** The first loop of [restore_model_at_depth].  [i] counts down from
[trace.count() - 1] as a [uint32_t]; [fuel] bounds its iterations. *)
Fixpoint runner_to_index_from_top (fuel : nat) (i bound : N) (trace : list (option transition))
    (m : gmap runner_id_t N) : res (gmap runner_id_t N) :=
  match fuel with
  | O => Ok m
  | S fuel =>
      if bool_decide (bound < i)%N && negb (bool_decide (trace = [])) then
        t ← vec_at trace i;
        t ← deref t;
        runner_to_index_from_top fuel (u32 (i + (2^32 - 1))) bound trace (<[get_executor t := i]> m)
      else Ok m
  end.

(** The second loop: the transitions found move from the trace to the next
steps. *)
Fixpoint restore_next_steps (l : list (runner_id_t * N)) (trace : list (option transition))
    (next_steps : gmap runner_id_t transition) : res (list (option transition) * gmap runner_id_t transition) :=
  match l with
  | [] => Ok (trace, next_steps)
  | (_, i) :: l =>
      '(t, trace) ← extract_at i trace;
      t ← deref t;
      restore_next_steps l trace (set_transition t next_steps)
  end.

Definition restore_model_at_depth (n : N) (p : program) : res program :=
  m ← runner_to_index_from_top (S (length (trace p)))
        (u32 (N.of_nat (length (trace p)) + (2^64 - 1))) (u32 (n + (2^32 - 1))) (trace p) ∅;
  '(tr, steps) ← restore_next_steps (map_to_list m) (trace p) (next_steps p);
  match seq_consume_into_subsequence (N.to_nat (u32 (n + 1))) (state_seq p) with
  | (Throw e, _) => Throw e
  | (Ok _, ss) => Ok (Program ss (trace_consume_into_subsequence n tr) steps)
  end.

Definition model_execution_of (p : runner_id_t) (npo : transition) : eff program unit := λ prog,
  if bool_decide (p ≠ get_executor npo) then (Throw (RuntimeError WrongRunner), prog)
  else match get_transition_for_runner (next_steps prog) p with
  | None => (Throw (RuntimeError UnknownRunner), prog)
  | Some next_s_p =>
      match follow next_s_p (state_seq prog) with
      | (Throw e, ss) => (Throw e, Program ss (trace prog) (next_steps prog))
      | (Ok disabled, ss) =>
          (Throw (RuntimeError DisabledTransition), Program ss (trace prog) (next_steps prog))
      | (Ok undefined, ss) =>
          (Throw (RuntimeError UndefinedTransition), Program ss (trace prog) (next_steps prog))
      | (Ok exists_, ss) =>
          let '(old, steps) := replace_unowned npo (next_steps prog) in
          (Ok tt, Program ss (trace_push old (trace prog)) steps)
      end
  end.

Definition set_state_seq (ss : state_sequence) (p : program) : program :=
  Program ss (trace p) (next_steps p).
Definition discover_object (initial_state : visible_object_state) : eff program objid_t :=
  zoom state_seq set_state_seq (seq_add_object initial_state).
(** [discover_runner(initial_state, f)] *)
Definition discover_runner (initial_state : thread) (f : runner_id_t → transition) : eff program runner_id_t :=
  let! id := zoom state_seq set_state_seq (seq_add_runner initial_state) in
  λ p, (Ok id, Program (state_seq p) (trace p) (set_transition (f id) (next_steps p))).
(** [discover_runner(initial_state, next_transition)] *)
Definition discover_runner_with (initial_state : thread) (next_transition : transition) : eff program runner_id_t :=
  discover_runner initial_state (λ _, next_transition).

Fixpoint any_enabled (l : list (runner_id_t * transition)) (ss : state_sequence) : res bool :=
  match l with
  | [] => Ok false
  | rt :: l =>
      enabled ← is_enabled_in rt.2 ss;
      if enabled : bool then Ok true else any_enabled l ss
  end.
Fixpoint all_exited (l : list (runner_id_t * transition)) (ss : state_sequence) : res bool :=
  match l with
  | [] => Ok true
  | rt :: l =>
      th ← seq_get_state_of_runner ss rt.1;
      rest ← all_exited l ss;
      Ok (has_exited th && rest)
  end.
Definition is_in_deadlock (p : program) : res bool :=
  if bool_decide (next_steps p = ∅) then Ok false
  else
    enabled ← any_enabled (pending_list (next_steps p)) (state_seq p);
    if enabled : bool then Ok false
    else negb <$> all_exited (pending_list (next_steps p)) (state_seq p).

(** ** Well-formed programs *)

Record prog_ok (p : program) : Prop := ProgOk {
  po_seq : wf_seq (state_seq p);
  po_length : length (states_in_sequence (state_seq p)) = S (length (trace p));
  po_trace : ∃ ts, trace p = Some <$> ts;
  po_pending : ∀ r t, next_steps p !! r = Some t → executor t = r;
}.

(** The current state of the model. *)
Definition current (p : program) (a : astate) : Prop := last (abs_states (state_seq p)) = Some a.

Lemma current_element p a :
  current p a → ∃ el, last (states_in_sequence (state_seq p)) = Some el ∧ a = abs_element (state_seq p) el.
Proof.
  unfold current, abs_states. rewrite fmap_last. intros (el & ? & ?)%fmap_Some. eauto.
Qed.

Lemma length_abs_states ss : length (abs_states ss) = length (states_in_sequence ss).
Proof. apply length_fmap. Qed.

Lemma pending_insert p npo r t :
  (∀ r t, next_steps p !! r = Some t → executor t = r) →
  <[get_executor npo := npo]> (next_steps p) !! r = Some t → executor t = r.
Proof. intros Hp. rewrite lookup_insert_Some. intros [[<- <-]|[_ ?]]; [done|by apply Hp]. Qed.

(** Executing the pending transition of a runner. *)
Lemma model_execution_step prog p npo t a :
  prog_ok prog → room (state_seq prog) → current prog a → wf a →
  next_steps prog !! p = Some t → typed t a → get_executor npo = p →
  ∃ a' st prog', astep t a = Ok (a', st) ∧ prog_ok prog' ∧
    model_execution_of p npo prog =
      (if decide (st = exists_) then Ok tt else Throw (RuntimeError DisabledTransition), prog') ∧
    if decide (st = exists_) then
      trace prog' = trace prog ++ [Some t] ∧ next_steps prog' = <[p := npo]> (next_steps prog) ∧
      abs_states (state_seq prog') = abs_states (state_seq prog) ++ [with_hidden (state_seq prog) a']
    else trace prog' = trace prog ∧ next_steps prog' = next_steps prog ∧
      abs_states (state_seq prog') = abs_states (state_seq prog).
Proof.
  intros [Hseq Hlen [ts Hts] Hpend] Hroom Hcur Hwf Hp Ht <-.
  destruct (current_element prog a Hcur) as (el & Hl & ->).
  destruct (astep_safe _ t Hwf Ht) as (a' & st & Hs & _ & Hsh).
  destruct (follow_astep (state_seq prog) el t a' st Hseq Hroom Hl Hs Hsh)
    as (ss' & Hf & Hseq' & _ & _ & Habs).
  exists a', st. unfold model_execution_of, get_transition_for_runner.
  rewrite bool_decide_false by auto. rewrite Hp, Hf.
  assert (length (states_in_sequence ss') =
    length (states_in_sequence (state_seq prog)) + (if decide (st = exists_) then 1 else 0)) as Hlen'.
  { rewrite <- !length_abs_states, Habs, length_app. by destruct (decide (st = exists_)). }
  destruct (astep_status t _ a' st Hs) as [->|[-> ->]]; simpl in *.
  - eexists. split; [done|]. split; [|split; [done|]].
    + unfold trace_push. split; simpl; [done|rewrite length_app; simpl; lia| |].
      * exists (ts ++ [t]). rewrite Hts, Hp, fmap_app. done.
      * intros r t'. by apply pending_insert.
    + unfold trace_push. simpl. by rewrite Hp.
  - eexists. split; [done|]. split; [|split; [done|]].
    + split; simpl; try done; [lia|by exists ts].
    + by rewrite app_nil_r in Habs.
Qed.

(** ** Executions *)

(** Runners executed one after the other, each with the transition it runs next. *)
Inductive executes : program → list (runner_id_t * transition) → program → Prop :=
  | executes_nil prog : executes prog [] prog
  | executes_cons prog a p npo t prog1 l prog2 :
      current prog a → wf a → typed t a → room (state_seq prog) → next_steps prog !! p = Some t →
      model_execution_of p npo prog = (Ok tt, prog1) → executes prog1 l prog2 →
      executes prog ((p, npo) :: l) prog2.

(** The first transition of runner [r] in a list. *)
Fixpoint first_of (r : runner_id_t) (ts : list transition) : option transition :=
  match ts with
  | [] => None
  | t :: ts => if decide (executor t = r) then Some t else first_of r ts
  end.

Lemma model_execution_executor p npo prog prog' :
  model_execution_of p npo prog = (Ok tt, prog') → get_executor npo = p.
Proof. unfold model_execution_of. case_bool_decide as Hne; [done|]. by intros _. Qed.

Lemma executes_spec prog l prog' :
  executes prog l prog' → prog_ok prog →
  prog_ok prog' ∧ ∃ ts, trace prog' = trace prog ++ (Some <$> ts) ∧
    (∀ r, next_steps prog !! r =
       match first_of r ts with Some t => Some t | None => next_steps prog' !! r end) ∧
    take (length (abs_states (state_seq prog))) (abs_states (state_seq prog')) =
      abs_states (state_seq prog).
Proof.
  induction 1 as [prog|prog a p npo t prog1 l prog2 Hcur Hwf Ht Hroom Hp Hex Hrun IH]; intros Hok.
  { split; [done|]. exists []. rewrite app_nil_r, firstn_all. done. }
  pose proof (model_execution_executor _ _ _ _ Hex) as Hnpo.
  destruct (model_execution_step prog p npo t a Hok Hroom Hcur Hwf Hp Ht Hnpo)
    as (a' & st & prog1' & Hs & Hok1 & Hex' & Hres).
  rewrite Hex in Hex'. destruct (decide (st = exists_)); [|done]. injection Hex' as <-.
  destruct Hres as (Htr & Hns & Habs). destruct (IH Hok1) as (Hok2 & ts & Htr2 & Hns2 & Habs2).
  split; [done|]. exists (t :: ts). split_and!.
  - by rewrite Htr2, Htr, <- app_assoc.
  - intros r. simpl. pose proof (po_pending prog Hok p t Hp) as He. rewrite He. case_decide as Hr.
    + by subst.
    + rewrite <- Hns2, Hns. by rewrite lookup_insert_ne.
  - rewrite Habs in Habs2. rewrite length_app in Habs2.
    apply (f_equal (take (length (abs_states (state_seq prog))))) in Habs2.
    rewrite take_take, take_app_length in Habs2. etrans; [|exact Habs2]. f_equal. simpl. lia.
Qed.

(** ** [restore_model_at_depth] *)

Fixpoint first_index (r : runner_id_t) (ts : list transition) (off : N) : option N :=
  match ts with
  | [] => None
  | t :: ts => if decide (executor t = r) then Some off else first_index r ts (off + 1)%N
  end.

Lemma first_index_app r ts1 ts2 off :
  first_index r (ts1 ++ ts2) off =
  match first_index r ts1 off with
  | Some i => Some i
  | None => first_index r ts2 (off + N.of_nat (length ts1))%N
  end.
Proof.
  revert off; induction ts1 as [|t ts1 IH]; intros off; simpl.
  { by rewrite N.add_0_r. }
  case_decide; [done|]. rewrite IH. destruct (first_index r ts1 _); [done|]. f_equal. lia.
Qed.

Lemma first_index_lookup r ts off i :
  first_index r ts off = Some i →
  ∃ k t, i = (off + N.of_nat k)%N ∧ ts !! k = Some t ∧ executor t = r ∧ first_of r ts = Some t.
Proof.
  revert off; induction ts as [|t ts IH]; intros off; simpl; [done|].
  case_decide as Hr.
  - intros [= <-]. exists 0, t. simpl. split_and!; [lia|done..].
  - intros (k & t' & -> & Hk & He & Hf)%IH. exists (S k), t'. split_and!; [lia|done..].
Qed.

Lemma first_index_None r ts off : first_index r ts off = None → first_of r ts = None.
Proof. revert off; induction ts as [|t ts IH]; intros off; simpl; [done|]. case_decide; [done|apply IH]. Qed.

(** The backward loop finds the first occurrence of every runner. *)
Lemma index_loop k fuel i bound ts m :
  k < fuel → i = (bound + N.of_nat k)%N → (i < 2^32)%N → N.to_nat i < length ts →
  ∃ m', runner_to_index_from_top fuel i bound (Some <$> ts) m = Ok m' ∧
    ∀ r, m' !! r = match first_index r (take k (drop (S (N.to_nat bound)) ts)) (bound + 1) with
                   | Some j => Some j | None => m !! r end.
Proof.
  revert fuel i m; induction k as [|k IH]; intros fuel i m Hfuel -> Hi Hlen;
    (destruct fuel as [|fuel]; [lia|]); simpl.
  - rewrite bool_decide_false by lia. simpl. by exists m.
  - rewrite bool_decide_true by lia. rewrite bool_decide_false.
    2:{ intros Hn. apply fmap_nil_inv in Hn. subst. simpl in Hlen. lia. }
    cbn [andb negb].
    destruct (lookup_lt_is_Some_2 ts _ Hlen) as [t Ht].
    unfold vec_at at 1. rewrite list_lookup_fmap, Ht. simpl.
    assert (u32 (bound + N.of_nat (S k) + (2 ^ 32 - 1)) = bound + N.of_nat k)%N as ->.
    { unfold u32. replace (bound + N.of_nat (S k) + (2 ^ 32 - 1))%N
        with (bound + N.of_nat k + 1 * 2^32)%N by lia.
      rewrite N.Div0.mod_add, N.mod_small by lia. done. }
    destruct (IH fuel (bound + N.of_nat k)%N (<[get_executor t := (bound + N.of_nat (S k))%N]> m))
      as (m' & Hm' & Hlook); [lia..|].
    exists m'. split; [done|]. intros r. rewrite Hlook.
    rewrite (take_S_r (drop _ ts) k t).
    2:{ rewrite lookup_drop. rewrite <- Ht. f_equal. lia. }
    rewrite first_index_app. destruct (first_index r (take k _) _) as [j|]; [done|].
    rewrite length_take, length_drop. simpl. unfold get_executor. case_decide as Hr.
    + subst. rewrite lookup_insert_eq. f_equal. lia.
    + by rewrite lookup_insert_ne.
Qed.

(** The second loop moves the transitions found. *)
Lemma restore_next_steps_spec l tr steps :
  NoDup l.*1 →
  (∀ r i, (r, i) ∈ l → ∃ t, tr !! N.to_nat i = Some (Some t) ∧ executor t = r) →
  ∃ tr' steps', restore_next_steps l tr steps = Ok (tr', steps') ∧ length tr' = length tr ∧
    (∀ j, (∀ r i, (r, i) ∈ l → j ≠ N.to_nat i) → tr' !! j = tr !! j) ∧
    (∀ r, r ∉ l.*1 → steps' !! r = steps !! r) ∧
    (∀ r i, (r, i) ∈ l → ∃ t, tr !! N.to_nat i = Some (Some t) ∧ steps' !! r = Some t).
Proof.
  revert tr steps; induction l as [|[r0 i0] l IH]; intros tr steps Hnd Hall; simpl.
  { exists tr, steps. split_and!; try done. by intros ?? ?%not_elem_of_nil. }
  simpl in Hnd. apply NoDup_cons in Hnd as [Hnin Hnd].
  destruct (Hall r0 i0) as (t0 & Ht0 & He0); [by left|].
  unfold extract_at, vec_at. rewrite Ht0. simpl.
  destruct (IH (<[N.to_nat i0 := None]> tr) (set_transition t0 steps) Hnd)
    as (tr' & steps' & Hres & Hlen & Htr & Hkeep & Hset).
  { intros r i Hin. destruct (Hall r i) as (t & Ht & He); [by right|]. exists t. split; [|done].
    rewrite list_lookup_insert_ne; [done|]. intros Heq.
    rewrite Heq, Ht in Ht0. injection Ht0 as <-. apply Hnin. rewrite <- He0, He.
    apply list_elem_of_fmap. by exists (r, i). }
  assert (∀ r, set_transition t0 steps !! r = if decide (r = r0) then Some t0 else steps !! r) as Hst.
  { intros r. unfold set_transition, replace_unowned, get_executor. simpl. rewrite He0.
    case_decide; subst; [by rewrite lookup_insert_eq|by rewrite lookup_insert_ne]. }
  exists tr', steps'. split; [done|]. split; [by rewrite Hlen, length_insert|]. split_and!.
  - intros j Hj. rewrite Htr.
    + rewrite list_lookup_insert_ne; [done|]. intros ?. by apply (Hj r0 i0); [left|].
    + intros r i Hin. apply (Hj r i). by right.
  - intros r Hr. simpl in Hr. apply not_elem_of_cons in Hr as [Hr1 Hr2].
    rewrite Hkeep by done. by rewrite Hst, decide_False.
  - intros r i Hin. apply elem_of_cons in Hin as [[= -> ->]|Hin].
    + exists t0. split; [done|]. rewrite Hkeep by done. by rewrite Hst, decide_True.
    + destruct (Hset r i Hin) as (t & Ht & Hs). destruct (Hall r i) as (t' & Ht' & He'); [by right|].
      exists t'. split; [done|]. rewrite Hs. f_equal.
      destruct (decide (N.to_nat i0 = N.to_nat i)) as [Heq|Hne].
      * rewrite list_lookup_insert_Some in Ht. destruct Ht as [(_ & ? & _)|(? & _)]; [done|congruence].
      * rewrite list_lookup_insert_ne in Ht by done. congruence.
Qed.

Lemma first_index_of r ts off : first_index r ts off = None ↔ first_of r ts = None.
Proof.
  split; [apply first_index_None|]. intros Hf.
  destruct (first_index r ts off) as [i|] eqn:E; [|done].
  apply first_index_lookup in E as (k & t & _ & _ & _ & Ht). congruence.
Qed.

Lemma u32_pred n : (1 ≤ n < 2^32)%N → u32 (n + (2^32 - 1)) = (n - 1)%N.
Proof.
  intros Hn. unfold u32. replace (n + (2 ^ 32 - 1))%N with (n - 1 + 1 * 2^32)%N by lia.
  rewrite N.Div0.mod_add. apply N.mod_small. lia.
Qed.
Lemma u32_pred64 n : (1 ≤ n < 2^32)%N → u32 (n + (2^64 - 1)) = (n - 1)%N.
Proof.
  intros Hn. unfold u32. replace (n + (2 ^ 64 - 1))%N with (n - 1 + 2^32 * 2^32)%N by lia.
  rewrite N.Div0.mod_add. apply N.mod_small. lia.
Qed.

Lemma first_index_segment ts n r off i :
  first_index r (drop n ts) off = Some i → off = N.of_nat n →
  ∃ t, ts !! N.to_nat i = Some t ∧ executor t = r ∧ first_of r (drop n ts) = Some t ∧ n ≤ N.to_nat i.
Proof.
  intros (k & t & -> & Hk & He & Hf)%first_index_lookup ->.
  rewrite lookup_drop in Hk. exists t. split_and!; try done; [|lia].
  rewrite <- Hk. f_equal. lia.
Qed.

(** The map of the backward loop: each runner's first transition from [n] on. *)
Lemma index_from_top ts n :
  1 ≤ n ≤ length ts → (N.of_nat (length ts) < 2^32 - 1)%N →
  ∃ m, runner_to_index_from_top (S (length ts)) (u32 (N.of_nat (length ts) + (2^64 - 1)))
         (u32 (N.of_nat n + (2^32 - 1))) (Some <$> ts) ∅ = Ok m ∧
    ∀ r, m !! r = first_index r (drop n ts) (N.of_nat n).
Proof.
  intros Hn Hmax. rewrite u32_pred, u32_pred64 by lia.
  destruct (index_loop (length ts - n) (S (length ts)) (N.of_nat (length ts) - 1) (N.of_nat n - 1) ts ∅)
    as (m & Hm & Hlook); [lia..|]. exists m. split; [done|]. intros r. rewrite Hlook, lookup_empty.
  replace (S (N.to_nat (N.of_nat n - 1))) with n by lia.
  replace (N.of_nat n - 1 + 1)%N with (N.of_nat n) by lia.
  rewrite take_ge by (rewrite length_drop; lia). by destruct (first_index _ _ _).
Qed.

(** With that map, the second loop gives back the next steps at depth [n] and
leaves the trace before [n]. *)
Lemma restore_from_index ts n m steps :
  (∀ r, m !! r = first_index r (drop n ts) (N.of_nat n)) →
  ∃ tr' steps', restore_next_steps (map_to_list m) (Some <$> ts) steps = Ok (tr', steps') ∧
    take n tr' = Some <$> take n ts ∧ length tr' = length ts ∧
    ∀ r, steps' !! r = match first_of r (drop n ts) with Some t => Some t | None => steps !! r end.
Proof.
  intros Hm.
  assert (∀ r i, (r, i) ∈ map_to_list m → ∃ t, ts !! N.to_nat i = Some t ∧ executor t = r ∧
    first_of r (drop n ts) = Some t ∧ n ≤ N.to_nat i) as Hentry.
  { intros r i Hin%elem_of_map_to_list. rewrite Hm in Hin. by eapply first_index_segment. }
  destruct (restore_next_steps_spec (map_to_list m) (Some <$> ts) steps)
    as (tr' & steps' & Hres & Hlen & Htr & Hkeep & Hset).
  { apply NoDup_fst_map_to_list. }
  { intros r i Hin. destruct (Hentry r i Hin) as (t & Ht & He & _). exists t.
    by rewrite list_lookup_fmap, Ht. }
  exists tr', steps'. split_and!; [done| |by rewrite Hlen, length_fmap|].
  - apply list_eq. intros j. rewrite list_lookup_fmap, !lookup_take. case_decide as Hj; [|done].
    rewrite Htr; [by rewrite list_lookup_fmap|].
    intros r i Hin. destruct (Hentry r i Hin) as (_ & _ & _ & _ & Hle). lia.
  - intros r. destruct (m !! r) as [i|] eqn:Hr.
    + apply elem_of_map_to_list in Hr. destruct (Hset r i Hr) as (t & Ht & ->).
      destruct (Hentry r i Hr) as (t' & Ht' & _ & -> & _).
      rewrite list_lookup_fmap, Ht' in Ht. simpl in Ht. congruence.
    + rewrite Hkeep.
      * rewrite Hm in Hr. by rewrite (first_index_None _ _ _ Hr).
      * intros ((r' & i) & -> & Hin)%list_elem_of_fmap. simpl in Hr.
        apply elem_of_map_to_list in Hin. congruence.
Qed.

Lemma first_of_executor r ts t : first_of r ts = Some t → executor t = r.
Proof. induction ts as [|t0 ts IH]; simpl; [done|]. case_decide; [congruence|done]. Qed.

(** Restoring a depth other than 0. *)
Lemma restore_ok prog ts n :
  prog_ok prog → fits (state_seq prog) → trace prog = Some <$> ts →
  1 ≤ n ≤ length ts → (N.of_nat (length ts) < 2^32 - 1)%N →
  ∃ prog', restore_model_at_depth (N.of_nat n) prog = Ok prog' ∧ prog_ok prog' ∧
    trace prog' = Some <$> take n ts ∧
    (∀ r, next_steps prog' !! r =
       match first_of r (drop n ts) with Some t => Some t | None => next_steps prog !! r end) ∧
    abs_states (state_seq prog') = take (S n) (abs_states (state_seq prog)).
Proof.
  intros [Hseq Hlen _ Hpend] Hf Hts Hn Hmax. unfold restore_model_at_depth. rewrite Hts, length_fmap.
  destruct (index_from_top ts n Hn Hmax) as (m & -> & Hm). cbn [mbind res_bind].
  destruct (restore_from_index ts n m (next_steps prog) Hm) as (tr' & steps' & -> & Htr & Hlen' & Hsteps).
  cbn [mbind res_bind].
  assert (N.to_nat (u32 (N.of_nat n + 1)) = S n) as ->.
  { unfold u32. rewrite N.mod_small by lia. lia. }
  destruct (consume_take (state_seq prog) (S n) Hseq Hf) as (ss' & Hc & Hseq' & Habs & Hst & _); [done|].
  rewrite Hc. eexists. split; [done|].
  assert (trace_consume_into_subsequence (N.of_nat n) tr' = Some <$> take n ts) as Htrace.
  { unfold trace_consume_into_subsequence. rewrite bool_decide_true by lia. by rewrite Nat2N.id. }
  split_and!; simpl; try done. split; simpl; try done.
  - rewrite Hts, length_fmap in Hlen. rewrite Hst, length_take, Htrace, length_fmap, length_take. lia.
  - eauto.
  - intros r t Ht. rewrite Hsteps in Ht. destruct (first_of r (drop n ts)) as [t'|] eqn:Hfo.
    + injection Ht as <-. by eapply first_of_executor.
    + by apply Hpend.
Qed.

(** Whatever the states, restoring cuts the trace and gives back the next steps. *)
Lemma restore_cuts prog ts n prog' :
  trace prog = Some <$> ts → 1 ≤ n ≤ length ts → (N.of_nat (length ts) < 2^32 - 1)%N →
  restore_model_at_depth (N.of_nat n) prog = Ok prog' → trace prog' = Some <$> take n ts ∧
    ∀ r, next_steps prog' !! r =
      match first_of r (drop n ts) with Some t => Some t | None => next_steps prog !! r end.
Proof.
  intros Hts Hn Hmax. unfold restore_model_at_depth. rewrite Hts, length_fmap.
  destruct (index_from_top ts n Hn Hmax) as (m & -> & Hm). cbn [mbind res_bind].
  destruct (restore_from_index ts n m (next_steps prog) Hm) as (tr' & steps' & -> & Htr & Hlen' & Hsteps).
  cbn [mbind res_bind]. destruct (seq_consume_into_subsequence _ _) as [[[]|] ss]; [|done]. intros [= <-].
  split; [|exact Hsteps]. cbn [trace]. unfold trace_consume_into_subsequence. rewrite bool_decide_true by lia. by rewrite Nat2N.id.
Qed.

(** ** Enabled runners and deadlocks *)

(** A program about to execute: its current state is well-formed and suits the
next step of every runner. *)
Record ready (p : program) (a : astate) : Prop := Ready {
  rd_ok : prog_ok p;
  rd_current : current p a;
  rd_wf : wf a;
  rd_typed : ∀ r t, next_steps p !! r = Some t → typed t a;
}.
Definition enabled_at (a : astate) (t : transition) : Prop := ∃ a', astep t a = Ok (a', exists_).

Lemma elem_of_pending_list m r t : (r, t) ∈ pending_list m ↔ m !! r = Some t.
Proof.
  unfold pending_list. rewrite list_elem_of_omap. setoid_rewrite elem_of_ascending.
  setoid_rewrite elem_of_dom. split.
  - intros (r' & _ & Hr). destruct (m !! r') eqn:Hm; simpl in Hr; [|done]. by injection Hr as <- <-.
  - intros Hm. exists r. rewrite Hm. eauto.
Qed.

Lemma ready_enabled p a r t :
  ready p a → next_steps p !! r = Some t →
  ∃ b : bool, is_enabled_in t (state_seq p) = Ok b ∧ (b = true ↔ enabled_at a t).
Proof.
  intros [Hok Hcur Hwf Ht] Hr. destruct (current_element p a Hcur) as (el & Hl & ->).
  pose proof (apply_to_astep _ _ t (sequence_represents _ _ Hl)) as Happ.
  destruct (astep_safe _ t Hwf (Ht r t Hr)) as (a' & st & Hs & _). rewrite Hs in Happ.
  unfold is_enabled_in, enabled_at. destruct (apply_to t (state_seq p)) as [[d st']|]; [|done].
  destruct Happ as [-> _]. eexists. split; [done|]. simpl. rewrite bool_decide_eq_true, Hs.
  split; [intros ->; eauto|]. by intros [? [= _ ?]].
Qed.

Lemma ready_thread p a r t :
  ready p a → next_steps p !! r = Some t →
  ∃ th, thread_of a r = Ok th ∧ seq_get_state_of_runner (state_seq p) r = Ok th.
Proof.
  intros [Hok Hcur Hwf Ht] Hr. destruct (current_element p a Hcur) as (el & Hl & ->).
  destruct (Ht r t Hr) as [He _]. rewrite (po_pending p Hok r t Hr) in He.
  destruct (runner_object _ r Hwf He) as [_ [th Hth]]. exists th. split; [done|].
  destruct (sequence_represents _ _ Hl) as (_ & Hrun & _).
  by rewrite <- Hth, <- Hrun.
Qed.

Definition add_enabled (ss : state_sequence) (acc : res (gset runner_id_t)) (rt : runner_id_t * transition) :=
  enabled_runners ← acc;
  enabled ← is_enabled_in rt.2 ss;
  Ok (if enabled : bool then {[rt.1]} ∪ enabled_runners else enabled_runners).

Lemma add_enabled_loop p a l acc :
  ready p a → (∀ r t, (r, t) ∈ l → next_steps p !! r = Some t) →
  ∃ en, foldl (add_enabled (state_seq p)) (Ok acc) l = Ok en ∧
    ∀ r, r ∈ en ↔ r ∈ acc ∨ ∃ t, (r, t) ∈ l ∧ enabled_at a t.
Proof.
  intros Hrd. revert acc; induction l as [|[r0 t0] l IH]; intros acc Hl; simpl.
  { exists acc. split; [done|]. intros r. split; [by left|]. by intros [?|(? & ?%not_elem_of_nil & _)]. }
  destruct (ready_enabled p a r0 t0 Hrd) as (b & Hb & Hen); [apply Hl; left|].
  rewrite Hb. simpl. destruct (IH (if b then {[r0]} ∪ acc else acc)) as (en & Hf & Hin).
  { intros r t Hrt. apply Hl. by right. }
  exists en. split; [done|]. intros r. rewrite Hin. setoid_rewrite elem_of_cons. destruct b.
  - rewrite elem_of_union, elem_of_singleton. naive_solver.
  - assert (¬ enabled_at a t0) by (intros ?%Hen; done). naive_solver.
Qed.

Lemma any_enabled_spec p a l :
  ready p a → (∀ r t, (r, t) ∈ l → next_steps p !! r = Some t) →
  ∃ b, any_enabled l (state_seq p) = Ok b ∧ (b = true ↔ ∃ r t, (r, t) ∈ l ∧ enabled_at a t).
Proof.
  intros Hrd. induction l as [|[r0 t0] l IH]; intros Hl; simpl.
  { exists false. split; [done|]. split; [done|]. by intros (? & ? & ?%not_elem_of_nil & _). }
  destruct (ready_enabled p a r0 t0 Hrd) as (b & -> & Hen); [apply Hl; left|]. simpl.
  destruct IH as (b' & -> & Hb'). { intros r t Hrt. apply Hl. by right. }
  setoid_rewrite elem_of_cons. destruct b.
  - exists true. split; [done|]. naive_solver.
  - exists b'. split; [done|]. rewrite Hb'.
    assert (¬ enabled_at a t0) by (intros ?%Hen; done). naive_solver.
Qed.

Lemma all_exited_spec p a l :
  ready p a → (∀ r t, (r, t) ∈ l → next_steps p !! r = Some t) →
  ∃ b, all_exited l (state_seq p) = Ok b ∧
    (b = false ↔ ∃ r t th, (r, t) ∈ l ∧ thread_of a r = Ok th ∧ has_exited th = false).
Proof.
  intros Hrd. induction l as [|[r0 t0] l IH]; intros Hl; simpl.
  { exists true. split; [done|]. split; [done|]. by intros (? & ? & ? & ?%not_elem_of_nil & _). }
  destruct (ready_thread p a r0 t0 Hrd) as (th & Hth & ->); [apply Hl; left|]. simpl.
  destruct IH as (b' & -> & Hb'). { intros r t Hrt. apply Hl. by right. }
  eexists. split; [done|]. rewrite andb_false_iff, Hb'. setoid_rewrite elem_of_cons. split.
  - intros [Hex|(r & t & th' & ? & ? & ?)]; [exists r0, t0, th|exists r, t, th']; auto.
  - intros (r & t & th' & [[= -> ->]|Hin] & Hr & Hx); [left; congruence|right; eauto 6].
Qed.

(** ** Theorems *)

(** The enabled runners.  [get_enabled_runners] succeeds and gives exactly the
runners whose next step has an effect in the current state. *)
Theorem get_enabled_runners_spec p a :
  ready p a →
  ∃ en, get_enabled_runners p = Ok en ∧
    ∀ r, r ∈ en ↔ ∃ t, next_steps p !! r = Some t ∧ enabled_at a t.
Proof.
  intros Hrd. destruct (add_enabled_loop p a (pending_list (next_steps p)) ∅ Hrd) as (en & Hen & Hin).
  { intros r t. apply elem_of_pending_list. }
  exists en. split; [exact Hen|]. intros r. rewrite Hin. setoid_rewrite elem_of_pending_list. set_solver.
Qed.

(** Deadlocks.  [is_in_deadlock] succeeds, and it answers yes exactly when some
runner has a next step and has not exited, and no next step of any runner has an
effect in the current state. *)
Theorem is_in_deadlock_spec p a :
  ready p a →
  ∃ b, is_in_deadlock p = Ok b ∧
    (b = true ↔
     (∃ r t th, next_steps p !! r = Some t ∧ thread_of a r = Ok th ∧ has_exited th = false) ∧
     ∀ r t, next_steps p !! r = Some t → ¬ enabled_at a t).
Proof.
  intros Hrd. unfold is_in_deadlock. case_bool_decide as Hnil.
  { exists false. split; [done|]. split; [done|]. intros [(r & t & th & Hr & _) _].
    by rewrite Hnil, lookup_empty in Hr. }
  destruct (any_enabled_spec p a (pending_list (next_steps p)) Hrd) as (b & -> & Hb).
  { intros r t. apply elem_of_pending_list. }
  destruct (all_exited_spec p a (pending_list (next_steps p)) Hrd) as (b' & -> & Hb').
  { intros r t. apply elem_of_pending_list. }
  setoid_rewrite elem_of_pending_list in Hb. setoid_rewrite elem_of_pending_list in Hb'. simpl. destruct b.
  - exists false. split; [done|]. split; [done|]. intros [_ Hno].
    destruct Hb as [(r & t & Hr & He) _]; [done|]. by destruct (Hno r t Hr).
  - exists (negb b'). split; [done|]. rewrite negb_true_iff, Hb'. split; [|by intros [? _]].
    intros Hlive. split; [done|]. intros r t Hr He. by assert (false = true) by (apply Hb; eauto).
Qed.

(** C4: executing a runner, on every branch.  [model_execution_of] refuses a next
operation of another runner and an unknown runner without touching the model; a
disabled transition is refused and nothing changes; otherwise the trace gains the
pending transition, the runner's next step is replaced, and the state sequence
gains the state the transition leads to. *)
Theorem model_execution_of_spec prog p npo a :
  prog_ok prog → room (state_seq prog) → current prog a → wf a →
  (∀ t, next_steps prog !! p = Some t → typed t a) →
  (get_executor npo ≠ p → model_execution_of p npo prog = (Throw (RuntimeError WrongRunner), prog)) ∧
  (get_executor npo = p → next_steps prog !! p = None →
     model_execution_of p npo prog = (Throw (RuntimeError UnknownRunner), prog)) ∧
  ∀ t, get_executor npo = p → next_steps prog !! p = Some t →
    ∃ a' st prog', astep t a = Ok (a', st) ∧ prog_ok prog' ∧
      model_execution_of p npo prog =
        (if decide (st = exists_) then Ok tt else Throw (RuntimeError DisabledTransition), prog') ∧
      if decide (st = exists_) then
        trace prog' = trace prog ++ [Some t] ∧ next_steps prog' = <[p := npo]> (next_steps prog) ∧
        abs_states (state_seq prog') = abs_states (state_seq prog) ++ [with_hidden (state_seq prog) a']
      else trace prog' = trace prog ∧ next_steps prog' = next_steps prog ∧
        abs_states (state_seq prog') = abs_states (state_seq prog).
Proof.
  intros Hok Hroom Hcur Hwf Htyped. split_and!.
  - intros Hne. unfold model_execution_of. by rewrite bool_decide_true by auto.
  - intros He Hp. unfold model_execution_of, get_transition_for_runner.
    rewrite bool_decide_false by auto. by rewrite Hp.
  - intros t He Hp. eapply model_execution_step; eauto.
Qed.

(** C5: restoring undoes executions.  After any sequence of executions from a
program that has executed something already, [restore_model_at_depth] of the old
depth brings back the old trace, the old next step of every runner and the
meaning of every old state: after restoring depth [n] the last state is the one before the
transition of index [n], [s_n] where [t_i] leads from [s_i] to [s_(i+1)]. *)
Theorem restore_undoes_executions prog l prog' :
  prog_ok prog → executes prog l prog' → fits (state_seq prog') →
  length (trace prog) ≠ 0 → (N.of_nat (length (trace prog')) < 2^32 - 1)%N →
  ∃ prog'', restore_model_at_depth (N.of_nat (length (trace prog))) prog' = Ok prog'' ∧
    prog_ok prog'' ∧ trace prog'' = trace prog ∧ next_steps prog'' = next_steps prog ∧
    abs_states (state_seq prog'') = abs_states (state_seq prog).
Proof.
  intros Hok Hex Hf Hne Hmax.
  destruct (executes_spec _ _ _ Hex Hok) as (Hok' & ts & Htr & Hns & Habs).
  destruct (po_trace prog Hok) as [ts0 Hts0].
  rewrite Hts0 in *. rewrite length_fmap in *. rewrite <- fmap_app in Htr.
  rewrite Htr, length_fmap in Hmax.
  destruct (restore_ok prog' (ts0 ++ ts) (length ts0) Hok' Hf Htr)
    as (prog'' & Hres & Hok'' & Htr'' & Hns'' & Habs''); [rewrite length_app; lia|done|].
  rewrite take_app_length in Htr''. rewrite drop_app_length in Hns''.
  exists prog''. split_and!; try done.
  - apply map_eq. intros r. by rewrite Hns'', Hns.
  - rewrite Habs'', <- Habs at 1. f_equal.
    rewrite length_abs_states, (po_length prog Hok), Hts0. by rewrite length_fmap.
Qed.

(** The program before its first step: one running main thread. *)
Definition main_objects : state_sequence :=
  StateSequence (InjectiveFunction {[0%N := 0%N]} {[0%N := 0%N]}) [[VThread (Thread running)]] [].
Definition main_program : program :=
  Program (push_state_snapshot main_objects).2 [] {[0%N := Transition 0 thread_start]}.

Lemma main_objects_base : wf_base main_objects.
Proof.
  split; simpl.
  - intros r id. simpl. rewrite !lookup_singleton_Some. naive_solver.
  - intros r. unfold inj_size. simpl. rewrite lookup_singleton_is_Some, map_size_singleton. lia.
  - intros r id. rewrite lookup_singleton_Some. intros [<- <-]. done.
  - by repeat constructor.
Qed.
Lemma main_program_ok :
  prog_ok main_program ∧
  abs_states (state_seq main_program) =
    [AState {[0%N := VThread (Thread running)]} {[0%N := 0%N]}].
Proof.
  destruct (first_snapshot_wf main_objects main_objects_base) as [Hwf Habs];
    [by apply (bool_decide_eq_true_1 _); vm_compute|done|].
  split; [|exact Habs]. split; [exact Hwf|done|by exists []|].
  intros r t. simpl. rewrite lookup_singleton_Some. by intros [<- <-].
Qed.

(** The initial program.  [starting_from_main] succeeds and gives a well-formed
program with an empty trace, one state with a running main thread, whose next
step, to start, is the only one and is enabled. *)
Theorem starting_from_main_ok :
  ∃ p, starting_from_main = Ok p ∧ prog_ok p ∧ trace p = [] ∧
    next_steps p = {[RID_MAIN_THREAD := Transition RID_MAIN_THREAD thread_start]} ∧
    abs_states (state_seq p) = [AState {[0%N := VThread (Thread running)]} {[RID_MAIN_THREAD := 0%N]}] ∧
    get_enabled_runners p = Ok {[RID_MAIN_THREAD]} ∧ is_in_deadlock p = Ok false.
Proof.
  exists main_program. split; [by vm_compute|]. destruct main_program_ok as [Hok Habs].
  split_and!; [done..|exact Habs| |]; by vm_compute.
Qed.

(** The main thread about to start; [next] is what it does afterwards. *)
Definition main_started (next : transition) : res (program * program) :=
  p ← starting_from_main;
  match model_execution_of RID_MAIN_THREAD next p with
  | (Ok _, p') => Ok (p, p')
  | (Throw e, _) => Throw e
  end.

(** Depth 0 is not restored.  [(uint32_t)(n - 1)] is the largest [uint32_t]
for [n = 0], the loop over the trace does not run, and the next step of the main
thread stays the one it reached, although the trace is empty again. *)
Theorem restore_to_depth_zero_keeps_next_steps :
  let next := Transition RID_MAIN_THREAD (process_exit 0) in
  match main_started next with
  | Ok (p, p') =>
      next_steps p !! RID_MAIN_THREAD = Some (Transition RID_MAIN_THREAD thread_start) ∧
      match restore_model_at_depth 0 p' with
      | Ok p'' => trace p'' = [] ∧ next_steps p'' !! RID_MAIN_THREAD = Some next
      | Throw _ => False
      end
  | Throw _ => False
  end.
Proof. vm_compute. split; [|split]; reflexivity. Qed.
