(* ===== verification/Runners.v ===== *)
(** * The runners of a program and their next steps

The runners of a model are numbered from 0 without a gap, each has a next step of its
own, and the trace holds steps of theirs only ([dense]).  Executing, discovering and
going back maintain this, so the lookups of next steps in the search succeed. *)

From stdpp Require Import options.
From S2P Require Import Prelude InjectiveFunction CondPolicy Objects State Transitions.
From S2P Require Import AbstractState Behaviour StateSequence Program.

(** ** The map of runners in a sequence *)

Abbreviation runners_of ss := (inj_size (runner_to_obj_map ss)) (only parsing).

Definition same_runners : relation state_sequence := λ ss ss', runner_to_obj_map ss' = runner_to_obj_map ss.
#[export] Instance same_runners_preorder : PreOrder same_runners.
Proof. split; [done|]. intros x y z. unfold same_runners. congruence. Qed.

Lemma same_runners_representative f : preserves same_runners (update_representative_state f).
Proof.
  intros ss r ss'. unfold update_representative_state. destruct (get_representative_state ss); by intros [= <- <-].
Qed.
#[local] Hint Resolve same_runners_representative : preserves.
Lemma same_runners_add_object s : preserves same_runners (seq_add_object s).
Proof.
  intros ss r ss'. unfold seq_add_object, ebind.
  destruct (update_representative_state _ ss) as [[u|e] ss1] eqn:Hu; apply same_runners_representative in Hu;
    by intros [= <- <-].
Qed.
Lemma same_runners_push_new_state x : preserves same_runners (push_new_state x).
Proof. intros ss r ss'. unfold push_new_state. repeat case_match; by intros [= <- <-]. Qed.
Lemma same_runners_snapshot : preserves same_runners push_state_snapshot.
Proof. by intros ss r ss' [= <- <-]. Qed.
Lemma same_runners_slice_at i idx : preserves same_runners (slice_at i idx).
Proof. intros ss r ss'. unfold slice_at. destruct (vec_at _ _ ≫= _); by intros [= <- <-]. Qed.
#[local] Hint Resolve same_runners_add_object same_runners_push_new_state same_runners_snapshot same_runners_slice_at : preserves.
Lemma same_runners_follow t : preserves same_runners (follow t).
Proof.
  intros ss r ss'. unfold follow. destruct (apply_to t ss) as [[d st]|]; [|by intros [= <- <-]].
  case_bool_decide; [|by intros [= <- <-]].
  assert (preserves same_runners (do! for_each (map_to_list (new_object_states d)) push_new_state in
    do! push_state_snapshot in ret st)) as Hp by preserve. apply Hp.
Qed.
Lemma same_runners_consume n : preserves same_runners (seq_consume_into_subsequence n).
Proof.
  intros ss r ss'. unfold seq_consume_into_subsequence. case_bool_decide; [by intros [= <- <-]|].
  assert (∀ (el : element) i, preserves same_runners
    (if element_contains_object_with_id el i
     then let! idx := query (λ _, map_at (visible_object_indices el) i) in slice_at i idx else slice_at i 0)) as Hi.
  { intros el i. preserve. }
  intros Hc. assert (preserves same_runners (let! el := query get_representative_state in
    for_each (N.of_nat <$> seq 0 (length (visible_objects ss))) (λ i,
      if element_contains_object_with_id el i
      then let! idx := query (λ _, map_at (visible_object_indices el) i) in slice_at i idx else slice_at i 0))) as Hp.
  { apply preserves_bind; [apply _|apply preserves_query, _|]. intros el. apply preserves_for_each; [apply _|apply Hi]. }
  by apply Hp in Hc.
Qed.

(** A new runner has the next number, unless there are none left. *)
Lemma add_runner_number th ss r ss' :
  (∀ r, is_Some (forward (runner_to_obj_map ss) !! r) ↔ (r < N.of_nat (runners_of ss))%N) →
  seq_add_runner th ss = (Ok r, ss') →
  (∀ r, is_Some (forward (runner_to_obj_map ss') !! r) ↔ (r < N.of_nat (runners_of ss'))%N) ∧
  (r = N.of_nat (runners_of ss) ∧ runners_of ss' = S (runners_of ss) ∨
   (2^16 ≤ N.of_nat (runners_of ss))%N ∧ (r < N.of_nat (runners_of ss))%N ∧ runners_of ss' = runners_of ss).
Proof.
  intros Hdom. unfold seq_add_runner. intros (objid & ss1 & Hobj & Ha)%ebind_ok.
  apply same_runners_add_object in Hobj. unfold same_runners in Hobj. rewrite <- Hobj in Hdom. rewrite <- Hobj.
  clear ss Hobj. rewrite ebind_query in Ha. set (n := runners_of ss1) in *.
  apply ebind_ok in Ha as (b & ss2 & Hins & Ha). apply ebind_ok in Ha as (u & ss3 & Hrep & Ha).
  injection Ha as <- <-. apply same_runners_representative in Hrep. unfold same_runners in Hrep. rewrite Hrep.
  clear Hrep ss3. unfold insert_runner in Hins.
  assert (u16 (N.of_nat n) ≤ N.of_nat n)%N as Hle by (unfold u16; apply N.Div0.mod_le).
  destruct (forward (runner_to_obj_map ss1) !! u16 (N.of_nat n)) as [w|] eqn:Hf.
  - rewrite (inj_insert_taken _ _ _ _ Hf) in Hins. injection Hins as <- <-. simpl. split; [done|]. right.
    assert (u16 (N.of_nat n) < N.of_nat n)%N as Hlt by (apply Hdom; by eexists). split_and!; [|done..].
    destruct (decide (2^16 ≤ N.of_nat n)%N); [done|]. unfold u16 in Hlt. rewrite N.mod_small in Hlt; lia.
  - destruct (backward (runner_to_obj_map ss1) !! objid) as [w|] eqn:Hb.
    { by rewrite (inj_insert_refused _ _ _ _ Hf Hb) in Hins. }
    rewrite (inj_insert_fresh _ _ _ Hf Hb) in Hins. injection Hins as <- <-.
    assert (u16 (N.of_nat n) = N.of_nat n) as Hn.
    { destruct (decide (u16 (N.of_nat n) < N.of_nat n)%N) as [Hlt|]; [|lia].
      apply Hdom in Hlt as [? Hx]. congruence. }
    rewrite Hn in *. cbn [runner_to_obj_map].
    assert (inj_size (InjectiveFunction (<[N.of_nat n := objid]> (forward (runner_to_obj_map ss1)))
      (<[objid := N.of_nat n]> (backward (runner_to_obj_map ss1)))) = S n) as ->.
    { unfold inj_size. cbn [forward]. by rewrite map_size_insert_None. }
    split; [|by left]. intros r. cbn [forward]. rewrite lookup_insert_is_Some, Hdom. destruct (decide (N.of_nat n = r)); lia.
Qed.

(** ** Programs *)

(** Next steps of the runners below [n], each its own. *)
Definition steps_of (n : nat) (steps : gmap runner_id_t transition) : Prop :=
  (∀ r, is_Some (steps !! r) ↔ (r < N.of_nat n)%N) ∧ ∀ r t, steps !! r = Some t → executor t = r.
Lemma steps_of_set n steps t :
  steps_of n steps → (executor t < N.of_nat n)%N → steps_of n (set_transition t steps).
Proof.
  intros [Hdom Hown] Ht. unfold set_transition, replace_unowned, get_executor. simpl. split.
  - intros r. rewrite lookup_insert_is_Some, Hdom. destruct (decide (executor t = r)); [subst|]; naive_solver.
  - intros r t' [[<- <-]|[_ ?]]%lookup_insert_Some; [done|by apply Hown].
Qed.
Lemma steps_of_next n steps t :
  steps_of n steps → executor t = N.of_nat n → steps_of (S n) (set_transition t steps).
Proof.
  intros [Hdom Hown] Ht. unfold set_transition, replace_unowned, get_executor. simpl. split.
  - intros r. rewrite lookup_insert_is_Some, Hdom. destruct (decide (executor t = r)); lia.
  - intros r t' [[<- <-]|[_ ?]]%lookup_insert_Some; [done|by apply Hown].
Qed.
Lemma steps_of_size n steps : steps_of n steps → size steps = n.
Proof.
  intros [Hdom _]. rewrite <- size_dom.
  assert (dom steps = list_to_set (N.of_nat <$> seq 0 n) :> gset N) as ->.
  { apply set_eq. intros r. rewrite elem_of_dom, Hdom, elem_of_list_to_set, list_elem_of_fmap. split.
    - intros Hr. exists (N.to_nat r). rewrite N2Nat.id, elem_of_seq. lia.
    - intros (k & -> & Hk%elem_of_seq). lia. }
  rewrite size_list_to_set; [by rewrite length_fmap, length_seq|].
  apply NoDup_fmap; [apply _|apply NoDup_seq].
Qed.

Record dense (p : program) : Prop := Dense {
  dn_map : ∀ r, is_Some (forward (runner_to_obj_map (state_seq p)) !! r) ↔ (r < N.of_nat (runners_of (state_seq p)))%N;
  dn_next : steps_of (runners_of (state_seq p)) (next_steps p);
  dn_trace : ∀ t, Some t ∈ trace p → (executor t < N.of_nat (runners_of (state_seq p)))%N;
}.

(** With the runners of another state. *)
Lemma dense_same p ss : dense p → same_runners (state_seq p) ss → dense (set_state_seq ss p).
Proof. intros [Hm Hn Ht] Hs. unfold same_runners in Hs. split; cbn [state_seq set_state_seq next_steps trace]; by rewrite Hs. Qed.

(** What discovering makes of a program: old runners keep their next steps while
there are numbers left, and a new one is about to start. *)
Record extends (p0 p : program) : Prop := Extends {
  ex_dense : dense p;
  ex_count : runners_of (state_seq p0) ≤ runners_of (state_seq p);
  ex_steps : (N.of_nat (runners_of (state_seq p)) < 2^16)%N → next_steps p0 ⊆ next_steps p;
  ex_new : ∀ r t, next_steps p !! r = Some t → next_steps p0 !! r = Some t ∨ t = Transition r thread_start;
}.
Lemma extends_refl p : dense p → extends p p.
Proof. intros Hp. split; [done..|]. intros r t Ht. by left. Qed.

Lemma extends_on_states {A} p0 (m : eff state_sequence A) :
  preserves same_runners m → maintains (extends p0) (zoom state_seq set_state_seq m).
Proof.
  intros Hm p a p' [Hd Hc Hs Hn] Hz. unfold zoom in Hz. destruct (m (state_seq p)) as [r ss] eqn:Hr. injection Hz as -> <-.
  apply Hm in Hr. pose proof Hr as Heq. unfold same_runners in Heq.
  split; cbn [state_seq set_state_seq next_steps]; rewrite ?Heq; [by apply dense_same|done..].
Qed.

Lemma extends_discover_runner p0 th :
  maintains (extends p0) (discover_runner th (λ id, Transition id thread_start)).
Proof.
  intros p id p' [[Hm Hn Ht] Hc Hs Hnew] (r & p1 & Hadd & Hset)%ebind_ok. injection Hset as <- <-.
  unfold zoom in Hadd. destruct (seq_add_runner th (state_seq p)) as [res ss] eqn:Ha. injection Hadd as -> <-.
  destruct (add_runner_number _ _ _ _ Hm Ha) as [Hm' Hr].
  assert (∀ q t, set_transition (Transition r thread_start) (next_steps p) !! q = Some t →
    next_steps p0 !! q = Some t ∨ t = Transition q thread_start) as Hnew'.
  { intros q t. unfold set_transition, replace_unowned, get_executor. simpl.
    intros [[<- <-]|[_ ?]]%lookup_insert_Some; [by right|by apply Hnew]. }
  destruct Hr as [[-> Hsz]|(Hbig & Hr & Hsz)]; (split; [split|..]);
    cbn [state_seq set_state_seq next_steps trace]; try done; rewrite ?Hsz; try done; try lia.
  - by apply steps_of_next.
  - intros t Htr%Ht. lia.
  - intros Hlt. etrans; [apply Hs; lia|]. apply insert_subseteq.
    destruct (next_steps p !! _) eqn:Hx; [|done].
    assert (N.of_nat (runners_of (state_seq p)) < N.of_nat (runners_of (state_seq p)))%N by (apply Hn; by eexists). lia.
  - by apply steps_of_set.
Qed.

(** Executing. *)
Lemma execution_ok r npo p p' :
  model_execution_of r npo p = (Ok tt, p') → get_executor npo = r ∧
  ∃ t, next_steps p !! r = Some t ∧ trace p' = trace p ++ [Some t] ∧
    next_steps p' = <[r := npo]> (next_steps p) ∧ same_runners (state_seq p) (state_seq p').
Proof.
  unfold model_execution_of. case_bool_decide as Hr; [done|]. unfold get_transition_for_runner.
  destruct (next_steps p !! r) as [t|] eqn:Hnext; [|done].
  destruct (follow t (state_seq p)) as [[[]|] ss] eqn:Hfol; try done. intros [= <-].
  apply same_runners_follow in Hfol. split; [done|]. exists t. cbn [trace next_steps state_seq].
  unfold trace_push. by rewrite <- Hr, Hnext.
Qed.
Lemma dense_execution r npo : maintains dense (model_execution_of r npo).
Proof.
  intros p [] p' [Hm Hn Ht] (Hr & t & Hnext & Htr & Hsteps & Hs)%execution_ok. unfold same_runners in Hs.
  assert (r < N.of_nat (runners_of (state_seq p)))%N as Hlt by (apply Hn; by eexists).
  split; rewrite ?Hs, ?Htr, ?Hsteps; [done|..].
  - rewrite <- Hr. apply steps_of_set; [done|]. by rewrite <- Hr in Hlt.
  - intros t'. rewrite elem_of_app, list_elem_of_singleton. intros [?|[= ->]]; [by apply Ht|].
    by rewrite (proj2 Hn r t Hnext).
Qed.

(** Going back. *)
Lemma restore_next_steps_dense n l tr steps tr' steps' :
  restore_next_steps l tr steps = Ok (tr', steps') →
  steps_of n steps → (∀ t, Some t ∈ tr → (executor t < N.of_nat n)%N) →
  steps_of n steps' ∧ ∀ t, Some t ∈ tr' → (executor t < N.of_nat n)%N.
Proof.
  revert tr steps. induction l as [|[r i] l IH]; intros tr steps; cbn [restore_next_steps].
  { by intros [= <- <-]. }
  unfold extract_at. destruct (vec_at tr i) as [o|] eqn:Ho; [|done]. cbn [mbind res_bind].
  destruct o as [t|]; [|done]. cbn [deref mbind res_bind]. intros Hr Hs Htr. apply vec_at_ok in Ho.
  apply (IH _ _ Hr).
  - apply steps_of_set; [done|]. apply Htr. by eapply list_elem_of_lookup_2.
  - intros t' (j & Hj)%list_elem_of_lookup. apply list_lookup_insert_Some in Hj as [(_ & ? & _)|[_ Hj]]; [done|].
    apply Htr. by eapply list_elem_of_lookup_2.
Qed.
Lemma restore_same_runners n p p' : restore_model_at_depth n p = Ok p' → same_runners (state_seq p) (state_seq p').
Proof.
  unfold restore_model_at_depth. destruct (runner_to_index_from_top _ _ _ _ _) as [m|]; [|done].
  cbn [mbind res_bind]. destruct (restore_next_steps _ _ _) as [[tr steps]|] eqn:Hr; [|done]. cbn [mbind res_bind].
  destruct (seq_consume_into_subsequence _ _) as [[[]|] ss] eqn:Hc; [|done]. intros [= <-].
  by apply same_runners_consume in Hc.
Qed.
Lemma dense_restore n p p' : dense p → restore_model_at_depth n p = Ok p' → dense p'.
Proof.
  intros [Hm Hn Ht]. unfold restore_model_at_depth. destruct (runner_to_index_from_top _ _ _ _ _) as [m|]; [|done].
  cbn [mbind res_bind]. destruct (restore_next_steps _ _ _) as [[tr steps]|] eqn:Hr; [|done]. cbn [mbind res_bind].
  destruct (restore_next_steps_dense _ _ _ _ _ _ Hr Hn Ht) as [Hn' Ht'].
  destruct (seq_consume_into_subsequence _ _) as [[[]|] ss] eqn:Hc; [|done]. intros [= <-].
  apply same_runners_consume in Hc. unfold same_runners in Hc.
  split; cbn [state_seq next_steps trace]; rewrite Hc; [done..|].
  intros t Hin. apply Ht'. unfold trace_consume_into_subsequence in Hin. case_bool_decide; [|done].
  apply list_elem_of_lookup in Hin as (i & [Hi _]%lookup_take_Some). by eapply list_elem_of_lookup_2.
Qed.

(** ** Pending steps *)

(** Each runner below the number of runners has a next step. *)
Definition all_pending (model : program) : Prop :=
  ∀ p, (p < N.of_nat (get_num_runners model))%N → is_Some (get_transition_for_runner (next_steps model) p).
Lemma dense_pending p : dense p → all_pending p.
Proof. intros [_ Hn _] r. unfold get_num_runners. rewrite (steps_of_size _ _ Hn). apply Hn. Qed.
Lemma dense_executor p t : dense p → last (trace p) = Some (Some t) → (executor t < N.of_nat (get_num_runners p))%N.
Proof.
  intros [_ Hn Ht] Hl. unfold get_num_runners. rewrite (steps_of_size _ _ Hn). apply Ht.
  apply last_Some in Hl as [l ->]. apply elem_of_app. right. by left.
Qed.

(** The number of runners the search keeps a clock for. *)
Definition few_runners (model : program) : Prop :=
  (N.of_nat (get_num_runners model) ≤ MAX_TOTAL_THREADS_IN_PROGRAM)%N.

(** The program before its first step. *)
Lemma main_program_dense : dense main_program.
Proof.
  split.
  - intros r. change (is_Some (({[0 := 0]} : gmap N N) !! r) ↔ (r < 1))%N. rewrite lookup_singleton_is_Some. lia.
  - change (steps_of 1 {[0%N := Transition 0 thread_start]}). split.
    + intros r. rewrite lookup_singleton_is_Some. lia.
    + intros r t. rewrite lookup_singleton_Some. by intros [<- <-].
  - intros t. by intros ?%elem_of_nil.
Qed.
