(* ===== verification/ClockVector.v ===== *)
(** * Clock vectors

[clock_vector] ([include/mcmini/model_checking/algorithms/classic_dpor/clock_vector.hpp],
[src/mcmini/model_checking/algorithms/clock_vector.cpp]) and the per-runner
[runner_item].  A runner without a component counts as 0, so vectors are compared
by [value_for], a coarser equivalence than equality; [max] is the join of the
pointwise order. *)

From stdpp Require Import options.
From S2P Require Import Prelude.

Record clock_vector := ClockVector { contents : gmap runner_id_t N }.

Definition empty_clock_vector : clock_vector := ClockVector ∅.
Definition clock_vector_size (cv : clock_vector) : N := u32 (N.of_nat (size (contents cv))).
(** [cv[tid] = i] *)
Definition set_clock (tid : runner_id_t) (i : N) (cv : clock_vector) : clock_vector :=
  ClockVector (<[tid := i]> (contents cv)).
Definition value_for (cv : clock_vector) (tid : runner_id_t) : N := default 0%N (contents cv !! tid).
Definition has_explicit_mapping_for (cv : clock_vector) (rid : runner_id_t) : bool :=
  bool_decide (is_Some (contents cv !! rid)).
Definition has_implicit_mapping_for (cv : clock_vector) (rid : runner_id_t) : bool :=
  negb (has_explicit_mapping_for cv rid).
(** [clock_vector::max]: a loop over the components of [cv2], then one over
those of [cv1], each writing into [max_cv]. *)
Definition clock_vector_max (cv1 cv2 : clock_vector) : clock_vector :=
  let m2 := map_fold (λ tid i m, <[tid := N.max (value_for cv1 tid) i]> m) ∅ (contents cv2) in
  ClockVector (map_fold (λ tid i m, <[tid := N.max (value_for cv2 tid) i]> m) m2 (contents cv1)).

(** [runner_item] *)
Record runner_item := RunnerItem {
  executionDepth : N;
  runner_cv : clock_vector;
}.
Definition new_runner_item : runner_item := RunnerItem 0 empty_clock_vector.
Definition runner_get_clock_vector (r : runner_item) : clock_vector := runner_cv r.
Definition set_clock_vector (cv : clock_vector) (r : runner_item) : runner_item :=
  RunnerItem (executionDepth r) cv.
Definition increment_execution_depth (r : runner_item) : runner_item :=
  RunnerItem (u32 (executionDepth r + 1)) (runner_cv r).
(** [std::min(0u, executionDepth - 1)] *)
Definition decrement_execution_depth_if_possible (r : runner_item) : runner_item :=
  RunnerItem (N.min 0 (u32 (executionDepth r + (2^32 - 1)))) (runner_cv r).

(** ** Lemmas *)

#[export] Instance cv_equiv : Equiv clock_vector := λ cv1 cv2,
  ∀ tid, value_for cv1 tid = value_for cv2 tid.
#[export] Instance cv_equivalence : Equivalence (≡@{clock_vector}).
Proof.
  split; [by intros ??|by intros ????|]. intros x y z H1 H2 tid. by rewrite (H1 tid).
Qed.

(** The pointwise order. *)
Definition cv_le (cv1 cv2 : clock_vector) : Prop := ∀ tid, (value_for cv1 tid ≤ value_for cv2 tid)%N.

#[export] Instance cv_le_preorder : PreOrder cv_le.
Proof. split; [by intros ??|]. intros x y z H1 H2 tid. specialize (H1 tid). specialize (H2 tid). lia. Qed.
#[export] Instance cv_le_proper : Proper ((≡) ==> (≡) ==> iff) cv_le.
Proof.
  intros x x' Hx y y' Hy.
  split; intros H tid; specialize (H tid); rewrite (Hx tid), (Hy tid) in *; done.
Qed.

Lemma lookup_fold_insert (f : N → N → N) (m m0 : gmap N N) tid :
  map_fold (λ k i acc, <[k := f k i]> acc) m0 m !! tid =
  match m !! tid with Some i => Some (f tid i) | None => m0 !! tid end.
Proof.
  induction m as [|k i m Hk Hfold IH] using map_first_key_ind.
  { by rewrite map_fold_empty, lookup_empty. }
  rewrite map_fold_insert_first_key by done.
  destruct (decide (tid = k)) as [->|Hne].
  - by rewrite !lookup_insert_eq.
  - by rewrite !lookup_insert_ne by done.
Qed.

Lemma value_for_max cv1 cv2 tid :
  value_for (clock_vector_max cv1 cv2) tid = N.max (value_for cv1 tid) (value_for cv2 tid).
Proof.
  unfold clock_vector_max, value_for at 1; simpl. rewrite !lookup_fold_insert, lookup_empty.
  unfold value_for. destruct (contents cv1 !! tid), (contents cv2 !! tid); simpl; lia.
Qed.

Lemma value_for_set tid i cv tid' :
  value_for (set_clock tid i cv) tid' = if decide (tid' = tid) then i else value_for cv tid'.
Proof.
  unfold value_for, set_clock; simpl.
  case_decide; subst; [by rewrite lookup_insert_eq|by rewrite lookup_insert_ne].
Qed.

#[export] Instance clock_vector_max_proper : Proper ((≡) ==> (≡) ==> (≡)) clock_vector_max.
Proof. intros x x' Hx y y' Hy tid. by rewrite !value_for_max, (Hx tid), (Hy tid). Qed.

(** [max] is the least upper bound of two clock vectors, up to implicit
zeros: its components are the larger ones, a bound of both arguments bounds it,
and it is idempotent, commutative and associative. *)
Theorem clock_vector_max_lub cv1 cv2 cv3 :
  (∀ tid, value_for (clock_vector_max cv1 cv2) tid = N.max (value_for cv1 tid) (value_for cv2 tid)) ∧
  (cv_le (clock_vector_max cv1 cv2) cv3 ↔ cv_le cv1 cv3 ∧ cv_le cv2 cv3) ∧
  clock_vector_max cv1 cv1 ≡ cv1 ∧ clock_vector_max cv1 cv2 ≡ clock_vector_max cv2 cv1 ∧
  clock_vector_max cv1 (clock_vector_max cv2 cv3) ≡ clock_vector_max (clock_vector_max cv1 cv2) cv3.
Proof.
  split_and!.
  - apply value_for_max.
  - unfold cv_le. setoid_rewrite value_for_max. split.
    + intros H. split; intros tid; specialize (H tid); lia.
    + intros [H1 H2] tid. specialize (H1 tid). specialize (H2 tid). lia.
  - intros tid. rewrite value_for_max. lia.
  - intros tid. rewrite !value_for_max. lia.
  - intros tid. rewrite !value_for_max. lia.
Qed.
