(* ===== verification/StackItem.v ===== *)
(** * Items of the DPOR stack

[stack_item] of [include/mcmini/model_checking/algorithms/classic_dpor/stack_item.hpp].
The comments of the class ask that a runner be in exactly one of the backtrack,
done and sleep sets.  The code keeps two weaker facts, which are the ones the
exploration needs: no runner to backtrack on has been searched, and all of them
are enabled ([item_ok]). *)

From stdpp Require Import options.
From S2P Require Import Prelude ClockVector Transitions.

(** [per_runner_clocks] is an array of [MAX_TOTAL_THREADS_IN_PROGRAM] items. *)
Record stack_item := StackItem {
  item_cv : clock_vector;
  per_runner_clocks : list runner_item;
  out_transition : option transition;
  backtrack_set : gset runner_id_t;
  done_set : gset runner_id_t;
  sleep_set : gset runner_id_t;
  enabled_runners : gset runner_id_t;
}.

Definition no_clocks : list runner_item := replicate (N.to_nat MAX_TOTAL_THREADS_IN_PROGRAM) new_runner_item.
(** [stack_item(clock_vector, std::unordered_set<runner_id_t>)] *)
Definition new_stack_item (cv : clock_vector) (enabled : gset runner_id_t) : stack_item :=
  StackItem cv no_clocks None ∅ ∅ ∅ enabled.
(** The constructor with per-runner clocks and an out transition. *)
Definition stack_item_with (cv : clock_vector) (clocks : list runner_item)
    (out : option transition) (enabled : gset runner_id_t) : stack_item :=
  StackItem cv clocks out ∅ ∅ ∅ enabled.

Definition backtrack_set_empty (s : stack_item) : bool := bool_decide (backtrack_set s = ∅).
Definition backtrack_set_contains (s : stack_item) (id : runner_id_t) : bool :=
  bool_decide (id ∈ backtrack_set s).
Definition sleep_set_contains (s : stack_item) (id : runner_id_t) : bool :=
  bool_decide (id ∈ sleep_set s).
Definition done_set_contains (s : stack_item) (id : runner_id_t) : bool :=
  bool_decide (id ∈ done_set s).
Definition has_enabled_runners (s : stack_item) : bool :=
  negb (bool_decide (enabled_runners s = ∅)).

Definition insert_into_backtrack_set_unless_completed (rid : runner_id_t) (s : stack_item) : stack_item :=
  if done_set_contains s rid then s
  else StackItem (item_cv s) (per_runner_clocks s) (out_transition s) ({[rid]} ∪ backtrack_set s)
         (done_set s) (sleep_set s) (enabled_runners s).
Definition insert_into_sleep_set (rid : runner_id_t) (s : stack_item) : stack_item :=
  StackItem (item_cv s) (per_runner_clocks s) (out_transition s) (backtrack_set s)
    (done_set s) ({[rid]} ∪ sleep_set s) (enabled_runners s).
Definition mark_searched (rid : runner_id_t) (s : stack_item) : stack_item :=
  StackItem (item_cv s) (per_runner_clocks s) (out_transition s) (backtrack_set s ∖ {[rid]})
    ({[rid]} ∪ done_set s) (sleep_set s) (enabled_runners s).
Definition mark_enabled_in_state (runners : gset runner_id_t) (s : stack_item) : stack_item :=
  StackItem (item_cv s) (per_runner_clocks s) (out_transition s) (backtrack_set s)
    (done_set s) (sleep_set s) (runners ∪ enabled_runners s).
Definition set_out_transition (out : option transition) (s : stack_item) : stack_item :=
  StackItem (item_cv s) (per_runner_clocks s) out (backtrack_set s)
    (done_set s) (sleep_set s) (enabled_runners s).
Definition get_out_transition (s : stack_item) : option transition := out_transition s.
Definition item_get_clock_vector (s : stack_item) : clock_vector := item_cv s.

(** The smallest element of a set, [init] if it is larger than all of them. *)
Definition min_of (init : runner_id_t) (s : gset runner_id_t) : runner_id_t :=
  foldr N.min init (ascending s).
(** [*begin()] of an [unordered_set] is some element. *)
Definition backtrack_set_pop_first : eff stack_item runner_id_t := λ s,
  match ascending (backtrack_set s) with
  | [] => (Throw (RuntimeError NoBacktrackThread), s)
  | first :: _ =>
      let backtrack_thread := min_of first (backtrack_set s) in
      (Ok backtrack_thread, mark_searched backtrack_thread s)
  end.
Definition get_first_enabled_runner (s : stack_item) : runner_id_t :=
  min_of RUNNER_ID_MAX (enabled_runners s).

(** ** Lemmas *)

Record item_ok (s : stack_item) : Prop := ItemOk {
  io_disjoint : backtrack_set s ## done_set s;
  io_enabled : backtrack_set s ⊆ enabled_runners s;
}.

Lemma min_of_le init s x : x ∈ s → (min_of init s ≤ x)%N.
Proof.
  intros Hx%elem_of_ascending. unfold min_of.
  induction (ascending s) as [|y l IH]; [by apply not_elem_of_nil in Hx|]. simpl.
  apply elem_of_cons in Hx as [->|Hx]; [lia|]. specialize (IH Hx). lia.
Qed.
Lemma min_of_in init s : min_of init s ∈ s ∨ min_of init s = init.
Proof.
  assert (∀ l, foldr N.min init l ∈ l ∨ foldr N.min init l = init) as Hl.
  { induction l as [|y l IH]; simpl; [by right|].
    destruct (N.min_spec y (foldr N.min init l)) as [[_ ->]|[_ ->]]; set_solver. }
  destruct (Hl (ascending s)) as [H|H]; [left|by right]. by rewrite <- elem_of_ascending.
Qed.

(** A runner chosen from the enabled ones, which [get_first_enabled_runner] does
when there is one. *)
Lemma get_first_enabled_runner_spec s :
  has_enabled_runners s = true → (∀ r, r ∈ enabled_runners s → (r < RUNNER_ID_MAX)%N) →
  get_first_enabled_runner s ∈ enabled_runners s ∧
  ∀ r, r ∈ enabled_runners s → (get_first_enabled_runner s ≤ r)%N.
Proof.
  unfold has_enabled_runners, get_first_enabled_runner.
  rewrite negb_true_iff, bool_decide_eq_false. intros Hne Hmax. split; [|intros r; apply min_of_le].
  destruct (min_of_in RUNNER_ID_MAX (enabled_runners s)) as [?|Heq]; [done|].
  apply set_choose_L in Hne as [x Hx]. pose proof (Hmax x Hx).
  pose proof (min_of_le RUNNER_ID_MAX _ x Hx). lia.
Qed.

Lemma insert_backtrack_ok rid s :
  item_ok s → rid ∈ enabled_runners s →
  item_ok (insert_into_backtrack_set_unless_completed rid s).
Proof.
  intros [Hd He] Hr. unfold insert_into_backtrack_set_unless_completed, done_set_contains.
  case_bool_decide; [done|]. split; simpl; set_solver.
Qed.
Lemma mark_searched_ok rid s : item_ok s → item_ok (mark_searched rid s).
Proof. intros [Hd He]. split; simpl; set_solver. Qed.
Lemma insert_sleep_ok rid s : item_ok s → item_ok (insert_into_sleep_set rid s).
Proof. by intros []. Qed.
Lemma set_out_transition_ok out s : item_ok s → item_ok (set_out_transition out s).
Proof. by intros []. Qed.
Lemma stack_item_with_ok cv clocks out enabled : item_ok (stack_item_with cv clocks out enabled).
Proof. split; simpl; set_solver. Qed.
Lemma new_stack_item_ok cv enabled : item_ok (new_stack_item cv enabled).
Proof. split; simpl; set_solver. Qed.

Lemma backtrack_set_pop_first_spec s :
  backtrack_set_empty s = false →
  ∃ r, backtrack_set_pop_first s = (Ok r, mark_searched r s) ∧ r ∈ backtrack_set s ∧
    ∀ r', r' ∈ backtrack_set s → (r ≤ r')%N.
Proof.
  unfold backtrack_set_empty, backtrack_set_pop_first. rewrite bool_decide_eq_false. intros Hne.
  destruct (ascending (backtrack_set s)) as [|first l] eqn:Hl.
  { by apply ascending_nil in Hl. }
  eexists. split; [done|]. split; [|intros r'; apply min_of_le].
  destruct (min_of_in first (backtrack_set s)) as [?| ->]; [done|].
  rewrite <- elem_of_ascending, Hl. by left.
Qed.

(** Choosing a runner to backtrack on.  From an item with something to
backtrack on, [backtrack_set_pop_first] returns the smallest runner of the
backtrack set, which is enabled and was not searched before, and moves it from
the backtrack set to the done set; the invariant is kept. *)
Theorem pop_first_moves_smallest s :
  item_ok s → backtrack_set_empty s = false →
  ∃ r s', backtrack_set_pop_first s = (Ok r, s') ∧ item_ok s' ∧
    r ∈ enabled_runners s ∧ (r ∉ done_set s) ∧ (∀ r', r' ∈ backtrack_set s → (r ≤ r')%N) ∧
    backtrack_set s' = backtrack_set s ∖ {[r]} ∧ done_set s' = ({[r]} ∪ done_set s).
Proof.
  intros Hok Hne. destruct (backtrack_set_pop_first_spec s Hne) as (r & Hpop & Hin & Hmin).
  exists r, (mark_searched r s). split; [done|]. split; [by apply mark_searched_ok|].
  destruct Hok as [Hd He]. split_and!; [set_solver|set_solver|done..].
Qed.
