(* ===== verification/Dpor.v ===== *)
(** * Dynamic partial-order reduction

[classic_dpor] ([src/mcmini/model_checking/algorithms/classic_dpor.cpp]).  The
coordinator that runs the target process is an interface ([Coordinator]; its laws are
in [Exploration.v], and [Coordinator.v] implements it).  [verify_using] is the
exploration loop: [explore] runs one iteration of the inner [while], [backtrack] the
rest of the outer one, and fuel bounds the iterations; [verify_using_terminates]
in [Exploration.v] shows that some amount of it always suffices. *)

From stdpp Require Import options.
From S2P Require Import Prelude InjectiveFunction DoubleDispatch CondPolicy Objects State.
From S2P Require Import Transitions Dependency StateSequence Program ClockVector StackItem.

(** ** The coordinator *)

Class Coordinator (C : Type) := {
  execute_runner : runner_id_t → eff C unit;
  return_to_depth : N → eff C unit;
  get_current_program_model : C → program;
  get_depth_into_program : C → N;
}.

(** ** State *)

(** [stats]: two [uint32_t]. *)
Record stats := Stats { total_transitions : N; trace_id : N }.

(** The invocations of the user's callbacks. *)
Inductive event :=
  | trace_completed (s : stats)
  | deadlock (s : stats)
  | abnormal_termination (s : stats) (signo : Z) (culprit : runner_id_t)
  | nonzero_exit_code (s : stats) (code : Z) (culprit : runner_id_t)
  | undefined_behavior (s : stats).

(** Which callbacks are set. *)
Record callbacks := Callbacks {
  has_trace_completed : bool;
  has_deadlock : bool;
  has_abnormal_termination : bool;
  has_nonzero_exit_code : bool;
  has_undefined_behavior : bool;
}.

(** The local variables of [verify_using]: the context (coordinator and stack),
the statistics, and the calls made so far. *)
Record dpor_context (C : Type) := DporContext {
  coordinator : C;
  stack : list stack_item;
  model_checking_stats : stats;
  events : list event;
}.
Arguments DporContext {_} _ _ _ _.
Arguments coordinator {_} _.
Arguments stack {_} _.
Arguments model_checking_stats {_} _.
Arguments events {_} _.

Definition SIGABRT : Z := 6.

Section dpor.
Context {C : Type} `{Coordinator C} (config : configuration).
Implicit Types ctx : dpor_context C.

Definition set_coordinator (c : C) (ctx : dpor_context C) : dpor_context C :=
  DporContext c (stack ctx) (model_checking_stats ctx) (events ctx).
Definition set_stack (l : list stack_item) (ctx : dpor_context C) : dpor_context C :=
  DporContext (coordinator ctx) l (model_checking_stats ctx) (events ctx).
Definition set_stats (s : stats) (ctx : dpor_context C) : dpor_context C :=
  DporContext (coordinator ctx) (stack ctx) s (events ctx).
(** A call of the callback that makes the event, if it is set. *)
Definition callback (is_set : bool) (e : event) (ctx : dpor_context C) : dpor_context C :=
  if is_set then DporContext (coordinator ctx) (stack ctx) (model_checking_stats ctx) (events ctx ++ [e])
  else ctx.
Definition model_of (ctx : dpor_context C) : program := get_current_program_model (coordinator ctx).

(** [get_transition(i)], dereferenced by its callers. *)
Definition get_transition (stk : list stack_item) (i : N) : res transition :=
  s ← vec_at stk i; deref (get_out_transition s).

Definition accumulate_max_clock_vector_against (t : transition) (stk : list stack_item) : clock_vector :=
  foldl (λ result s_i,
      match get_out_transition s_i with
      | Some out =>
          if are_dependent config out t
          then clock_vector_max result (item_get_clock_vector s_i) else result
      | None => result
      end) empty_clock_vector stk.

(** [per_runner_clocks[p]] is unchecked. *)
Definition clock_of (clocks : list runner_item) (p : runner_id_t) : res clock_vector :=
  r ← deref (clocks !! N.to_nat p); Ok (runner_get_clock_vector r).

Definition happens_before (stk : list stack_item) (i j : N) : res bool :=
  t ← get_transition stk i;
  s ← vec_at stk j;
  Ok (bool_decide (i ≤ value_for (item_get_clock_vector s) (get_executor t))%N).
Definition happens_before_thread (stk : list stack_item) (i : N) (p : runner_id_t) : res bool :=
  t ← get_transition stk i;
  s ← vec_back stk;
  cv ← clock_of (per_runner_clocks s) p;
  Ok (bool_decide (i ≤ value_for cv (get_executor t))%N).

(** The loop of [threads_race_after] over the indices in the list. *)
Fixpoint race_loop (stk : list stack_item) (js : list N) (q p : runner_id_t) : res bool :=
  match js with
  | [] => Ok false
  | j :: js =>
      t ← get_transition stk j;
      if bool_decide (q = get_executor t) then
        hb ← happens_before_thread stk j p;
        if hb : bool then Ok true else race_loop stk js q p
      else race_loop stk js q p
  end.
Definition threads_race_after (stk : list stack_item) (i : nat) (q p : runner_id_t) : res bool :=
  race_loop stk (N.of_nat <$> seq (S i) (length stk - 1 - S i)) q p.

(** ** Growing the stack *)

Definition assert (b : bool) {S} : eff S unit := if b then ret tt else throw AssertionFailed.

(** The runners of the sleep set whose next transition is independent of [t_n]. *)
Fixpoint inherit_sleep_set (rids : list runner_id_t) (model : program) (t_n : transition)
    (s : stack_item) : res stack_item :=
  match rids with
  | [] => Ok s
  | rid :: rids =>
      rid_next ← deref (get_pending_transition_for model rid);
      inherit_sleep_set rids model t_n
        (if are_independent config rid_next t_n then insert_into_sleep_set rid s else s)
  end.

Definition grow_stack_after_running : eff (dpor_context C) unit :=
  let! depth := query (λ ctx, Ok (get_depth_into_program (coordinator ctx))) in
  let! size := query (λ ctx, Ok (N.of_nat (length (stack ctx)))) in
  do! assert (bool_decide (depth = size)) in
  let! t_n := query (λ ctx, vec_back (trace (model_of ctx)) ≫= deref) in
  let! cv := query (λ ctx, Ok (set_clock (get_executor t_n) (get_depth_into_program (coordinator ctx))
               (accumulate_max_clock_vector_against t_n (stack ctx)))) in
  let! s_n := query (λ ctx, vec_back (stack ctx)) in
  let! r := query (λ _, deref (per_runner_clocks s_n !! N.to_nat (get_executor t_n))) in
  let s_n_per_runner_clocks :=
    <[N.to_nat (get_executor t_n) := set_clock_vector cv r]> (per_runner_clocks s_n) in
  let! enabled := query (λ ctx, get_enabled_runners (model_of ctx)) in
  let s_n_plus_1 := stack_item_with cv s_n_per_runner_clocks (Some t_n) enabled in
  λ ctx,
    match inherit_sleep_set (ascending (sleep_set s_n)) (model_of ctx) t_n s_n_plus_1 with
    | Throw e => (Throw e, set_stack (stack ctx ++ [s_n_plus_1]) ctx)
    | Ok s_n_plus_1 =>
        let s_n := mark_searched (get_executor t_n)
          (insert_into_sleep_set (get_executor t_n) (set_out_transition (Some t_n) s_n)) in
        (Ok tt, set_stack (removelast (stack ctx) ++ [s_n; s_n_plus_1]) ctx)
    end.

(** ** Updating the backtrack sets *)

(** The set [E] of the paper. *)
Fixpoint candidates (qs : list runner_id_t) (stk : list stack_item) (pre_si : stack_item) (i : nat)
    (p : runner_id_t) : res (gset runner_id_t) :=
  match qs with
  | [] => Ok ∅
  | q :: qs =>
      in_e ← (if bool_decide (q = p) then Ok true else threads_race_after stk i q p);
      e ← candidates qs stk pre_si i p;
      Ok (if in_e && negb (sleep_set_contains pre_si q) then {[q]} ∪ e else e)
  end.

(** The new value of [pre_si], and whether to stop. *)
Definition dynamically_update_backtrack_sets_at_index (stk : list stack_item) (S_i next_sp : transition)
    (pre_si : stack_item) (i : nat) (p : runner_id_t) : res (stack_item * bool) :=
  has_reversible_race ←
    (if are_dependent config next_sp S_i && are_coenabled config next_sp S_i
     then negb <$> happens_before_thread stk (N.of_nat i) p else Ok false);
  if has_reversible_race : bool then
    let qs := ascending (enabled_runners pre_si) in
    e ← candidates qs stk pre_si i p;
    if bool_decide (e = ∅) then
      Ok (foldl (λ s q, if sleep_set_contains s q then s
                        else insert_into_backtrack_set_unless_completed q s) pre_si qs, true)
    else if existsb (backtrack_set_contains pre_si) (ascending e) then Ok (pre_si, true)
    else match ascending e with
         | q :: _ => Ok (insert_into_backtrack_set_unless_completed q pre_si, true)
         | [] => Throw UB
         end
  else Ok (pre_si, false).

(** The call for index [i], which changes that item of the stack. *)
Definition update_at (S_i next_sp : transition) (i : nat) (p : runner_id_t) : eff (dpor_context C) bool := λ ctx,
  match s ← vec_at (stack ctx) (N.of_nat i);
        dynamically_update_backtrack_sets_at_index (stack ctx) S_i next_sp s i p with
  | Throw e => (Throw e, ctx)
  | Ok (s', stop) => (Ok stop, set_stack (<[i := s']> (stack ctx)) ctx)
  end.

(** The loop over the other threads at the top of the transition stack. *)
Fixpoint update_other_threads (rids : list runner_id_t) (S_n : transition) (top : nat) : eff (dpor_context C) unit :=
  match rids with
  | [] => ret tt
  | rid :: rids =>
      let! next_sp := query (λ ctx, deref (get_transition_for_runner (next_steps (model_of ctx)) rid)) in
      do! update_at S_n next_sp top rid in
      update_other_threads rids S_n top
  end.

(** The loop down the stack, from index [n - 1] to 0. *)
Fixpoint update_last_thread (n : nat) (next_s_p : transition) (p : runner_id_t) : eff (dpor_context C) unit :=
  match n with
  | O => ret tt
  | S i =>
      let! S_i := query (λ ctx, vec_at (trace (model_of ctx)) (N.of_nat i) ≫= deref) in
      let! should_stop := update_at S_i next_s_p i p in
      if should_stop : bool then ret tt else update_last_thread i next_s_p p
  end.

(** [stack.size() - 2] is signed; it is negative only when the stack has fewer
than two items, and then the conversion in [stack.at(t_stack_top)] fails. *)
Definition dynamically_update_backtrack_sets : eff (dpor_context C) unit :=
  let! num_threads := query (λ ctx, Ok (get_num_runners (model_of ctx))) in
  let! S_n := query (λ ctx, vec_back (trace (model_of ctx)) ≫= deref) in
  let last_runner_to_execute := get_executor S_n in
  let thread_ids := filter (λ i, i ≠ last_runner_to_execute) (N.of_nat <$> seq 0 num_threads) in
  let! size := query (λ ctx, Ok (length (stack ctx))) in
  let t_stack_top := size - 2 in
  do! update_other_threads thread_ids S_n t_stack_top in
  let! next_s_p := query (λ ctx,
    deref (get_transition_for_runner (next_steps (model_of ctx)) last_runner_to_execute)) in
  update_last_thread t_stack_top next_s_p last_runner_to_execute.

Definition on_coordinator {A} (m : eff C A) : eff (dpor_context C) A := zoom coordinator set_coordinator m.

Definition continue_dpor_by_expanding_trace_with (p : runner_id_t) : eff (dpor_context C) unit :=
  do! on_coordinator (execute_runner p) in
  do! grow_stack_after_running in
  dynamically_update_backtrack_sets.

(** ** The exploration *)

(** What a [try] block with [catch] clauses does next: go on, or return from
[verify_using]. *)
Inductive control := Continue | Return.

Definition catch_program_errors (cbs : callbacks) (e : exn) (ctx : dpor_context C) : res control * dpor_context C :=
  match e with
  | TerminationError signo culprit =>
      (Ok Return, callback (has_abnormal_termination cbs)
                    (abnormal_termination (model_checking_stats ctx) signo culprit) ctx)
  | NonzeroExitCodeError code culprit =>
      (Ok Return, callback (has_nonzero_exit_code cbs)
                    (nonzero_exit_code (model_checking_stats ctx) code culprit) ctx)
  | e => (Throw e, ctx)
  end.
Definition catch_undefined_behavior (cbs : callbacks) (e : exn) (ctx : dpor_context C) : res control * dpor_context C :=
  match e with
  | UndefinedBehavior =>
      (Ok Return, callback (has_undefined_behavior cbs)
                    (undefined_behavior (model_checking_stats ctx)) ctx)
  | e => (Throw e, ctx)
  end.
Definition try {A} (m : eff (dpor_context C) A)
    (handler : exn → dpor_context C → res control * dpor_context C) : eff (dpor_context C) control := λ ctx,
  match m ctx with
  | (Ok _, ctx') => (Ok Continue, ctx')
  | (Throw e, ctx') => handler e ctx'
  end.

(** The body of the inner [try]. *)
Definition expand_first_enabled : eff (dpor_context C) unit :=
  let! s := query (λ ctx, vec_back (stack ctx)) in
  let rid := get_first_enabled_runner s in
  do! continue_dpor_by_expanding_trace_with rid in
  do! (λ ctx, let s := model_checking_stats ctx in
              (Ok tt, set_stats (Stats (u32 (total_transitions s + 1)) (trace_id s)) ctx)) in
  let! rtransition := query (λ ctx, deref (get_pending_transition_for (model_of ctx) rid)) in
  if aborts_program_execution rtransition then throw (TerminationError SIGABRT rid)
  else if bool_decide (program_exit_code rtransition > 0)%Z
  then throw (NonzeroExitCodeError (program_exit_code rtransition) rid)
  else ret tt.

(** One iteration of the inner [while], with its test: [None] when the test
fails. *)
Definition explore (cbs : callbacks) : eff (dpor_context C) (option control) :=
  let! s := query (λ ctx, vec_back (stack ctx)) in
  if has_enabled_runners s then
    let! size := query (λ ctx, Ok (N.of_nat (length (stack ctx)))) in
    if bool_decide (maximum_total_execution_depth config ≤ size)%N
    then throw (RuntimeError ExecutionLimitReached)
    else
      let! c := try expand_first_enabled
             (λ e ctx, match catch_undefined_behavior cbs e ctx with
                       | (Throw e, ctx) => catch_program_errors cbs e ctx
                       | r => r
                       end) in
      ret (Some c)
  else ret None.

(** [while (!dpor_stack.empty() && dpor_stack.back().backtrack_set_empty())] *)
Fixpoint pop_searched (stk_rev : list stack_item) : list stack_item :=
  match stk_rev with
  | [] => []
  | s :: stk_rev => if backtrack_set_empty s then pop_searched stk_rev else s :: stk_rev
  end.

(** [continue_dpor_by_expanding_trace_with(dpor_stack.back().backtrack_set_pop_first(), context)] *)
Definition expand_backtrack : eff (dpor_context C) unit :=
  let! s := query (λ ctx, vec_back (stack ctx)) in
  match backtrack_set_pop_first s with
  | (Throw e, _) => throw e
  | (Ok p, s') =>
      do! (λ ctx, (Ok tt, set_stack (removelast (stack ctx) ++ [s']) ctx)) in
      continue_dpor_by_expanding_trace_with p
  end.

(** The outer loop after the exploration. *)
Definition backtrack (cbs : callbacks) : eff (dpor_context C) control :=
  do! (λ ctx, (Ok tt, callback (has_trace_completed cbs) (trace_completed (model_checking_stats ctx)) ctx)) in
  let! dead := query (λ ctx, if has_deadlock cbs then is_in_deadlock (model_of ctx) else Ok false) in
  do! (λ ctx, (Ok tt, callback dead (deadlock (model_checking_stats ctx)) ctx)) in
  do! (λ ctx, (Ok tt, set_stack (reverse (pop_searched (reverse (stack ctx)))) ctx)) in
  let! stk := query (λ ctx, Ok (stack ctx)) in
  if bool_decide (stk = []) then ret Continue
  else
    let! c := try (on_coordinator (return_to_depth (N.of_nat (length stk - 1)))) (catch_program_errors cbs) in
    match c with
    | Return => ret Return
    | Continue =>
        do! (λ ctx, let s := model_checking_stats ctx in
                    (Ok tt, set_stats (Stats (total_transitions s) (u32 (trace_id s + 1))) ctx)) in
        try expand_backtrack (catch_undefined_behavior cbs)
    end.

(** The loops; [None] when the fuel runs out. *)
Fixpoint dpor_loop (fuel : nat) (cbs : callbacks) : eff (dpor_context C) (option unit) :=
  match fuel with
  | O => ret None
  | S fuel => λ ctx,
      if bool_decide (stack ctx = []) then (Ok (Some tt), ctx)
      else
        (let! c := explore cbs in
         match c with
         | Some Return => ret (Some tt)
         | Some Continue => dpor_loop fuel cbs
         | None =>
             let! c := backtrack cbs in
             match c with
             | Return => ret (Some tt)
             | Continue => dpor_loop fuel cbs
             end
         end) ctx
  end.

(** [verify_using]: the context starts with the item of the initial state. *)
Definition verify_using (fuel : nat) (cbs : callbacks) (c : C) : res (option unit) * dpor_context C :=
  let ctx0 := DporContext c [] (Stats 0 1) [] in
  (let! enabled := query (λ ctx, get_enabled_runners (model_of ctx)) in
   do! (λ ctx, (Ok tt, set_stack [new_stack_item empty_clock_vector enabled] ctx)) in
   dpor_loop fuel cbs) ctx0.

End dpor.
