(* ===== verification/Backtracking.v ===== *)
(** * The backtrack sets of DPOR

What [dynamically_update_backtrack_sets] and [grow_stack_after_running] of
[Dpor.v] do to the items of the stack: the condition of Flanagan and Godefroid on
the backtrack set of the state before a reversible race, and which parts of the
items never change ([evolves], a preorder). *)

From stdpp Require Import options.
From S2P Require Import Prelude InjectiveFunction DoubleDispatch CondPolicy Objects State.
From S2P Require Import Transitions Dependency StateSequence Program ClockVector StackItem Dpor.

(** ** Items that only gain threads to backtrack on *)

Record evolves (s s' : stack_item) : Prop := Evolves {
  ev_done : done_set s' = done_set s;
  ev_enabled : enabled_runners s' = enabled_runners s;
  ev_sleep : sleep_set s' = sleep_set s;
  ev_clocks : per_runner_clocks s' = per_runner_clocks s;
  ev_cv : item_cv s' = item_cv s;
  ev_out : out_transition s' = out_transition s;
  ev_backtrack : backtrack_set s ⊆ backtrack_set s';
  ev_ok : item_ok s → item_ok s';
}.

#[export] Instance evolves_preorder : PreOrder evolves.
Proof.
  split; [by split|]. intros x y z [] []. split; try congruence; [set_solver|auto].
Qed.
Definition stack_evolves : relation (list stack_item) := Forall2 evolves.
#[export] Instance stack_evolves_preorder : PreOrder stack_evolves.
Proof. unfold stack_evolves. apply _. Qed.

Lemma insert_backtrack_evolves rid s :
  rid ∈ enabled_runners s → evolves s (insert_into_backtrack_set_unless_completed rid s).
Proof.
  intros Hr. split; try (unfold insert_into_backtrack_set_unless_completed;
    case_match; simpl; set_solver). intros. by apply insert_backtrack_ok.
Qed.
Lemma insert_backtrack_in rid s :
  rid ∈ backtrack_set (insert_into_backtrack_set_unless_completed rid s) ∪ done_set s.
Proof.
  unfold insert_into_backtrack_set_unless_completed, done_set_contains.
  case_bool_decide; simpl; set_solver.
Qed.

(** The loop that adds every enabled runner outside the sleep set. *)
Lemma insert_all_awake qs s :
  (∀ q, q ∈ qs → q ∈ enabled_runners s) →
  let s' := foldl (λ s q, if sleep_set_contains s q then s
                          else insert_into_backtrack_set_unless_completed q s) s qs in
  evolves s s' ∧
  ∀ q, q ∈ qs → q ∉ sleep_set s → q ∈ backtrack_set s' ∪ done_set s.
Proof.
  revert s. induction qs as [|q qs IH]; intros s Hen; simpl; [split; [done|set_solver]|].
  set (s1 := if sleep_set_contains s q then s else _).
  assert (evolves s s1) as Hs1.
  { unfold s1. case_match; [done|]. apply insert_backtrack_evolves. set_solver. }
  destruct (IH s1) as [Hev Hin].
  { intros q' Hq'. rewrite (ev_enabled _ _ Hs1). set_solver. }
  split; [by etrans|]. intros q' [->|Hq']%elem_of_cons Hsleep.
  - assert (q ∈ backtrack_set s1 ∪ done_set s) as Hq.
    { unfold s1, sleep_set_contains. rewrite bool_decide_eq_false_2 by done. apply insert_backtrack_in. }
    pose proof (ev_backtrack _ _ Hev). set_solver.
  - rewrite <- (ev_done _ _ Hs1). apply Hin; [done|]. by rewrite (ev_sleep _ _ Hs1).
Qed.

(** ** The set [E] *)

(** The runner [q] has a transition after the [i]-th in the trace that happens
before the next transition of [p]. *)
Definition runs_before (stk : list stack_item) (i : nat) (q p : runner_id_t) : Prop :=
  ∃ j t, i < j < length stk - 1 ∧ get_transition stk (N.of_nat j) = Ok t ∧
    get_executor t = q ∧ happens_before_thread stk (N.of_nat j) p = Ok true.

Lemma race_loop_spec stk js q p b :
  race_loop stk js q p = Ok b →
  (b = true) ↔ ∃ j t, j ∈ js ∧ get_transition stk j = Ok t ∧ get_executor t = q ∧
    happens_before_thread stk j p = Ok true.
Proof.
  induction js as [|j js IH]; intros Hr; cbn [race_loop] in Hr.
  { injection Hr as <-. split; [done|]. intros (? & ? & []%not_elem_of_nil & _). }
  apply bind_ok in Hr as (t & Ht & Hr). case_bool_decide as Hq.
  - apply bind_ok in Hr as (hb & Hhb & Hr). destruct hb.
    + injection Hr as <-. split; [|done]. intros _. exists j, t. split_and!; [left|..]; done.
    + rewrite IH by done. split; intros (j' & t' & Hj & Ht' & Hq' & Hhb').
      * exists j', t'. split_and!; [by right|done..].
      * exists j', t'. split_and!; [|done..]. apply elem_of_cons in Hj as [->|?]; [|done].
        rewrite Hhb in Hhb'. done.
  - rewrite IH by done. split; intros (j' & t' & Hj & Ht' & Hq' & Hhb').
    + exists j', t'. split_and!; [by right|done..].
    + exists j', t'. split_and!; [|done..]. apply elem_of_cons in Hj as [->|?]; [|done].
      rewrite Ht in Ht'. injection Ht' as ->. done.
Qed.

Lemma threads_race_after_spec stk i q p b :
  threads_race_after stk i q p = Ok b → (b = true) ↔ runs_before stk i q p.
Proof.
  unfold threads_race_after. intros Hr. rewrite (race_loop_spec _ _ _ _ _ Hr). unfold runs_before. split.
  - intros (j & t & Hj & H). apply list_elem_of_fmap in Hj as (k & -> & Hk%elem_of_seq).
    exists k, t. split; [lia|done].
  - intros (j & t & Hj & H). exists (N.of_nat j), t. split; [|done].
    apply list_elem_of_fmap. exists j. split; [done|]. apply elem_of_seq. lia.
Qed.

(** The runners that the paper would backtrack on, without the ones asleep. *)
Definition in_E (stk : list stack_item) (pre_si : stack_item) (i : nat) (p q : runner_id_t) : Prop :=
  q ∈ enabled_runners pre_si ∧ (q ∉ sleep_set pre_si) ∧ (q = p ∨ runs_before stk i q p).

Lemma candidates_spec qs stk pre_si i p e :
  candidates qs stk pre_si i p = Ok e →
  ∀ q, q ∈ e ↔ q ∈ qs ∧ (q ∉ sleep_set pre_si) ∧ (q = p ∨ runs_before stk i q p).
Proof.
  revert e. induction qs as [|q qs IH]; intros e He; cbn [candidates] in He.
  { injection He as <-. set_solver. }
  apply bind_ok in He as (b & Hb & He). apply bind_ok in He as (e' & He' & He).
  specialize (IH _ He'). injection He as <-. intros q'.
  assert ((b = true) ↔ q = p ∨ runs_before stk i q p) as Hbq.
  { case_bool_decide as Hq; [injection Hb as <-; naive_solver|].
    rewrite (threads_race_after_spec _ _ _ _ _ Hb). naive_solver. }
  unfold sleep_set_contains.
  destruct (b && negb (bool_decide (q ∈ sleep_set pre_si))) eqn:Hcond.
  - apply andb_true_iff in Hcond as [Hb1 Hsl%negb_true_iff%bool_decide_eq_false].
    apply Hbq in Hb1. rewrite elem_of_union, elem_of_singleton, IH, elem_of_cons. naive_solver.
  - rewrite IH, elem_of_cons. apply andb_false_iff in Hcond.
    rewrite negb_false_iff, bool_decide_eq_true in Hcond. split; [naive_solver|].
    intros ([->|?] & Hsl & Hor); [|done]. apply Hbq in Hor as ->. naive_solver.
Qed.

Section update.
Variable config : configuration.

(** The condition of the race in the code. *)
Definition reversible_race (stk : list stack_item) (S_i next_sp : transition) (i : nat) (p : runner_id_t) : Prop :=
  are_dependent config next_sp S_i = true ∧ are_coenabled config next_sp S_i = true ∧
  happens_before_thread stk (N.of_nat i) p = Ok false.

Lemma update_at_index_race stk S_i next_sp pre_si i p s' stop :
  dynamically_update_backtrack_sets_at_index config stk S_i next_sp pre_si i p = Ok (s', stop) →
  ((stop = true) ↔ reversible_race stk S_i next_sp i p) ∧ (stop = false → s' = pre_si).
Proof.
  unfold dynamically_update_backtrack_sets_at_index, reversible_race. intros Hu.
  apply bind_ok in Hu as (race & Hrace & Hu).
  assert ((race = true) ↔ reversible_race stk S_i next_sp i p) as Hr.
  { unfold reversible_race. destruct (are_dependent _ _ _), (are_coenabled _ _ _); simpl in Hrace;
      try (injection Hrace as <-; naive_solver).
    destruct (happens_before_thread _ _ _) as [b|]; [|done]. injection Hrace as <-.
    destruct b; naive_solver. }
  destruct race.
  - apply bind_ok in Hu as (e & He & Hu). repeat case_match; simplify_eq/=; naive_solver.
  - injection Hu as <- <-. naive_solver.
Qed.

Lemma update_at_index_evolves stk S_i next_sp pre_si i p s' stop :
  dynamically_update_backtrack_sets_at_index config stk S_i next_sp pre_si i p = Ok (s', stop) →
  evolves pre_si s' ∧
  (stop = true → ((∃ q, in_E stk pre_si i p q ∧ q ∈ backtrack_set s' ∪ done_set s') ∨
    (∀ q, in_E stk pre_si i p q → False) ∧
    ∀ q, q ∈ enabled_runners pre_si → q ∉ sleep_set pre_si → q ∈ backtrack_set s' ∪ done_set s')).
Proof.
  unfold dynamically_update_backtrack_sets_at_index. intros Hu.
  apply bind_ok in Hu as (race & _ & Hu). destruct race; [|by injection Hu as <- <-].
  apply bind_ok in Hu as (e & He & Hu). pose proof (candidates_spec _ _ _ _ _ _ He) as HE.
  assert (∀ q, q ∈ e ↔ in_E stk pre_si i p q) as HE'.
  { intros q. rewrite HE, elem_of_ascending. done. }
  case_bool_decide as Hemp.
  - injection Hu as <- <-. destruct (insert_all_awake (ascending (enabled_runners pre_si)) pre_si) as [Hev Hin].
    { intros q. by rewrite elem_of_ascending. }
    split; [done|]. intros _. right. split; [intros q Hq%HE'; set_solver|].
    intros q Hq Hsl. rewrite (ev_done _ _ Hev). apply Hin; [by apply elem_of_ascending|done].
  - case_match eqn:Hex.
    + injection Hu as <- <-. split; [done|]. intros _. left.
      apply existsb_exists in Hex as (q & Hq & Hb%bool_decide_eq_true).
      exists q. rewrite <- HE'. apply list_elem_of_In, elem_of_ascending in Hq. set_solver.
    + destruct (ascending e) as [|q l] eqn:Hasc; [done|]. injection Hu as <- <-.
      assert (in_E stk pre_si i p q) as Hq by (apply HE', elem_of_ascending; rewrite Hasc; by left).
      assert (evolves pre_si (insert_into_backtrack_set_unless_completed q pre_si)) as Hev
        by (apply insert_backtrack_evolves, Hq).
      split; [done|]. intros _. left. exists q. split; [done|].
      rewrite (ev_done _ _ Hev). apply insert_backtrack_in.
Qed.

(** C2: backtrack points, the condition of Flanagan and Godefroid with sleep sets.
[dynamically_update_backtrack_sets_at_index] returns [true] exactly when the
next transition of [p] has a reversible race with the [i]-th transition.  Then,
if some runner is in [E] (enabled before that transition, awake, and [p] itself or
running later and before [p]), one of them is in the backtrack set or already
searched; if none is, all enabled runners that are awake are.  Without a race
the item does not change, and it never loses a runner to backtrack on. *)
Theorem backtrack_points stk S_i next_sp pre_si i p s' stop :
  dynamically_update_backtrack_sets_at_index config stk S_i next_sp pre_si i p = Ok (s', stop) →
  item_ok pre_si →
  item_ok s' ∧ backtrack_set pre_si ⊆ backtrack_set s' ∧
  ((stop = true) ↔ reversible_race stk S_i next_sp i p) ∧
  (stop = false → s' = pre_si) ∧
  (stop = true →
    (∃ q, in_E stk pre_si i p q ∧ q ∈ backtrack_set s' ∪ done_set s') ∨
    (∀ q, in_E stk pre_si i p q → False) ∧
    ∀ q, q ∈ enabled_runners pre_si → q ∉ sleep_set pre_si → q ∈ backtrack_set s' ∪ done_set s').
Proof.
  intros Hu Hok. destruct (update_at_index_race _ _ _ _ _ _ _ _ Hu) as [Hrace Hsame].
  destruct (update_at_index_evolves _ _ _ _ _ _ _ _ Hu) as [Hev HE].
  split_and!; [by apply (ev_ok _ _ Hev)|by apply (ev_backtrack _ _ Hev)|done..].
Qed.

(** The transition of index 0 happens before everything: its index is compared
with clocks that count from 1. *)
Lemma happens_before_thread_zero stk p b : happens_before_thread stk 0 p = Ok b → b = true.
Proof.
  unfold happens_before_thread. intros Hb.
  apply bind_ok in Hb as (t & _ & Hb). apply bind_ok in Hb as (s & _ & Hb).
  apply bind_ok in Hb as (cv & _ & Hb). injection Hb as <-. apply bool_decide_eq_true. lia.
Qed.

(** ** The effects on the whole stack *)

Section effects.
Context {C : Type} `{Coordinator C}.
Implicit Types ctx : dpor_context C.

(** What every step of [dynamically_update_backtrack_sets] keeps, whether or not
it throws. *)
Record updates ctx ctx' : Prop := Updates {
  up_coordinator : coordinator ctx' = coordinator ctx;
  up_stats : model_checking_stats ctx' = model_checking_stats ctx;
  up_events : events ctx' = events ctx;
  up_stack : stack_evolves (stack ctx) (stack ctx');
  up_first : stack ctx' !! 0 = stack ctx !! 0;
}.
#[export] Instance updates_preorder : PreOrder updates.
Proof.
  split; [by split|]. intros x y z [] []. split; try congruence. by etrans.
Qed.

Abbreviation keeps := (preserves updates) (only parsing).

Lemma keeps_update_at S_i next_sp i p : keeps (update_at (C := C) config S_i next_sp i p).
Proof.
  intros ctx r ctx' Hu. unfold update_at in Hu.
  destruct (vec_at _ _) as [s|] eqn:Hs; simpl in Hu; [|by injection Hu as <- <-].
  destruct (dynamically_update_backtrack_sets_at_index _ _ _ _ _ _ _) as [[s' stop]|] eqn:Hd;
    [|by injection Hu as <- <-].
  injection Hu as <- <-. apply vec_at_ok in Hs. rewrite Nat2N.id in Hs.
  split; simpl; [done..| |].
  - apply Forall2_same_length_lookup. split; [by rewrite length_insert|].
    intros j x y Hx Hy. rewrite list_lookup_insert in Hy. case_decide as Hj.
    + destruct Hj as [<- _]. simplify_eq/=. by destruct (update_at_index_evolves _ _ _ _ _ _ _ _ Hd).
    + simplify_eq. done.
  - destruct i as [|i]; [|by rewrite list_lookup_insert_ne].
    apply update_at_index_race in Hd as [[Hst _] Hsame]. destruct stop.
    + destruct (Hst eq_refl) as (_ & _ & Hhb%happens_before_thread_zero). done.
    + rewrite Hsame by done. by rewrite list_insert_id.
Qed.

#[local] Hint Resolve keeps_update_at : preserves.

Lemma keeps_update_other_threads rids S_n top :
  keeps (update_other_threads (C := C) config rids S_n top).
Proof. induction rids as [|rid rids IH]; cbn [update_other_threads]; preserve. Qed.
Lemma keeps_update_last_thread n next_s_p p :
  keeps (update_last_thread (C := C) config n next_s_p p).
Proof. induction n as [|n IH]; cbn [update_last_thread]; preserve. Qed.
#[local] Hint Resolve keeps_update_other_threads keeps_update_last_thread : preserves.
Lemma keeps_dynamically_update_backtrack_sets :
  keeps (dynamically_update_backtrack_sets (C := C) config).
Proof. unfold dynamically_update_backtrack_sets. preserve. Qed.

(** ** Growing the stack *)

Lemma inherit_sleep_set_spec rids model t_n s s' :
  inherit_sleep_set config rids model t_n s = Ok s' →
  s' = StackItem (item_cv s) (per_runner_clocks s) (out_transition s) (backtrack_set s)
         (done_set s) (sleep_set s') (enabled_runners s) ∧
  ∀ r, r ∈ sleep_set s' ↔ r ∈ sleep_set s ∨
    r ∈ rids ∧ ∃ t, get_pending_transition_for model r = Some t ∧ are_independent config t t_n = true.
Proof.
  revert s. induction rids as [|rid rids IH]; intros s Hi; cbn [inherit_sleep_set] in Hi.
  { injection Hi as ->. split; [by destruct s'|]. set_solver. }
  apply bind_ok in Hi as (t & Ht & Hi). apply deref_ok in Ht.
  apply IH in Hi as [Heq Hsl]. destruct (are_independent config t t_n) eqn:Hind.
  - split; [done|]. intros r. rewrite Hsl, elem_of_cons. simpl. rewrite elem_of_union, elem_of_singleton.
    split; [intros [[->|?]|[??]]; eauto 6|]. intros [?|[[->|?] ?]]; auto.
  - split; [done|]. intros r. rewrite Hsl, elem_of_cons. split; [intros [?|[??]]; eauto|].
    intros [?|[[->|?] (t' & Ht' & Hi')]]; eauto. congruence.
Qed.

(** The item of the state before the transition, and the new one. *)
Record grown (ctx : dpor_context C) (s : stack_item) (t_n : transition) (s_n s_next : stack_item) : Prop := Grown {
  gr_trace : last (trace (model_of ctx)) = Some (Some t_n);
  gr_bound : N.to_nat (get_executor t_n) < length (per_runner_clocks s);
  gr_done : done_set s_n = ({[get_executor t_n]} ∪ done_set s);
  gr_backtrack : backtrack_set s_n = backtrack_set s ∖ {[get_executor t_n]};
  gr_sleep : sleep_set s_n = ({[get_executor t_n]} ∪ sleep_set s);
  gr_enabled : enabled_runners s_n = enabled_runners s;
  gr_clocks : per_runner_clocks s_n = per_runner_clocks s;
  gr_cv : item_cv s_n = item_cv s;
  gr_out : out_transition s_n = Some t_n;
  gr_next_clock : item_cv s_next = set_clock (get_executor t_n) (get_depth_into_program (coordinator ctx))
                    (accumulate_max_clock_vector_against config t_n (stack ctx));
  gr_next_clocks : ∃ r, per_runner_clocks s !! N.to_nat (get_executor t_n) = Some r ∧
    per_runner_clocks s_next =
      <[N.to_nat (get_executor t_n) := set_clock_vector (item_cv s_next) r]> (per_runner_clocks s);
  gr_next_out : out_transition s_next = Some t_n;
  gr_next_done : done_set s_next = ∅;
  gr_next_backtrack : backtrack_set s_next = ∅;
  gr_next_enabled : get_enabled_runners (model_of ctx) = Ok (enabled_runners s_next);
  gr_next_sleep : ∀ r, r ∈ sleep_set s_next ↔ r ∈ sleep_set s ∧
    ∃ t, get_pending_transition_for (model_of ctx) r = Some t ∧ are_independent config t t_n = true;
}.

Lemma grow_stack_spec ctx ctx' :
  grow_stack_after_running config ctx = (Ok tt, ctx') →
  ∃ below s t_n s_n s_next,
    stack ctx = below ++ [s] ∧ ctx' = set_stack (below ++ [s_n; s_next]) ctx ∧
    grown ctx s t_n s_n s_next ∧
    get_depth_into_program (coordinator ctx) = N.of_nat (length (stack ctx)).
Proof.
  unfold grow_stack_after_running. intros Hg.
  rewrite !ebind_query in Hg. unfold assert in Hg. case_bool_decide as Hdepth; [|done].
  unfold ebind at 1, ret in Hg. rewrite ebind_query in Hg.
  destruct (_ ≫= deref) as [t_n|] eqn:Ht; [|done]. rewrite !ebind_query in Hg.
  destruct (vec_back (stack ctx)) as [s|] eqn:Hs; [|done]. rewrite ebind_query in Hg.
  destruct (deref (per_runner_clocks s !! _)) as [r|] eqn:Hr; [|done]. cbv zeta in Hg.
  rewrite ebind_query in Hg.
  destruct (get_enabled_runners (model_of ctx)) as [enabled|] eqn:Hen; [|done].
  destruct (inherit_sleep_set _ _ _ _ _) as [s_next|] eqn:Hi; [|done]. injection Hg as <-.
  apply inherit_sleep_set_spec in Hi as [Heq Hsl].
  apply bind_ok in Ht as (o & Ho%deref_ok & ->%deref_ok).
  apply deref_ok in Hs, Hr. apply last_Some in Hs as [below Hbelow].
  pose proof (lookup_lt_Some _ _ _ Hr) as Hlt.
  eexists below, s, t_n, _, s_next. rewrite Hbelow, removelast_last.
  split_and!; [done..| |by rewrite <- Hbelow].
  rewrite Heq. rewrite Heq in Hsl. split; simpl; try done.
  - by exists r.
  - intros r'. simpl in Hsl. rewrite Hsl, elem_of_ascending. set_solver.
Qed.

(** Growing the stack.  When [grow_stack_after_running] returns, the stack had
as many items as the depth of the coordinator and has one more: the item of the
state before the last transition of the trace records that transition, whose
executor is searched, no longer to be backtracked on, and asleep; the new item is
fresh, carries the clock of the transition with the depth as the executor's
component, and inherits the runners asleep whose next transitions are
independent of it. *)
Theorem grow_stack_adds_item ctx ctx' :
  grow_stack_after_running config ctx = (Ok tt, ctx') →
  ∃ below s t_n s_n s_next,
    stack ctx = below ++ [s] ∧ ctx' = set_stack (below ++ [s_n; s_next]) ctx ∧
    grown ctx s t_n s_n s_next ∧
    get_depth_into_program (coordinator ctx) = N.of_nat (length (stack ctx)).
Proof. apply grow_stack_spec. Qed.

(** The runner just executed is in two of the three sets of an item: the
executor of the last transition is both searched and asleep in the item below
the top, which the class's invariant (exactly one set) excludes. *)
Theorem executed_runner_in_two_sets ctx ctx' :
  grow_stack_after_running config ctx = (Ok tt, ctx') →
  ∃ t_n s_n, last (trace (model_of ctx)) = Some (Some t_n) ∧
    stack ctx' !! (length (stack ctx') - 2) = Some s_n ∧
    done_set_contains s_n (get_executor t_n) = true ∧
    sleep_set_contains s_n (get_executor t_n) = true ∧
    backtrack_set_contains s_n (get_executor t_n) = false.
Proof.
  intros (below & s & t_n & s_n & s_next & _ & -> & Hg & _)%grow_stack_spec.
  exists t_n, s_n. split; [apply Hg|]. simpl. rewrite length_app. simpl. split.
  { rewrite list_lookup_middle; [done|lia]. }
  unfold done_set_contains, sleep_set_contains, backtrack_set_contains.
  rewrite (gr_done _ _ _ _ _ Hg), (gr_sleep _ _ _ _ _ Hg), (gr_backtrack _ _ _ _ _ Hg).
  split_and!; [apply bool_decide_eq_true..|apply bool_decide_eq_false]; set_solver.
Qed.

(** The first transition is never reversed: whatever the trace,
[dynamically_update_backtrack_sets] leaves the item of the initial state as it
is, because the index of the first transition, 0, is at most every clock.  It
also changes nothing but backtrack sets, which only grow, and keeps the
invariant of every item. *)
Theorem initial_item_never_updated ctx r ctx' :
  dynamically_update_backtrack_sets config ctx = (r, ctx') →
  coordinator ctx' = coordinator ctx ∧ stack ctx' !! 0 = stack ctx !! 0 ∧
  stack_evolves (stack ctx) (stack ctx') ∧
  (Forall item_ok (stack ctx) → Forall item_ok (stack ctx')).
Proof.
  intros Hu. pose proof (keeps_dynamically_update_backtrack_sets _ _ _ Hu) as [].
  split_and!; [done..|]. intros Hok. apply Forall_lookup. intros i s' Hs'.
  destruct (Forall2_lookup_r _ _ _ _ _ up_stack0 Hs') as (s & Hs & Hev).
  apply (ev_ok _ _ Hev). by eapply Forall_lookup_1.
Qed.

(** One step of the search: the coordinator runs the runner, the stack grows and
the backtrack sets are updated. *)
Lemma continue_spec p ctx ctx' :
  continue_dpor_by_expanding_trace_with config p ctx = (Ok tt, ctx') →
  ∃ c below s t_n s_n s_next,
    execute_runner p (coordinator ctx) = (Ok tt, c) ∧
    coordinator ctx' = c ∧ model_checking_stats ctx' = model_checking_stats ctx ∧
    events ctx' = events ctx ∧
    stack ctx = below ++ [s] ∧ grown (set_coordinator c ctx) s t_n s_n s_next ∧
    stack_evolves (below ++ [s_n; s_next]) (stack ctx') ∧
    stack ctx' !! 0 = (below ++ [s_n; s_next]) !! 0 ∧
    get_depth_into_program c = N.of_nat (length (stack ctx)).
Proof.
  unfold continue_dpor_by_expanding_trace_with, on_coordinator, zoom. intros Hc.
  apply ebind_ok in Hc as ([] & ctx1 & Hx & Hc).
  destruct (execute_runner p (coordinator ctx)) as [r c] eqn:Hex. injection Hx as -> <-.
  apply ebind_ok in Hc as ([] & ctx2 & Hgrow & Hupd).
  apply grow_stack_spec in Hgrow as (below & s & t_n & s_n & s_next & Hst & -> & Hg & Hd).
  apply keeps_dynamically_update_backtrack_sets in Hupd as [].
  exists c, below, s, t_n, s_n, s_next. split_and!; done.
Qed.

End effects.
End update.
