(* ===== verification/Exploration.v ===== *)
(** * The exploration loop of DPOR

The loops of [classic_dpor::verify_using] ([Dpor.verify_using]) as a transition
system on the states at the head of the outer loop ([loop_head]), with what holds
at each of them ([search_inv]) and a measure that every iteration decreases: the
numbers of runners left to search, from the initial state up, compared
lexicographically.  The coordinator is any instance of the interface; only the
agreement of depths needs its laws ([CoordinatorLaws], which [Coordinator.v]
proves of the real one). *)

From stdpp Require Import options.
From S2P Require Import Prelude InjectiveFunction DoubleDispatch CondPolicy Objects State.
From S2P Require Import Transitions Dependency StateSequence Program ClockVector StackItem Dpor.
From S2P Require Import Backtracking.

(** ** A well-founded order *)

(** Lexicographic order on lists of the same length. *)
Inductive lex_lt : relation (list nat) :=
  | lex_here a a' l l' : a' < a → length l' = length l → lex_lt (a' :: l') (a :: l)
  | lex_later a l l' : lex_lt l' l → lex_lt (a :: l') (a :: l).

Lemma lex_lt_acc n l : length l = n → Acc lex_lt l.
Proof.
  revert l. induction n as [|n IH]; intros l Hl.
  { apply nil_length_inv in Hl as ->. constructor. intros l' Hlt. inversion Hlt. }
  destruct l as [|a l]; [done|]. injection Hl as Hl.
  revert l Hl. induction (lt_wf a) as [a _ IHa]. intros l Hl.
  induction (IH l Hl) as [l _ IHl]. constructor. intros l' Hlt.
  inversion Hlt; subst; [apply IHa; [done|congruence]|].
  apply IHl; [done|]. match goal with H : lex_lt _ _ |- _ => clear -H; induction H end; simpl; congruence.
Qed.

(** A list padded to length [n]. *)
Definition pad (n : nat) (l : list nat) : list nat := l ++ replicate (n - length l) 0.

Lemma lex_lt_pad n pre a a' b rest :
  a' < a → length (pre ++ a :: rest) ≤ n → length (pre ++ [a'; b]) ≤ n →
  lex_lt (pad n (pre ++ [a'; b])) (pad n (pre ++ a :: rest)).
Proof.
  unfold pad. intros Ha Hold Hnew. rewrite <- !app_assoc.
  assert (∀ x y, lex_lt x y → lex_lt (pre ++ x) (pre ++ y)) as Hpre.
  { intros x y ?. clear Hold Hnew. induction pre; simpl; [done|]. by constructor. }
  apply Hpre. simpl. constructor; [done|]. rewrite !length_app in *. simpl in *.
  rewrite !length_replicate. lia.
Qed.

(** ** The invariant *)

Section exploration.
Context {C : Type} `{Coordinator C} (config : configuration) (cbs : callbacks).
Implicit Types ctx : dpor_context C.

Definition item_inv (s : stack_item) : Prop :=
  item_ok s ∧ length (per_runner_clocks s) = N.to_nat MAX_TOTAL_THREADS_IN_PROGRAM.

(** At the head of the loop: items are well-formed, the top has not been
searched, and the initial state has nothing to backtrack on. *)
Record search_inv ctx : Prop := SearchInv {
  si_items : Forall item_inv (stack ctx);
  si_top : ∀ s, last (stack ctx) = Some s → done_set s = ∅;
  si_first : ∀ s, stack ctx !! 0 = Some s → backtrack_set s = ∅;
}.

Lemma evolves_inv s s' : evolves s s' → item_inv s → item_inv s'.
Proof. intros Hev [? ?]. split; [by apply (ev_ok _ _ Hev)|]. by rewrite (ev_clocks _ _ Hev). Qed.
Lemma stack_evolves_inv l l' : stack_evolves l l' → Forall item_inv l → Forall item_inv l'.
Proof. induction 1; inversion 1; constructor; eauto using evolves_inv. Qed.

(** The runners that can still be searched from a state. *)
Definition all_runners : gset runner_id_t :=
  list_to_set (N.of_nat <$> seq 0 (N.to_nat MAX_TOTAL_THREADS_IN_PROGRAM)).
Definition remaining (s : stack_item) : nat :=
  size ((all_runners ∪ enabled_runners s) ∖ done_set s).

Lemma elem_of_all_runners r : r ∈ all_runners ↔ N.to_nat r < N.to_nat MAX_TOTAL_THREADS_IN_PROGRAM.
Proof.
  unfold all_runners. rewrite elem_of_list_to_set, list_elem_of_fmap. split.
  - intros (k & -> & Hk%elem_of_seq). rewrite Nat2N.id. lia.
  - intros Hr. exists (N.to_nat r). rewrite N2Nat.id, elem_of_seq. lia.
Qed.
Lemma remaining_same s s' :
  done_set s' = done_set s → enabled_runners s' = enabled_runners s → remaining s' = remaining s.
Proof. unfold remaining. by intros -> ->. Qed.
Lemma remaining_less r s s' :
  done_set s' = ({[r]} ∪ done_set s) → enabled_runners s' = enabled_runners s →
  remaining s' ≤ remaining s ∧
  (r ∉ done_set s → r ∈ all_runners ∪ enabled_runners s → remaining s' < remaining s).
Proof.
  unfold remaining. intros -> ->. split; [apply subseteq_size; set_solver|].
  intros Hnot Hin. apply subset_size. set_solver.
Qed.
Lemma remaining_evolves l l' : stack_evolves l l' → remaining <$> l' = remaining <$> l.
Proof.
  induction 1 as [|s s' l l' Hev _ IH]; [done|]. rewrite !fmap_cons, IH. f_equal.
  apply remaining_same; apply Hev.
Qed.

Lemma grown_items ctx below s t s_n s_next :
  Forall item_inv (below ++ [s]) → grown config ctx s t s_n s_next → Forall item_inv (below ++ [s_n; s_next]).
Proof.
  intros [Hbelow [[Hok Hlen] _]%Forall_cons]%Forall_app Hg.
  destruct (gr_next_clocks _ _ _ _ _ _ Hg) as (r & Hr & Hclocks).
  apply Forall_app. split; [done|]. repeat constructor.
  - rewrite (gr_backtrack _ _ _ _ _ _ Hg), (gr_done _ _ _ _ _ _ Hg). destruct Hok. set_solver.
  - rewrite (gr_backtrack _ _ _ _ _ _ Hg), (gr_enabled _ _ _ _ _ _ Hg). destruct Hok. set_solver.
  - by rewrite (gr_clocks _ _ _ _ _ _ Hg).
  - rewrite (gr_next_done _ _ _ _ _ _ Hg). set_solver.
  - rewrite (gr_next_backtrack _ _ _ _ _ _ Hg). set_solver.
  - by rewrite Hclocks, length_insert.
Qed.

(** One step of the search from a well-formed stack. *)
Lemma continue_inv p ctx ctx' :
  continue_dpor_by_expanding_trace_with config p ctx = (Ok tt, ctx') →
  Forall item_inv (stack ctx) → (∀ s, stack ctx !! 0 = Some s → backtrack_set s = ∅) →
  ∃ below s pre a b,
    search_inv ctx' ∧ stack ctx = below ++ [s] ∧
    remaining <$> below = pre ∧ remaining <$> stack ctx' = pre ++ [a; b] ∧
    a ≤ remaining s ∧ (done_set s = ∅ → a < remaining s).
Proof.
  intros (c & below & s & t & s_n & s_next & _ & _ & _ & _ & Hst & Hg & Hev & Hfirst & _)%continue_spec Hall Hbt.
  rewrite Hst in Hall, Hbt. pose proof (grown_items _ _ _ _ _ _ Hall Hg) as Hitems.
  apply Forall_app in Hall as [_ [[_ Hlen] _]%Forall_cons].
  pose proof (remaining_evolves _ _ Hev) as Hrem.
  rewrite fmap_app in Hrem. cbn [fmap list_fmap] in Hrem.
  exists below, s, (remaining <$> below), (remaining s_n), (remaining s_next).
  pose proof (remaining_less _ s s_n (gr_done _ _ _ _ _ _ Hg) (gr_enabled _ _ _ _ _ _ Hg)) as [Hle Hlt].
  split_and!; [|done..|].
  - split.
    + by apply (stack_evolves_inv _ _ Hev).
    + intros s' Hs'. rewrite last_lookup in Hs'.
      destruct (Forall2_lookup_r _ _ _ _ _ Hev Hs') as (s0 & Hs0 & Hev0).
      rewrite <- (Forall2_length _ _ _ Hev), <- last_lookup in Hs0.
      rewrite last_app in Hs0. simpl in Hs0. injection Hs0 as <-.
      by rewrite (ev_done _ _ Hev0), (gr_next_done _ _ _ _ _ _ Hg).
    + intros s' Hs'. rewrite Hfirst in Hs'. destruct below as [|x below]; simpl in Hs', Hbt.
      * injection Hs' as <-. rewrite (gr_backtrack _ _ _ _ _ _ Hg), (Hbt s) by done. set_solver.
      * by apply Hbt.
  - intros Hdone. apply Hlt; [set_solver|]. apply elem_of_union_l, elem_of_all_runners.
    rewrite <- Hlen. apply Hg.
Qed.

Lemma search_inv_stack ctx ctx' : stack ctx' = stack ctx → search_inv ctx → search_inv ctx'.
Proof. intros Heq []. split; by rewrite Heq. Qed.

(** ** One iteration *)

Lemma expand_first_enabled_ok ctx ctx' :
  expand_first_enabled config ctx = (Ok tt, ctx') →
  ∃ s ctx1 t, last (stack ctx) = Some s ∧
    continue_dpor_by_expanding_trace_with config (get_first_enabled_runner s) ctx = (Ok tt, ctx1) ∧
    stack ctx' = stack ctx1 ∧ coordinator ctx' = coordinator ctx1 ∧
    get_pending_transition_for (model_of ctx') (get_first_enabled_runner s) = Some t ∧
    aborts_program_execution t = false ∧ (program_exit_code t ≤ 0)%Z.
Proof.
  unfold expand_first_enabled. rewrite ebind_query.
  destruct (vec_back (stack ctx)) as [s|] eqn:Hs; [|done]. apply deref_ok in Hs. cbv zeta.
  intros Hx. apply ebind_ok in Hx as ([] & ctx1 & Hc & Hx).
  apply ebind_ok in Hx as ([] & ctx2 & Hst & Hx). injection Hst as <-. rewrite ebind_query in Hx.
  destruct (deref _) as [t|] eqn:Ht; [|done]. apply deref_ok in Ht.
  destruct (aborts_program_execution t) eqn:Hab; [done|]. case_bool_decide; [done|].
  injection Hx as <-. exists s, ctx1, t. split_and!; done.
Qed.

(** The handlers never go on. *)
Lemma try_continue {A} (m : eff (dpor_context C) A) h ctx ctx' :
  (∀ e ctx1 ctx2, h e ctx1 = (Ok Continue, ctx2) → False) →
  try m h ctx = (Ok Continue, ctx') → ∃ a, m ctx = (Ok a, ctx').
Proof.
  intros Hh. unfold try. destruct (m ctx) as [[a|e] ctx1]; [|by intros ?%Hh].
  intros [= <-]. by exists a.
Qed.
Lemma catch_program_errors_returns e ctx1 ctx2 :
  catch_program_errors cbs e ctx1 = (Ok Continue, ctx2) → False.
Proof. by destruct e. Qed.
Lemma catch_undefined_behavior_returns e ctx1 ctx2 :
  catch_undefined_behavior cbs e ctx1 = (Ok Continue, ctx2) → False.
Proof. by destruct e. Qed.

Lemma explore_continue ctx ctx' :
  explore config cbs ctx = (Ok (Some Continue), ctx') →
  (N.of_nat (length (stack ctx)) < maximum_total_execution_depth config)%N ∧
  expand_first_enabled config ctx = (Ok tt, ctx').
Proof.
  unfold explore. rewrite ebind_query. destruct (vec_back _) as [s|]; [|done].
  destruct (has_enabled_runners s); [|done]. rewrite ebind_query. case_bool_decide; [done|].
  intros Hx. split; [lia|]. apply ebind_ok in Hx as (ctl & ctx1 & Htry & Hret). injection Hret as -> <-.
  apply try_continue in Htry as [[] Hx]; [done|]. intros e c1 c2. destruct e; done.
Qed.
Lemma explore_none ctx ctx' :
  explore config cbs ctx = (Ok None, ctx') →
  ctx' = ctx ∧ ∃ s, last (stack ctx) = Some s ∧ enabled_runners s = ∅.
Proof.
  unfold explore. rewrite ebind_query. destruct (vec_back _) as [s|] eqn:Hs; [|done].
  unfold has_enabled_runners. case_bool_decide as Hen; simpl.
  - intros [= ->]. split; [done|]. apply deref_ok in Hs. by exists s.
  - rewrite ebind_query. case_bool_decide; [done|]. intros Hx.
    apply ebind_ok in Hx as (ctl & ctx1 & _ & Hret). done.
Qed.

Lemma pop_searched_spec l :
  ∃ popped, l = popped ++ pop_searched l ∧ Forall (λ s, backtrack_set s = ∅) popped ∧
    (∀ s l', pop_searched l = s :: l' → backtrack_set s ≠ ∅).
Proof.
  induction l as [|s l IH]; simpl; [by exists []|].
  unfold backtrack_set_empty. case_bool_decide as Hs.
  - destruct IH as (popped & Hl & Hp & Hne). exists (s :: popped). simpl. rewrite <- Hl. auto.
  - exists []. split_and!; [done..|]. by intros ?? [= <- _].
Qed.
Lemma pop_stack_spec l :
  ∃ popped, l = reverse (pop_searched (reverse l)) ++ popped ∧
    Forall (λ s, backtrack_set s = ∅) popped ∧
    (∀ s, last (reverse (pop_searched (reverse l))) = Some s → backtrack_set s ≠ ∅).
Proof.
  destruct (pop_searched_spec (reverse l)) as (popped & Hl & Hp & Hne).
  exists (reverse popped). split_and!.
  - by rewrite <- reverse_app, <- Hl, reverse_involutive.
  - by apply Forall_reverse.
  - intros s Hs. destruct (pop_searched (reverse l)) as [|s' l'] eqn:Heq; [done|].
    rewrite reverse_cons, last_snoc in Hs. injection Hs as <-. by eapply Hne.
Qed.

Lemma callback_frame b e ctx :
  stack (callback b e ctx) = stack ctx ∧ coordinator (callback b e ctx) = coordinator ctx.
Proof. by destruct b. Qed.

(** Backtracking that goes on, from a stack whose top has nothing enabled. *)
Lemma backtrack_continue ctx ctx' :
  backtrack config cbs ctx = (Ok Continue, ctx') →
  ∃ kept popped, stack ctx = kept ++ popped ∧ Forall (λ s, backtrack_set s = ∅) popped ∧
    (kept = [] ∧ stack ctx' = [] ∨
     ∃ below s c st evs p s', kept = below ++ [s] ∧
       backtrack_set s ≠ ∅ ∧
       return_to_depth (N.of_nat (length below)) (coordinator ctx) = (Ok tt, c) ∧
       backtrack_set_pop_first s = (Ok p, s') ∧
       continue_dpor_by_expanding_trace_with config p
         (DporContext c (below ++ [s']) st evs) = (Ok tt, ctx')).
Proof.
  destruct (pop_stack_spec (stack ctx)) as (popped & Hpop & Hempty & Hne).
  set (kept := reverse (pop_searched (reverse (stack ctx)))) in *.
  unfold backtrack. intros Hb. apply ebind_ok in Hb as ([] & ctx1 & H1 & Hb).
  assert (stack ctx1 = stack ctx ∧ coordinator ctx1 = coordinator ctx) as [Hs1 Hc1].
  { injection H1 as <-. apply callback_frame. }
  rewrite ebind_query in Hb. destruct (if has_deadlock cbs then _ else _) as [dead|]; [|done].
  apply ebind_ok in Hb as ([] & ctx2 & H2 & Hb).
  assert (stack ctx2 = stack ctx ∧ coordinator ctx2 = coordinator ctx) as [Hs2 Hc2].
  { injection H2 as <-. rewrite <- Hs1, <- Hc1. apply callback_frame. }
  apply ebind_ok in Hb as ([] & ctx3 & H3 & Hb). rewrite Hs2 in H3. fold kept in H3.
  injection H3 as <-. rewrite ebind_query in Hb. simpl in Hb.
  exists kept, popped. split_and!; [done..|].
  case_bool_decide as Hk; [injection Hb as <-; by left|right].
  apply ebind_ok in Hb as (ctl & ctx4 & H4 & Hb). destruct ctl; [|done].
  apply try_continue in H4 as [[] H4]; [|apply catch_program_errors_returns].
  unfold on_coordinator, zoom in H4. simpl in H4. rewrite Hc2 in H4.
  destruct (return_to_depth _ _) as [r c] eqn:Hret. injection H4 as -> <-.
  apply ebind_ok in Hb as ([] & ctx5 & H5 & Hb). injection H5 as <-.
  apply try_continue in Hb as [[] Hb]; [|apply catch_undefined_behavior_returns].
  unfold expand_backtrack in Hb. rewrite ebind_query in Hb. simpl in Hb.
  destruct (exists_last Hk) as (below & s & Hkept). rewrite Hkept in *.
  unfold vec_back in Hb. rewrite last_snoc in Hb. simpl in Hb.
  destruct (backtrack_set_pop_first s) as [[p|] s'] eqn:Hpf; [|done].
  apply ebind_ok in Hb as ([] & ctx6 & H6 & Hb). injection H6 as <-.
  rewrite length_app in Hret. simpl in Hret. rewrite Nat.add_sub in Hret.
  rewrite removelast_last in Hb. exists below, s, c. eexists _, _, p, s'. split_and!; try done.
  apply Hne. by rewrite last_snoc.
Qed.

(** ** The measure *)

Definition ranks ctx : list nat := remaining <$> stack ctx.
Lemma length_ranks ctx : length (ranks ctx) = length (stack ctx).
Proof. apply length_fmap. Qed.

Lemma explore_step ctx ctx' :
  search_inv ctx → explore config cbs ctx = (Ok (Some Continue), ctx') →
  search_inv ctx' ∧ length (stack ctx') = S (length (stack ctx)) ∧
  ∃ pre a a' b, ranks ctx = pre ++ [a] ∧ ranks ctx' = pre ++ [a'; b] ∧ a' < a.
Proof.
  intros Hinv [_ Hx]%explore_continue.
  apply expand_first_enabled_ok in Hx as (s & ctx1 & _ & Hs & Hc & Hst & _).
  apply continue_inv in Hc as (below & s0 & pre & a & b & Hinv1 & Heq & <- & Hr & _ & Hlt); [|apply Hinv..].
  rewrite Heq, last_snoc in Hs. injection Hs as ->.
  pose proof (si_top _ Hinv s) as Hdone. rewrite Heq, last_snoc in Hdone.
  split; [by apply (search_inv_stack ctx1)|]. split.
  - rewrite <- length_ranks. unfold ranks. rewrite Hst, Hr, Heq, !length_app, length_fmap. simpl. lia.
  - eexists _, _, a, b. unfold ranks. rewrite Hst, Hr, Heq, fmap_app. split_and!; [done..|]. auto.
Qed.

(** The search goes back to a state after the initial one. *)
Lemma backtrack_step ctx ctx' s_top :
  search_inv ctx → last (stack ctx) = Some s_top → enabled_runners s_top = ∅ →
  backtrack config cbs ctx = (Ok Continue, ctx') →
  stack ctx' = [] ∨
  search_inv ctx' ∧ 3 ≤ length (stack ctx') ≤ length (stack ctx) ∧
  ∃ pre a a' b rest, ranks ctx = pre ++ a :: rest ∧ ranks ctx' = pre ++ [a'; b] ∧ a' < a.
Proof.
  intros Hinv Htop Hen (kept & popped & Hst & _ & [[_ ?]|Hk])%backtrack_continue; [by left|right].
  destruct Hk as (below & s & c & st & evs & p & s' & -> & Hne & _ & Hpf & Hc).
  pose proof (si_items _ Hinv) as Hall. rewrite Hst in Hall.
  apply Forall_app in Hall as [[Hbelow [[Hok Hlen] _]%Forall_cons]%Forall_app Hpopped].
  destruct (backtrack_set_pop_first_spec s) as (p' & Hpf' & Hin & _).
  { by apply bool_decide_eq_false_2. }
  rewrite Hpf in Hpf'. injection Hpf' as <- ->.
  assert (popped ≠ []) as Hpop.
  { intros ->. rewrite app_nil_r in Hst. rewrite Hst, last_snoc in Htop. injection Htop as ->.
    destruct Hok. set_solver. }
  assert (below ≠ []) as Hnb.
  { intros ->. apply Hne, (si_first _ Hinv). by rewrite Hst. }
  apply continue_inv in Hc as (below' & s0 & pre & a & b & Hinv1 & Heq & Hpre & Hr & Hle & _).
  2:{ simpl. apply Forall_app. split; [done|]. repeat constructor; [..|done]; simpl; destruct Hok; set_solver. }
  2:{ simpl. intros x Hx. destruct below as [|y below]; [done|]. apply (si_first _ Hinv). by rewrite Hst. }
  simpl in Heq. apply app_inj_tail in Heq as [<- <-].
  destruct (remaining_less p s (mark_searched p s)) as [_ Hlt]; [done..|].
  split; [done|]. rewrite <- !length_ranks. unfold ranks. rewrite Hr, Hst, <- Hpre.
  rewrite !length_fmap, !length_app, length_fmap. simpl.
  split; [destruct below, popped; simpl; [done..|lia]|].
  eexists _, (remaining s), a, b, _. split_and!; [|done|].
  - rewrite <- app_assoc, fmap_app. done.
  - eapply Nat.le_lt_trans; [done|]. apply Hlt; destruct Hok; set_solver.
Qed.

(** ** The states at the head of the outer loop *)

Inductive loop_head (c : C) : dpor_context C → Prop :=
  | head_initial enabled :
      get_enabled_runners (get_current_program_model c) = Ok enabled →
      loop_head c (DporContext c [new_stack_item empty_clock_vector enabled] (Stats 0 1) [])
  | head_explored ctx ctx' :
      loop_head c ctx → stack ctx ≠ [] →
      explore config cbs ctx = (Ok (Some Continue), ctx') → loop_head c ctx'
  | head_backtracked ctx ctx1 ctx' :
      loop_head c ctx → stack ctx ≠ [] → explore config cbs ctx = (Ok None, ctx1) →
      backtrack config cbs ctx1 = (Ok Continue, ctx') → loop_head c ctx'.

Lemma initial_inv c enabled :
  search_inv (DporContext c [new_stack_item empty_clock_vector enabled] (Stats 0 1) []).
Proof.
  split; simpl.
  - repeat constructor; simpl; set_solver.
  - by intros s [= <-].
  - by intros s [= <-].
Qed.

Lemma loop_head_inv c ctx : loop_head c ctx → search_inv ctx.
Proof.
  induction 1 as [|ctx ctx' _ IH _ Hx|ctx ctx1 ctx' _ IH _ Hx Hb]; [apply initial_inv| |].
  - by destruct (explore_step _ _ IH Hx).
  - apply explore_none in Hx as [-> (s & Hs & Hen)].
    destruct (backtrack_step _ _ _ IH Hs Hen Hb) as [Hnil|[? _]]; [|done].
    split; rewrite Hnil; [constructor|done..].
Qed.

(** The stack never grows past the maximum depth. *)
Definition max_depth : nat := N.to_nat (maximum_total_execution_depth config) `max` 1.
Lemma loop_head_depth c ctx : loop_head c ctx → length (stack ctx) ≤ max_depth.
Proof.
  unfold max_depth.
  induction 1 as [|ctx ctx' Hh IH _ Hx|ctx ctx1 ctx' Hh IH _ Hx Hb]; [simpl; lia| |].
  - destruct (explore_step _ _ (loop_head_inv _ _ Hh) Hx) as (_ & -> & _).
    apply explore_continue in Hx as [Hd _]. lia.
  - apply explore_none in Hx as [-> (s & Hs & Hen)].
    destruct (backtrack_step _ _ _ (loop_head_inv _ _ Hh) Hs Hen Hb) as [->|(_ & ? & _)]; simpl; lia.
Qed.

Definition decreases : relation (dpor_context C) := λ ctx' ctx,
  lex_lt (pad max_depth (ranks ctx')) (pad max_depth (ranks ctx)).
Lemma decreases_wf ctx : length (stack ctx) ≤ max_depth → Acc decreases ctx.
Proof.
  intros Hlen.
  assert (Acc lex_lt (pad max_depth (ranks ctx))) as Hacc.
  { apply (lex_lt_acc max_depth). unfold pad. rewrite length_app, length_replicate, length_ranks. lia. }
  remember (pad max_depth (ranks ctx)) as l eqn:Hl. clear Hlen. revert ctx Hl.
  induction Hacc as [l _ IH]. intros ctx ->. constructor. intros ctx' Hlt. by eapply IH.
Qed.

(** Enough fuel gives a result, and more fuel the same one. *)
Definition halts ctx : Prop :=
  ∃ n out, fst out ≠ Ok None ∧ ∀ fuel, n ≤ fuel → dpor_loop config fuel cbs ctx = out.
Lemma halts_now out ctx :
  fst out ≠ Ok None → (∀ fuel, dpor_loop config (S fuel) cbs ctx = out) → halts ctx.
Proof. intros Hout Hl. exists 1, out. split; [done|]. intros [|fuel] ?; [lia|done]. Qed.
Lemma halts_later ctx ctx' :
  halts ctx' → (∀ fuel, dpor_loop config (S fuel) cbs ctx = dpor_loop config fuel cbs ctx') → halts ctx.
Proof.
  intros (n & out & Hout & Hn) Hl. exists (S n), out. split; [done|].
  intros [|fuel] ?; [lia|]. rewrite Hl. apply Hn. lia.
Qed.

Lemma dpor_loop_nil fuel ctx : stack ctx = [] → dpor_loop config (S fuel) cbs ctx = (Ok (Some tt), ctx).
Proof. intros Hnil. cbn [dpor_loop]. by rewrite bool_decide_eq_true_2. Qed.
Lemma dpor_loop_cons fuel ctx :
  stack ctx ≠ [] →
  dpor_loop config (S fuel) cbs ctx =
    (let! c := explore config cbs in
     match c with
     | Some Return => ret (Some tt)
     | Some Continue => dpor_loop config fuel cbs
     | None =>
         let! c := backtrack config cbs in
         match c with Return => ret (Some tt) | Continue => dpor_loop config fuel cbs end
     end) ctx.
Proof. intros Hne. cbn [dpor_loop]. by rewrite bool_decide_eq_false_2. Qed.

Lemma decreases_ranks c ctx ctx' pre a a' b rest :
  loop_head c ctx → loop_head c ctx' →
  ranks ctx = pre ++ a :: rest → ranks ctx' = pre ++ [a'; b] → a' < a → decreases ctx' ctx.
Proof.
  intros Hh Hh' Hr Hr' Ha. unfold decreases. rewrite Hr, Hr'.
  apply lex_lt_pad; [done|rewrite <- Hr|rewrite <- Hr']; rewrite length_ranks; by eapply loop_head_depth.
Qed.

Lemma dpor_loop_terminates c ctx : loop_head c ctx → halts ctx.
Proof.
  intros Hh. pose proof (decreases_wf _ (loop_head_depth _ _ Hh)) as Hacc.
  induction Hacc as [ctx _ IH]. pose proof (loop_head_inv _ _ Hh) as Hinv.
  destruct (decide (stack ctx = [])) as [Hnil|Hne].
  { by apply (halts_now (Ok (Some tt), ctx)); [|intros; apply dpor_loop_nil]. }
  destruct (explore config cbs ctx) as [[[[]|]|e] ctx1] eqn:Hx.
  - assert (loop_head c ctx1) as Hh1 by by eapply head_explored.
    destruct (explore_step _ _ Hinv Hx) as (_ & _ & pre & a & a' & b & Hr & Hr' & Ha).
    apply (halts_later _ ctx1); [apply IH; [by eapply decreases_ranks|done]|].
    intros fuel. rewrite dpor_loop_cons by done. unfold ebind. by rewrite Hx.
  - apply (halts_now (Ok (Some tt), ctx1)); [done|].
    intros fuel. rewrite dpor_loop_cons by done. unfold ebind. by rewrite Hx.
  - destruct (backtrack config cbs ctx1) as [[[]|e] ctx2] eqn:Hb.
    + assert (loop_head c ctx2) as Hh2 by by eapply head_backtracked.
      apply (halts_later _ ctx2).
      2:{ intros fuel. rewrite dpor_loop_cons by done. unfold ebind. by rewrite Hx, Hb. }
      destruct (explore_none _ _ Hx) as [-> (s & Hs & Hen)].
      destruct (backtrack_step _ _ _ Hinv Hs Hen Hb) as [Hnil|(_ & _ & pre & a & a' & b & rest & Hr & Hr' & Ha)].
      * by apply (halts_now (Ok (Some tt), ctx2)); [|intros; apply dpor_loop_nil].
      * apply IH; [by eapply decreases_ranks|done].
    + apply (halts_now (Ok (Some tt), ctx2)); [done|].
      intros fuel. rewrite dpor_loop_cons by done. unfold ebind. by rewrite Hx, Hb.
    + apply (halts_now (Throw e, ctx2)); [done|].
      intros fuel. rewrite dpor_loop_cons by done. unfold ebind. by rewrite Hx, Hb.
  - apply (halts_now (Throw e, ctx1)); [done|].
    intros fuel. rewrite dpor_loop_cons by done. unfold ebind. by rewrite Hx.
Qed.

(** C1: termination.  For every configuration, set of callbacks and coordinator,
there is an amount of fuel with which [verify_using] returns or throws, and more
fuel gives the same result and the same final state: the exploration always ends,
because no runner is searched twice from a state and no trace is longer than the
configured maximum. *)
Theorem verify_using_terminates c :
  ∃ n out, fst out ≠ Ok None ∧ ∀ fuel, n ≤ fuel → verify_using config fuel cbs c = out.
Proof.
  unfold verify_using. cbv zeta. destruct (get_enabled_runners (get_current_program_model c)) as [enabled|e] eqn:Hen.
  - destruct (dpor_loop_terminates _ _ (head_initial c enabled Hen)) as (n & out & Hout & Hn).
    exists n, out. split; [done|]. intros fuel Hf. rewrite ebind_query. unfold model_of. simpl. rewrite Hen.
    by apply Hn.
  - exists 0, (Throw e, DporContext c [] (Stats 0 1) []). split; [done|]. intros fuel _.
    rewrite ebind_query. unfold model_of. simpl. by rewrite Hen.
Qed.

(** C12: the invariant of the search at every head of the loop: the stack holds at
most the maximum number of items; in each, the runners to backtrack on are enabled
and have not been searched, the item at the top has not been searched at all, and
the initial state has no runner to backtrack on. *)
Theorem search_invariant c ctx :
  loop_head c ctx →
  length (stack ctx) ≤ max_depth ∧
  Forall (λ s, (backtrack_set s ## done_set s) ∧ backtrack_set s ⊆ enabled_runners s) (stack ctx) ∧
  (∀ s, last (stack ctx) = Some s → done_set s = ∅) ∧
  (∀ s, stack ctx !! 0 = Some s → backtrack_set s = ∅).
Proof.
  intros Hh. destruct (loop_head_inv _ _ Hh) as [Hitems Htop Hfirst].
  split_and!; [by eapply loop_head_depth| |done..].
  eapply Forall_impl; [exact Hitems|]. by intros s [[] _].
Qed.

(** The search never goes back to the initial state: an outer iteration that
backtracks either empties the stack, which ends the search, or leaves at least
three items, those of a trace that shares its first transition with the one
before.  So the runners enabled initially, other than the first, are never
tried. *)
Theorem initial_state_never_backtracked c ctx ctx1 ctx' :
  loop_head c ctx → explore config cbs ctx = (Ok None, ctx1) →
  backtrack config cbs ctx1 = (Ok Continue, ctx') →
  stack ctx' = [] ∨ 3 ≤ length (stack ctx') ≤ length (stack ctx).
Proof.
  intros Hh [-> (s & Hs & Hen)]%explore_none Hb.
  destruct (backtrack_step _ _ _ (loop_head_inv _ _ Hh) Hs Hen Hb) as [?|(_ & ? & _)]; auto.
Qed.

End exploration.

(** ** The depth of the coordinator *)

(** What the search relies on: the operations keep the depth, a [uint32_t], in
step. *)
Class CoordinatorLaws (C : Type) `{Coordinator C} : Prop := {
  execute_runner_law p (c c' : C) :
    (get_depth_into_program c + 1 < 2^32)%N → execute_runner p c = (Ok tt, c') →
    get_depth_into_program c' = (get_depth_into_program c + 1)%N;
  return_to_depth_law n (c c' : C) :
    (n ≤ get_depth_into_program c)%N → return_to_depth n c = (Ok tt, c') →
    get_depth_into_program c' = n;
}.

Section depth.
Context {C : Type} `{Hlaws : CoordinatorLaws C} (config : configuration) (cbs : callbacks).

Lemma continue_depth p (ctx ctx' : dpor_context C) :
  continue_dpor_by_expanding_trace_with config p ctx = (Ok tt, ctx') →
  N.of_nat (length (stack ctx')) = (get_depth_into_program (coordinator ctx') + 1)%N.
Proof.
  intros (c & below & s & t & s_n & s_next & Hex & -> & _ & _ & Hst & _ & Hev & _ & Hd)%continue_spec.
  rewrite <- (Forall2_length _ _ _ Hev). rewrite Hd, Hst, !length_app. simpl. lia.
Qed.

Lemma loop_head_matches c ctx :
  get_depth_into_program c = 0%N → loop_head config cbs c ctx → stack ctx ≠ [] →
  N.of_nat (length (stack ctx)) = (get_depth_into_program (coordinator ctx) + 1)%N.
Proof.
  intros H0 Hh. induction Hh as [|ctx ctx' Hh IH Hne' Hx|ctx ctx1 ctx' Hh IH Hne' Hx Hb]; intros Hne.
  - simpl. by rewrite H0.
  - apply explore_continue in Hx as [_ Hx].
    apply expand_first_enabled_ok in Hx as (s & ctx1 & _ & _ & Hc & -> & -> & _).
    by apply continue_depth in Hc.
  - apply backtrack_continue in Hb as (kept & popped & Hst & _ & [[_ ?]|Hk]); [done|].
    destruct Hk as (below & s & c1 & st & evs & p & s' & -> & _ & Hret & _ & Hc).
    by apply continue_depth in Hc.
Qed.

(** The stack and the coordinator agree ("the number of items in the stack is
the number of transitions in the current trace plus one"): from a coordinator at
depth 0 whose operations obey the laws, this holds at every head of the loop where
the stack is not empty.  So the assertion of [grow_stack_after_running] holds:
executing a runner there, or after going back to the depth of a lower item, leaves
the coordinator at the depth that is the size of the remaining stack. *)
Theorem stack_matches_depth c ctx :
  get_depth_into_program c = 0%N → (maximum_total_execution_depth config < 2^32)%N →
  loop_head config cbs c ctx → stack ctx ≠ [] →
  N.of_nat (length (stack ctx)) = (get_depth_into_program (coordinator ctx) + 1)%N ∧
  (∀ p c', execute_runner p (coordinator ctx) = (Ok tt, c') →
    get_depth_into_program c' = N.of_nat (length (stack ctx))) ∧
  (∀ p n c' c'', n < length (stack ctx) →
    return_to_depth (N.of_nat n) (coordinator ctx) = (Ok tt, c') →
    execute_runner p c' = (Ok tt, c'') → get_depth_into_program c'' = N.of_nat (S n)).
Proof using Hlaws.
  intros H0 Hmax Hh Hne. pose proof (loop_head_matches c ctx H0 Hh Hne) as Hd.
  pose proof (loop_head_depth config cbs c ctx Hh) as Hlen. unfold max_depth in Hlen.
  split_and!; [done| |].
  - intros p c' Hex. rewrite (execute_runner_law p (coordinator ctx) c'); [lia|lia|done].
  - intros p n c' c'' Hn Hret Hex. apply return_to_depth_law in Hret; [|lia].
    rewrite (execute_runner_law p c' c''); [lia|lia|done].
Qed.
End depth.
