(* ===== verification/Mirror.v ===== *)
(** * The stack of the search and the trace

At every head of the loops of [classic_dpor] the stack of the search mirrors the
trace of the model ([mirrors]): the item below the top at index [i] holds the [i]-th
transition, whose executor it has searched, and the clock vectors of an item only
name transitions executed before its state.  So the race checks find every
transition they look up ([race_checks_total]).  The coordinator is any instance of
the interface that appends to the trace and cuts it back ([TraceLaws], which
[Coordinator.v] proves of the real one). *)

From stdpp Require Import options.
From S2P Require Import Prelude InjectiveFunction DoubleDispatch CondPolicy Objects State.
From S2P Require Import Transitions Dependency StateSequence Program Runners ClockVector StackItem Dpor.
From S2P Require Import Backtracking Exploration.

(** ** Positions in a trace *)

Implicit Types ts : list transition.

(** Every component of the clock vector is 0, or the position, counted from 1, of a
transition of that runner. *)
Definition names ts (cv : clock_vector) : Prop := ∀ q,
  value_for cv q = 0%N ∨
  ∃ i t, value_for cv q = N.of_nat (S i) ∧ ts !! i = Some t ∧ get_executor t = q.
(** The position of the last transition of [p], 0 when it has none. *)
Definition latest ts (p : runner_id_t) (v : N) : Prop :=
  (v = 0%N ∧ ∀ i t, ts !! i = Some t → get_executor t ≠ p) ∨
  ∃ i t, v = N.of_nat (S i) ∧ ts !! i = Some t ∧ get_executor t = p ∧
    ∀ j t', i < j → ts !! j = Some t' → get_executor t' ≠ p.

Lemma names_empty ts : names ts empty_clock_vector.
Proof. intros q. left. done. Qed.
Lemma names_app ts1 ts2 cv : names ts1 cv → names (ts1 ++ ts2) cv.
Proof.
  intros Hn q. destruct (Hn q) as [?|(i & t & ? & ? & ?)]; [by left|right].
  exists i, t. split_and!; [done|by apply lookup_app_l_Some|done].
Qed.
Lemma names_take ts i cv : names (take i ts) cv → names ts cv.
Proof. intros Hn. rewrite <- (take_drop i ts). by apply names_app. Qed.
Lemma names_max ts cv1 cv2 : names ts cv1 → names ts cv2 → names ts (clock_vector_max cv1 cv2).
Proof.
  intros H1 H2 q. rewrite value_for_max.
  destruct (N.max_spec (value_for cv1 q) (value_for cv2 q)) as [[_ ->]|[_ ->]]; [apply H2|apply H1].
Qed.
Lemma names_set ts t cv :
  names ts cv → names (ts ++ [t]) (set_clock (get_executor t) (N.of_nat (S (length ts))) cv).
Proof.
  intros Hn q. rewrite value_for_set. case_decide as Hq; [|by apply names_app].
  right. exists (length ts), t. by rewrite list_lookup_middle.
Qed.
Lemma names_accumulate config ts t stk :
  (∀ s, s ∈ stk → names ts (item_cv s)) → names ts (accumulate_max_clock_vector_against config t stk).
Proof.
  unfold accumulate_max_clock_vector_against. generalize (names_empty ts). generalize empty_clock_vector.
  induction stk as [|s stk IH]; intros cv Hcv Hall; simpl; [done|]. apply IH.
  - assert (names ts (item_get_clock_vector s)) by (apply Hall; left).
    destruct (get_out_transition s); [|done]. destruct (are_dependent _ _ _); [|done]. by apply names_max.
  - intros s' Hs'. apply Hall. by right.
Qed.

Lemma latest_nil p : latest [] p 0.
Proof. left. split; [done|]. intros i t Ht. done. Qed.
Lemma latest_here ts t : latest (ts ++ [t]) (get_executor t) (N.of_nat (S (length ts))).
Proof.
  right. exists (length ts), t. rewrite list_lookup_middle by done. split_and!; [done..|].
  intros j t' Hj Ht'%lookup_lt_Some. rewrite length_app in Ht'. simpl in Ht'. lia.
Qed.
Lemma latest_other ts t p v : latest ts p v → get_executor t ≠ p → latest (ts ++ [t]) p v.
Proof.
  assert (∀ (P : nat → Prop), (∀ j t', P j → ts !! j = Some t' → get_executor t' ≠ p) → get_executor t ≠ p →
    ∀ j t', P j → (ts ++ [t]) !! j = Some t' → get_executor t' ≠ p) as Hsnoc.
  { intros P Hts Hp j t' Hj [Ht'|[_ Ht']]%lookup_app_Some; [by eapply Hts|].
    apply list_lookup_singleton_Some in Ht' as [_ <-]. done. }
  intros [[-> Hno]|(i & t0 & -> & Ht0 & He & Hno)] Hp.
  - left. split; [done|]. intros i t'. by apply (Hsnoc (λ _, True)); [intros ???; apply Hno|..].
  - right. exists i, t0. split_and!; [done|by apply lookup_app_l_Some|done|]. by apply Hsnoc.
Qed.

(** ** The invariant *)

(** The clocks of an item whose state is reached by [ts]. *)
Record tracks ts (s : stack_item) : Prop := Tracks {
  tr_clock : names ts (item_cv s);
  tr_runners : ∀ p r, per_runner_clocks s !! p = Some r →
    names ts (runner_cv r) ∧ latest ts (N.of_nat p) (value_for (runner_cv r) (N.of_nat p));
}.

Record mirrors ts (stk : list stack_item) : Prop := Mirrors {
  mi_length : length stk = S (length ts);
  mi_out : ∀ i t, ts !! i = Some t → ∃ s, stk !! i = Some s ∧ out_transition s = Some t ∧
    (get_executor t ∈ done_set s) ∧ get_executor t ∈ sleep_set s;
  mi_tracks : ∀ i s, stk !! i = Some s → tracks (take i ts) s;
}.

Lemma mirrors_initial enabled : mirrors [] [new_stack_item empty_clock_vector enabled].
Proof.
  split; [done|done|]. intros i s [_ <-]%list_lookup_singleton_Some. rewrite take_nil. split; simpl.
  - apply names_empty.
  - intros p r [-> _]%lookup_replicate. split; [apply names_empty|apply latest_nil].
Qed.

Lemma evolves_tracks ts s s' : evolves s s' → tracks ts s → tracks ts s'.
Proof. intros Hev [Hc Hr]. split; [by rewrite (ev_cv _ _ Hev)|by rewrite (ev_clocks _ _ Hev)]. Qed.
Lemma stack_evolves_mirrors ts l l' : stack_evolves l l' → mirrors ts l → mirrors ts l'.
Proof.
  intros Hev [Hlen Hout Htr]. split.
  - by rewrite <- (Forall2_length _ _ _ Hev).
  - intros i t Ht. destruct (Hout i t Ht) as (s & Hs & Ho & Hd & Hsl).
    destruct (Forall2_lookup_l _ _ _ _ _ Hev Hs) as (s' & Hs' & He). exists s'.
    by rewrite (ev_out _ _ He), (ev_done _ _ He), (ev_sleep _ _ He).
  - intros i s' Hs'. destruct (Forall2_lookup_r _ _ _ _ _ Hev Hs') as (s & Hs & He).
    eapply evolves_tracks; [done|]. by apply Htr.
Qed.

(** The items below the top do not matter for the transition that leaves it. *)
Lemma mirrors_below ts below s :
  mirrors ts (below ++ [s]) → length below = length ts ∧
  ∀ i t, ts !! i = Some t → ∃ s', below !! i = Some s' ∧ out_transition s' = Some t ∧
    (get_executor t ∈ done_set s') ∧ get_executor t ∈ sleep_set s'.
Proof.
  intros [Hlen Hout _]. rewrite length_app in Hlen. simpl in Hlen. split; [lia|].
  intros i t Ht. destruct (Hout i t Ht) as (s' & Hs' & H). exists s'. split; [|done].
  rewrite lookup_app_l in Hs'; [done|]. apply lookup_lt_Some in Ht. lia.
Qed.

(** Back to a lower item: its backtrack and done sets may have changed. *)
Lemma mirrors_cut ts below s s' popped :
  mirrors ts ((below ++ [s]) ++ popped) → item_cv s' = item_cv s → per_runner_clocks s' = per_runner_clocks s →
  mirrors (take (length below) ts) (below ++ [s']).
Proof.
  intros [Hlen Hout Htr] Hcv Hpr. rewrite !length_app in Hlen. simpl in Hlen. split.
  - rewrite length_app, length_take. simpl. lia.
  - intros i t [Ht Hi]%lookup_take_Some. destruct (Hout i t Ht) as (s0 & Hs0 & H). exists s0. split; [|done].
    rewrite <- app_assoc, lookup_app_l in Hs0 by done. by apply lookup_app_l_Some.
  - intros i s0 [Hs0|[Hi Hs0]]%lookup_app_Some.
    + rewrite take_take, Nat.min_l by (apply lookup_lt_Some in Hs0; lia).
      apply Htr. rewrite <- app_assoc. by apply lookup_app_l_Some.
    + apply list_lookup_singleton_Some in Hs0 as [Hi0 <-].
      assert (i = length below) as -> by lia. rewrite take_take, Nat.min_id.
      destruct (Htr (length below) s) as [Hc Hr].
      { rewrite <- app_assoc. by apply list_lookup_middle. }
      split; [by rewrite Hcv|by rewrite Hpr].
Qed.

Section mirror.
Context {C : Type} `{Coordinator C} (config : configuration).
Implicit Types ctx : dpor_context C.

(** Growing the stack after a transition. *)
Lemma grown_mirrors ts ctx below s t s_n s_next :
  stack ctx = below ++ [s] → grown config ctx s t s_n s_next →
  get_depth_into_program (coordinator ctx) = N.of_nat (length (stack ctx)) →
  mirrors ts (stack ctx) → mirrors (ts ++ [t]) (below ++ [s_n; s_next]).
Proof.
  intros Hst Hg Hd Hm. pose proof Hm as [_ _ Htr]. rewrite Hst in Hm.
  destruct (mirrors_below _ _ _ Hm) as [Hlb Hout].
  assert (tracks ts s) as [Hc Hr].
  { rewrite <- (firstn_all ts), <- Hlb. apply Htr. by rewrite Hst, list_lookup_middle. }
  assert (get_depth_into_program (coordinator ctx) = N.of_nat (S (length ts))) as Hdepth.
  { rewrite Hd, Hst, length_app, Hlb. simpl. lia. }
  assert (tracks (ts ++ [t]) s_next) as Hnext.
  { assert (names (ts ++ [t]) (item_cv s_next)) as Hcn.
    { rewrite (gr_next_clock _ _ _ _ _ _ Hg), Hdepth. apply names_set, names_accumulate.
      intros s0 (i & Hi)%list_elem_of_lookup. eapply names_take, (tr_clock _ _ (Htr i s0 Hi)). }
    split; [done|]. intros p r'. destruct (gr_next_clocks _ _ _ _ _ _ Hg) as (r & Hr0 & ->).
    rewrite list_lookup_insert_Some. intros [(<- & <- & _)|(Hne & Hp)].
    - split; [done|]. rewrite N2Nat.id. cbn [runner_cv set_clock_vector].
      rewrite (gr_next_clock _ _ _ _ _ _ Hg), Hdepth, value_for_set, decide_True by done. apply latest_here.
    - destruct (Hr _ _ Hp) as [Hn Hl]. split; [by apply names_app|]. apply latest_other; [done|].
      intros Heq. apply Hne. rewrite Heq. lia. }
  split.
  - rewrite !length_app. simpl. lia.
  - intros i t' [Ht'|[Hi Ht']]%lookup_app_Some.
    + destruct (Hout i t' Ht') as (s' & Hs' & Hs''). exists s'. split; [by apply lookup_app_l_Some|done].
    + apply list_lookup_singleton_Some in Ht' as [Hi0 <-]. exists s_n. assert (i = length below) as -> by lia.
      rewrite list_lookup_middle by done. split; [done|]. split; [apply Hg|].
      rewrite (gr_done _ _ _ _ _ _ Hg), (gr_sleep _ _ _ _ _ _ Hg). set_solver.
  - intros i s0 [Hs0|[Hi Hs0]]%lookup_app_Some.
    + rewrite take_app_le by (apply lookup_lt_Some in Hs0; lia). apply Htr. rewrite Hst. by apply lookup_app_l_Some.
    + destruct (i - length below) as [|[|k]] eqn:Hk; simpl in Hs0; [..|done]; injection Hs0 as <-.
      * rewrite take_app_le by lia. rewrite take_ge by lia. split; [by rewrite (gr_cv _ _ _ _ _ _ Hg)|by rewrite (gr_clocks _ _ _ _ _ _ Hg)].
      * rewrite take_ge by (rewrite length_app; simpl; lia). done.
Qed.

(** ** The race checks *)

Lemma get_transition_mirrors ts stk i t :
  mirrors ts stk → ts !! i = Some t → get_transition stk (N.of_nat i) = Ok t.
Proof.
  intros [_ Hout _] Ht. destruct (Hout i t Ht) as (s & Hs & Ho & _). unfold get_transition, vec_at.
  rewrite Nat2N.id, Hs. cbn [mbind res_bind]. unfold get_out_transition. by rewrite Ho.
Qed.
(** The clock of a runner after the whole trace. *)
Lemma runner_clock ts stk p :
  mirrors ts stk → Forall item_inv stk → (p < MAX_TOTAL_THREADS_IN_PROGRAM)%N →
  ∃ s cv, last stk = Some s ∧ clock_of (per_runner_clocks s) p = Ok cv ∧ names ts cv ∧ latest ts p (value_for cv p).
Proof.
  intros [Hlen _ Htr] Hall Hp. destruct (last stk) as [s|] eqn:Hs.
  2:{ apply last_None in Hs as ->. done. }
  pose proof Hs as Hi. rewrite last_lookup in Hi. rewrite Forall_lookup in Hall.
  destruct (Hall _ _ Hi) as [_ Hlc].
  assert (N.to_nat p < length (per_runner_clocks s)) as [r Hr]%lookup_lt_is_Some_2 by lia.
  specialize (Htr _ _ Hi). rewrite take_ge in Htr by lia. destruct Htr as [_ Htr].
  destruct (Htr _ _ Hr) as [Hn Hl]. rewrite N2Nat.id in Hl. exists s, (runner_cv r). split_and!; try done.
  unfold clock_of. by rewrite Hr.
Qed.

(** What [happens_before_thread] answers: always yes for the first transition and for
those of the runner itself; otherwise yes only when the runner of the transition has
one at that index or just before, or a later one. *)
Lemma happens_before_thread_mirrors ts stk i t p :
  mirrors ts stk → Forall item_inv stk → (p < MAX_TOTAL_THREADS_IN_PROGRAM)%N → ts !! i = Some t →
  ∃ b, happens_before_thread stk (N.of_nat i) p = Ok b ∧ (get_executor t = p → b = true) ∧
    (b = true → i = 0 ∨ ∃ j t', i ≤ S j ∧ ts !! j = Some t' ∧ get_executor t' = get_executor t).
Proof.
  intros Hm Hall Hp Ht. destruct (runner_clock ts stk p) as (s & cv & Hs & Hcv & Hn & Hl); [done..|].
  unfold happens_before_thread. rewrite (get_transition_mirrors _ _ _ _ Hm Ht). cbn [mbind res_bind].
  unfold vec_back. rewrite Hs. cbn [deref mbind res_bind]. rewrite Hcv. cbn [mbind res_bind].
  eexists. split; [done|]. split.
  - intros <-. apply bool_decide_eq_true. destruct Hl as [[_ Hno]|(j & t' & -> & Hj & _ & Hno)].
    + by destruct (Hno i t Ht).
    + destruct (decide (j < i)) as [Hlt|]; [by destruct (Hno i t Hlt Ht)|lia].
  - rewrite bool_decide_eq_true. intros Hi. destruct (Hn (get_executor t)) as [Hz|(j & t' & Hv & Hj & He)].
    + left. lia.
    + right. exists j, t'. split; [lia|done].
Qed.

Lemma race_loop_total ts stk js q p :
  mirrors ts stk → Forall item_inv stk → (p < MAX_TOTAL_THREADS_IN_PROGRAM)%N →
  Forall (λ j, j < length ts) js → ∃ b, race_loop stk (N.of_nat <$> js) q p = Ok b.
Proof.
  intros Hm Hall Hp. induction 1 as [|j js [t Ht]%lookup_lt_is_Some_2 _ [b Hb]]; [by eexists|].
  cbn [fmap list_fmap race_loop]. rewrite (get_transition_mirrors _ _ _ _ Hm Ht). cbn [mbind res_bind].
  case_bool_decide; [|by exists b].
  destruct (happens_before_thread_mirrors ts stk j t p) as ([] & -> & _); [done..|by eexists|]. by exists b.
Qed.
Lemma candidates_total ts stk qs pre_si i p :
  mirrors ts stk → Forall item_inv stk → (p < MAX_TOTAL_THREADS_IN_PROGRAM)%N →
  ∃ e, candidates qs stk pre_si i p = Ok e.
Proof.
  intros Hm Hall Hp. induction qs as [|q qs [e He]]; [by eexists|]. cbn [candidates].
  assert (∃ b, threads_race_after stk i q p = Ok b) as [b Hb].
  { apply (race_loop_total ts); [done..|]. apply Forall_forall. intros j Hj%elem_of_seq.
    pose proof (mi_length _ _ Hm). lia. }
  case_bool_decide; [|rewrite Hb]; cbn [mbind res_bind]; rewrite He; by eexists.
Qed.

(** The update at an index of the trace raises nothing. *)
Lemma update_at_index_total ts stk i S_i next_sp pre_si p :
  mirrors ts stk → Forall item_inv stk → (p < MAX_TOTAL_THREADS_IN_PROGRAM)%N → i < length ts →
  ∃ r, dynamically_update_backtrack_sets_at_index config stk S_i next_sp pre_si i p = Ok r.
Proof.
  intros Hm Hall Hp [t Ht]%lookup_lt_is_Some_2. unfold dynamically_update_backtrack_sets_at_index.
  destruct (happens_before_thread_mirrors ts stk i t p) as (b & Hb & _); [done..|]. rewrite Hb.
  destruct (candidates_total ts stk (ascending (enabled_runners pre_si)) pre_si i p) as [e He]; [done..|].
  destruct (are_dependent config next_sp S_i && are_coenabled config next_sp S_i);
    cbn [mbind res_bind fmap res_fmap]; [|by eexists].
  destruct b; cbn [mbind res_bind negb]; [by eexists|]. cbv zeta. rewrite He. cbn [mbind res_bind].
  case_bool_decide as Hempty; [by eexists|]. destruct (existsb _ _); [by eexists|].
  destruct (ascending e) as [|q l] eqn:Ha; [|by eexists].
  by apply ascending_nil in Ha.
Qed.

(** ** The whole update *)

(** The context of an update: the stack mirrors the trace. *)
Record aligned ctx ts : Prop := Aligned {
  md_trace : trace (model_of ctx) = Some <$> ts;
  md_stack : mirrors ts (stack ctx);
  md_items : Forall item_inv (stack ctx);
}.
Lemma updates_mirrored ts ctx ctx' : updates ctx ctx' → aligned ctx ts → aligned ctx' ts.
Proof.
  intros [Hc _ _ Hev _] [Ht Hm Hi]. split; [|by eapply stack_evolves_mirrors|by eapply stack_evolves_inv].
  unfold model_of. by rewrite Hc.
Qed.

Lemma update_at_total ctx ts S_i next_sp i p :
  aligned ctx ts → (p < MAX_TOTAL_THREADS_IN_PROGRAM)%N → i < length ts →
  ∃ stop ctx', update_at config S_i next_sp i p ctx = (Ok stop, ctx') ∧ updates ctx ctx'.
Proof.
  intros [Ht Hm Hi] Hp Hlt.
  assert (∃ stop ctx', update_at config S_i next_sp i p ctx = (Ok stop, ctx')) as (stop & ctx' & Hu).
  2:{ exists stop, ctx'. split; [done|]. by eapply keeps_update_at. }
  unfold update_at, vec_at. rewrite Nat2N.id.
  destruct (lookup_lt_is_Some_2 (stack ctx) i) as [s Hs]; [rewrite (mi_length _ _ Hm); lia|].
  rewrite Hs. cbn [mbind res_bind].
  destruct (update_at_index_total ts (stack ctx) i S_i next_sp s p) as [[s' stop] ->]; [done..|]. by eexists _, _.
Qed.

Lemma update_other_threads_total ctx ts rids S_n top :
  aligned ctx ts → all_pending (model_of ctx) → few_runners (model_of ctx) → top < length ts →
  Forall (λ p, (p < N.of_nat (get_num_runners (model_of ctx)))%N) rids →
  ∃ ctx', update_other_threads config rids S_n top ctx = (Ok tt, ctx') ∧ updates ctx ctx'.
Proof.
  intros Hm Hp Hfew Htop Hall. revert ctx Hm Hp Hfew Hall. induction rids as [|rid rids IH]; intros ctx Hm Hp Hfew Hall.
  { by exists ctx. }
  apply Forall_cons in Hall as [Hrid Hall]. cbn [update_other_threads]. rewrite ebind_query.
  destruct (Hp rid Hrid) as [next Hnext]. rewrite Hnext. cbn [deref].
  destruct (update_at_total ctx ts S_n next top rid) as (stop & ctx1 & Hu & Hup);
    [done|unfold few_runners in Hfew; lia|done|].
  assert (model_of ctx1 = model_of ctx) as Heq by (unfold model_of; by rewrite (up_coordinator _ _ Hup)).
  unfold ebind at 1. rewrite Hu. destruct (IH ctx1) as (ctx' & Hc & Hup'); [by eapply updates_mirrored|..].
  1-3: by rewrite Heq. exists ctx'. split; [done|]. by etrans.
Qed.
Lemma update_last_thread_total ctx ts n next p :
  aligned ctx ts → (p < MAX_TOTAL_THREADS_IN_PROGRAM)%N → n ≤ length ts →
  ∃ ctx', update_last_thread config n next p ctx = (Ok tt, ctx').
Proof.
  intros Hm Hp. revert ctx Hm. induction n as [|i IH]; intros ctx Hm Hi; [by exists ctx|].
  cbn [update_last_thread]. rewrite ebind_query. destruct (lookup_lt_is_Some_2 ts i) as [t Ht]; [lia|].
  unfold vec_at. rewrite Nat2N.id, (md_trace _ _ Hm), list_lookup_fmap, Ht. cbn [fmap option_fmap option_map mbind res_bind deref].
  destruct (update_at_total ctx ts t next i p) as (stop & ctx1 & Hu & Hup); [done..|].
  unfold ebind at 1. rewrite Hu. destruct stop; [by eexists|]. apply IH; [by eapply updates_mirrored|lia].
Qed.

Lemma update_backtrack_sets_total ctx ts t :
  aligned ctx (ts ++ [t]) → all_pending (model_of ctx) → few_runners (model_of ctx) →
  (get_executor t < N.of_nat (get_num_runners (model_of ctx)))%N →
  ∃ ctx', dynamically_update_backtrack_sets config ctx = (Ok tt, ctx').
Proof.
  intros Hm Hp Hfew Ht. unfold dynamically_update_backtrack_sets. rewrite !ebind_query. unfold vec_back.
  rewrite (md_trace _ _ Hm), fmap_app. cbn [fmap list_fmap]. rewrite last_snoc. cbn [deref mbind res_bind]. cbv zeta. rewrite ebind_query.
  rewrite (mi_length _ _ (md_stack _ _ Hm)). rewrite length_app. cbn [length].
  replace (S (length ts + 1) - 2) with (length ts) by lia.
  destruct (update_other_threads_total ctx (ts ++ [t]) (filter (λ i, i ≠ get_executor t)
    (N.of_nat <$> seq 0 (get_num_runners (model_of ctx)))) t (length ts)) as (ctx1 & Hu & Hup); [done..| | |].
  { rewrite length_app. simpl. lia. }
  { apply Forall_forall. intros p [_ (k & -> & Hk%elem_of_seq)%list_elem_of_fmap]%list_elem_of_filter. lia. }
  unfold ebind at 1. rewrite Hu. rewrite ebind_query.
  assert (model_of ctx1 = model_of ctx) as -> by (unfold model_of; by rewrite (up_coordinator _ _ Hup)).
  destruct (Hp (get_executor t) Ht) as [next ->]. cbn [deref].
  apply (update_last_thread_total _ (ts ++ [t])); [by eapply updates_mirrored|unfold few_runners in Hfew; lia|].
  rewrite length_app. lia.
Qed.

End mirror.

(** ** The loops *)

(** What the search relies on: running appends to the trace, going back cuts it, and
both leave each runner of the model with its next step. *)
Class TraceLaws (C : Type) `{Coordinator C} : Prop := {
  execute_runner_trace p (c c' : C) :
    execute_runner p c = (Ok tt, c') →
    ∃ t, trace (get_current_program_model c') = trace (get_current_program_model c) ++ [Some t];
  return_to_depth_trace n ts (c c' : C) :
    trace (get_current_program_model c) = Some <$> ts → 1 ≤ n ≤ length ts →
    (N.of_nat (length ts) < 2^32 - 1)%N → return_to_depth (N.of_nat n) c = (Ok tt, c') →
    trace (get_current_program_model c') = Some <$> take n ts;
  execute_runner_dense p (c c' : C) :
    execute_runner p c = (Ok tt, c') → dense (get_current_program_model c) → dense (get_current_program_model c');
  return_to_depth_dense n (c c' : C) :
    return_to_depth n c = (Ok tt, c') → dense (get_current_program_model c) → dense (get_current_program_model c');
}.

Section loops.
Context {C : Type} `{Hlaws : TraceLaws C} (config : configuration) (cbs : callbacks).
Implicit Types ctx : dpor_context C.

(** With the runners enabled in the last state at the top. *)
Definition aligned_head ctx ts : Prop :=
  aligned ctx ts ∧ ∃ top, last (stack ctx) = Some top ∧ get_enabled_runners (model_of ctx) = Ok (enabled_runners top).

Lemma grow_mirrored p ctx ctx' c ts :
  aligned ctx ts → execute_runner p (coordinator ctx) = (Ok tt, c) →
  grow_stack_after_running config (set_coordinator c ctx) = (Ok tt, ctx') →
  ∃ t, aligned_head ctx' (ts ++ [t]).
Proof using Hlaws.
  intros [Ht Hm Hi] Hex Hgrow.
  apply grow_stack_spec in Hgrow as (below & s & t & s_n & s_next & Hst & -> & Hg & Hd).
  exists t. destruct (execute_runner_trace p _ _ Hex) as [t' Htr].
  pose proof (gr_trace _ _ _ _ _ _ Hg) as Hlast. unfold model_of in Hlast, Ht. cbn [coordinator set_coordinator] in Hlast.
  rewrite Htr, last_snoc in Hlast. injection Hlast as ->. split; [split|].
  - unfold model_of. cbn [coordinator set_coordinator set_stack]. by rewrite Htr, Ht, fmap_app.
  - by apply (grown_mirrors config ts (set_coordinator c ctx) below s t s_n s_next).
  - cbn [stack set_stack]. cbn [stack set_coordinator] in Hst. rewrite Hst in Hi. by eapply grown_items.
  - exists s_next. cbn [stack set_stack]. split.
    { replace (below ++ [s_n; s_next]) with ((below ++ [s_n]) ++ [s_next]) by by rewrite <- app_assoc.
      apply last_snoc. }
    apply (gr_next_enabled _ _ _ _ _ _ Hg).
Qed.

Lemma updates_mirrored_head ctx ctx' ts : updates ctx ctx' → aligned_head ctx ts → aligned_head ctx' ts.
Proof.
  intros Hup [Hm (top & Htop & Hen)]. split; [by eapply updates_mirrored|].
  pose proof (up_stack _ _ Hup) as Hev. rewrite last_lookup in Htop.
  destruct (Forall2_lookup_l _ _ _ _ _ Hev Htop) as (top' & Htop' & He). exists top'.
  rewrite last_lookup, <- (Forall2_length _ _ _ Hev). split; [done|].
  unfold model_of. by rewrite (up_coordinator _ _ Hup), (ev_enabled _ _ He).
Qed.
Lemma mirrored_head_frame ctx ctx' ts :
  stack ctx' = stack ctx → coordinator ctx' = coordinator ctx → aligned_head ctx ts → aligned_head ctx' ts.
Proof.
  unfold aligned_head, model_of. intros Hs Hc [[Ht ??] Htop]. rewrite Hs, Hc. split; [split|]; [..|done];
    rewrite ?Hs; unfold model_of in *; by rewrite ?Hc.
Qed.
Lemma continue_mirrored p ctx ctx' ts :
  aligned ctx ts → continue_dpor_by_expanding_trace_with config p ctx = (Ok tt, ctx') →
  ∃ t, aligned_head ctx' (ts ++ [t]).
Proof using Hlaws.
  intros Hm. unfold continue_dpor_by_expanding_trace_with, on_coordinator, zoom. intros Hc.
  apply ebind_ok in Hc as ([] & ctx1 & Hx & Hc).
  destruct (execute_runner p (coordinator ctx)) as [r c] eqn:Hex. injection Hx as -> <-.
  apply ebind_ok in Hc as ([] & ctx2 & Hgrow & Hupd).
  destruct (grow_mirrored p ctx ctx2 c ts) as [t Ht]; [done..|]. exists t.
  eapply updates_mirrored_head; [by eapply keeps_dynamically_update_backtrack_sets|done].
Qed.

Lemma backtrack_mirrored c ctx ctx' ts :
  (maximum_total_execution_depth config < 2^32)%N → loop_head config cbs c ctx → aligned ctx ts →
  backtrack config cbs ctx = (Ok Continue, ctx') → stack ctx' ≠ [] → ∃ ts', aligned_head ctx' ts'.
Proof using Hlaws.
  intros Hmax Hh [Ht Hm Hi] Hb Hne.
  pose proof (loop_head_inv config cbs c ctx Hh) as Hinv. pose proof (loop_head_depth config cbs c ctx Hh) as Hlen.
  apply backtrack_continue in Hb as (kept & popped & Hst & _ & [[_ ?]|Hk]); [done|].
  destruct Hk as (below & s & c1 & st & evs & p & s' & -> & Hbt & Hret & Hpf & Hc).
  destruct (backtrack_set_pop_first_spec s) as (p' & Hpf' & Hin & _); [by apply bool_decide_eq_false_2|].
  rewrite Hpf in Hpf'. injection Hpf' as <- ->.
  assert (below ≠ []) as Hnb.
  { intros ->. apply Hbt, (si_first _ Hinv). by rewrite Hst. }
  rewrite Hst in Hm, Hi, Hlen. pose proof (mi_length _ _ Hm) as Hl. rewrite !length_app in Hl, Hlen. simpl in Hl, Hlen.
  unfold max_depth in Hlen.
  assert (length below ≠ 0) as Hlb by by intros ?%nil_length_inv.
  edestruct (continue_mirrored p) as [t Hhead]; [|exact Hc|by eexists].
  split; cbn [stack].
  - unfold model_of. cbn [coordinator]. apply (return_to_depth_trace (length below) ts (coordinator ctx)); [done|lia|lia|done].
  - by eapply mirrors_cut.
  - apply Forall_app in Hi as [[Hib [[Hok Hlc] _]%Forall_cons]%Forall_app _]. apply Forall_app. split; [done|].
    repeat constructor; [..|done]; simpl; destruct Hok; set_solver.
Qed.

Lemma loop_head_mirrored c ctx :
  trace (get_current_program_model c) = [] → (maximum_total_execution_depth config < 2^32)%N →
  loop_head config cbs c ctx → stack ctx ≠ [] → ∃ ts, aligned_head ctx ts.
Proof using Hlaws.
  intros H0 Hmax Hh. induction Hh as [enabled Hen|ctx ctx' Hh IH Hne' Hx|ctx ctx1 ctx' Hh IH Hne' Hx Hb]; intros Hne.
  - exists []. split; [split; [done|apply mirrors_initial|apply (initial_inv c enabled)]|]. by eexists.
  - destruct (IH Hne') as (ts & Hm & _). apply explore_continue in Hx as [_ Hx].
    apply expand_first_enabled_ok in Hx as (s & ctx1 & t & _ & Hc & Hs & Hco & _).
    destruct (continue_mirrored _ _ _ _ Hm Hc) as [t' Hm']. eexists. by eapply mirrored_head_frame.
  - destruct (IH Hne') as (ts & Hm & _). apply explore_none in Hx as [-> _]. by eapply backtrack_mirrored.
Qed.

(** The trace at a head is one shorter than the stack. *)
Lemma head_trace c ctx :
  trace (get_current_program_model c) = [] → (maximum_total_execution_depth config < 2^32)%N →
  loop_head config cbs c ctx → stack ctx ≠ [] →
  ∃ ts, trace (model_of ctx) = Some <$> ts ∧ length (stack ctx) = S (length ts) ∧ (N.of_nat (length ts) < 2^32 - 1)%N.
Proof using Hlaws.
  intros H0 Hmax Hh Hne. destruct (loop_head_mirrored c ctx) as (ts & [[Ht Hm _] _]); [done..|].
  pose proof (loop_head_depth config cbs c ctx Hh) as Hlen. pose proof (mi_length _ _ Hm) as Hl.
  exists ts. unfold max_depth in Hlen. split_and!; [done..|lia].
Qed.
(** What running and going back keep of the coordinator holds at every head. *)
Lemma continue_coordinator (I : C → Prop) p ctx ctx' :
  (∀ c', execute_runner p (coordinator ctx) = (Ok tt, c') → I c') →
  continue_dpor_by_expanding_trace_with config p ctx = (Ok tt, ctx') → I (coordinator ctx').
Proof using Type.
  intros Hrun. unfold continue_dpor_by_expanding_trace_with, on_coordinator, zoom. intros Hc.
  apply ebind_ok in Hc as ([] & ctx1 & Hx & Hc).
  destruct (execute_runner p (coordinator ctx)) as [r c] eqn:Hex. injection Hx as -> <-.
  apply ebind_ok in Hc as ([] & ctx2 & Hgrow & Hupd%keeps_dynamically_update_backtrack_sets).
  apply grow_stack_spec in Hgrow as (below & s & t & s_n & s_next & _ & -> & _).
  rewrite (up_coordinator _ _ Hupd). by apply Hrun.
Qed.
Lemma loop_head_coordinator (I : C → Prop) c ctx :
  trace (get_current_program_model c) = [] → (maximum_total_execution_depth config < 2^32)%N → I c →
  (∀ p ts c1 c2, I c1 → trace (get_current_program_model c1) = Some <$> ts →
    (N.of_nat (length ts) < 2^32 - 1)%N → execute_runner p c1 = (Ok tt, c2) → I c2) →
  (∀ n ts c1 c2, I c1 → trace (get_current_program_model c1) = Some <$> ts → 1 ≤ n ≤ length ts →
    (N.of_nat (length ts) < 2^32 - 1)%N → return_to_depth (N.of_nat n) c1 = (Ok tt, c2) → I c2) →
  loop_head config cbs c ctx → stack ctx ≠ [] → I (coordinator ctx).
Proof using Hlaws.
  intros H0 Hmax Hc Hrun Hback Hh.
  induction Hh as [enabled Hen|ctx ctx' Hh IH Hne' Hx|ctx ctx1 ctx' Hh IH Hne' Hx Hb]; intros Hne; [done|..].
  - apply explore_continue in Hx as [_ (s & ctx1 & t & _ & Hcont & _ & Hco & _)%expand_first_enabled_ok].
    destruct (head_trace c ctx) as (ts & Ht & _ & Hlt); [done..|].
    rewrite Hco. eapply continue_coordinator, Hcont. intros c'. by apply (Hrun _ ts), Hlt; [apply IH|].
  - apply explore_none in Hx as [-> _]. destruct (head_trace c ctx) as (ts & Ht & Hl & Hlt); [done..|].
    pose proof (loop_head_inv config cbs c ctx Hh) as Hinv.
    apply backtrack_continue in Hb as (kept & popped & Hst & _ & [[_ ?]|Hk]); [done|].
    destruct Hk as (below & s & c1 & st & evs & p & s' & -> & Hbt & Hret & _ & Hcont).
    assert (length below ≠ 0) as Hlb.
    { intros ->%nil_length_inv. apply Hbt, (si_first _ Hinv). by rewrite Hst. }
    rewrite Hst in Hl. rewrite !length_app in Hl. simpl in Hl.
    eapply continue_coordinator, Hcont. cbn [coordinator]. intros c'. apply (Hrun _ (take (length below) ts)).
    + apply (Hback (length below) ts (coordinator ctx)); [by apply IH|done|lia|done|done].
    + apply (return_to_depth_trace (length below) ts (coordinator ctx)); [done|lia|done|done].
    + rewrite length_take. lia.
Qed.

(** The runners of the model at the heads. *)
Lemma execute_grow_dense p ctx ctx' c :
  dense (model_of ctx) → execute_runner p (coordinator ctx) = (Ok tt, c) →
  grow_stack_after_running config (set_coordinator c ctx) = (Ok tt, ctx') → dense (model_of ctx').
Proof using Hlaws.
  intros Hd Hex (below & s & t & s_n & s_next & _ & -> & _)%grow_stack_spec.
  unfold model_of. cbn [coordinator set_coordinator set_stack]. by eapply execute_runner_dense.
Qed.
Lemma loop_head_dense c ctx :
  trace (get_current_program_model c) = [] → (maximum_total_execution_depth config < 2^32)%N →
  dense (get_current_program_model c) → loop_head config cbs c ctx → stack ctx ≠ [] → dense (model_of ctx).
Proof using Hlaws.
  intros H0 Hmax Hd. apply (loop_head_coordinator (λ c, dense (get_current_program_model c))); [done..| |].
  - intros p ts c1 c2 ? _ _ Hx. by eapply execute_runner_dense.
  - intros n ts c1 c2 ? _ _ _ Hx. by eapply return_to_depth_dense.
Qed.

(** C15: the stack mirrors the trace.  At every head of the loop where the stack is not
empty, the transitions of the trace are those that leave the items below the top, in
order: each item has searched the executor of its transition, which is asleep there;
there is one item more than transitions; and the top holds the runners enabled in the
current state of the model. *)
Theorem stack_mirrors_trace c ctx :
  trace (get_current_program_model c) = [] → (maximum_total_execution_depth config < 2^32)%N →
  loop_head config cbs c ctx → stack ctx ≠ [] →
  ∃ ts top, trace (model_of ctx) = Some <$> ts ∧ length (stack ctx) = S (length ts) ∧
    (∀ i t, ts !! i = Some t → ∃ s, stack ctx !! i = Some s ∧ out_transition s = Some t ∧
      (get_executor t ∈ done_set s) ∧ get_executor t ∈ sleep_set s) ∧
    last (stack ctx) = Some top ∧ get_enabled_runners (model_of ctx) = Ok (enabled_runners top).
Proof using Hlaws.
  intros H0 Hmax Hh Hne. destruct (loop_head_mirrored c ctx) as (ts & [Ht [Hlen Hout _] _] & top & Htop & Hen); [done..|].
  by exists ts, top.
Qed.

(** C16: what the clocks say.  At every head of the loop, each component of the clock
vector of an item, and of the clocks it keeps for every runner, is 0 or the position
of a transition of that runner before the state of the item, and a runner's own
component is the position of its last one.  So [happens_before_thread] answers for
every transition of the trace: yes for those of the runner itself, and never yes
because of a runner that has no transition from just before that index on, but for
index 0. *)
Theorem clocks_name_transitions c ctx :
  trace (get_current_program_model c) = [] → (maximum_total_execution_depth config < 2^32)%N →
  loop_head config cbs c ctx → stack ctx ≠ [] →
  ∃ ts, trace (model_of ctx) = Some <$> ts ∧
    (∀ i s, stack ctx !! i = Some s → names (take i ts) (item_cv s) ∧
      ∀ p r, per_runner_clocks s !! p = Some r →
        names (take i ts) (runner_cv r) ∧ latest (take i ts) (N.of_nat p) (value_for (runner_cv r) (N.of_nat p))) ∧
    ∀ i t p, ts !! i = Some t → (p < MAX_TOTAL_THREADS_IN_PROGRAM)%N →
      ∃ b, happens_before_thread (stack ctx) (N.of_nat i) p = Ok b ∧ (get_executor t = p → b = true) ∧
        (b = true → i = 0 ∨ ∃ j t', i ≤ S j ∧ ts !! j = Some t' ∧ get_executor t' = get_executor t).
Proof using Hlaws.
  intros H0 Hmax Hh Hne. destruct (loop_head_mirrored c ctx) as (ts & [Ht Hm Hi] & _); [done..|].
  exists ts. split_and!; [done| |].
  - intros i s Hs. destruct (mi_tracks _ _ Hm i s Hs). done.
  - intros i t p Hti Hp. by apply (happens_before_thread_mirrors ts).
Qed.

(** C17: the race detection raises nothing of its own.  Started from a model whose
runners are numbered without a gap, each with its next step ([dense], as the initial
program has it): when a runner was executed from a head of the loop, the stack has
grown and the model has no more runners than the search keeps clocks for, then the
update of the backtrack sets finds every item, transition, next step and clock it
looks up, and returns. *)
Theorem race_detection_total c ctx p c' ctx1 :
  trace (get_current_program_model c) = [] → (maximum_total_execution_depth config < 2^32)%N →
  dense (get_current_program_model c) → loop_head config cbs c ctx → stack ctx ≠ [] →
  execute_runner p (coordinator ctx) = (Ok tt, c') →
  grow_stack_after_running config (set_coordinator c' ctx) = (Ok tt, ctx1) →
  (N.of_nat (get_num_runners (model_of ctx1)) ≤ MAX_TOTAL_THREADS_IN_PROGRAM)%N →
  ∃ ctx', dynamically_update_backtrack_sets config ctx1 = (Ok tt, ctx').
Proof using Hlaws.
  intros H0 Hmax Hd Hh Hne Hex Hgrow Hfew. destruct (loop_head_mirrored c ctx) as (ts & Hm & _); [done..|].
  destruct (grow_mirrored p ctx ctx1 c' ts) as (t & Hm1 & _); [done..|].
  assert (dense (model_of ctx1)) as Hd1 by (eapply execute_grow_dense, Hgrow; [by eapply loop_head_dense|done]).
  apply (update_backtrack_sets_total config ctx1 ts t); [done|by apply dense_pending|done|].
  apply dense_executor; [done|]. rewrite (md_trace _ _ Hm1), fmap_app. apply last_snoc.
Qed.

End loops.
