(* ===== verification/ClockOrder.v ===== *)
(** * The order the clocks compute

The clock of a transition is the maximum over the items of the stack whose out transition
depends on it, of the clock of the item; the clock of an item is that of the transition before
its out transition, and the out transition of the last item is the one before it or one tried
earlier ([feeds]).  The relation of the clocks is the reflexive and transitive closure of this
one ([clocks_reach]), not the happens-before relation of the trace ([order_differs]), and
[happens_before_thread] asks it for the transition of the same runner at the index or just
before ([race_check_exact]). *)

From stdpp Require Import options.
From S2P Require Import Prelude InjectiveFunction DoubleDispatch CondPolicy Objects State.
From S2P Require Import Transitions Dependency StateSequence Program Runners ClockVector StackItem Dpor.
From S2P Require Import Backtracking Exploration Mirror.

Implicit Types ts : list transition.
Implicit Types tops : list (option transition).

(** [j] is the index of the last transition of [p]. *)
Definition last_of ts (p : runner_id_t) (j : nat) : Prop :=
  (∃ t, ts !! j = Some t ∧ get_executor t = p) ∧ ∀ i t, j < i → ts !! i = Some t → get_executor t ≠ p.

Lemma last_of_snoc ts t : last_of (ts ++ [t]) (get_executor t) (length ts).
Proof.
  split; [exists t; by rewrite list_lookup_middle|]. intros i t' Hi Ht%lookup_lt_Some. rewrite length_app in Ht. simpl in Ht. lia.
Qed.
Lemma last_of_other ts t p j : get_executor t ≠ p → last_of ts p j → last_of (ts ++ [t]) p j.
Proof.
  intros Hp [(t' & Ht & He) Hno]. split; [exists t'; split; [by apply lookup_app_l_Some|done]|].
  intros i t0 Hi [H0|[_ H0]]%lookup_app_Some; [by eapply Hno|]. apply list_lookup_singleton_Some in H0 as [_ <-]. done.
Qed.
Lemma last_of_unique ts p j j' : last_of ts p j → last_of ts p j' → j = j'.
Proof.
  intros [(t & Ht & He) Hno] [(t' & Ht' & He') Hno'].
  destruct (lt_eq_lt_dec j j') as [[Hlt|]|Hlt]; [|done|].
  - by destruct (Hno j' t').
  - by destruct (Hno' j t).
Qed.

Section order.
Context (config : configuration).

(** ** Which clocks are taken into a clock *)

(** The transition whose dependence on transition [j] makes the clock of [j] take in that of [m]:
the one after [m] in the trace, and for the last one before [j] what the item had as its
out transition when [j] ran. *)
Definition feeder ts tops (m j : nat) : option transition := if bool_decide (S m = j) then mjoin (tops !! j) else ts !! S m.
Definition feeds ts tops (m j : nat) : Prop :=
  m < j ∧ ∃ a b, feeder ts tops m j = Some a ∧ ts !! j = Some b ∧ are_dependent config a b = true.
Definition reaches ts tops : relation nat := rtc (feeds ts tops).
(** The happens-before relation of the trace. *)
Definition precedes ts (m j : nat) : Prop :=
  m < j ∧ ∃ a b, ts !! m = Some a ∧ ts !! j = Some b ∧ are_dependent config a b = true.
Definition happens_first ts : relation nat := rtc (precedes ts).

Lemma feeds_app ts tops l l' m j : length tops = length ts → j < length ts → feeds (ts ++ l) (tops ++ l') m j ↔ feeds ts tops m j.
Proof.
  intros Hl Hj. unfold feeds, feeder. split; intros (Hm & H); (split; [done|]);
    rewrite !lookup_app_l in * by lia; done.
Qed.
Lemma reaches_le ts tops m j : reaches ts tops m j → m ≤ j.
Proof. induction 1 as [|m1 m2 m3 [Hlt _] _ IH]; lia. Qed.

(** The maximum of the clocks. *)
Lemma accumulate_spec t stk q :
  let v := value_for (accumulate_max_clock_vector_against config t stk) q in
  (∀ i s a, stk !! i = Some s → out_transition s = Some a → are_dependent config a t = true → (value_for (item_cv s) q ≤ v)%N) ∧
  (v = 0%N ∨ ∃ i s a, stk !! i = Some s ∧ out_transition s = Some a ∧ are_dependent config a t = true ∧ v = value_for (item_cv s) q).
Proof.
  unfold accumulate_max_clock_vector_against, get_out_transition, item_get_clock_vector.
  induction stk as [|s stk [IHle IHeq]] using rev_ind; [by split; [|left]|]. rewrite foldl_snoc. cbv zeta in *.
  set (cv := foldl _ _ stk) in *.
  assert (∀ i s' a, (stk ++ [s]) !! i = Some s' → out_transition s' = Some a → are_dependent config a t = true →
    (value_for (item_cv s') q ≤ value_for cv q)%N ∨ s' = s) as Hold.
  { intros i s' a [Hi|[_ Hi]]%lookup_app_Some Ha Hd; [left; by eapply IHle|right]. by apply list_lookup_singleton_Some in Hi as [_ <-]. }
  assert (value_for cv q = 0%N ∨ ∃ i s' a, (stk ++ [s]) !! i = Some s' ∧ out_transition s' = Some a ∧ are_dependent config a t = true ∧
    value_for cv q = value_for (item_cv s') q) as Hcv.
  { destruct IHeq as [?|(i & s' & a & Hi & ?)]; [by left|right]. exists i, s', a. split; [by apply lookup_app_l_Some|done]. }
  destruct (out_transition s) as [o|] eqn:Ho; [destruct (are_dependent config o t) eqn:Hdep|].
  - rewrite value_for_max. split.
    + intros i s' a Hi Ha Hd. destruct (Hold i s' a) as [?| ->]; [done..|lia|lia].
    + destruct (N.max_spec (value_for cv q) (value_for (item_cv s) q)) as [[_ ->]|[_ ->]]; [|done].
      right. exists (length stk), s, o. by rewrite list_lookup_middle.
  - split; [|done]. intros i s' a Hi Ha Hd. destruct (Hold i s' a) as [?| ->]; [done..|congruence].
  - split; [|done]. intros i s' a Hi Ha Hd. destruct (Hold i s' a) as [?| ->]; [done..|congruence].
Qed.

(** ** The invariant *)

Record accounted ts tops (stk : list stack_item) : Prop := Accounted {
  ac_tops : length tops = length ts;
  ac_first s q : stk !! 0 = Some s → value_for (item_cv s) q = 0%N;
  ac_own j t s : ts !! j = Some t → stk !! S j = Some s → value_for (item_cv s) (get_executor t) = N.of_nat (S j);
  ac_above j m t s s' q : ts !! j = Some t → stk !! S j = Some s → q ≠ get_executor t → feeds ts tops m j → stk !! S m = Some s' →
    (value_for (item_cv s') q ≤ value_for (item_cv s) q)%N;
  ac_from j t s q : ts !! j = Some t → stk !! S j = Some s → q ≠ get_executor t → value_for (item_cv s) q = 0%N ∨
    ∃ m s', feeds ts tops m j ∧ stk !! S m = Some s' ∧ value_for (item_cv s) q = value_for (item_cv s') q;
  ac_runners i s p r : stk !! i = Some s → per_runner_clocks s !! p = Some r →
    (runner_cv r = empty_clock_vector ∧ ∀ k t, take i ts !! k = Some t → get_executor t ≠ N.of_nat p) ∨
    ∃ j s', last_of (take i ts) (N.of_nat p) j ∧ stk !! S j = Some s' ∧ runner_cv r = item_cv s';
  ac_out j o : tops !! j = Some o → o = last (take j ts) ∨
    ∃ t s, o = Some t ∧ stk !! j = Some s ∧ get_executor t ∈ done_set s;
}.

Lemma accounted_initial enabled : accounted [] [] [new_stack_item empty_clock_vector enabled].
Proof.
  split; [done| |done..| |done].
  - by intros s q [= <-].
  - intros i s p r [-> <-]%list_lookup_singleton_Some [-> _]%lookup_replicate. by left.
Qed.

Lemma accounted_evolves ts tops stk stk' : stack_evolves stk stk' → accounted ts tops stk → accounted ts tops stk'.
Proof.
  intros Hev [Hl Hf Ho Ha Hfr Hr Hou].
  assert (∀ i s', stk' !! i = Some s' → ∃ s, stk !! i = Some s ∧ evolves s s') as Hback by (intros i s' Hs'; by eapply Forall2_lookup_r).
  assert (∀ i s, stk !! i = Some s → ∃ s', stk' !! i = Some s' ∧ evolves s s') as Hforth by (intros i s Hs; by eapply Forall2_lookup_l).
  split; [done|..].
  - intros s' q (s & Hs & He)%Hback. rewrite (ev_cv _ _ He). by apply Hf.
  - intros j t s' Ht (s & Hs & He)%Hback. rewrite (ev_cv _ _ He). by apply Ho.
  - intros j m t s' s1' q Ht (s & Hs & He)%Hback Hq Hm (s1 & Hs1 & He1)%Hback. rewrite (ev_cv _ _ He), (ev_cv _ _ He1). by eapply Ha.
  - intros j t s' q Ht (s & Hs & He)%Hback Hq. rewrite (ev_cv _ _ He). destruct (Hfr j t s q) as [?|(m & s1 & Hm & Hs1 & Hv)]; [done..|by left|right].
    destruct (Hforth _ _ Hs1) as (s1' & Hs1' & He1). exists m, s1'. by rewrite (ev_cv _ _ He1).
  - intros i s' p r (s & Hs & He)%Hback. rewrite (ev_clocks _ _ He). intros Hp.
    destruct (Hr i s p r) as [?|(j & s1 & Hj & Hs1 & Hv)]; [done..|by left|right].
    destruct (Hforth _ _ Hs1) as (s1' & Hs1' & He1). exists j, s1'. by rewrite (ev_cv _ _ He1).
  - intros j o [->|(t & s & -> & Hs & Hd)]%Hou; [by left|right]. destruct (Hforth _ _ Hs) as (s' & Hs' & He).
    exists t, s'. by rewrite (ev_done _ _ He).
Qed.

(** Back to a lower item. *)
Lemma accounted_cut ts tops below s s' popped : length ts = length (below ++ popped) →
  accounted ts tops ((below ++ [s]) ++ popped) → item_cv s' = item_cv s → per_runner_clocks s' = per_runner_clocks s → done_set s ⊆ done_set s' →
  accounted (take (length below) ts) (take (length below) tops) (below ++ [s']).
Proof.
  intros Hlen [Hl Hf Ho Ha Hfr Hr Hou] Hcv Hpr Hdone. rewrite length_app in Hlen.
  assert (∀ i x', (below ++ [s']) !! i = Some x' → i ≤ length below ∧ ∃ x, ((below ++ [s]) ++ popped) !! i = Some x ∧ item_cv x' = item_cv x ∧
    per_runner_clocks x' = per_runner_clocks x ∧ done_set x ⊆ done_set x') as Hback.
  { intros i x' [Hi|[Hi Hx]]%lookup_app_Some.
    - split; [apply lookup_lt_Some in Hi; lia|]. exists x'. split; [|done]. by do 2 apply lookup_app_l_Some.
    - apply list_lookup_singleton_Some in Hx as [Hi0 <-]. split; [lia|]. exists s. split; [|done].
      rewrite <- app_assoc. assert (i = length below) as -> by lia. by apply list_lookup_middle. }
  assert (∀ i x, i ≤ length below → ((below ++ [s]) ++ popped) !! i = Some x → ∃ x', (below ++ [s']) !! i = Some x' ∧ item_cv x' = item_cv x ∧
    done_set x ⊆ done_set x') as Hforth.
  { intros i x Hi Hx. destruct (lookup_lt_is_Some_2 (below ++ [s']) i) as [x' Hx']; [rewrite length_app; simpl; lia|].
    exists x'. split; [done|]. destruct (Hback i x' Hx') as (_ & x0 & Hx0 & ? & _ & ?). rewrite Hx in Hx0. by injection Hx0 as <-. }
  assert (∀ m j, j < length below → feeds (take (length below) ts) (take (length below) tops) m j ↔ feeds ts tops m j) as Hfeeds.
  { intros m j Hj. rewrite <- (take_drop (length below) ts) at 2. rewrite <- (take_drop (length below) tops) at 2.
    symmetry. apply feeds_app; rewrite !length_take; lia. }
  split.
  - rewrite !length_take. lia.
  - intros x' q (_ & x & Hx & -> & _)%Hback. by apply Hf.
  - intros j t x' [Ht Hj]%lookup_take_Some (_ & x & Hx & -> & _)%Hback. by apply Ho.
  - intros j m t x' y' q [Ht Hj]%lookup_take_Some (_ & x & Hx & -> & _)%Hback Hq Hm (_ & y & Hy & -> & _)%Hback.
    apply Hfeeds in Hm; [|done]. by eapply Ha.
  - intros j t x' q [Ht Hj]%lookup_take_Some (_ & x & Hx & -> & _)%Hback Hq.
    destruct (Hfr j t x q) as [?|(m & y & Hm & Hy & Hv)]; [done..|by left|right].
    destruct (Hforth (S m) y) as (y' & Hy' & Hcy & _); [destruct Hm; lia|done|]. exists m, y'. by rewrite Hcy, Hfeeds.
  - intros i x' p r (Hi & x & Hx & _ & -> & _)%Hback Hp. rewrite take_take, Nat.min_l by done.
    destruct (Hr i x p r) as [?|(j & y & Hj & Hy & Hv)]; [done..|by left|right].
    destruct (Hforth (S j) y) as (y' & Hy' & Hcy & _); [|done|exists j, y'; by rewrite Hcy].
    destruct Hj as [(t & [_ Hji]%lookup_take_Some & _) _]. lia.
  - intros j o [Ho' Hj]%lookup_take_Some. rewrite take_take, Nat.min_l by lia.
    destruct (Hou j o Ho') as [->|(t & x & -> & Hx & Hd)]; [by left|right].
    destruct (Hforth j x) as (x' & Hx' & _ & Hsub); [lia|done|]. exists t, x'. split_and!; [done..|]. by apply Hsub.
Qed.

Section grow.
Context {C : Type} `{Coordinator C}.

(** A new item takes in the clocks of the items whose out transitions its transition depends on. *)
Lemma grown_accounted ts tops (ctx : dpor_context C) below s t s_n s_next :
  stack ctx = below ++ [s] → grown config ctx s t s_n s_next →
  get_depth_into_program (coordinator ctx) = N.of_nat (length (stack ctx)) →
  out_transition s = last ts ∨ (∃ o, out_transition s = Some o ∧ get_executor o ∈ done_set s) →
  mirrors ts (stack ctx) → accounted ts tops (stack ctx) →
  accounted (ts ++ [t]) (tops ++ [out_transition s]) (below ++ [s_n; s_next]).
Proof.
  intros Hst Hg Hd Hout Hm Hacc. pose proof Hm as Hm'. rewrite Hst in Hm'. destruct (mirrors_below _ _ _ Hm') as [Hlb Hbelow].
  destruct Hacc as [Hl Hf Ho Ha Hfr Hr Hou]. rewrite Hst in *.
  set (stk' := below ++ [s_n; s_next]).
  assert (∀ i x', stk' !! i = Some x' → (i ≤ length ts ∧ ∃ x, (below ++ [s]) !! i = Some x ∧ item_cv x' = item_cv x ∧
    per_runner_clocks x' = per_runner_clocks x ∧ done_set x ⊆ done_set x') ∨ (i = S (length ts) ∧ x' = s_next)) as Hback.
  { intros i x' [Hi|[Hi Hx]]%lookup_app_Some.
    - left. split; [apply lookup_lt_Some in Hi; lia|]. exists x'. split; [by apply lookup_app_l_Some|done].
    - destruct (i - length below) as [|[|k]] eqn:Hk; simpl in Hx; [..|done]; injection Hx as <-; [left|right; split; [lia|done]].
      split; [lia|]. exists s. assert (i = length below) as -> by lia. rewrite list_lookup_middle by done.
      split_and!; [done|apply Hg|apply Hg|]. rewrite (gr_done _ _ _ _ _ _ Hg). set_solver. }
  assert (∀ i x, (below ++ [s]) !! i = Some x → ∃ x', stk' !! i = Some x' ∧ item_cv x' = item_cv x ∧ done_set x ⊆ done_set x') as Hforth.
  { intros i x [Hi|[Hi Hx]]%lookup_app_Some; [exists x; by split; [apply lookup_app_l_Some|]|].
    apply list_lookup_singleton_Some in Hx as [Hi0 <-]. exists s_n. assert (i = length below) as -> by lia. unfold stk'.
    rewrite list_lookup_middle by done. rewrite (gr_done _ _ _ _ _ _ Hg), (gr_cv _ _ _ _ _ _ Hg). split_and!; [done..|set_solver]. }
  assert (∀ i x, (below ++ [s]) !! i = Some x → i ≤ length ts) as Hle.
  { intros i x Hx%lookup_lt_Some. rewrite length_app in Hx. simpl in Hx. lia. }
  assert (∀ m j, j < length ts → feeds (ts ++ [t]) (tops ++ [out_transition s]) m j ↔ feeds ts tops m j) as Hfeeds by (intros; by apply feeds_app).
  assert (∀ m, feeds (ts ++ [t]) (tops ++ [out_transition s]) m (length ts) ↔
    ∃ x a, (below ++ [s]) !! S m = Some x ∧ out_transition x = Some a ∧ are_dependent config a t = true) as Hlast.
  { intros m. unfold feeds, feeder. rewrite (list_lookup_middle ts [] t (length ts)) by done. split.
    - intros (Hlt & a & b & Ha' & Hb & Hdep). injection Hb as <-. case_bool_decide as Hm0.
      + exists s, a. rewrite list_lookup_middle in Ha' by lia. rewrite Hm0, <- Hlb. by rewrite list_lookup_middle.
      + rewrite lookup_app_l in Ha' by lia. destruct (Hbelow _ _ Ha') as (x & Hx & Hox & _). exists x, a.
        split_and!; [by apply lookup_app_l_Some|done..].
    - intros (x & a & Hx & Hox & Hdep). pose proof (Hle _ _ Hx) as Hlt. split; [lia|]. exists a, t. split_and!; [|done..].
      case_bool_decide as Hm0.
      + rewrite Hm0, <- Hlb, list_lookup_middle in Hx by done. injection Hx as <-. by rewrite list_lookup_middle by lia.
      + destruct (lookup_lt_is_Some_2 ts (S m)) as [a' Ha']; [lia|]. rewrite lookup_app_l by lia.
        destruct (Hbelow _ _ Ha') as (x' & Hx' & Hox' & _). rewrite lookup_app_l in Hx by lia. congruence. }
  assert (∀ q, value_for (item_cv s_next) q = if decide (q = get_executor t) then N.of_nat (S (length ts))
    else value_for (accumulate_max_clock_vector_against config t (below ++ [s])) q) as Hnext.
  { intros q. rewrite (gr_next_clock _ _ _ _ _ _ Hg), value_for_set, Hd, Hst, length_app, Hlb. simpl. by rewrite Nat.add_1_r. }
  assert (∀ j t' x', (ts ++ [t]) !! j = Some t' → stk' !! S j = Some x' →
    (j < length ts ∧ ts !! j = Some t' ∧ ∃ x, (below ++ [s]) !! S j = Some x ∧ item_cv x' = item_cv x) ∨
    (j = length ts ∧ t' = t ∧ x' = s_next)) as Hcase.
  { intros j t' x' Ht' [[Hj (x & Hx & Hc & _)]|[Hj ->]]%Hback; [left|right].
    - rewrite lookup_app_l in Ht' by lia. split_and!; [lia|done|by exists x].
    - injection Hj as ->. rewrite list_lookup_middle in Ht' by done. injection Ht' as <-. done. }
  split.
  - rewrite !length_app. simpl. lia.
  - intros x' q [[_ (x & Hx & -> & _)]|[? _]]%Hback; [by apply Hf|done].
  - intros j t' x' Ht' Hx'. destruct (Hcase j t' x') as [(Hj & Hts & x & Hx & ->)|(-> & -> & ->)]; [done..|by apply Ho|].
    by rewrite Hnext, decide_True.
  - intros j m t' x' y' q Ht' Hx' Hq Hmj Hy'. destruct (Hcase j t' x') as [(Hj & Hts & x & Hx & ->)|(-> & -> & ->)]; [done..| |].
    + apply Hfeeds in Hmj; [|done]. apply Hback in Hy' as [[_ (y & Hy & -> & _)]|[Hy _]]; [by eapply Ha|].
      destruct Hmj. lia.
    + rewrite Hnext, decide_False by done. apply Hlast in Hmj as (y & a & Hy & Hoy & Hdep).
      apply Hback in Hy' as [[_ (y0 & Hy0 & -> & _)]|[Hy0 _]]; [|apply Hle in Hy; lia].
      rewrite Hy in Hy0. injection Hy0 as <-. by eapply (accumulate_spec t (below ++ [s]) q).
  - intros j t' x' q Ht' Hx' Hq. destruct (Hcase j t' x') as [(Hj & Hts & x & Hx & ->)|(-> & -> & ->)]; [done..| |].
    + destruct (Hfr j t' x q) as [?|(m & y & Hmj & Hy & Hv)]; [done..|by left|right].
      destruct (Hforth _ _ Hy) as (y' & Hy' & Hcy & _). exists m, y'. by rewrite Hcy, Hfeeds.
    + rewrite Hnext, decide_False by done.
      destruct (proj2 (accumulate_spec t (below ++ [s]) q)) as [?|([|i] & y & a & Hy & Hoy & Hdep & Hv)]; [by left|left; by rewrite Hv, Hf|right].
      destruct (Hforth _ _ Hy) as (y' & Hy' & Hcy & _). exists i, y'. rewrite Hcy. split_and!; [|done..].
      apply Hlast. by exists y, a.
  - intros i x' p r Hx' Hp. apply Hback in Hx' as [[Hi (x & Hx & _ & Hc & _)]|[-> ->]].
    + rewrite take_app_le by done. rewrite Hc in Hp. destruct (Hr i x p r) as [?|(j & y & Hj & Hy & Hv)]; [done..|by left|right].
      destruct (Hforth _ _ Hy) as (y' & Hy' & Hcy & _). exists j, y'. by rewrite Hcy.
    + rewrite take_ge by (rewrite length_app; simpl; lia). destruct (gr_next_clocks _ _ _ _ _ _ Hg) as (r0 & Hr0 & Hpr).
      rewrite Hpr in Hp. apply list_lookup_insert_Some in Hp as [(<- & <- & _)|(Hne & Hp)].
      * right. exists (length ts), s_next. rewrite N2Nat.id. split_and!; [apply last_of_snoc| |done].
        unfold stk'. rewrite <- Hlb. by rewrite lookup_app_r, Nat.sub_succ_l, Nat.sub_diag by lia.
      * assert (get_executor t ≠ N.of_nat p) as Hnp by (intros Heq; apply Hne; rewrite Heq; lia).
        destruct (Hr (length below) s p r) as [[Hv Hno]|(j & y & Hj & Hy & Hv)]; [by apply list_lookup_middle|done|left|right];
          rewrite Hlb, firstn_all in *.
        -- split; [done|]. intros k t' [Hk|[_ Hk]]%lookup_app_Some; [by eapply Hno|]. by apply list_lookup_singleton_Some in Hk as [_ <-].
        -- destruct (Hforth _ _ Hy) as (y' & Hy' & Hcy & _). exists j, y'. rewrite Hcy. split_and!; [by apply last_of_other|done..].
  - intros j o [Ho'|[Hj Ho']]%lookup_app_Some.
    + assert (j < length ts) as Hj by (apply lookup_lt_Some in Ho'; lia). rewrite take_app_le by lia.
      destruct (Hou j o Ho') as [->|(t' & x & -> & Hx & Hdn)]; [by left|right].
      destruct (Hforth j x Hx) as (x' & Hx' & _ & Hsub). exists t', x'. split_and!; [done..|by apply Hsub].
    + apply list_lookup_singleton_Some in Ho' as [Hj0 <-]. assert (j = length ts) as -> by lia.
      rewrite take_app_le, firstn_all by done. destruct Hout as [?|(o & Hos & Hdn)]; [by left|right].
      destruct (Hforth (length below) s) as (x' & Hx' & _ & Hsub); [by apply list_lookup_middle|]. rewrite Hlb in Hx'.
      exists o, x'. split_and!; [done..|by apply Hsub].
Qed.
End grow.

(** ** What the clocks say *)

(** The component of a runner in a clock is the position of its last transition whose clock was taken in. *)
Lemma clocks_reach ts tops stk j t s m q : accounted ts tops stk → length stk = S (length ts) →
  ts !! j = Some t → stk !! S j = Some s →
  (N.of_nat (S m) ≤ value_for (item_cv s) q)%N ↔
  ∃ m' t', m ≤ m' ∧ ts !! m' = Some t' ∧ get_executor t' = q ∧ reaches ts tops m' j.
Proof.
  intros Hacc Hlen. revert t s. induction j as [j IH] using lt_wf_ind. intros t s Ht Hs. split.
  - intros Hv. destruct (decide (q = get_executor t)) as [Hq|Hq].
    + rewrite Hq, (ac_own _ _ _ Hacc j t s) in Hv by done. exists j, t. split_and!; [lia|done..|by apply rtc_refl].
    + destruct (ac_from _ _ _ Hacc j t s q) as [Hz|(m1 & s1 & Hm1 & Hs1 & Hv1)]; [done..|lia|].
      destruct Hm1 as [Hlt Hd]. pose proof (lookup_lt_Some _ _ _ Ht). destruct (lookup_lt_is_Some_2 ts m1) as [t1 Ht1]; [lia|].
      rewrite Hv1 in Hv. destruct (proj1 (IH m1 Hlt t1 s1 Ht1 Hs1) Hv) as (m' & t' & Hle & Ht' & He & Hr).
      exists m', t'. split_and!; [done..|]. by eapply rtc_r.
  - intros (m' & t' & Hle & Ht' & He & Hr). pose proof (reaches_le _ _ _ _ Hr) as Hmj.
    destruct (decide (q = get_executor t)) as [Hq|Hq].
    { rewrite Hq, (ac_own _ _ _ Hacc j t s) by done. lia. }
    apply rtc_inv_r in Hr as [->|(m1 & Hr & Hf)].
    { rewrite Ht in Ht'. injection Ht' as <-. by destruct Hq. }
    pose proof Hf as [Hlt _]. pose proof (lookup_lt_Some _ _ _ Ht).
    destruct (lookup_lt_is_Some_2 ts m1) as [t1 Ht1]; [lia|]. destruct (lookup_lt_is_Some_2 stk (S m1)) as [s1 Hs1]; [lia|].
    etrans; [|by eapply (ac_above _ _ _ Hacc j m1 t s s1)].
    apply (IH m1 Hlt t1 s1); [done..|]. by exists m', t'.
Qed.

(** The race check for the transition of index [i]. *)
Lemma race_check_spec ts tops stk i t p : mirrors ts stk → Forall item_inv stk → accounted ts tops stk →
  (p < MAX_TOTAL_THREADS_IN_PROGRAM)%N → ts !! i = Some t →
  ∃ b, happens_before_thread stk (N.of_nat i) p = Ok b ∧
    (b = true ↔ i = 0 ∨ ∃ j m t', last_of ts p j ∧ i ≤ S m ∧ ts !! m = Some t' ∧ get_executor t' = get_executor t ∧ reaches ts tops m j).
Proof.
  intros Hm Hall Hacc Hp Ht. pose proof (mi_length _ _ Hm) as Hlen. unfold happens_before_thread.
  rewrite (get_transition_mirrors _ _ _ _ Hm Ht). cbn [mbind res_bind].
  destruct (last stk) as [s|] eqn:Hs; [|by apply last_None in Hs as ->]. unfold vec_back. rewrite Hs. cbn [deref mbind res_bind].
  pose proof Hs as Hi. rewrite last_lookup in Hi. pose proof Hall as Hall'. rewrite Forall_lookup in Hall'. destruct (Hall' _ _ Hi) as [_ Hlc].
  assert (N.to_nat p < length (per_runner_clocks s)) as [r Hr]%lookup_lt_is_Some_2 by lia.
  unfold clock_of. rewrite Hr. cbn [deref mbind res_bind]. eexists. split; [done|]. rewrite bool_decide_eq_true.
  unfold runner_get_clock_vector.
  pose proof (ac_runners _ _ _ Hacc _ _ _ _ Hi Hr) as Hpr. rewrite N2Nat.id, take_ge in Hpr by lia.
  destruct Hpr as [[-> Hno]|(j & s' & Hj & Hs' & ->)].
  - change (value_for empty_clock_vector (get_executor t)) with 0%N. split; [intros ?; left; lia|]. intros [->|(j & m & t' & [(tj & Htj & He) _] & _)]; [done|]. by destruct (Hno j tj).
  - destruct i as [|i]; [by split; [left|intros _; lia]|]. pose proof (lookup_lt_Some _ _ _ Ht).
    assert (∃ tj, ts !! j = Some tj) as [tj Htj] by (destruct Hj as [(tj & ? & _) _]; by exists tj).
    rewrite (clocks_reach ts tops stk j tj s' i (get_executor t)) by done. split.
    + intros (m & t' & Hle & Hr'). right. exists j, m, t'. split; [done|]. split; [lia|done].
    + intros [?|(j' & m & t' & Hj' & Hle & Hr')]; [done|]. rewrite (last_of_unique _ _ _ _ Hj' Hj) in Hr'.
      exists m, t'. split; [lia|done].
Qed.

(** ** The loops *)

Section loops.
Context {C : Type} `{Hlaws : TraceLaws C} (cbs : callbacks).
Implicit Types ctx : dpor_context C.

Lemma continue_accounted p ctx ctx' ts tops s :
  aligned ctx ts → accounted ts tops (stack ctx) → last (stack ctx) = Some s →
  out_transition s = last ts ∨ (∃ o, out_transition s = Some o ∧ get_executor o ∈ done_set s) →
  continue_dpor_by_expanding_trace_with config p ctx = (Ok tt, ctx') →
  ∃ t tops', trace (model_of ctx') = Some <$> (ts ++ [t]) ∧ accounted (ts ++ [t]) tops' (stack ctx') ∧
    ∀ top, last (stack ctx') = Some top → out_transition top = Some t.
Proof using Hlaws.
  intros [Ht Hm _] Hacc Hlast Hout (c & below & s0 & t & s_n & s_next & Hex & Hco & _ & _ & Hst & Hg & Hev & _ & Hd)%continue_spec.
  rewrite Hst, last_snoc in Hlast. injection Hlast as ->. exists t, (tops ++ [out_transition s]).
  destruct (execute_runner_trace p _ _ Hex) as [t' Htr].
  pose proof (gr_trace _ _ _ _ _ _ Hg) as Hlast. unfold model_of in Hlast, Ht. cbn [coordinator set_coordinator] in Hlast.
  rewrite Htr, last_snoc in Hlast. injection Hlast as ->. split_and!.
  - unfold model_of. by rewrite Hco, Htr, Ht, fmap_app.
  - eapply accounted_evolves; [done|]. by apply (grown_accounted ts tops (set_coordinator c ctx) below s t s_n s_next).
  - intros top Htop. rewrite last_lookup in Htop. destruct (Forall2_lookup_r _ _ _ _ _ Hev Htop) as (top0 & Htop0 & He).
    rewrite (ev_out _ _ He). rewrite <- (Forall2_length _ _ _ Hev), <- last_lookup, last_app in Htop0. injection Htop0 as <-. apply Hg.
Qed.

Definition ordered_head ctx ts tops : Prop :=
  aligned ctx ts ∧ accounted ts tops (stack ctx) ∧ ∀ top, last (stack ctx) = Some top → out_transition top = last ts.

Lemma some_inj (l l' : list transition) : Some <$> l = Some <$> l' → l = l'.
Proof using Type. apply list_fmap_eq_inj. by intros ?? [= ->]. Qed.

Lemma ordered_head_intro ctx ts ts' tops : aligned ctx ts → trace (model_of ctx) = Some <$> ts' → accounted ts' tops (stack ctx) →
  (∀ top, last (stack ctx) = Some top → out_transition top = last ts') → ordered_head ctx ts' tops.
Proof using Type. intros Ha Ht Hacc Hlast. rewrite (md_trace _ _ Ha) in Ht. by apply some_inj in Ht as <-. Qed.

Lemma loop_head_ordered c ctx :
  trace (get_current_program_model c) = [] → (maximum_total_execution_depth config < 2^32)%N →
  loop_head config cbs c ctx → stack ctx ≠ [] → ∃ ts tops, ordered_head ctx ts tops.
Proof using Hlaws.
  intros H0 Hmax Hh. induction Hh as [enabled Hen|ctx ctx' Hh IH Hne' Hx|ctx ctx1 ctx' Hh IH Hne' Hx Hb]; intros Hne.
  - exists [], []. split; [split; [done|apply mirrors_initial|apply (initial_inv c enabled)]|]. split; [apply accounted_initial|].
    by intros top [= <-].
  - assert (∃ ts, aligned_head ctx' ts) as (ts' & Hal & _) by (apply (loop_head_mirrored config cbs c); [done..|by eapply head_explored|done]).
    destruct (IH Hne') as (ts & tops & Hm & Hacc & Hfresh). apply explore_continue in Hx as [_ Hx].
    apply expand_first_enabled_ok in Hx as (s & ctx1 & t & Hs & Hc & Hst & Hco & _).
    destruct (continue_accounted (get_first_enabled_runner s) ctx ctx1 ts tops s) as (t' & tops' & Htr & Hacc' & Hf); [done..|left; by apply Hfresh|done|].
    exists (ts ++ [t']), tops'. eapply ordered_head_intro; [exact Hal|..].
    + unfold model_of. by rewrite Hco.
    + by rewrite Hst.
    + intros top. rewrite Hst, last_snoc. apply Hf.
  - assert (∃ ts, aligned_head ctx' ts) as (ts' & Hal & _) by (apply (loop_head_mirrored config cbs c); [done..|by eapply head_backtracked|done]).
    destruct (IH Hne') as (ts & tops & Hm & Hacc & Hfresh). apply explore_none in Hx as [-> _].
    pose proof (loop_head_inv config cbs c ctx Hh) as Hinv. pose proof (loop_head_depth config cbs c ctx Hh) as Hlen.
    destruct Hm as [Ht Hmi Hi].
    apply backtrack_continue in Hb as (kept & popped & Hst & _ & [[_ ?]|Hk]); [done|].
    destruct Hk as (below & s & c1 & st & evs & p & s' & -> & Hbt & Hret & Hpf & Hc).
    destruct (backtrack_set_pop_first_spec s) as (p' & Hpf' & Hin & _); [by apply bool_decide_eq_false_2|].
    rewrite Hpf in Hpf'. injection Hpf' as <- ->.
    assert (below ≠ []) as Hnb. { intros ->. apply Hbt, (si_first _ Hinv). by rewrite Hst. }
    rewrite Hst in Hmi, Hi, Hlen, Hacc. pose proof (mi_length _ _ Hmi) as Hl. rewrite !length_app in Hl, Hlen. simpl in Hl, Hlen.
    unfold max_depth in Hlen. assert (length below ≠ 0) as Hlb by by intros ?%nil_length_inv.
    eapply (continue_accounted p _ _ (take (length below) ts)) in Hc as (t' & tops' & Htr & Hacc' & Hf).
    + exists (take (length below) ts ++ [t']), tops'. eapply ordered_head_intro; [exact Hal|done|done|]. intros top. rewrite last_snoc. apply Hf.
    + split; cbn [stack].
      * unfold model_of. cbn [coordinator]. apply (return_to_depth_trace (length below) ts (coordinator ctx)); [done|lia|lia|done].
      * by eapply mirrors_cut.
      * apply Forall_app in Hi as [[Hib [[Hok Hlc] _]%Forall_cons]%Forall_app _]. apply Forall_app. split; [done|].
        repeat constructor; [..|done]; simpl; destruct Hok; set_solver.
    + cbn [stack]. eapply accounted_cut; [|exact Hacc|done..|]; [rewrite length_app; lia|]. simpl. set_solver.
    + cbn [stack]. apply last_snoc.
    + cbn [out_transition done_set].
      destruct (decide (length below < length ts)) as [Hlt|Hge].
      * right. destruct (lookup_lt_is_Some_2 ts (length below) Hlt) as [o Ho].
        destruct (mi_out _ _ Hmi _ _ Ho) as (s0 & Hs0 & Hos & Hds & _).
        rewrite <- app_assoc in Hs0. change ([s] ++ popped) with (s :: popped) in Hs0.
        rewrite list_lookup_middle in Hs0 by done. injection Hs0 as <-. exists o. split; [done|]. set_solver.
      * left. assert (popped = []) as -> by (apply nil_length_inv; lia). rewrite app_nil_r in Hst.
        rewrite take_ge by lia. apply (Hfresh s). rewrite Hst. apply last_snoc.
Qed.

End loops.
End order.
