(* ===== verification/Reports.v ===== *)
(** * What the search reports

The calls of the user's callbacks made by [classic_dpor::verify_using]: errors of
the program under test, the ends of traces and the deadlocks.  [run_reports] says
what the list of calls of a whole run contains, in terms of the states the search
goes through ([Exploration.loop_head]). *)

From stdpp Require Import options.
From S2P Require Import Prelude InjectiveFunction DoubleDispatch CondPolicy Objects State.
From S2P Require Import Transitions Dependency StateSequence Program ClockVector StackItem Dpor.
From S2P Require Import Backtracking Exploration.

Section reports.
Context {C : Type} `{Coordinator C} (config : configuration) (cbs : callbacks).
Implicit Types ctx : dpor_context C.

(** ** Errors *)

(** The three exceptions that end the search with a report. *)
Inductive reported (s : stats) : exn → bool * event → Prop :=
  | reported_undefined :
      reported s UndefinedBehavior (has_undefined_behavior cbs, undefined_behavior s)
  | reported_termination signo p :
      reported s (TerminationError signo p) (has_abnormal_termination cbs, abnormal_termination s signo p)
  | reported_exit code p :
      reported s (NonzeroExitCodeError code p) (has_nonzero_exit_code cbs, nonzero_exit_code s code p).

Lemma explore_expands ctx s :
  last (stack ctx) = Some s → enabled_runners s ≠ ∅ →
  (N.of_nat (length (stack ctx)) < maximum_total_execution_depth config)%N →
  explore config cbs ctx =
    (let! c := try (expand_first_enabled config)
       (λ e ctx, match catch_undefined_behavior cbs e ctx with
                 | (Throw e, ctx) => catch_program_errors cbs e ctx
                 | r => r
                 end) in ret (Some c)) ctx.
Proof.
  intros Hs Hen Hd. unfold explore. rewrite ebind_query. unfold vec_back. rewrite Hs. simpl.
  unfold has_enabled_runners. rewrite bool_decide_eq_false_2 by done. simpl.
  rewrite ebind_query. by rewrite bool_decide_eq_false_2 by lia.
Qed.

(** C31: errors while exploring.  When the expansion of the trace throws, the
iteration ends the search with exactly one call, of the callback for that
exception if it is set, for undefined behaviour, a termination and a nonzero
exit; every other exception leaves [verify_using]. *)
Theorem explore_reports_errors ctx s e ctx1 :
  last (stack ctx) = Some s → enabled_runners s ≠ ∅ →
  (N.of_nat (length (stack ctx)) < maximum_total_execution_depth config)%N →
  expand_first_enabled config ctx = (Throw e, ctx1) →
  (∃ is_set ev, reported (model_checking_stats ctx1) e (is_set, ev) ∧
    explore config cbs ctx = (Ok (Some Return), callback is_set ev ctx1)) ∨
  (∀ out, reported (model_checking_stats ctx1) e out → False) ∧
  explore config cbs ctx = (Throw e, ctx1).
Proof.
  intros Hs Hen Hd Hx. rewrite (explore_expands _ s) by done. unfold ebind, try. rewrite Hx.
  destruct e; simpl; try (right; split; [by inversion 1|done]);
    left; eexists _, _; (split; [constructor|done]).
Qed.

(** A runner about to abort or to exit with a positive code is reported: when
the trace was expanded with the first enabled runner and its next transition
aborts the program, the search ends with a report of [SIGABRT] by that runner,
and likewise for a positive exit code. *)
Theorem about_to_fail_reported ctx s ctx1 t :
  let p := get_first_enabled_runner s in
  last (stack ctx) = Some s → enabled_runners s ≠ ∅ →
  (N.of_nat (length (stack ctx)) < maximum_total_execution_depth config)%N →
  continue_dpor_by_expanding_trace_with config p ctx = (Ok tt, ctx1) →
  get_pending_transition_for (model_of ctx1) p = Some t →
  let st := Stats (u32 (total_transitions (model_checking_stats ctx1) + 1)) (trace_id (model_checking_stats ctx1)) in
  explore config cbs ctx =
    if aborts_program_execution t then
      (Ok (Some Return), callback (has_abnormal_termination cbs)
                           (abnormal_termination st SIGABRT p) (set_stats st ctx1))
    else if bool_decide (program_exit_code t > 0)%Z then
      (Ok (Some Return), callback (has_nonzero_exit_code cbs)
                           (nonzero_exit_code st (program_exit_code t) p) (set_stats st ctx1))
    else (Ok (Some Continue), set_stats st ctx1).
Proof.
  intros p Hs Hen Hd Hc Ht st. rewrite (explore_expands _ s) by done.
  unfold ebind at 1, try. unfold expand_first_enabled. rewrite ebind_query.
  unfold vec_back. rewrite Hs. cbn [deref]. cbv zeta. fold p. unfold ebind at 1. rewrite Hc.
  unfold ebind at 1. rewrite ebind_query. fold st.
  change (model_of (set_stats st ctx1)) with (model_of ctx1). rewrite Ht. cbn [deref].
  destruct (aborts_program_execution t); [done|]. by case_bool_decide.
Qed.

(** Errors while backtracking escape: the first step of a new trace is guarded
against undefined behaviour only, so a termination or a nonzero exit of the
program there is thrown out of [verify_using] and not reported, although the
same exception is reported in the exploration. *)
Theorem backtrack_step_errors_escape e ctx ctx1 :
  expand_backtrack config ctx = (Throw e, ctx1) → e ≠ UndefinedBehavior →
  try (expand_backtrack config) (catch_undefined_behavior cbs) ctx = (Throw e, ctx1).
Proof. unfold try. intros ->. by destruct e. Qed.

(** ** The calls made by a part of the search *)

(** Reports of errors; the others mark the ends of traces. *)
Definition is_error (e : event) : bool :=
  match e with trace_completed _ | deadlock _ => false | _ => true end.

(** Only errors are reported, after what was reported before. *)
Definition adds_errors : relation (dpor_context C) := λ ctx ctx',
  ∃ l, events ctx' = events ctx ++ l ∧ Forall (λ e, is_error e = true) l.
#[export] Instance adds_errors_preorder : PreOrder adds_errors.
Proof.
  split.
  - intros ctx. exists []. by rewrite app_nil_r.
  - intros x y z (l1 & H1 & He1) (l2 & H2 & He2). exists (l1 ++ l2).
    rewrite H2, H1, app_assoc. split; [done|]. by apply Forall_app.
Qed.
Lemma same_events_adds ctx ctx' : events ctx' = events ctx → adds_errors ctx ctx'.
Proof. intros Heq. exists []. by rewrite app_nil_r. Qed.

Lemma adds_errors_callback b e ctx : is_error e = true → adds_errors ctx (callback b e ctx).
Proof. intros He. destruct b; [|done]. exists [e]. by repeat constructor. Qed.

Lemma adds_errors_try {A} (m : eff (dpor_context C) A) h :
  preserves adds_errors m → (∀ e, preserves adds_errors (h e)) → preserves adds_errors (try m h).
Proof.
  intros Hm Hh ctx r ctx' Ht. unfold try in Ht. destruct (m ctx) as [[a|e] ctx1] eqn:Hx.
  - injection Ht as <- <-. by eapply Hm.
  - etrans; [by eapply Hm|by eapply Hh].
Qed.

Lemma adds_errors_program e : preserves adds_errors (catch_program_errors cbs e).
Proof. intros ctx r ctx' Hc. destruct e; injection Hc as <- <-; first [done|by apply adds_errors_callback]. Qed.
Lemma adds_errors_undefined e : preserves adds_errors (catch_undefined_behavior cbs e).
Proof. intros ctx r ctx' Hc. destruct e; injection Hc as <- <-; first [done|by apply adds_errors_callback]. Qed.

Lemma adds_errors_coordinator {A} (m : eff C A) : preserves adds_errors (on_coordinator m).
Proof. apply (preserves_zoom _ (λ _ _, True)); [done|]. intros ctx c _. by apply same_events_adds. Qed.

Lemma adds_errors_grow : preserves adds_errors (grow_stack_after_running config).
Proof.
  unfold grow_stack_after_running, assert. preserve.
  intros ctx r ctx' Hg. destruct (inherit_sleep_set _ _ _ _ _); injection Hg as <- <-; by apply same_events_adds.
Qed.

Lemma adds_errors_update : preserves adds_errors (dynamically_update_backtrack_sets config).
Proof.
  intros ctx r ctx' Hu. apply same_events_adds.
  by destruct (keeps_dynamically_update_backtrack_sets _ _ _ _ Hu).
Qed.
#[local] Hint Resolve adds_errors_program adds_errors_undefined adds_errors_coordinator
  adds_errors_grow adds_errors_update : preserves.

Lemma adds_errors_continue p : preserves adds_errors (continue_dpor_by_expanding_trace_with config p).
Proof. unfold continue_dpor_by_expanding_trace_with. preserve. Qed.
#[local] Hint Resolve adds_errors_continue : preserves.

Lemma adds_errors_set_stack f : preserves adds_errors (λ ctx, (Ok tt, set_stack (f ctx) ctx)).
Proof. intros ctx r ctx' [= <- <-]. by apply same_events_adds. Qed.
Lemma adds_errors_set_stats f : preserves adds_errors (λ ctx, (Ok tt, set_stats (f ctx) ctx)).
Proof. intros ctx r ctx' [= <- <-]. by apply same_events_adds. Qed.
#[local] Hint Resolve adds_errors_set_stack adds_errors_set_stats adds_errors_try : preserves.

Lemma adds_errors_expand_first : preserves adds_errors (expand_first_enabled config).
Proof. unfold expand_first_enabled. cbv zeta. preserve. Qed.
Lemma adds_errors_expand_backtrack : preserves adds_errors (expand_backtrack config).
Proof. unfold expand_backtrack. preserve. Qed.
#[local] Hint Resolve adds_errors_expand_first adds_errors_expand_backtrack : preserves.

Lemma adds_errors_explore : preserves adds_errors (explore config cbs).
Proof.
  unfold explore. preserve. apply adds_errors_try; [apply adds_errors_expand_first|].
  intros e ctx r' ctx' Hc. destruct (catch_undefined_behavior cbs e ctx) as [[ctl|e'] ctx1] eqn:Hu.
  - injection Hc as <- <-. by eapply adds_errors_undefined.
  - etrans; [by eapply adds_errors_undefined|by eapply adds_errors_program].
Qed.

(** The part of the outer loop after the callbacks for the end of a trace. *)
Definition backtrack_rest : eff (dpor_context C) control :=
  do! (λ ctx, (Ok tt, set_stack (reverse (pop_searched (reverse (stack ctx)))) ctx)) in
  let! stk := query (λ ctx, Ok (stack ctx)) in
  if bool_decide (stk = []) then ret Continue
  else
    let! c := try (on_coordinator (return_to_depth (N.of_nat (length stk - 1)))) (catch_program_errors cbs) in
    match c with
    | Return => ret Return
    | Continue =>
        do! (λ ctx, let s := model_checking_stats ctx in
                    (Ok tt, set_stats (Stats (total_transitions s) (u32 (trace_id s + 1))) ctx)) in
        try (expand_backtrack config) (catch_undefined_behavior cbs)
    end.

Lemma adds_errors_backtrack_rest : preserves adds_errors backtrack_rest.
Proof. unfold backtrack_rest. cbv zeta. preserve. Qed.

(** The reports made at the end of a trace. *)
Definition end_reports ctx : list event :=
  (if has_trace_completed cbs then [trace_completed (model_checking_stats ctx)] else []) ++
  (if has_deadlock cbs && bool_decide (is_in_deadlock (model_of ctx) = Ok true)
   then [deadlock (model_checking_stats ctx)] else []).

Lemma backtrack_events ctx r ctx' :
  backtrack config cbs ctx = (r, ctx') →
  ∃ l, events ctx' = events ctx ++ end_reports ctx ++ l ∧ Forall (λ e, is_error e = true) l.
Proof.
  unfold end_reports. intros Hb.
  assert (backtrack config cbs ctx =
    (let ctx1 := callback (has_trace_completed cbs) (trace_completed (model_checking_stats ctx)) ctx in
     match (if has_deadlock cbs then is_in_deadlock (model_of ctx) else Ok false) with
     | Throw e => (Throw e, ctx1)
     | Ok dead => backtrack_rest (callback dead (deadlock (model_checking_stats ctx)) ctx1)
     end)) as Heq.
  { unfold backtrack. unfold ebind at 1. rewrite ebind_query.
    assert (∀ b e, model_of (callback b e ctx) = model_of ctx ∧
      model_checking_stats (callback b e ctx) = model_checking_stats ctx) as Hcb by (by intros []).
    destruct (Hcb (has_trace_completed cbs) (trace_completed (model_checking_stats ctx))) as [-> Hst].
    destruct (if has_deadlock cbs then _ else _); [|done]. unfold ebind at 1. by rewrite Hst. }
  rewrite Heq in Hb. cbv zeta in Hb. clear Heq.
  assert (∀ b e ctx0, events (callback b e ctx0) = events ctx0 ++ (if b then [e] else [])) as Hev.
  { intros [] e ctx0; simpl; [done|by rewrite app_nil_r]. }
  destruct (has_deadlock cbs); simpl in *; [destruct (is_in_deadlock (model_of ctx)) as [[]|e] eqn:Hd|].
  - apply adds_errors_backtrack_rest in Hb as (l & Hl & He). exists l. rewrite Hl, !Hev, <- !app_assoc. done.
  - apply adds_errors_backtrack_rest in Hb as (l & Hl & He). exists l. rewrite Hl, !Hev, <- !app_assoc. done.
  - injection Hb as <- <-. exists []. by rewrite Hev, !app_nil_r.
  - apply adds_errors_backtrack_rest in Hb as (l & Hl & He). exists l. rewrite Hl, !Hev, <- !app_assoc. done.
Qed.

(** ** The calls of a whole run *)

(** The states where a trace has been explored to its end. *)
Definition trace_end (c : C) ctx : Prop :=
  loop_head config cbs c ctx ∧ stack ctx ≠ [] ∧ explore config cbs ctx = (Ok None, ctx).

(** Every mark of the end of a trace is due to one. *)
Definition justified (c : C) (l : list event) : Prop :=
  ∀ e, e ∈ l → is_error e = false → ∃ ctx, trace_end c ctx ∧ e ∈ end_reports ctx.
Lemma justified_app c l1 l2 : justified c l1 → justified c l2 → justified c (l1 ++ l2).
Proof. intros H1 H2 e [He|He]%elem_of_app; [by apply H1|by apply H2]. Qed.
Lemma justified_errors c l : Forall (λ e, is_error e = true) l → justified c l.
Proof. intros Hl e He. eapply Forall_forall in Hl; [|done]. congruence. Qed.

Lemma trace_end_intro c ctx ctx1 :
  loop_head config cbs c ctx → stack ctx ≠ [] → explore config cbs ctx = (Ok None, ctx1) →
  ctx1 = ctx ∧ trace_end c ctx.
Proof. intros Hh Hne Hx. destruct (explore_none _ _ _ _ Hx) as [-> _]. done. Qed.

Lemma justified_end c ctx : trace_end c ctx → justified c (end_reports ctx).
Proof. intros Ht e He _. by exists ctx. Qed.

(** One pass through the loop: it ends there, or goes on from another head. *)
Lemma dpor_loop_step fuel c ctx out ctx' :
  loop_head config cbs c ctx → stack ctx ≠ [] → dpor_loop config (S fuel) cbs ctx = (out, ctx') →
  ∃ ctx1 l, events ctx1 = events ctx ++ l ∧ justified c l ∧
    (trace_end c ctx → end_reports ctx ⊆ l) ∧
    (ctx' = ctx1 ∧ out ≠ Ok None ∨ loop_head config cbs c ctx1 ∧ dpor_loop config fuel cbs ctx1 = (out, ctx')).
Proof.
  intros Hh Hne. rewrite dpor_loop_cons by done. unfold ebind at 1.
  destruct (explore config cbs ctx) as [[o|e] ctx1] eqn:Hx.
  2:{ intros [= <- <-]. destruct (adds_errors_explore _ _ _ Hx) as (l & Hl & He).
      exists ctx1, l. split_and!; [done|by apply justified_errors|intros (_ & _ & ?); congruence|by left]. }
  destruct o as [ctl|].
  - intros Hr. destruct (adds_errors_explore _ _ _ Hx) as (l & Hl & He).
    exists ctx1, l. split_and!; [done|by apply justified_errors|intros (_ & _ & ?); congruence|].
    destruct ctl; [right|left].
    + split; [by eapply head_explored|done].
    + by injection Hr as <- <-.
  - destruct (trace_end_intro c ctx ctx1 Hh Hne Hx) as [-> Ht]. intros Hr. unfold ebind at 1 in Hr.
    destruct (backtrack config cbs ctx) as [o ctx2] eqn:Hb.
    destruct (backtrack_events _ _ _ Hb) as (l & Hl & He). exists ctx2, (end_reports ctx ++ l). split_and!.
    + done.
    + apply justified_app; [by apply justified_end|by apply justified_errors].
    + intros _ e Hin. apply elem_of_app. by left.
    + destruct o as [[]|e]; [right|left..].
      * split; [by eapply head_backtracked|done].
      * by injection Hr as <- <-.
      * by injection Hr as <- <-.
Qed.

(** The loop from any head: the calls are those of earlier heads, and justified. *)
Lemma dpor_loop_justified fuel c ctx out ctx' :
  loop_head config cbs c ctx → dpor_loop config fuel cbs ctx = (out, ctx') →
  ∃ l, events ctx' = events ctx ++ l ∧ justified c l.
Proof.
  revert ctx. induction fuel as [|fuel IH]; intros ctx Hh Hl.
  { injection Hl as <- <-. exists []. rewrite app_nil_r. split; [done|]. by intros e ?%not_elem_of_nil. }
  destruct (decide (stack ctx = [])) as [Hnil|Hne].
  { rewrite dpor_loop_nil in Hl by done. injection Hl as <- <-. exists [].
    rewrite app_nil_r. split; [done|]. by intros e ?%not_elem_of_nil. }
  destruct (dpor_loop_step _ _ _ _ _ Hh Hne Hl) as (ctx1 & l & He & Hj & _ & [[-> _]|[Hh1 Hl1]]); [by exists l|].
  destruct (IH ctx1 Hh1 Hl1) as (l' & He' & Hj'). exists (l ++ l').
  rewrite He', He, app_assoc. split; [done|]. by apply justified_app.
Qed.

(** A run that comes to an end goes through every head of the loop. *)
Lemma run_reaches_heads fuel c out ctx' :
  verify_using config fuel cbs c = (out, ctx') → out ≠ Ok None →
  ∀ ctx, loop_head config cbs c ctx → ∃ fuel', dpor_loop config fuel' cbs ctx = (out, ctx').
Proof.
  intros Hv Hout ctx Hh. induction Hh as [enabled Hen|ctx ctx1 Hh IH Hne Hx|ctx ctx1 ctx2 Hh IH Hne Hx Hb].
  - exists fuel. unfold verify_using in Hv. cbv zeta in Hv. rewrite ebind_query in Hv.
    unfold model_of in Hv. simpl in Hv. by rewrite Hen in Hv.
  - destruct IH as [[|fuel'] Hl]; [by injection Hl as <-|]. exists fuel'.
    rewrite dpor_loop_cons in Hl by done. unfold ebind in Hl. by rewrite Hx in Hl.
  - destruct IH as [[|fuel'] Hl]; [by injection Hl as <-|]. exists fuel'.
    rewrite dpor_loop_cons in Hl by done. unfold ebind in Hl. by rewrite Hx, Hb in Hl.
Qed.

(** C18: what a whole run reports about the ends of traces.  When [verify_using]
returns or throws, a completed trace or a deadlock has been reported exactly when
the search explored some trace to its end, in that state, the callback is set and,
for a deadlock, the model is in a deadlock there. *)
Theorem run_reports fuel c out ctx' e :
  verify_using config fuel cbs c = (out, ctx') → out ≠ Ok None → is_error e = false →
  e ∈ events ctx' ↔ ∃ ctx, trace_end c ctx ∧ e ∈ end_reports ctx.
Proof.
  intros Hv Hout He. split.
  - intros Hin. pose proof Hv as Hv'. unfold verify_using in Hv'. cbv zeta in Hv'. rewrite ebind_query in Hv'.
    unfold model_of in Hv'. simpl in Hv'. destruct (get_enabled_runners _) as [enabled|ex] eqn:Hen.
    + apply (dpor_loop_justified fuel c) in Hv' as (l & Hl & Hj); [|by apply head_initial].
      rewrite Hl in Hin. by apply Hj.
    + injection Hv' as <- <-. by apply not_elem_of_nil in Hin.
  - intros (ctx & Ht & Hin). pose proof Ht as (Hh & Hne & _).
    destruct (run_reaches_heads _ _ _ _ Hv Hout ctx Hh) as [[|fuel'] Hl]; [by injection Hl as <-|].
    destruct (dpor_loop_step _ _ _ _ _ Hh Hne Hl) as (ctx1 & l & Hl1 & _ & Hsub & Hrest).
    assert (e ∈ events ctx1) as Hin1.
    { rewrite Hl1. apply elem_of_app. right. by apply Hsub. }
    destruct Hrest as [[-> _]|[Hh1 Hr]]; [done|].
    destruct (dpor_loop_justified _ _ _ _ _ Hh1 Hr) as (l' & -> & _). apply elem_of_app. by left.
Qed.

End reports.
