(* ===== verification/Coordinator.v ===== *)
(** * The coordinator

[coordinator] and [model_to_system_map] ([src/mcmini/coordinator/coordinator.cpp]),
the registry of transition types ([transition_registry.cpp]) and the callbacks that
read a thread's mailbox ([src/mcmini/model/transitions/]).  The processes the
coordinator runs ([real_world::process], [process_source], and the kernel's
[process_vm_readv]) are an interface, [World]; a process handle is abstract.
[coordinator_laws] and [coordinator_trace_laws] discharge what [Exploration.v] and
[Mirror.v] ask of a coordinator. *)

From stdpp Require Import options.
From S2P Require Import Prelude InjectiveFunction CondPolicy Objects State Transitions.
From S2P Require Import Behaviour StateSequence Program Runners Dependency ClockVector StackItem Dpor.
From S2P Require Import Exploration Mirror.

(** ** Mailboxes *)

(** [runner_mailbox] without its semaphores: bytes are [N] below 256. *)
Record runner_mailbox := RunnerMailbox {
  type : N;
  cnts : list N;
}.

(** [memcpy_v] into a variable of [n] bytes, from offset [off], on a little-endian
machine. *)
Fixpoint le_value (bytes : list N) : N :=
  match bytes with
  | [] => 0
  | b :: bytes => b + 2^8 * le_value bytes
  end%N.
Definition memcpy_v (off n : nat) (mb : runner_mailbox) : N := le_value (take n (drop off (cnts mb))).
Definition read_pointer (off : nat) (mb : runner_mailbox) : addr := memcpy_v off 8 mb.
Definition read_int (off : nat) (mb : runner_mailbox) : Z := s32 (memcpy_v off 4 mb).
Definition read_runner_id (off : nat) (mb : runner_mailbox) : runner_id_t := memcpy_v off 2 mb.

(** [transition_type], in declaration order. *)
Definition INVISIBLE_OPERATION_TYPE : N := 0.
Definition MUTEX_INIT_TYPE : N := 1.
Definition MUTEX_LOCK_TYPE : N := 2.
Definition MUTEX_UNLOCK_TYPE : N := 3.
Definition THREAD_CREATE_TYPE : N := 4.
Definition THREAD_JOIN_TYPE : N := 5.
Definition THREAD_EXIT_TYPE : N := 6.
Definition PROCESS_EXIT_TYPE : N := 7.
Definition PROCESS_ABORT_TYPE : N := 8.
Definition COND_ENQUEUE_TYPE : N := 9.
Definition COND_INIT_TYPE : N := 10.
Definition COND_WAIT_TYPE : N := 11.
Definition COND_SIGNAL_TYPE : N := 12.
Definition COND_BROADCAST_TYPE : N := 13.
Definition COND_DESTROY_TYPE : N := 14.
Definition SEM_INIT_TYPE : N := 15.
Definition SEM_WAIT_TYPE : N := 16.
Definition SEM_POST_TYPE : N := 17.
Definition SEM_DESTROY_TYPE : N := 18.

(** ** The registry *)

(** A [transition_discovery_callback] is a pointer to one of these functions. *)
Inductive callback_function :=
  | mutex_init_callback_f | mutex_lock_callback_f | mutex_unlock_callback_f
  | thread_create_callback_f | thread_exit_callback_f | thread_join_callback_f
  | process_exit_callback_f | process_abort_callback_f
  | cond_init_callback_f | cond_waiting_thread_enqueue_callback_f | cond_wait_callback_f
  | cond_signal_callback_f | cond_broadcast_callback_f | cond_destroy_callback_f
  | sem_init_callback_f | sem_destroy_callback_f | sem_post_callback_f | sem_wait_callback_f.

Abbreviation transition_registry := (gmap N callback_function) (only parsing).

(** [unordered_map::insert] keeps an entry that is there. *)
Definition register_transition (rttid : N) (callback : callback_function)
    (runtime_callbacks : gmap N callback_function) : gmap N callback_function :=
  match runtime_callbacks !! rttid with
  | Some _ => runtime_callbacks
  | None => <[rttid := callback]> runtime_callbacks
  end.
Definition get_callback_for (runtime_callbacks : gmap N callback_function) (rttid : N) : option callback_function :=
  runtime_callbacks !! rttid.
Definition default_registry : gmap N callback_function :=
  foldl (λ tr e, register_transition e.1 e.2 tr) ∅
    [(MUTEX_INIT_TYPE, mutex_init_callback_f);
     (MUTEX_LOCK_TYPE, mutex_lock_callback_f);
     (MUTEX_UNLOCK_TYPE, mutex_unlock_callback_f);
     (THREAD_CREATE_TYPE, thread_create_callback_f);
     (THREAD_EXIT_TYPE, thread_exit_callback_f);
     (THREAD_JOIN_TYPE, thread_join_callback_f);
     (PROCESS_EXIT_TYPE, process_exit_callback_f);
     (PROCESS_ABORT_TYPE, process_abort_callback_f);
     (COND_INIT_TYPE, cond_init_callback_f);
     (COND_ENQUEUE_TYPE, cond_waiting_thread_enqueue_callback_f);
     (COND_WAIT_TYPE, cond_wait_callback_f);
     (COND_SIGNAL_TYPE, cond_signal_callback_f);
     (COND_BROADCAST_TYPE, cond_broadcast_callback_f);
     (COND_DESTROY_TYPE, cond_destroy_callback_f);
     (SEM_INIT_TYPE, sem_init_callback_f);
     (SEM_DESTROY_TYPE, sem_destroy_callback_f);
     (SEM_POST_TYPE, sem_post_callback_f);
     (SEM_WAIT_TYPE, sem_wait_callback_f)].

(** ** The world *)

(** What the coordinator calls outside the model.  [make_new_process] and
[process_execute_runner] are the virtual methods of [process_source] and
[process]; [destroy_process] is the destructor of a handle;
[process_vm_readv] reads [n] bytes of a process, [None] when it reads fewer.  The
two initializers are the bytes of the C library's constants. *)
Class World (W : Type) := {
  handle : Type;
  make_new_process : eff W (option handle);
  destroy_process : handle → W → W;
  process_execute_runner : handle → runner_id_t → eff W runner_mailbox;
  get_pid : handle → Z;
  process_vm_readv : W → Z → addr → nat → option (list N);
  PTHREAD_MUTEX_INITIALIZER : list N;
  PTHREAD_COND_INITIALIZER : list N;
}.
Arguments handle W {_}.

Section coordinator.
Context {W : Type} `{World W}.

Record coordinator := mk_coordinator {
  current_program_model : program;
  runtime_transition_mapping : gmap N callback_function;
  current_process_handle : option (handle W);
  process_source : W;
  system_address_mapping : gmap addr objid_t;
}.

Definition set_model (p : program) (c : coordinator) : coordinator :=
  mk_coordinator p (runtime_transition_mapping c) (current_process_handle c) (process_source c)
    (system_address_mapping c).
Definition set_handle (h : option (handle W)) (c : coordinator) : coordinator :=
  mk_coordinator (current_program_model c) (runtime_transition_mapping c) h (process_source c)
    (system_address_mapping c).
Definition set_source (w : W) (c : coordinator) : coordinator :=
  mk_coordinator (current_program_model c) (runtime_transition_mapping c) (current_process_handle c) w
    (system_address_mapping c).
(** [system_address_mapping.insert], which keeps an entry that is there. *)
Definition map_address (a : addr) (id : objid_t) (c : coordinator) : coordinator :=
  mk_coordinator (current_program_model c) (runtime_transition_mapping c) (current_process_handle c)
    (process_source c)
    (match system_address_mapping c !! a with
     | Some _ => system_address_mapping c
     | None => <[a := id]> (system_address_mapping c)
     end).

(** ** [model_to_system_map] *)

Definition get_target_pid (c : coordinator) : Z :=
  match current_process_handle c with Some h => get_pid h | None => -1 end.
Definition get_model_of_object (c : coordinator) (a : addr) : objid_t :=
  default invalid_objid (system_address_mapping c !! a).
Definition get_model_of_runner (c : coordinator) (a : addr) : res runner_id_t :=
  let objid := get_model_of_object c a in
  if bool_decide (objid = invalid_objid) then Ok invalid_rid
  else seq_get_runner_id_for_obj (state_seq (current_program_model c)) objid.
Definition contains (c : coordinator) (a : addr) : bool :=
  negb (bool_decide (get_model_of_object c a = invalid_objid)).
Definition contains_runner (c : coordinator) (a : addr) : res bool :=
  r ← get_model_of_runner c a; Ok (negb (bool_decide (r = invalid_rid))).

Definition on_model {A} (m : eff program A) : eff coordinator A :=
  zoom current_program_model set_model m.
Definition modify_coordinator (f : coordinator → coordinator) : eff coordinator unit := λ c, (Ok tt, f c).

Definition observe_object (a : addr) (vobs : visible_object_state) : eff coordinator objid_t :=
  let! known := query (λ c, Ok (contains c a)) in
  if known : bool then throw (RuntimeError RebindRemoteAddress)
  else
    let! new_objid := on_model (zoom state_seq set_state_seq (seq_add_object vobs)) in
    do! modify_coordinator (map_address a new_objid) in
    ret new_objid.
(** [observe_runner(addr, vobs, f)] *)
Definition observe_runner_with (a : addr) (vobs : thread) (f : runner_id_t → transition) : eff coordinator runner_id_t :=
  let! known := query (λ c, Ok (contains c a)) in
  if known : bool then throw (RuntimeError RebindRemoteAddress)
  else
    let! new_runner_id := on_model (discover_runner vobs f) in
    let! new_objid := query (λ c,
      seq_get_objid_for_runner (state_seq (current_program_model c)) new_runner_id) in
    do! modify_coordinator (map_address a new_objid) in
    ret new_runner_id.
(** [observe_runner(addr, vobs, t)] *)
Definition observe_runner_next (a : addr) (vobs : thread) (t : transition) : eff coordinator runner_id_t :=
  observe_runner_with a vobs (λ _, t).
(** [observe_runner(addr, rs)], which does not look whether the address is known. *)
Definition observe_runner (a : addr) (rs : thread) : eff coordinator runner_id_t :=
  let! new_runner_id := on_model (zoom state_seq set_state_seq (seq_add_runner rs)) in
  let! new_objid := query (λ c,
    seq_get_objid_for_runner (state_seq (current_program_model c)) new_runner_id) in
  do! modify_coordinator (map_address a new_objid) in
  ret new_runner_id.
Definition observe_runner_transition (t : transition) : eff coordinator unit :=
  on_model (λ p, (Ok tt, Program (state_seq p) (trace p) (set_transition t (next_steps p)))).

(** ** Callbacks *)

Definition ub {A} : eff coordinator A := throw UndefinedBehavior.
Definition model_of_object (a : addr) : eff coordinator objid_t := query (λ c, Ok (get_model_of_object c a)).
(** [if (!m.contains(a)) body] *)
Definition unless_contains (a : addr) (body : eff coordinator unit) : eff coordinator unit :=
  let! known := query (λ c, Ok (contains c a)) in
  if known : bool then ret tt else body.
Definition made (p : runner_id_t) (op : operation) : eff coordinator (option transition) :=
  ret (Some (Transition p op)).

(** [remote_mutex_is_static_initializer] and [remote_cond_is_static_initializer] *)
Definition remote_is_static_initializer (initializer : list N) (c : coordinator) (a : addr) : bool :=
  let pid := get_target_pid c in
  if (pid <=? 0)%Z then false
  else match process_vm_readv (process_source c) pid a (length initializer) with
       | Some bytes => bool_decide (bytes = initializer)
       | None => false
       end.
Definition remote_mutex_is_static_initializer : coordinator → addr → bool :=
  remote_is_static_initializer PTHREAD_MUTEX_INITIALIZER.
Definition remote_cond_is_static_initializer : coordinator → addr → bool :=
  remote_is_static_initializer PTHREAD_COND_INITIALIZER.

Definition thread_create_callback (p : runner_id_t) (rmb : runner_mailbox) : eff coordinator (option transition) :=
  let new_thread := memcpy_v 0 8 rmb in
  let! known := query (λ c, contains_runner c new_thread) in
  do! (if known : bool then ret tt
       else do! observe_runner_with new_thread (Thread embryo) (λ id, Transition id thread_start) in ret tt) in
  let! new_thread_id := query (λ c, get_model_of_runner c new_thread) in
  made p (thread_create new_thread_id).
Definition thread_exit_callback (p : runner_id_t) (rmb : runner_mailbox) : eff coordinator (option transition) :=
  made p thread_exit.
Definition thread_join_callback (p : runner_id_t) (rmb : runner_mailbox) : eff coordinator (option transition) :=
  let target_id := read_runner_id 0 rmb in
  if bool_decide (target_id = invalid_rid) then throw (RuntimeError UnmodeledThread)
  else made p (thread_join target_id).

Definition mutex_init_callback (p : runner_id_t) (rmb : runner_mailbox) : eff coordinator (option transition) :=
  let remote_mut := read_pointer 0 rmb in
  do! unless_contains remote_mut
        (do! observe_object remote_mut (VMutex (new_mutex mutex_uninitialized remote_mut)) in ret tt) in
  let! mut := model_of_object remote_mut in
  made p (mutex_init mut).
Definition mutex_lock_callback (p : runner_id_t) (rmb : runner_mailbox) : eff coordinator (option transition) :=
  let remote_mut := read_pointer 0 rmb in
  do! unless_contains remote_mut
        (let! static := query (λ c, Ok (remote_mutex_is_static_initializer c remote_mut)) in
         if negb static then ub
         else do! observe_object remote_mut (VMutex (new_mutex mutex_unlocked remote_mut)) in ret tt) in
  let! mut := model_of_object remote_mut in
  made p (mutex_lock mut).
Definition mutex_unlock_callback (p : runner_id_t) (rmb : runner_mailbox) : eff coordinator (option transition) :=
  let remote_mut := read_pointer 0 rmb in
  do! unless_contains remote_mut ub in
  let! mut := model_of_object remote_mut in
  made p (mutex_unlock mut).

Definition sem_init_callback (p : runner_id_t) (rmb : runner_mailbox) : eff coordinator (option transition) :=
  let remote_sem := read_pointer 0 rmb in
  let count := read_int 8 rmb in
  do! unless_contains remote_sem
        (do! observe_object remote_sem (VSemaphore default_semaphore) in ret tt) in
  let! model_sem := model_of_object remote_sem in
  made p (sem_init model_sem (u32_of_int count)).
Definition sem_post_callback (p : runner_id_t) (rmb : runner_mailbox) : eff coordinator (option transition) :=
  let remote_sem := read_pointer 0 rmb in
  do! unless_contains remote_sem ub in
  let! model_sem := model_of_object remote_sem in
  made p (sem_post model_sem).
Definition sem_wait_callback (p : runner_id_t) (rmb : runner_mailbox) : eff coordinator (option transition) :=
  let remote_sem := read_pointer 0 rmb in
  do! unless_contains remote_sem ub in
  let! model_sem := model_of_object remote_sem in
  made p (sem_wait model_sem).
(** It returns [nullptr]: destroying a semaphore is not modelled. *)
Definition sem_destroy_callback (p : runner_id_t) (rmb : runner_mailbox) : eff coordinator (option transition) :=
  let remote_sem := read_pointer 0 rmb in
  do! unless_contains remote_sem ub in
  ret None.

(** The code passes the fresh policy in the place of the constructor's runner id,
which C++ rejects; the model leaves that argument, which nothing reads, at its
default and lets the constructor create the fresh policy. *)
Definition ensure_cond_initialized (remote_cond : addr) : eff coordinator unit :=
  unless_contains remote_cond
    (let! static := query (λ c, Ok (remote_cond_is_static_initializer c remote_cond)) in
     if negb static then ub
     else do! observe_object remote_cond (VCond (new_condition_variable cv_initialized RID_INVALID 0 0 [] None)) in ret tt).
Definition cond_init_callback (p : runner_id_t) (rmb : runner_mailbox) : eff coordinator (option transition) :=
  let remote_cond := read_pointer 0 rmb in
  do! unless_contains remote_cond
        (do! observe_object remote_cond (VCond (new_condition_variable cv_initialized RID_INVALID 0 0 [] None)) in
         ret tt) in
  let! cond := model_of_object remote_cond in
  made p (condition_variable_init cond).
Definition cond_waiting_thread_enqueue_callback (p : runner_id_t) (rmb : runner_mailbox) : eff coordinator (option transition) :=
  let remote_cond := read_pointer 0 rmb in
  let remote_mut := read_pointer 8 rmb in
  do! ensure_cond_initialized remote_cond in
  do! unless_contains remote_mut ub in
  let! cond := model_of_object remote_cond in
  let! mut := model_of_object remote_mut in
  made p (condition_variable_enqueue_thread cond mut).
Definition cond_wait_callback (p : runner_id_t) (rmb : runner_mailbox) : eff coordinator (option transition) :=
  let remote_cond := read_pointer 0 rmb in
  let remote_mut := read_pointer 8 rmb in
  do! unless_contains remote_cond ub in
  do! unless_contains remote_mut ub in
  let! cond := model_of_object remote_cond in
  let! mut := model_of_object remote_mut in
  made p (condition_variable_wait cond mut).
Definition cond_signal_callback (p : runner_id_t) (rmb : runner_mailbox) : eff coordinator (option transition) :=
  let remote_cond := read_pointer 0 rmb in
  do! ensure_cond_initialized remote_cond in
  let! cond := model_of_object remote_cond in
  made p (condition_variable_signal cond).
Definition cond_broadcast_callback (p : runner_id_t) (rmb : runner_mailbox) : eff coordinator (option transition) :=
  let remote_cond := read_pointer 0 rmb in
  do! ensure_cond_initialized remote_cond in
  let! cond := model_of_object remote_cond in
  made p (condition_variable_broadcast cond).
Definition cond_destroy_callback (p : runner_id_t) (rmb : runner_mailbox) : eff coordinator (option transition) :=
  let remote_cond := read_pointer 0 rmb in
  do! unless_contains remote_cond ub in
  let! cond := model_of_object remote_cond in
  made p (condition_variable_destroy cond).

Definition process_exit_callback (p : runner_id_t) (mb : runner_mailbox) : eff coordinator (option transition) :=
  made p (process_exit (read_int 0 mb)).
Definition process_abort_callback (p : runner_id_t) (mb : runner_mailbox) : eff coordinator (option transition) :=
  made p process_abort.

(** The call through a [transition_discovery_callback]. *)
Definition call_callback (f : callback_function) : runner_id_t → runner_mailbox → eff coordinator (option transition) :=
  match f with
  | mutex_init_callback_f => mutex_init_callback
  | mutex_lock_callback_f => mutex_lock_callback
  | mutex_unlock_callback_f => mutex_unlock_callback
  | thread_create_callback_f => thread_create_callback
  | thread_exit_callback_f => thread_exit_callback
  | thread_join_callback_f => thread_join_callback
  | process_exit_callback_f => process_exit_callback
  | process_abort_callback_f => process_abort_callback
  | cond_init_callback_f => cond_init_callback
  | cond_waiting_thread_enqueue_callback_f => cond_waiting_thread_enqueue_callback
  | cond_wait_callback_f => cond_wait_callback
  | cond_signal_callback_f => cond_signal_callback
  | cond_broadcast_callback_f => cond_broadcast_callback
  | cond_destroy_callback_f => cond_destroy_callback
  | sem_init_callback_f => sem_init_callback
  | sem_destroy_callback_f => sem_destroy_callback
  | sem_post_callback_f => sem_post_callback
  | sem_wait_callback_f => sem_wait_callback
  end.

(** ** [coordinator] *)

Definition on_source {A} (m : eff W A) : eff coordinator A := zoom process_source set_source m.

(** The old process is destroyed before the new one is created. *)
Definition assign_new_process_handle : eff coordinator unit :=
  do! modify_coordinator (λ c,
        match current_process_handle c with
        | Some h => set_handle None (set_source (destroy_process h (process_source c)) c)
        | None => c
        end) in
  let! p := on_source make_new_process in
  match p with
  | None => throw ProcessCreationError
  | Some h => modify_coordinator (set_handle (Some h))
  end.

Definition new_coordinator (initial_state : program) (registry : gmap N callback_function) (source : W) :
    res unit * coordinator :=
  assign_new_process_handle (mk_coordinator initial_state registry None source ∅).

(** The first [deref] is that of the pending transition in the log message. *)
Definition coordinator_execute_runner (runner_id : runner_id_t) : eff coordinator unit :=
  let! h := query (λ c, Ok (current_process_handle c)) in
  match h with
  | None => throw ExecutionError
  | Some h =>
      let! _ := query (λ c, deref (get_pending_transition_for (current_program_model c) runner_id)) in
      let! mb := on_source (process_execute_runner h runner_id) in
      let! callback := query (λ c, Ok (get_callback_for (runtime_transition_mapping c) (type mb))) in
      match callback with
      | None => throw ExecutionError
      | Some f =>
          let! pending_operation := call_callback f runner_id mb in
          match pending_operation with
          | None => throw ExecutionError
          | Some npo => on_model (model_execution_of runner_id npo)
          end
      end
  end.

(** [current_program_model.restore_model_at_depth(n)] *)
Definition restore (n : N) : eff program unit := λ p,
  match restore_model_at_depth n p with
  | Ok p' => (Ok tt, p')
  | Throw e => (Throw e, p)
  end.

Definition coordinator_return_to_depth (n : N) : eff coordinator unit :=
  do! assign_new_process_handle in
  do! on_model (restore n) in
  let! count := query (λ c, Ok (N.of_nat (length (trace (current_program_model c))))) in
  do! assert (bool_decide (count = n)) in
  let! tr := query (λ c, Ok (trace (current_program_model c))) in
  for_each tr (λ t,
    let! t := query (λ _, deref t) in
    let! h := query (λ c, deref (current_process_handle c)) in
    do! on_source (process_execute_runner h (get_executor t)) in
    ret tt).

(** [get_depth_into_program] returns a [uint32_t]. *)
Definition coordinator_get_depth_into_program (c : coordinator) : N :=
  u32 (N.of_nat (length (trace (current_program_model c)))).

#[export] Instance coordinator_Coordinator : Coordinator coordinator := {
  execute_runner := coordinator_execute_runner;
  return_to_depth n := coordinator_return_to_depth (u32 n);
  get_current_program_model := current_program_model;
  get_depth_into_program := coordinator_get_depth_into_program;
}.

(** ** What the callbacks keep *)

(** Reading a mailbox discovers objects: the trace, the process and the known
addresses stay. *)
Record discovers (c c' : coordinator) : Prop := Discovers {
  di_trace : trace (current_program_model c') = trace (current_program_model c);
  di_handle : current_process_handle c' = current_process_handle c;
  di_source : process_source c' = process_source c;
  di_registry : runtime_transition_mapping c' = runtime_transition_mapping c;
  di_mapping : system_address_mapping c ⊆ system_address_mapping c';
}.
#[export] Instance discovers_preorder : PreOrder discovers.
Proof.
  split; [by split|]. intros x y z [] []. split; try congruence. by etrans.
Qed.

Lemma map_address_discovers a id c : discovers c (map_address a id c).
Proof.
  split; try done. unfold map_address. simpl. destruct (system_address_mapping c !! a) eqn:Ha; [done|].
  by apply insert_subseteq.
Qed.
Lemma preserves_map_address a id : preserves discovers (modify_coordinator (map_address a id)).
Proof. intros c r c' [= <- <-]. apply map_address_discovers. Qed.

(** Effects on the model that leave the trace alone. *)
Definition same_trace : relation program := λ p p', trace p' = trace p.
#[export] Instance same_trace_preorder : PreOrder same_trace.
Proof. split; [done|]. intros ???. unfold same_trace. congruence. Qed.
Lemma preserves_on_model {A} (m : eff program A) : preserves same_trace m → preserves discovers (on_model m).
Proof. intros Hm. eapply preserves_zoom; [exact Hm|]. intros c p Hp. by split. Qed.
Lemma preserves_on_states {A} (m : eff state_sequence A) : preserves same_trace (zoom state_seq set_state_seq m).
Proof.
  apply (preserves_zoom _ (λ _ _, True)); [done|]. done.
Qed.
#[local] Hint Resolve preserves_map_address preserves_on_model preserves_on_states : preserves.

Lemma preserves_discover_runner th f : preserves same_trace (discover_runner th f).
Proof.
  unfold discover_runner. preserve. intros p r p' [= <- <-]. done.
Qed.
#[local] Hint Resolve preserves_discover_runner : preserves.
Lemma observe_object_discovers a v : preserves discovers (observe_object a v).
Proof. unfold observe_object. preserve. Qed.
Lemma observe_runner_discovers a th f : preserves discovers (observe_runner_with a th f).
Proof. unfold observe_runner_with. preserve. Qed.
#[local] Hint Resolve observe_object_discovers observe_runner_discovers : preserves.

(** The body of a callback, whichever it is. *)
Ltac unfold_callback :=
  cbn [call_callback];
  unfold mutex_init_callback, mutex_lock_callback, mutex_unlock_callback, thread_create_callback,
    thread_exit_callback, thread_join_callback, process_exit_callback, process_abort_callback,
    cond_init_callback, cond_waiting_thread_enqueue_callback, cond_wait_callback, cond_signal_callback,
    cond_broadcast_callback, cond_destroy_callback, sem_init_callback, sem_destroy_callback,
    sem_post_callback, sem_wait_callback, ensure_cond_initialized, unless_contains, model_of_object,
    made, ub.

Lemma call_callback_discovers f p mb : preserves discovers (call_callback f p mb).
Proof. destruct f; unfold_callback; preserve. Qed.

(** *** The runners of the model *)

(** What discovering objects and threads maintains of the model, the callbacks do. *)
Section callbacks.
Context (I : program → Prop).
Hypothesis add_object_maintains : ∀ v, maintains I (zoom state_seq set_state_seq (seq_add_object v)).
Hypothesis discover_runner_maintains : ∀ th, maintains I (discover_runner th (λ id, Transition id thread_start)).

Definition of_model (c : coordinator) : Prop := I (current_program_model c).

Lemma of_model_on_model {A} (m : eff program A) : maintains I m → maintains of_model (on_model m).
Proof using Type. intros Hm. eapply maintains_zoom; [exact Hm|done..]. Qed.
Lemma of_model_map_address a id : maintains of_model (modify_coordinator (map_address a id)).
Proof using Type. intros c r c' Hc [= _ <-]. done. Qed.
#[local] Hint Resolve of_model_on_model of_model_map_address add_object_maintains discover_runner_maintains : maintains.
Lemma observe_object_maintains a v : maintains of_model (observe_object a v).
Proof using add_object_maintains. unfold observe_object. maintain. Qed.
Lemma observe_created_maintains a :
  maintains of_model (observe_runner_with a (Thread embryo) (λ id, Transition id thread_start)).
Proof using discover_runner_maintains. unfold observe_runner_with. maintain. Qed.
#[local] Hint Resolve observe_object_maintains observe_created_maintains : maintains.

Lemma call_callback_maintains f p mb : maintains of_model (call_callback f p mb).
Proof using add_object_maintains discover_runner_maintains. destruct f; unfold_callback; maintain. Qed.
End callbacks.
Lemma call_callback_extends f p mb c t c' :
  dense (current_program_model c) → call_callback f p mb c = (Ok t, c') →
  extends (current_program_model c) (current_program_model c').
Proof.
  intros Hd Hc. eapply (call_callback_maintains (extends (current_program_model c))), Hc; [..|by apply extends_refl].
  - intros v. apply extends_on_states, same_runners_add_object.
  - apply extends_discover_runner.
Qed.

(** ** Executing a runner *)

Lemma execute_runner_steps r c c' :
  coordinator_execute_runner r c = (Ok tt, c') →
  ∃ h mb w f npo c1,
    current_process_handle c = Some h ∧
    process_execute_runner h r (process_source c) = (Ok mb, w) ∧
    get_callback_for (runtime_transition_mapping c) (type mb) = Some f ∧
    call_callback f r mb (set_source w c) = (Ok (Some npo), c1) ∧
    on_model (model_execution_of r npo) c1 = (Ok tt, c').
Proof.
  unfold coordinator_execute_runner. rewrite ebind_query. intros Hx.
  destruct (current_process_handle c) as [h|] eqn:Hh; [|done]. rewrite ebind_query in Hx.
  destruct (deref _) as [t0|]; [|done].
  apply ebind_ok in Hx as (mb & c0 & Hmb & Hx). unfold on_source, zoom in Hmb.
  destruct (process_execute_runner h r (process_source c)) as [r0 w] eqn:Hw. injection Hmb as -> <-.
  rewrite ebind_query in Hx. cbn [runtime_transition_mapping set_source] in Hx.
  destruct (get_callback_for _ _) as [f|] eqn:Hf; [|done].
  apply ebind_ok in Hx as ([npo|] & c1 & Hc1 & Hx); [|done].
  by exists h, mb, w, f, npo, c1.
Qed.
Lemma on_model_ok {A} (m : eff program A) c a c' :
  on_model m c = (Ok a, c') → ∃ p, m (current_program_model c) = (Ok a, p) ∧ c' = set_model p c.
Proof. unfold on_model, zoom. destruct (m _) as [r p]. intros [= -> <-]. by exists p. Qed.
Lemma execute_runner_extends r c c' :
  coordinator_execute_runner r c = (Ok tt, c') →
  ∃ t, trace (current_program_model c') = trace (current_program_model c) ++ [Some t].
Proof.
  intros (h & mb & w & f & npo & c1 & _ & _ & _ & Hc1 & (p & Hp & ->)%on_model_ok)%execute_runner_steps.
  apply execution_ok in Hp as (_ & t & _ & Ht & _). exists t. cbn [current_program_model set_model]. rewrite Ht.
  by destruct (call_callback_discovers f r mb _ _ _ Hc1) as [-> _ _ _ _].
Qed.

(** The model and the process advance together.  When [execute_runner] returns,
there was a live process; it executed exactly that runner and wrote a mailbox whose
type is registered; the trace grew by the transition that was pending for the
runner, and what its callback read from the mailbox is pending now; the registry
and the process are the same and no address was forgotten. *)
Theorem execute_runner_synchronizes r c c' :
  coordinator_execute_runner r c = (Ok tt, c') →
  ∃ h mb w f npo t c1,
    current_process_handle c = Some h ∧
    process_execute_runner h r (process_source c) = (Ok mb, w) ∧
    get_callback_for (runtime_transition_mapping c) (type mb) = Some f ∧
    call_callback f r mb (set_source w c) = (Ok (Some npo), c1) ∧ get_executor npo = r ∧
    get_pending_transition_for (current_program_model c1) r = Some t ∧
    trace (current_program_model c') = trace (current_program_model c) ++ [Some t] ∧
    get_pending_transition_for (current_program_model c') r = Some npo ∧
    process_source c' = w ∧ current_process_handle c' = Some h ∧
    runtime_transition_mapping c' = runtime_transition_mapping c ∧
    system_address_mapping c ⊆ system_address_mapping c'.
Proof.
  intros (h & mb & w & f & npo & c1 & Hh & Hw & Hf & Hc1 & Hm)%execute_runner_steps.
  apply on_model_ok in Hm as (p & (Hnpo & t & Hpend & Htr' & Hsteps & _)%execution_ok & ->).
  assert (get_pending_transition_for p r = Some npo) as Hnext.
  { unfold get_pending_transition_for, get_transition_for_runner. by rewrite Hsteps, lookup_insert_eq. }
  destruct (call_callback_discovers f r mb _ _ _ Hc1) as [Htr Hhd Hs Hreg Hmap].
  exists h, mb, w, f, npo, t, c1. cbn [current_program_model set_model current_process_handle
    process_source runtime_transition_mapping system_address_mapping set_source] in *.
  split_and!; try done; [by rewrite Htr', Htr|by rewrite Hhd].
Qed.

(** ** Going back *)

(** The runners executed one after the other in a process. *)
Fixpoint replay (h : handle W) (rs : list runner_id_t) : eff W unit :=
  match rs with
  | [] => ret tt
  | r :: rs => do! process_execute_runner h r in replay h rs
  end.

Lemma replay_loop h tr c c' :
  current_process_handle c = Some h →
  for_each tr (λ t,
    let! t := query (λ _, deref t) in
    let! h := query (λ c, deref (current_process_handle c)) in
    do! on_source (process_execute_runner h (get_executor t)) in
    ret tt) c = (Ok tt, c') →
  ∃ ts w, tr = Some <$> ts ∧ replay h (get_executor <$> ts) (process_source c) = (Ok tt, w) ∧
    c' = set_source w c.
Proof.
  revert c. induction tr as [|t tr IH]; intros c Hh Hloop; cbn [for_each] in Hloop.
  { injection Hloop as <-. exists [], (process_source c). split_and!; [done..|]. by destruct c. }
  apply ebind_ok in Hloop as (u & c1 & Ht & Hloop). rewrite ebind_query in Ht.
  destruct t as [t|]; [|done]. cbn [deref] in Ht. rewrite ebind_query, Hh in Ht. cbn [deref] in Ht.
  apply ebind_ok in Ht as (mb & c2 & Hx & Ht). injection Ht as <- <-.
  unfold on_source, zoom in Hx.
  destruct (process_execute_runner h (get_executor t) (process_source c)) as [r w1] eqn:Hw.
  injection Hx as -> <-. apply IH in Hloop as (ts & w & -> & Hr & ->); [|done].
  exists (t :: ts), w. split_and!; [done| |done]. cbn [fmap list_fmap replay]. unfold ebind. by rewrite Hw.
Qed.

Lemma assign_new_process_handle_ok c c' :
  assign_new_process_handle c = (Ok tt, c') →
  ∃ h w, make_new_process
      (match current_process_handle c with Some h0 => destroy_process h0 (process_source c)
       | None => process_source c end) = (Ok (Some h), w) ∧
    c' = set_handle (Some h) (set_source w c).
Proof.
  unfold assign_new_process_handle. intros Ha. apply ebind_ok in Ha as (u & c1 & H1 & Ha).
  injection H1 as <- <-. apply ebind_ok in Ha as (p & c2 & H2 & Ha).
  unfold on_source, zoom in H2. destruct (make_new_process _) as [r w] eqn:Hm. injection H2 as -> <-.
  destruct p as [h|]; [|done]. injection Ha as <-. exists h, w.
  destruct (current_process_handle c); simpl in Hm |- *; by rewrite Hm.
Qed.

Lemma return_to_depth_ok n c c' :
  coordinator_return_to_depth n c = (Ok tt, c') →
  ∃ h w w' p ts,
    make_new_process
      (match current_process_handle c with Some h0 => destroy_process h0 (process_source c)
       | None => process_source c end) = (Ok (Some h), w) ∧
    restore_model_at_depth n (current_program_model c) = Ok p ∧
    trace p = Some <$> ts ∧ N.of_nat (length ts) = n ∧
    replay h (get_executor <$> ts) w = (Ok tt, w') ∧
    c' = set_source w' (set_handle (Some h) (set_model p c)).
Proof.
  unfold coordinator_return_to_depth. intros Hr.
  apply ebind_ok in Hr as ([] & c1 & (h & w & Hmake & ->)%assign_new_process_handle_ok & Hr).
  apply ebind_ok in Hr as (u & c2 & H2 & Hr). unfold on_model, zoom, restore in H2.
  cbn [current_program_model set_handle set_source] in H2.
  destruct (restore_model_at_depth n _) as [p|] eqn:Hp; [|done]. injection H2 as <- <-.
  rewrite ebind_query in Hr. unfold assert in Hr. case_bool_decide as Hcount; [|done].
  unfold ebind at 1, ret in Hr. rewrite ebind_query in Hr.
  apply (replay_loop h) in Hr as (ts & w' & Hts & Hrep & ->); [|done].
  cbn [current_program_model set_model trace process_source] in *.
  exists h, w, w', p, ts. split_and!; try done. by rewrite <- Hcount, Hts, length_fmap.
Qed.

(** Going back to a depth.  When [return_to_depth] returns, the old process was
destroyed before a new one was made, the new one executed the runners of the
remaining trace in order, and the model was restored at that depth: the trace is
that of the restored model and has exactly [n] transitions.  The addresses known
before stay known, also those discovered after that depth. *)
Theorem return_to_depth_replays n c c' :
  coordinator_return_to_depth n c = (Ok tt, c') →
  ∃ h w w' p ts,
    make_new_process
      (match current_process_handle c with Some h0 => destroy_process h0 (process_source c)
       | None => process_source c end) = (Ok (Some h), w) ∧
    restore_model_at_depth n (current_program_model c) = Ok p ∧
    trace p = Some <$> ts ∧ N.of_nat (length ts) = n ∧
    replay h (get_executor <$> ts) w = (Ok tt, w') ∧
    c' = set_source w' (set_handle (Some h) (set_model p c)).
Proof. apply return_to_depth_ok. Qed.

#[export] Instance coordinator_laws : CoordinatorLaws coordinator.
Proof.
  split.
  - intros r c c' Hlt [t Htr]%execute_runner_extends.
    cbn [get_depth_into_program coordinator_Coordinator] in *. unfold coordinator_get_depth_into_program, u32 in *.
    rewrite Htr, length_app. simpl length. rewrite Nat2N.inj_add.
    rewrite <- N.Div0.add_mod_idemp_l. by apply N.mod_small.
  - intros n c c' Hn (h & w & w' & p & ts & _ & _ & Htr & Hlen & _ & ->)%return_to_depth_ok.
    cbn [get_depth_into_program coordinator_Coordinator] in *. unfold coordinator_get_depth_into_program, u32 in *.
    cbn [current_program_model set_source set_handle set_model]. rewrite Htr, length_fmap, Hlen.
    rewrite N.Div0.mod_mod. apply N.mod_small.
    eapply N.le_lt_trans; [exact Hn|]. by apply N.mod_lt.
Qed.

#[export] Instance coordinator_trace_laws : TraceLaws coordinator.
Proof.
  split.
  - intros r c c'. apply execute_runner_extends.
  - intros n ts c c' Hts Hn Hlt (h & w & w' & p & ts' & _ & Hp & _ & _ & _ & ->)%return_to_depth_ok.
    cbn [get_current_program_model coordinator_Coordinator current_program_model set_source set_handle set_model] in *.
    unfold u32 in Hp. rewrite N.mod_small in Hp by lia. by eapply restore_cuts.
  - intros r c c' (h & mb & w & f & npo & c1 & _ & _ & _ & Hc1 & Hx)%execute_runner_steps Hd.
    apply call_callback_extends in Hc1; [|done]. apply on_model_ok in Hx as (p & Hp & ->).
    eapply dense_execution, Hp. apply Hc1.
  - intros n c c' (h & w & w' & p & ts & _ & Hp & _ & _ & _ & ->)%return_to_depth_ok Hd.
    by eapply dense_restore.
Qed.

(** ** What the callbacks make of known objects *)

Definition known_operation (f : callback_function) (mb : runner_mailbox) (id1 id2 : objid_t) : option operation :=
  match f with
  | mutex_init_callback_f => Some (mutex_init id1)
  | mutex_lock_callback_f => Some (mutex_lock id1)
  | mutex_unlock_callback_f => Some (mutex_unlock id1)
  | cond_init_callback_f => Some (condition_variable_init id1)
  | cond_waiting_thread_enqueue_callback_f => Some (condition_variable_enqueue_thread id1 id2)
  | cond_wait_callback_f => Some (condition_variable_wait id1 id2)
  | cond_signal_callback_f => Some (condition_variable_signal id1)
  | cond_broadcast_callback_f => Some (condition_variable_broadcast id1)
  | cond_destroy_callback_f => Some (condition_variable_destroy id1)
  | sem_init_callback_f => Some (sem_init id1 (u32_of_int (read_int 8 mb)))
  | sem_post_callback_f => Some (sem_post id1)
  | sem_wait_callback_f => Some (sem_wait id1)
  | _ => None
  end.
(** The operations on a mutex and a condition variable. *)
Definition reads_two (f : callback_function) : bool :=
  match f with cond_waiting_thread_enqueue_callback_f | cond_wait_callback_f => true | _ => false end.

Lemma unless_contains_known a body c : contains c a = true → unless_contains a body c = (Ok tt, c).
Proof. intros Ha. unfold unless_contains. rewrite ebind_query. by rewrite Ha. Qed.
Lemma unless_contains_unknown a body c : contains c a = false → unless_contains a body c = body c.
Proof. intros Ha. unfold unless_contains. rewrite ebind_query. by rewrite Ha. Qed.

(** Mailboxes of known objects.  When the addresses in a mailbox are known, the
callback of an operation on mutexes, condition variables or semaphores returns
that operation, by that runner, on the objects mapped to the addresses, and
changes nothing. *)
Theorem callback_of_known_objects f p mb c op :
  known_operation f mb (get_model_of_object c (read_pointer 0 mb))
    (get_model_of_object c (read_pointer 8 mb)) = Some op →
  contains c (read_pointer 0 mb) = true → (reads_two f = true → contains c (read_pointer 8 mb) = true) →
  call_callback f p mb c = (Ok (Some (Transition p op)), c).
Proof.
  intros Hop H1 H2. destruct f; cbn in Hop; try done; injection Hop as <-; cbn in H2;
    try specialize (H2 eq_refl);
    cbn [call_callback]; unfold mutex_init_callback, mutex_lock_callback, mutex_unlock_callback,
      cond_init_callback, cond_waiting_thread_enqueue_callback, cond_wait_callback, cond_signal_callback,
      cond_broadcast_callback, cond_destroy_callback, sem_init_callback, sem_post_callback,
      sem_wait_callback, ensure_cond_initialized; cbv zeta;
    repeat (unfold ebind at 1; rewrite unless_contains_known by done); done.
Qed.

(** Operations that need an initialised object, and whether a static initializer
counts as one. *)
Definition requires_object (f : callback_function) : option (coordinator → addr → bool) :=
  match f with
  | mutex_lock_callback_f => Some remote_mutex_is_static_initializer
  | cond_signal_callback_f | cond_broadcast_callback_f | cond_waiting_thread_enqueue_callback_f =>
      Some remote_cond_is_static_initializer
  | mutex_unlock_callback_f | cond_wait_callback_f | cond_destroy_callback_f
  | sem_post_callback_f | sem_wait_callback_f | sem_destroy_callback_f => Some (λ _ _, false)
  | _ => None
  end.

(** Operations on objects never initialised are undefined behaviour: when the
address in the mailbox is unknown and its bytes in the target are not those of a
static initializer (for unlocking, waiting on a condition variable, destroying one
and the semaphore operations, whatever they are), the callback throws
[undefined_behavior_exception] and the model stays as it was. *)
Theorem callback_of_unknown_object f p mb c is_static :
  requires_object f = Some is_static →
  contains c (read_pointer 0 mb) = false → is_static c (read_pointer 0 mb) = false →
  call_callback f p mb c = (Throw UndefinedBehavior, c).
Proof.
  intros Hf H1 H2. destruct f; cbn in Hf; try done; injection Hf as <-;
    cbn [call_callback]; unfold mutex_lock_callback, mutex_unlock_callback,
      cond_waiting_thread_enqueue_callback, cond_wait_callback, cond_signal_callback,
      cond_broadcast_callback, cond_destroy_callback, sem_post_callback, sem_destroy_callback,
      sem_wait_callback, ensure_cond_initialized; cbv zeta;
    unfold ebind at 1; rewrite unless_contains_unknown by done;
    try rewrite ebind_query; try rewrite H2; done.
Qed.

Lemma seq_add_object_appends ss v :
  states_in_sequence ss ≠ [] →
  ∃ ss', seq_add_object v ss = (Ok (u32 (N.of_nat (length (visible_objects ss)))), ss') ∧
    visible_objects ss' = visible_objects ss ++ [[v]].
Proof.
  intros (els & el & Hels)%exists_last.
  unfold seq_add_object, update_representative_state, get_representative_state, vec_back, ebind.
  rewrite Hels, last_snoc. by eexists.
Qed.

Lemma observe_object_known a v c :
  contains c a = true → observe_object a v c = (Throw (RuntimeError RebindRemoteAddress), c).
Proof. intros Ha. unfold observe_object. rewrite ebind_query. by rewrite Ha. Qed.

(** A new object.  Observing an object at an unknown address adds it to the
model with the next id and maps the address to that id, so the address is known
and cannot be bound again; the other addresses and objects are the same. *)
Theorem observe_object_binds a v c :
  contains c a = false → system_address_mapping c !! a = None →
  (N.of_nat (length (visible_objects (state_seq (current_program_model c)))) < invalid_objid)%N →
  states_in_sequence (state_seq (current_program_model c)) ≠ [] →
  ∃ c', observe_object a v c = (Ok (N.of_nat (length (visible_objects (state_seq (current_program_model c))))), c') ∧
    get_model_of_object c' a = N.of_nat (length (visible_objects (state_seq (current_program_model c)))) ∧
    (∀ b, b ≠ a → get_model_of_object c' b = get_model_of_object c b) ∧
    visible_objects (state_seq (current_program_model c')) =
      visible_objects (state_seq (current_program_model c)) ++ [[v]] ∧
    ∀ v', observe_object a v' c' = (Throw (RuntimeError RebindRemoteAddress), c').
Proof.
  intros Hnew Hnone Hfits Hne.
  set (n := N.of_nat (length (visible_objects (state_seq (current_program_model c))))) in *.
  assert (u32 n = n) as Hn by (unfold u32; apply N.mod_small; unfold invalid_objid in *; lia).
  destruct (seq_add_object_appends _ v Hne) as (ss' & Hadd & Hss'). fold n in Hadd. rewrite Hn in Hadd.
  unfold observe_object at 1. rewrite ebind_query, Hnew. unfold ebind at 1, on_model, zoom.
  rewrite Hadd. eexists. split; [done|].
  assert (∀ c1, system_address_mapping c1 = <[a := n]> (system_address_mapping c) →
    get_model_of_object c1 a = n) as Ha.
  { intros c1 Hc1. unfold get_model_of_object. by rewrite Hc1, lookup_insert_eq. }
  unfold map_address. cbn [system_address_mapping set_model]. rewrite Hnone. split_and!; [by apply Ha| |done|].
  - intros b Hb. unfold get_model_of_object. simpl. by rewrite lookup_insert_ne.
  - intros v'. apply observe_object_known. unfold contains. rewrite (Ha _) by done.
    apply negb_true_iff, bool_decide_eq_false. unfold invalid_objid in *. lia.
Qed.
End coordinator.

(** ** Encoding *)

(** The [n] bytes of a value on a little-endian machine. *)
Fixpoint le_bytes (n : nat) (v : N) : list N :=
  match n with
  | O => []
  | S n => (v mod 2^8)%N :: le_bytes n (v / 2^8)%N
  end.
Lemma length_le_bytes n v : length (le_bytes n v) = n.
Proof. revert v; induction n as [|n IH]; intros v; simpl; [done|]. by rewrite IH. Qed.
Lemma le_value_bytes n v : (v < 2^(8 * N.of_nat n))%N → le_value (le_bytes n v) = v.
Proof.
  revert v; induction n as [|n IH]; intros v Hv; cbn [le_bytes le_value].
  { change (v < 1)%N in Hv. lia. }
  rewrite IH.
  - rewrite N.add_comm. symmetry. apply N.div_mod'.
  - apply N.Div0.div_lt_upper_bound. eapply N.lt_le_trans; [exact Hv|]. rewrite <- N.pow_add_r.
    apply N.pow_le_mono_r; [done|]. lia.
Qed.

(** Reading what was written.  A value of [n] bytes written at an offset of the
payload is read back by [memcpy_v] whatever surrounds it, and so are an [int],
through its two's complement, and a pointer. *)
Theorem mailbox_roundtrip ty before after :
  (∀ n v, (v < 2^(8 * N.of_nat n))%N →
    memcpy_v (length before) n (RunnerMailbox ty (before ++ le_bytes n v ++ after)) = v) ∧
  (∀ z, (-2^31 ≤ z < 2^31)%Z →
    read_int (length before) (RunnerMailbox ty (before ++ le_bytes 4 (u32_of_int z) ++ after)) = z) ∧
  (∀ a, (a < 2^64)%N →
    read_pointer (length before) (RunnerMailbox ty (before ++ le_bytes 8 a ++ after)) = a).
Proof.
  assert (∀ n v, (v < 2^(8 * N.of_nat n))%N →
    memcpy_v (length before) n (RunnerMailbox ty (before ++ le_bytes n v ++ after)) = v) as Hread.
  { intros n v Hv. unfold memcpy_v. cbn [cnts]. rewrite drop_app_length.
    rewrite take_app_le by (by rewrite length_le_bytes).
    rewrite take_ge by (by rewrite length_le_bytes). by apply le_value_bytes. }
  split_and!; [done| |].
  - intros z Hz. assert (0 ≤ z mod 2^32 < 2^32)%Z as Hmod by (apply Z.mod_pos_bound; lia).
    unfold read_int. rewrite Hread.
    + unfold s32, u32, u32_of_int. rewrite N.mod_small by lia. cbv zeta.
      rewrite Z2N.id by lia. destruct (decide (0 ≤ z)%Z).
      * rewrite Z.mod_small by lia. by rewrite (proj2 (Z.ltb_lt z (2^31))) by lia.
      * assert (z mod 2^32 = z + 2^32)%Z as ->.
        { symmetry. apply (Z.mod_unique_pos _ _ (-1)); lia. }
        rewrite (proj2 (Z.ltb_ge (z + 2^32) (2^31))) by lia. lia.
    + unfold u32_of_int. change (8 * N.of_nat 4)%N with 32%N. lia.
  - intros a Ha. unfold read_pointer. by apply Hread.
Qed.
