(* ===== verification/Soundness.v ===== *)
(** * What the search visits and reports is real

The states of the model at the heads of the search are those the trace leads to from
the initial state, step by step in the abstract semantics ([path], [sound]), whatever
was executed, undone and discovered before.  So a deadlock the search reports is one:
a state that a run of the program reaches and in which some thread has not exited and
no next step can be taken. *)

From stdpp Require Import options.
From S2P Require Import Prelude InjectiveFunction CondPolicy Objects State Transitions.
From S2P Require Import AbstractState Behaviour StateSequence Trajectory Program Runners.
From S2P Require Import Dependency ClockVector StackItem Dpor Backtracking Exploration Mirror Reports Coordinator.

(** ** Paths *)

(** The step leads from [a] to [b], up to objects and runners discovered in between. *)
Definition leads (t : transition) (a b : astate) : Prop := ∃ a', astep t a = Ok (a', exists_) ∧ grows a' b.

Record path (l : list astate) (ts : list transition) : Prop := Path {
  pa_length : length l = S (length ts);
  pa_step : ∀ i t a b, ts !! i = Some t → l !! i = Some a → l !! S i = Some b → leads t a b;
}.

Lemma leads_grows t a b b' : leads t a b → grows b b' → leads t a b'.
Proof. intros (a' & Ha & Hb) Hg. exists a'. split; [done|]. by etrans. Qed.

Lemma path_discovered l l' ts :
  path l ts → length l' = length l → (∀ k a, S k < length l → l !! k = Some a → l' !! k = Some a) →
  (∀ a, last l = Some a → ∃ b, last l' = Some b ∧ grows a b) → path l' ts.
Proof.
  intros [Hlen Hstep] Hl Hold Hlast. split; [lia|]. intros i t a b Ht Ha Hb.
  pose proof (lookup_lt_Some _ _ _ Ht) as Hi.
  destruct (lookup_lt_is_Some_2 l i) as [a0 Ha0]; [lia|]. destruct (lookup_lt_is_Some_2 l (S i)) as [b0 Hb0]; [lia|].
  rewrite (Hold i a0) in Ha by (done || lia). injection Ha as <-. pose proof (Hstep i t a0 b0 Ht Ha0 Hb0) as Hlead.
  destruct (decide (S (S i) < length l)) as [Hlt|Hge].
  - rewrite (Hold (S i) b0) in Hb by done. by injection Hb as <-.
  - assert (last l = Some b0) as Hlb by (rewrite last_lookup; replace (pred (length l)) with (S i) by lia; done).
    destruct (Hlast b0 Hlb) as (b1 & Hb1 & Hg). rewrite last_lookup in Hb1.
    replace (pred (length l')) with (S i) in Hb1 by lia. rewrite Hb in Hb1. injection Hb1 as ->. by eapply leads_grows.
Qed.
Lemma path_snoc l ts t a b : path l ts → last l = Some a → leads t a b → path (l ++ [b]) (ts ++ [t]).
Proof.
  intros [Hlen Hstep] Hla Hlead. split; [rewrite !length_app; simpl; lia|].
  intros i t' a' b' Ht Ha Hb. rewrite last_lookup in Hla.
  apply lookup_app_Some in Ht as [Ht|[Hi Ht]].
  - pose proof (lookup_lt_Some _ _ _ Ht). rewrite lookup_app_l in Ha, Hb by lia. by eapply Hstep.
  - apply list_lookup_singleton_Some in Ht as [Hi0 <-]. assert (i = length ts) as -> by lia.
    rewrite lookup_app_l in Ha by lia. rewrite list_lookup_middle in Hb by lia. injection Hb as <-.
    replace (pred (length l)) with (length ts) in Hla by lia. rewrite Ha in Hla. by injection Hla as ->.
Qed.
Lemma path_take n l ts : path l ts → path (take (S n) l) (take n ts).
Proof.
  intros [Hlen Hstep]. split; [rewrite !length_take; lia|].
  intros i t a b [Ht _]%lookup_take_Some [Ha _]%lookup_take_Some [Hb _]%lookup_take_Some. by eapply Hstep.
Qed.

(** ** Programs *)

(** The states of the program are a path along its trace that starts in [a0]. *)
Record follows_path (a0 : astate) (p : program) (ts : list transition) : Prop := FollowsPath {
  fp_steady : steady (state_seq p);
  fp_path : path (abs_states (state_seq p)) ts;
  fp_start : ∃ a, abs_states (state_seq p) !! 0 = Some a ∧ grows a0 a;
}.
(** As long as ids have not run out. *)
Definition sound (a0 : astate) (p : program) : Prop :=
  ∃ ts, trace p = Some <$> ts ∧ length (states_in_sequence (state_seq p)) = S (length ts) ∧
    (roomy (state_seq p) → follows_path a0 p ts).

Lemma sound_initial a0 p :
  trace p = [] → abs_states (state_seq p) = [a0] → (roomy (state_seq p) → steady (state_seq p)) → sound a0 p.
Proof.
  intros Ht Ha Hs. exists []. rewrite Ht. split; [done|]. split.
  { rewrite <- length_abs_states. by rewrite Ha. }
  intros Hr. split; [by apply Hs|rewrite Ha; split; [done|]; intros i t; by rewrite lookup_nil|]. exists a0. by rewrite Ha.
Qed.

(** The program before its first step. *)
Lemma main_program_steady : steady (state_seq main_program).
Proof.
  assert (∀ el, last (states_in_sequence (state_seq main_program)) = Some el →
    visible_object_indices el = {[0%N := 0%N]}) as Hel.
  { intros el [= <-]. by apply (bool_decide_eq_true_1 _); vm_compute. }
  assert (∀ k el, states_in_sequence (state_seq main_program) !! k = Some el →
    k = 0 ∧ last (states_in_sequence (state_seq main_program)) = Some el) as Hk.
  { intros k el [-> <-]%list_lookup_singleton_Some. done. }
  split.
  - intros k el id i [-> Hl%Hel]%Hk. rewrite Hl. intros [<- <-]%lookup_singleton_Some. split; [done|].
    exists [VThread (Thread running)]. split; [done|]. simpl. lia.
  - intros j k ej ek id i _ [_ Hj]%Hk [_ He]%Hk Hi. rewrite Hj in He. injection He as <-. by exists i.
  - intros el id i h Hl%Hel. rewrite Hl. intros [<- <-]%lookup_singleton_Some. by intros [= <-].
  - intros id h [-> <-]%list_lookup_singleton_Some. split; [done|]. vm_compute. lia.
  - intros k el [-> [= <-]]%Hk. vm_compute. lia.
  - intros r. change (is_Some (({[0 := 0]} : gmap N N) !! r) ↔ (r < 1))%N. rewrite lookup_singleton_is_Some. lia.
Qed.

Lemma sound_discovered a0 p p' :
  discovered (state_seq p) (state_seq p') → trace p' = trace p → sound a0 p → sound a0 p'.
Proof.
  intros Hd Htr (ts & Ht & Hlen & Hok). exists ts. rewrite Htr, (dv_states _ _ Hd). split_and!; [done..|].
  intros Hr. destruct Hok as [Hs Hp (a & Ha & Hg)]; [by eapply roomy_mono|].
  destruct (dv_ok _ _ Hd Hr Hs) as (Hs' & Hold & Hlast).
  pose proof (length_abs_states (state_seq p)) as Hl. pose proof (length_abs_states (state_seq p')) as Hl'.
  rewrite (dv_states _ _ Hd) in Hl'. split; [done|apply (path_discovered (abs_states (state_seq p))); [done|lia| |done]|].
  { intros k b Hk. apply Hold. lia. }
  destruct (decide (1 < length (states_in_sequence (state_seq p)))) as [Hlt|Hge].
  - exists a. split; [by apply Hold|done].
  - assert (last (abs_states (state_seq p)) = Some a) as Hla by (rewrite last_lookup; by replace (pred _) with 0 by lia).
    destruct (Hlast a Hla) as (b & Hb & Hab). exists b. split; [|by etrans].
    rewrite last_lookup in Hb. by replace (pred _) with 0 in Hb by lia.
Qed.

Lemma sound_execution a0 r npo p p' ts :
  trace p = Some <$> ts → (N.of_nat (length ts) < 2^32 - 1)%N →
  model_execution_of r npo p = (Ok tt, p') → sound a0 p → sound a0 p'.
Proof.
  intros Hts Hlt Hx (ts0 & Ht & Hlen & Hok). rewrite Hts in Ht. apply list_fmap_eq_inj in Ht as <-; [|by intros ?? [=]].
  unfold model_execution_of in Hx. case_bool_decide as Hr; [done|]. unfold get_transition_for_runner in Hx.
  destruct (next_steps p !! r) as [t|] eqn:Hnext; [|done].
  destruct (follow t (state_seq p)) as [[[]|] ss] eqn:Hfol; try done. injection Hx as <-.
  destruct (follow_counts _ _ _ Hfol) as (Ho & Hrm & Hst).
  exists (ts ++ [t]). cbn [trace state_seq]. split; [|split; [rewrite Hst, Hlen, length_app; simpl; lia|]].
  { unfold trace_push. rewrite Hts, fmap_app, <- Hr, Hnext. done. }
  intros Hroom. destruct Hok as [Hs Hp (a & Ha & Hg)].
  { destruct Hroom. split; [by rewrite <- Ho|by rewrite <- Hrm]. }
  assert (roomy (state_seq p)) as Hroom' by (destruct Hroom; split; [by rewrite <- Ho|by rewrite <- Hrm]).
  destruct (last (states_in_sequence (state_seq p))) as [el|] eqn:Hl.
  2:{ apply last_None in Hl. by rewrite Hl in Hlen. }
  assert (short (state_seq p)) as Hshort by (unfold short; lia).
  destruct (follow_steady _ el _ _ Hs Hroom' Hshort Hl Hfol) as (Hs' & a' & b & Hstep & Hab & Habs).
  split; cbn [state_seq]; [done|..]; rewrite Habs.
  - eapply path_snoc; [done|by rewrite last_abs_states, Hl|]. by exists a'.
  - exists a. split; [by apply lookup_app_l_Some|done].
Qed.

Lemma sound_restore a0 n p p' ts :
  trace p = Some <$> ts → 1 ≤ n ≤ length ts → (N.of_nat (length ts) < 2^32 - 1)%N →
  restore_model_at_depth (N.of_nat n) p = Ok p' → sound a0 p → sound a0 p'.
Proof.
  intros Hts Hn Hlt Hres (ts0 & Ht & Hlen & Hok). rewrite Hts in Ht. apply list_fmap_eq_inj in Ht as <-; [|by intros ?? [=]].
  destruct (restore_cuts _ _ _ _ Hts Hn Hlt Hres) as [Htr _]. exists (take n ts). split; [done|].
  unfold restore_model_at_depth in Hres. destruct (runner_to_index_from_top _ _ _ _ _) as [m|]; [|done].
  cbn [mbind res_bind] in Hres. destruct (restore_next_steps _ _ _) as [[tr steps]|]; [|done]. cbn [mbind res_bind] in Hres.
  replace (N.to_nat (u32 (N.of_nat n + 1))) with (S n) in Hres by (unfold u32; rewrite N.mod_small; lia).
  destruct (seq_consume_into_subsequence (S n) (state_seq p)) as [[[]|] ss] eqn:Hc; [|done]. injection Hres as <-.
  destruct (consume_counts _ _ _ Hc) as (Ho & Hrm & Hst). cbn [state_seq]. split.
  { rewrite Hst, !length_take. lia. }
  intros Hroom. assert (roomy (state_seq p)) as Hroom' by (destruct Hroom; split; [by rewrite <- Ho|by rewrite <- Hrm]).
  destruct (Hok Hroom') as [Hs Hp (a & Ha & Hg)].
  assert (short (state_seq p)) as Hshort by (unfold short; lia).
  destruct (consume_steady _ _ _ Hs Hroom' Hshort (Nat.neq_succ_0 n) Hc) as [Hs' Habs].
  split; cbn [state_seq]; [done|..]; rewrite Habs; [by apply path_take|].
  exists a. split; [|done]. rewrite lookup_take, decide_True by lia. done.
Qed.

(** ** Deadlocks *)

(** Some thread that has a next step has not exited, and no next step has an effect. *)
Definition deadlocked (steps : gmap runner_id_t transition) (a : astate) : Prop :=
  (∃ r t th, steps !! r = Some t ∧ thread_of a r = Ok th ∧ has_exited th = false) ∧
  ∀ r t, steps !! r = Some t → ¬ enabled_at a t.

Lemma any_enabled_false l ss el :
  last (states_in_sequence ss) = Some el → any_enabled l ss = Ok false →
  ∀ r t, (r, t) ∈ l → ¬ enabled_at (abs_element ss el) t.
Proof.
  intros Hl. induction l as [|[r0 t0] l IH]; cbn [any_enabled]; [by intros _ r t ?%elem_of_nil|].
  unfold is_enabled_in. cbn [snd]. pose proof (apply_to_astep ss _ t0 (sequence_represents ss el Hl)) as Happ.
  destruct (apply_to t0 ss) as [[d st]|e]; [|done]. cbn [mbind res_bind snd].
  case_bool_decide as Hst; [done|]. intros Hrest r t [[= -> ->]|Hin]%elem_of_cons; [|by eapply IH].
  intros [a' Ha]. rewrite Ha in Happ. by destruct Happ.
Qed.
Lemma all_exited_false l ss el :
  last (states_in_sequence ss) = Some el → all_exited l ss = Ok false →
  ∃ r t th, (r, t) ∈ l ∧ thread_of (abs_element ss el) r = Ok th ∧ has_exited th = false.
Proof.
  intros Hl. destruct (sequence_represents ss el Hl) as (_ & Hth & _). cbn in Hth.
  induction l as [|[r0 t0] l IH]; cbn [all_exited]; [done|]. cbn [fst]. rewrite Hth.
  destruct (thread_of (abs_element ss el) r0) as [th|] eqn:Hr; [|done]. cbn [mbind res_bind].
  destruct (all_exited l ss) as [b|]; [|done]. cbn [mbind res_bind].
  destruct (has_exited th) eqn:He; simpl.
  - intros [= ->]. destruct (IH eq_refl) as (r & t & th' & Hin & ? & ?). exists r, t, th'. split; [by right|done].
  - intros _. exists r0, t0, th. split; [by left|done].
Qed.
Lemma deadlock_found p el :
  last (states_in_sequence (state_seq p)) = Some el → is_in_deadlock p = Ok true →
  deadlocked (next_steps p) (abs_element (state_seq p) el).
Proof.
  intros Hl. unfold is_in_deadlock. case_bool_decide; [done|].
  destruct (any_enabled _ _) as [[]|] eqn:Hany; [done| |done]. cbn [mbind res_bind].
  destruct (all_exited _ _) as [[]|] eqn:Hall; [done| |done]. intros _. split.
  - destruct (all_exited_false _ _ _ Hl Hall) as (r & t & th & Hin%elem_of_pending_list & ? & ?). by exists r, t, th.
  - intros r t Hr. apply (any_enabled_false _ _ _ Hl Hany r). by apply elem_of_pending_list.
Qed.

(** ** The coordinator and the search *)

Section search.
Context {W : Type} `{World W} (config : configuration) (cbs : callbacks).
Implicit Types c : coordinator (W := W).
Implicit Types ctx : dpor_context (coordinator (W := W)).

Lemma call_callback_discovered f p mb c t c' :
  call_callback f p mb c = (Ok t, c') →
  discovered (state_seq (current_program_model c)) (state_seq (current_program_model c')).
Proof.
  intros Hc. eapply (call_callback_maintains (λ q, discovered (state_seq (current_program_model c)) (state_seq q))), Hc;
    [..|unfold of_model; reflexivity].
  - intros v q id q' Hq Hz. unfold zoom in Hz. destruct (seq_add_object v (state_seq q)) as [r ss] eqn:Ha.
    injection Hz as -> <-. etrans; [done|]. by eapply add_object_discovers.
  - intros th q id q' Hq (r & q1 & Hadd & Hset)%ebind_ok. injection Hset as <- <-. unfold zoom in Hadd.
    destruct (seq_add_runner th (state_seq q)) as [res ss] eqn:Ha. injection Hadd as -> <-.
    etrans; [done|]. by eapply add_runner_discovers.
Qed.

Lemma execute_runner_sound a0 r ts c c' :
  sound a0 (current_program_model c) → trace (current_program_model c) = Some <$> ts →
  (N.of_nat (length ts) < 2^32 - 1)%N → coordinator_execute_runner r c = (Ok tt, c') →
  sound a0 (current_program_model c').
Proof.
  intros Hs Ht Hlt (h & mb & w & f & npo & c1 & _ & _ & _ & Hc1 & (p & Hp & ->)%on_model_ok)%execute_runner_steps.
  pose proof (call_callback_discovered _ _ _ _ _ _ Hc1) as Hd.
  pose proof (di_trace _ _ (call_callback_discovers _ _ _ _ _ _ Hc1)) as Htr. cbn [current_program_model set_source] in *.
  apply (sound_execution a0 r npo (current_program_model c1) p ts); [by rewrite Htr|done..|].
  by eapply sound_discovered.
Qed.
Lemma head_sound a0 c ctx :
  trace (current_program_model c) = [] → (maximum_total_execution_depth config < 2^32)%N →
  abs_states (state_seq (current_program_model c)) = [a0] → steady (state_seq (current_program_model c)) →
  loop_head config cbs c ctx → stack ctx ≠ [] → sound a0 (model_of ctx).
Proof.
  intros H0 Hmax Ha Hs. apply (loop_head_coordinator config cbs (λ c, sound a0 (current_program_model c))); [done..| | |].
  - by apply sound_initial.
  - intros r ts c1 c2 Hs1 Ht Hlt Hx. exact (execute_runner_sound a0 r ts c1 c2 Hs1 Ht Hlt Hx).
  - intros n ts c1 c2 Hs1 Ht Hn Hlt Hx. unfold return_to_depth, coordinator_Coordinator, u32 in Hx.
    rewrite N.mod_small in Hx by lia. apply return_to_depth_ok in Hx as (h & w & w' & p & ts' & _ & Hp & _ & _ & _ & ->).
    by apply (sound_restore a0 n (current_program_model c1) p ts).
Qed.

(** C13: the states the search visits are real.  At every head of the search, as long
as the ids of objects and runners have not run out, the states of the model are those
the trace leads to from the initial state: each transition of the trace has its
abstract effect on the state before it, and the next state is the result, up to
objects and threads discovered since.  It does not matter in which order schedules
were executed and undone before, nor what was discovered on them. *)
Theorem visited_states_real a0 c ctx :
  trace (current_program_model c) = [] → (maximum_total_execution_depth config < 2^32)%N →
  abs_states (state_seq (current_program_model c)) = [a0] → steady (state_seq (current_program_model c)) →
  loop_head config cbs c ctx → stack ctx ≠ [] → roomy (state_seq (model_of ctx)) →
  ∃ ts, trace (model_of ctx) = Some <$> ts ∧ length (stack ctx) = S (length ts) ∧
    path (abs_states (state_seq (model_of ctx))) ts ∧
    ∃ a, abs_states (state_seq (model_of ctx)) !! 0 = Some a ∧ grows a0 a.
Proof.
  intros H0 Hmax Ha Hs Hh Hne Hr. destruct (head_sound a0 c ctx) as (ts & Ht & _ & Hok); [done..|].
  destruct (head_trace config cbs c ctx) as (ts' & Ht' & Hl & _); [done..|].
  destruct (Hok Hr) as [_ Hp Hstart]. exists ts. split_and!; [done| |done..].
  rewrite Hl. f_equal. apply (f_equal length) in Ht, Ht'. rewrite length_fmap in Ht, Ht'. congruence.
Qed.

(** C14: reported deadlocks are real.  When a run that ends has reported a deadlock,
the search was at a head where, as long as ids have not run out, the current state
is one the trace leads to from the initial state by the abstract steps, some thread
with a next step has not exited there, and no next step can be taken. *)
Theorem reported_deadlocks_real a0 fuel c out ctx' st :
  trace (current_program_model c) = [] → (maximum_total_execution_depth config < 2^32)%N →
  abs_states (state_seq (current_program_model c)) = [a0] → steady (state_seq (current_program_model c)) →
  verify_using config fuel cbs c = (out, ctx') → out ≠ Ok None → deadlock st ∈ events ctx' →
  ∃ ctx, loop_head config cbs c ctx ∧ stack ctx ≠ [] ∧ model_checking_stats ctx = st ∧
    (roomy (state_seq (model_of ctx)) →
     ∃ ts l a1 a, trace (model_of ctx) = Some <$> ts ∧ path l ts ∧ l !! 0 = Some a1 ∧ grows a0 a1 ∧
       last l = Some a ∧ deadlocked (next_steps (model_of ctx)) a).
Proof.
  intros H0 Hmax Ha Hs Hv Hout Hin.
  apply (run_reports config cbs fuel c out ctx') in Hin as (ctx & (Hh & Hne & _) & Hin); [|done..].
  exists ctx. unfold end_reports in Hin. apply elem_of_app in Hin as [Hin|Hin].
  { by destruct (has_trace_completed cbs); [apply list_elem_of_singleton in Hin|apply elem_of_nil in Hin]. }
  destruct (has_deadlock cbs); [|by apply elem_of_nil in Hin]. simpl in Hin.
  case_bool_decide as Hd; [|by apply elem_of_nil in Hin]. apply list_elem_of_singleton in Hin. injection Hin as ->.
  split_and!; [done..|]. intros Hr. destruct (head_sound a0 c ctx) as (ts & Ht & Hlen & Hok); [done..|].
  destruct (Hok Hr) as [_ Hp (a1 & Ha1 & Hg)].
  destruct (last (states_in_sequence (state_seq (model_of ctx)))) as [el|] eqn:Hl.
  2:{ apply last_None in Hl. by rewrite Hl in Hlen. }
  exists ts, (abs_states (state_seq (model_of ctx))), a1, (abs_element (state_seq (model_of ctx)) el).
  split_and!; [done..| |by apply deadlock_found]. by rewrite last_abs_states, Hl.
Qed.
End search.
