(* ===== verification/Lockstep.v ===== *)
(** * The model and the process in lockstep

A target is a program that, but for the order in which its threads run, always does
the same: what a thread announces next depends on the runners executed so far alone
([Deterministic]).  Along the whole search the process behind the coordinator has
executed the runners of the trace of the model and nothing else, and what follows a
transition of a runner in the model, in the trace or pending, is what the process
announced after it ([lockstep]). *)

From stdpp Require Import options.
From S2P Require Import Prelude InjectiveFunction CondPolicy Objects State Transitions.
From S2P Require Import StateSequence Program Runners Dependency StackItem Dpor Exploration Mirror Coordinator.

(** ** Deterministic targets *)

(** [valid] is an invariant of the process source; [ran w h hist] says that the
process [h] has executed the runners [hist]; [answer hist] is the mailbox the last
runner of [hist] fills. *)
Class Deterministic (W : Type) `{World W} (valid : W → Prop) (ran : W → handle W → list runner_id_t → Prop)
    (answer : list runner_id_t → runner_mailbox) : Prop := {
  make_new_process_ran w h w' :
    valid w → make_new_process w = (Ok (Some h), w') → valid w' ∧ ran w' h [];
  destroy_process_valid w h : valid w → valid (destroy_process h w);
  execute_runner_ran w h hist r mb w' :
    valid w → ran w h hist → process_execute_runner h r w = (Ok mb, w') →
    valid w' ∧ ran w' h (hist ++ [r]) ∧ mb = answer (hist ++ [r]);
}.

(** ** What follows a transition *)

(** The first transition of [r] from depth [n] on, the pending one if it has none. *)
Definition next_at (ts : list transition) (steps : gmap runner_id_t transition) (n : nat) (r : runner_id_t) : option transition :=
  match first_of r (drop n ts) with Some t => Some t | None => steps !! r end.

Lemma first_of_app r ts1 ts2 :
  first_of r (ts1 ++ ts2) = match first_of r ts1 with Some t => Some t | None => first_of r ts2 end.
Proof. induction ts1 as [|t ts1 IH]; simpl; [done|]. by case_decide. Qed.

(** Going back to depth [n] does not change what follows before. *)
Lemma next_at_take ts steps steps' n i r :
  i ≤ n ≤ length ts → (∀ q, steps' !! q = next_at ts steps n q) →
  next_at (take n ts) steps' i r = next_at ts steps i r.
Proof.
  intros Hi Hs. unfold next_at. rewrite Hs.
  assert (drop i ts = drop i (take n ts) ++ drop n ts) as ->.
  { rewrite <- (take_drop n ts) at 1. rewrite drop_app_le; [done|]. rewrite length_take. lia. }
  rewrite first_of_app. unfold next_at. by destruct (first_of r (drop i (take n ts))).
Qed.

(** Executing [t], after steps were discovered. *)
Lemma next_at_execute ts steps steps1 t npo i r :
  i ≤ length ts → steps1 !! executor t = Some t →
  (∀ t', steps !! r = Some t' → steps1 !! r = Some t') →
  ∀ t', next_at ts steps i r = Some t' → next_at (ts ++ [t]) (<[executor t := npo]> steps1) i r = Some t'.
Proof.
  intros Hi Ht Hs t'. unfold next_at. rewrite drop_app_le, first_of_app by done.
  destruct (first_of r (drop i ts)) as [t0|]; [done|]. intros Hr%Hs. simpl. case_decide as He.
  - subst r. congruence.
  - by rewrite lookup_insert_ne.
Qed.
(** Nor do the first transitions change. *)
Lemma next_at_execute_first ts (P : runner_id_t → transition → Prop) steps steps1 t npo r t' :
  steps1 !! executor t = Some t → (∀ q u, steps1 !! q = Some u → steps !! q = Some u ∨ P q u) →
  (∀ q u, next_at ts steps 0 q = Some u → P q u) →
  next_at (ts ++ [t]) (<[executor t := npo]> steps1) 0 r = Some t' → P r t'.
Proof.
  intros Ht Hnew Hold. unfold next_at in *. rewrite drop_0, first_of_app. specialize (Hold r). rewrite drop_0 in Hold.
  destruct (first_of r ts) as [t0|]; [by apply Hold|].
  assert (∀ u, steps1 !! r = Some u → P r u) as Hs by (intros u [?|?]%Hnew; [by apply Hold|done]).
  simpl. case_decide as He; [intros [= <-]; subst r; by apply Hs|].
  rewrite lookup_insert_ne by done. apply Hs.
Qed.

Section lockstep.
Context {W : Type} `{World W}.
Context (valid : W → Prop) (ran : W → handle W → list runner_id_t → Prop) (answer : list runner_id_t → runner_mailbox).
Context `{Hdet : !Deterministic W valid ran answer}.
Implicit Types c : coordinator.

(** What a callback makes of the mailbox after [hist], with objects at the addresses
bound in [c]. *)
Definition made_of c (hist : list runner_id_t) (t : transition) : Prop :=
  ∃ f c0 c1, get_callback_for (runtime_transition_mapping c) (type (answer hist)) = Some f ∧
    call_callback f (get_executor t) (answer hist) c0 = (Ok (Some t), c1) ∧
    system_address_mapping c1 ⊆ system_address_mapping c.

(** The process [h] is where the trace [ts] of the model is. *)
Record in_step c (h : handle W) (ts : list transition) : Prop := InStep {
  is_dense : dense (current_program_model c);
  is_valid : valid (process_source c);
  is_handle : current_process_handle c = Some h;
  is_trace : trace (current_program_model c) = Some <$> ts;
  is_ran : ran (process_source c) h (get_executor <$> ts);
}.
(** After a transition of a runner comes what it announced; its first transition is
the one of [steps0], or to start. *)
Record announced (steps0 : gmap runner_id_t transition) c (ts : list transition) : Prop := Announced {
  an_next : ∀ i t, ts !! i = Some t →
    ∃ t', next_at ts (next_steps (current_program_model c)) (S i) (get_executor t) = Some t' ∧
      made_of c (get_executor <$> take (S i) ts) t';
  an_first : ∀ r t, next_at ts (next_steps (current_program_model c)) 0 r = Some t →
    steps0 !! r = Some t ∨ t = Transition r thread_start;
}.
(** The runners have numbers of their own. *)
Definition numbered c : Prop := (N.of_nat (inj_size (runner_to_obj_map (state_seq (current_program_model c)))) < 2^16)%N.
Definition synchronized (steps0 : gmap runner_id_t transition) c : Prop :=
  ∃ h ts, in_step c h ts ∧ (numbered c → announced steps0 c ts).

Lemma made_of_mono c c' hist t :
  runtime_transition_mapping c' = runtime_transition_mapping c →
  system_address_mapping c ⊆ system_address_mapping c' → made_of c hist t → made_of c' hist t.
Proof.
  intros Hreg Hmap (f & c0 & c1 & Hf & Hc & Hsub). exists f, c0, c1. rewrite Hreg. split_and!; [done..|by etrans].
Qed.

Lemma execute_runner_in_step steps0 r c c' :
  synchronized steps0 c → coordinator_execute_runner r c = (Ok tt, c') → synchronized steps0 c'.
Proof using Hdet.
  intros (h & ts & [Hd Hv Hh Ht Hran] & Hann) (h' & mb & w & f & npo & c1 & Hh' & Hw & Hf & Hc1 & Hx)%execute_runner_steps.
  rewrite Hh in Hh'. injection Hh' as <-. apply on_model_ok in Hx as (p & Hp & ->).
  destruct (call_callback_extends f r mb (set_source w c) _ c1 Hd Hc1) as [Hd1 Hcount Hst Hnew].
  destruct (call_callback_discovers _ _ _ _ _ _ Hc1) as [Htr1 Hh1 Hsrc Hreg Hmap].
  pose proof (dense_execution _ _ _ _ _ Hd1 Hp) as Hd'.
  apply execution_ok in Hp as (<- & t & Hnext & Htr & Hsteps & Hrun). unfold same_runners in Hrun.
  cbn [current_program_model process_source current_process_handle runtime_transition_mapping system_address_mapping
    set_source] in *.
  destruct (execute_runner_ran _ h _ _ _ _ Hv Hran Hw) as (Hv' & Hran' & ->).
  assert (get_executor t = get_executor npo) as Het by by apply (dn_next _ Hd1).
  exists h, (ts ++ [t]). split; [split|intros Hnum]; cbn [current_program_model process_source current_process_handle set_model];
    rewrite ?Hh1, ?Hsrc, ?Htr, ?Htr1, ?Ht, ?fmap_app; [done..| |].
  { cbn [fmap list_fmap]. by rewrite Het. }
  unfold numbered in *. cbn [current_program_model set_model] in Hnum. rewrite Hrun in Hnum.
  destruct Hann as [Hn Hfst]; [lia|]. specialize (Hst Hnum). rewrite <- Het in Hnext.
  split; cbn [current_program_model set_model]; rewrite Hsteps, <- Het.
  - intros i t0 [Ht0|[Hi Ht0]]%lookup_app_Some.
    + destruct (Hn i t0 Ht0) as (t' & Hat & Hm). exists t'. apply lookup_lt_Some in Ht0. split.
      * eapply (next_at_execute ts _ _ t); [lia|exact Hnext| |exact Hat]. intros u Hu. by eapply lookup_weaken.
      * rewrite take_app_le by lia. by apply (made_of_mono c).
    + apply list_lookup_singleton_Some in Ht0 as [Hi0 <-]. exists npo. split.
      * unfold next_at. rewrite drop_ge by (rewrite length_app; simpl; lia). simpl. apply lookup_insert_eq.
      * rewrite take_ge by (rewrite length_app; simpl; lia). rewrite fmap_app. cbn [fmap list_fmap]. rewrite Het.
        exists f, (set_source w c), c1. cbn [runtime_transition_mapping set_model system_address_mapping].
        by rewrite Hreg.
  - intros r u. apply (next_at_execute_first ts (λ q v, steps0 !! q = Some v ∨ v = Transition q thread_start)
      (next_steps (current_program_model c)) _ t); [done| |done].
    intros q v [?|?]%Hnew; [by left|by right; right].
Qed.

Lemma replay_ran h rs hist w w' :
  valid w → ran w h hist → replay h rs w = (Ok tt, w') → valid w' ∧ ran w' h (hist ++ rs).
Proof using Hdet.
  revert hist w. induction rs as [|r rs IH]; intros hist w Hv Hr; cbn [replay].
  { intros [= <-]. by rewrite app_nil_r. }
  intros (mb & w1 & Hx & Hrep)%ebind_ok. destruct (execute_runner_ran _ _ _ _ _ _ Hv Hr Hx) as (Hv1 & Hr1 & _).
  rewrite cons_middle, app_assoc. by apply (IH _ w1).
Qed.

Lemma return_to_depth_in_step steps0 n ts c c' :
  synchronized steps0 c → trace (current_program_model c) = Some <$> ts → 1 ≤ n ≤ length ts →
  (N.of_nat (length ts) < 2^32 - 1)%N → coordinator_return_to_depth (N.of_nat n) c = (Ok tt, c') →
  synchronized steps0 c'.
Proof using Hdet.
  intros (h0 & ts0 & [Hd Hv Hh Ht0 Hran] & Hann) Hts Hn Hlt (h & w & w' & p & ts' & Hmake & Hp & Htr & _ & Hrep & ->)%return_to_depth_ok.
  rewrite Hts in Ht0. apply list_fmap_eq_inj in Ht0 as <-; [|by intros ?? [=]].
  destruct (restore_cuts _ _ _ _ Hts Hn Hlt Hp) as [Hcut Hsteps].
  rewrite Hcut in Htr. apply list_fmap_eq_inj in Htr as <-; [|by intros ?? [=]].
  rewrite Hh in Hmake. apply make_new_process_ran in Hmake as [Hv1 Hr1]; [|by apply destroy_process_valid].
  destruct (replay_ran _ _ _ _ _ Hv1 Hr1 Hrep) as [Hv2 Hr2].
  pose proof (restore_same_runners _ _ _ Hp) as Hrun. unfold same_runners in Hrun.
  exists h, (take n ts). split; [split|intros Hnum]; cbn [current_program_model process_source current_process_handle
    set_source set_handle set_model]; [by eapply dense_restore|done..|].
  unfold numbered in *. cbn [current_program_model set_source set_handle set_model] in Hnum. rewrite Hrun in Hnum.
  destruct (Hann Hnum) as [Hnx Hfst]. split; cbn [current_program_model set_source set_handle set_model].
  - intros i t [Ht Hi]%lookup_take_Some. destruct (Hnx i t Ht) as (t' & Hat & Hm). exists t'.
    rewrite (next_at_take ts (next_steps (current_program_model c))) by (done || lia).
    rewrite take_take, Nat.min_l by lia. by split.
  - intros r t. rewrite (next_at_take ts (next_steps (current_program_model c))) by (done || lia). apply Hfst.
Qed.

Lemma new_coordinator_in_step p0 registry source c :
  valid source → dense p0 → trace p0 = [] → new_coordinator p0 registry source = (Ok tt, c) →
  synchronized (next_steps p0) c ∧ current_program_model c = p0.
Proof using Hdet.
  intros Hv Hd Ht (h & w & Hmake & ->)%assign_new_process_handle_ok. simpl in Hmake.
  apply make_new_process_ran in Hmake as [Hv' Hr]; [|done]. split; [|done].
  exists h, []. split; [by split|intros _; split]; [done|]. intros r t. cbn. by left.
Qed.

(** The process follows the model.  Over a deterministic target, started from a
program whose runners are numbered without a gap: at every head of the search there
is a process, which has executed the executors of the trace, in order, and nothing
else.  While runners have numbers of their own, the next transition of a runner after
one of the trace, further on in the trace or pending, is what the callbacks make of
the mailbox the process filled there, for the objects now bound to its addresses; and
the first transition of a runner is the one it had at the start, or its start. *)
Theorem follows_model config cbs p0 registry source c (ctx : dpor_context (coordinator (W := W))) :
  valid source → dense p0 → trace p0 = [] → new_coordinator p0 registry source = (Ok tt, c) →
  (maximum_total_execution_depth config < 2^32)%N → loop_head config cbs c ctx → stack ctx ≠ [] →
  ∃ h ts, current_process_handle (Dpor.coordinator ctx) = Some h ∧ trace (model_of ctx) = Some <$> ts ∧
    ran (process_source (Dpor.coordinator ctx)) h (get_executor <$> ts) ∧
    (numbered (Dpor.coordinator ctx) →
     (∀ i t, ts !! i = Some t → ∃ t', next_at ts (next_steps (model_of ctx)) (S i) (get_executor t) = Some t' ∧
       made_of (Dpor.coordinator ctx) (get_executor <$> take (S i) ts) t') ∧
     ∀ r t, next_at ts (next_steps (model_of ctx)) 0 r = Some t →
       next_steps p0 !! r = Some t ∨ t = Transition r thread_start).
Proof using Hdet.
  intros Hv Hd Ht Hnew Hmax Hh Hne. destruct (new_coordinator_in_step _ _ _ _ Hv Hd Ht Hnew) as [Hs <-].
  destruct (loop_head_coordinator config cbs (synchronized (next_steps (current_program_model c))) c ctx)
    as (h & ts & [_ _ Hhd Htr Hran] & Hann); [done..| | |done|done|].
  - intros r ts c1 c2 Hs1 _ _. by apply execute_runner_in_step.
  - intros n ts c1 c2 Hs1 Hts Hn Hlt Hret. eapply (return_to_depth_in_step _ n ts c1); [done..|].
    unfold return_to_depth, coordinator_Coordinator, u32 in Hret. rewrite N.mod_small in Hret by lia. exact Hret.
  - exists h, ts. split_and!; [done..|]. intros [Hnx Hf]%Hann. by split.
Qed.
End lockstep.
