(* ===== verification/RawSemaphore.v ===== *)
(** * The semaphore of the target's side

[mc_raw_sem_wait] and [mc_raw_sem_post] of [src/common/runner_mailbox.c]: a counting
semaphore in one 32-bit word, over the system call [futex].  Threads that run the two
functions are interleaved at every access of the word and every system call.
Postings and waits balance ([raw_semaphore_counts]), and no thread sleeps while the
word is positive and nobody is left to wake it ([posts_suffice]). *)

From stdpp Require Import options.
From S2P Require Import Prelude.

(** ** The program counters *)

Inductive sem_pc :=
  (* mc_raw_sem_wait *)
  | load
  | compare_exchange (cur : N)
  | futex_wait
  | asleep                   (* in the queue of the futex *)
  | waited (rc : Z)
  (* mc_raw_sem_post *)
  | fetch_add
  | futex_wake
  | post_returned.
#[export] Instance sem_pc_eq_dec : EqDecision sem_pc.
Proof. solve_decision. Defined.

Record raw_semaphore := RawSemaphore { word : N; threads : list sem_pc }.

Definition goto (i : nat) (pc : sem_pc) (s : raw_semaphore) : raw_semaphore :=
  RawSemaphore (word s) (<[i := pc]> (threads s)).
Definition set_word (n : N) (s : raw_semaphore) : raw_semaphore := RawSemaphore n (threads s).

(** What can happen: a step of a thread; a [FUTEX_WAKE] that wakes a thread; a thread
woken by a signal ([EINTR]); a [FUTEX_WAIT] that fails with another error. *)
Inductive sem_event := Run (i : nat) | Wake (i j : nat) | Interrupt (i : nat) | Fault (i : nat).

(** [FUTEX_WAIT] compares the word with 0 and sleeps in one step, or gives [EAGAIN];
[FUTEX_WAKE] wakes one of the sleepers when there are any. *)
Definition raw_sem_step (e : sem_event) (s : raw_semaphore) : option raw_semaphore :=
  match e with
  | Run i =>
      pc ← threads s !! i;
      match pc with
      | load => Some (goto i (if bool_decide (0 < word s)%N then compare_exchange (word s) else futex_wait) s)
      | compare_exchange cur =>
          Some (if bool_decide (word s = cur) then set_word (cur - 1) (goto i (waited 0) s) else goto i load s)
      | futex_wait => Some (goto i (if bool_decide (word s = 0%N) then asleep else load) s)
      | fetch_add => Some (set_word (u32 (word s + 1)) (goto i futex_wake s))
      | futex_wake => if bool_decide (asleep ∈ threads s) then None else Some (goto i post_returned s)
      | asleep | waited _ | post_returned => None
      end
  | Wake i j =>
      if bool_decide (threads s !! i = Some futex_wake ∧ threads s !! j = Some asleep)
      then Some (goto j load (goto i post_returned s)) else None
  | Interrupt i => if bool_decide (threads s !! i = Some asleep) then Some (goto i load s) else None
  | Fault i => if bool_decide (threads s !! i = Some futex_wait) then Some (goto i (waited (-1)) s) else None
  end.
Fixpoint run_events (l : list sem_event) (s : raw_semaphore) : option raw_semaphore :=
  match l with [] => Some s | e :: l => s' ← raw_sem_step e s; run_events l s' end.

(** ** Counting threads *)

Definition count_pc (P : sem_pc → bool) (l : list sem_pc) : nat := length (filter (λ pc, P pc = true) l).

Definition awake (pc : sem_pc) : bool :=
  match pc with load | compare_exchange _ | futex_wait => true | _ => false end.
Definition sleeps (pc : sem_pc) : bool := bool_decide (pc = asleep).
Definition took (pc : sem_pc) : bool := bool_decide (pc = waited 0).
Definition faulted (pc : sem_pc) : bool := match pc with waited rc => bool_decide (rc ≠ 0%Z) | _ => false end.
Definition will_wake (pc : sem_pc) : bool := bool_decide (pc = futex_wake).
Definition posted_already (pc : sem_pc) : bool := match pc with futex_wake | post_returned => true | _ => false end.
(** A comparison with 0, which would take a unit there is not. *)
Definition takes_none (pc : sem_pc) : bool := match pc with compare_exchange cur => bool_decide (cur = 0%N) | _ => false end.
(** The two functions, by the thread that runs them. *)
Definition waits (pc : sem_pc) : bool :=
  match pc with load | compare_exchange _ | futex_wait | asleep | waited _ => true | _ => false end.
Definition posts_it (pc : sem_pc) : bool := negb (waits pc).

Lemma count_insert P (l : list sem_pc) i x y :
  l !! i = Some x → count_pc P (<[i := y]> l) + Nat.b2n (P x) = count_pc P l + Nat.b2n (P y).
Proof.
  unfold count_pc. revert i. induction l as [|z l IH]; intros [|i] Hi; simpl in *; [done|done| |].
  - injection Hi as ->. rewrite !filter_cons. destruct (P x), (P y); simpl; repeat case_decide; simpl; done || lia.
  - specialize (IH i Hi). rewrite !filter_cons. case_decide; simpl; lia.
Qed.
Lemma count_goto P s i x y : threads s !! i = Some x →
  count_pc P (threads (goto i y s)) + Nat.b2n (P x) = count_pc P (threads s) + Nat.b2n (P y).
Proof. apply count_insert. Qed.
Lemma count_none P l : count_pc P l = 0 ↔ ∀ i x, l !! i = Some x → P x = false.
Proof.
  unfold count_pc. rewrite length_zero_iff_nil. split.
  - intros Hf i x Hi. destruct (P x) eqn:HP; [|done].
    assert (x ∈ filter (λ pc, P pc = true) l) as Hx by (apply list_elem_of_filter; eauto using list_elem_of_lookup_2).
    rewrite Hf in Hx. by apply not_elem_of_nil in Hx.
  - intros HP. destruct (filter _ l) as [|x k] eqn:Hf; [done|].
    assert (x ∈ filter (λ pc, P pc = true) l) as [Hx [i Hi]%list_elem_of_lookup]%list_elem_of_filter by (rewrite Hf; left).
    by rewrite (HP _ _ Hi) in Hx.
Qed.
Lemma count_asleep s : asleep ∈ threads s ↔ 0 < count_pc sleeps (threads s).
Proof.
  split.
  - intros [i Hi]%list_elem_of_lookup. destruct (count_pc sleeps (threads s)) eqn:Hc; [|lia].
    apply (proj1 (count_none _ _) Hc i) in Hi. done.
  - intros Hc. destruct (decide (asleep ∈ threads s)) as [|Hno]; [done|].
    assert (count_pc sleeps (threads s) = 0); [|lia]. apply count_none. intros i x Hi.
    apply bool_decide_eq_false_2. intros ->. eauto using list_elem_of_lookup_2.
Qed.
Lemma count_le P Q l : (∀ pc, P pc = true → Q pc = true) → count_pc P l ≤ count_pc Q l.
Proof.
  intros HPQ. unfold count_pc. induction l as [|x l IH]; [done|]. rewrite !filter_cons.
  specialize (HPQ x). destruct (P x), (Q x); repeat case_decide; simpl; try done; try lia; by rewrite HPQ in * by done.
Qed.

(** ** The invariant *)

Definition starting (pc : sem_pc) : Prop := pc = load ∨ pc = fetch_add.
(** The posts cannot overflow the word. *)
Definition fits_word (s : raw_semaphore) : Prop := (word s + N.of_nat (count_pc posts_it (threads s)) < 2^32)%N.

Record tallied (s0 s : raw_semaphore) : Prop := Tallied {
  ta_waits : count_pc waits (threads s) = count_pc waits (threads s0);
  ta_posts : count_pc posts_it (threads s) = count_pc posts_it (threads s0);
  ta_compares : count_pc takes_none (threads s) = 0;
  ta_units : (word s + N.of_nat (count_pc took (threads s)) =
              word s0 + N.of_nat (count_pc posted_already (threads s)))%N;
  ta_wakers : count_pc sleeps (threads s) = 0 ∨
    (word s ≤ N.of_nat (count_pc will_wake (threads s) + count_pc awake (threads s) + count_pc faulted (threads s)))%N;
}.

Lemma tallied_start s : Forall starting (threads s) → tallied s s.
Proof.
  intros Hs. rewrite Forall_lookup in Hs.
  assert (∀ P, P load = false → P fetch_add = false → count_pc P (threads s) = 0) as Hz.
  { intros P H1 H2. apply count_none. intros i x Hi. by destruct (Hs i x Hi) as [-> | ->]. }
  split; [done|done|by apply Hz|by rewrite !Hz|left; by apply Hz].
Qed.

(** The counts after thread [i] went from [x] to [y]. *)
Ltac tally s i x y Hi :=
  pose proof (count_goto waits s i x y Hi); pose proof (count_goto posts_it s i x y Hi);
  pose proof (count_goto took s i x y Hi); pose proof (count_goto posted_already s i x y Hi);
  pose proof (count_goto takes_none s i x y Hi); pose proof (count_goto sleeps s i x y Hi); pose proof (count_goto will_wake s i x y Hi);
  pose proof (count_goto awake s i x y Hi); pose proof (count_goto faulted s i x y Hi);
  cbn [Nat.b2n waits posts_it negb took posted_already sleeps will_wake awake faulted takes_none] in *;
  repeat match goal with H : context [bool_decide ?P] |- _ => case_bool_decide end; simplify_eq;
  cbn [Nat.b2n] in *.

Lemma tallied_step s0 s e s' : fits_word s0 → tallied s0 s → raw_sem_step e s = Some s' → tallied s0 s'.
Proof.
  intros Hfit [Hw Hp Hz Hu Hk] Hs. pose proof (count_le posted_already posts_it (threads s)) as Hle.
  specialize (Hle ltac:(by intros [])). unfold fits_word in Hfit.
  destruct e as [i|i j|i|i]; simpl in Hs.
  - destruct (threads s !! i) as [x|] eqn:Hi; [|done]. simpl in Hs. destruct x as [|cur| | |rc| | |]; try done.
    + case_bool_decide; injection Hs as <-; [tally s i load (compare_exchange (word s)) Hi|tally s i load futex_wait Hi];
        split; simpl in *; lia.
    + case_bool_decide as Hcur; injection Hs as <-;
        [tally s i (compare_exchange cur) (waited 0) Hi|tally s i (compare_exchange cur) load Hi]; split; simpl in *; try lia.
    + case_bool_decide; injection Hs as <-; [tally s i futex_wait asleep Hi|tally s i futex_wait load Hi];
        split; simpl in *; lia.
    + injection Hs as <-. tally s i fetch_add futex_wake Hi.
      pose proof (count_le posted_already posts_it (threads (goto i futex_wake s)) ltac:(by intros [])).
      assert (u32 (word s + 1) = word s + 1)%N as Hu32 by (unfold u32; rewrite N.mod_small; lia).
      split; simpl in *; lia.
    + case_bool_decide as Ha; [done|]. injection Hs as <-. rewrite count_asleep in Ha.
      tally s i futex_wake post_returned Hi. split; simpl in *; lia.
  - case_bool_decide as H; [|done]. destruct H as [Hi Hj]. injection Hs as <-.
    assert (threads (goto i post_returned s) !! j = Some asleep) as Hj'.
    { simpl. rewrite list_lookup_insert_ne by congruence. done. }
    tally s i futex_wake post_returned Hi. tally (goto i post_returned s) j asleep load Hj'. split; simpl in *; lia.
  - case_bool_decide as Hi; [|done]. injection Hs as <-. tally s i asleep load Hi. split; simpl in *; lia.
  - case_bool_decide as Hi; [|done]. injection Hs as <-. tally s i futex_wait (waited (-1)) Hi. split; simpl in *; lia.
Qed.
Lemma tallied_run l s0 s s' : fits_word s0 → tallied s0 s → run_events l s = Some s' → tallied s0 s'.
Proof.
  intros Hfit. revert s. induction l as [|e l IH]; intros s Ht Hr; simpl in Hr; [by injection Hr as <-|].
  destruct (raw_sem_step e s) as [s1|] eqn:Hs; [|done]. apply (IH s1); [by eapply tallied_step|done].
Qed.

(** ** What the semaphore promises *)

(** Postings and waits balance.  From a state where every thread is about to wait or
to post, and as long as the word cannot overflow, in every interleaving, with
interrupted and failing system calls, the word and the waits that returned 0 make up
the word at the start and the posts so far: no unit is lost or taken twice. *)
Theorem raw_semaphore_counts s l s' :
  Forall starting (threads s) → fits_word s → run_events l s = Some s' →
  (word s' + N.of_nat (count_pc took (threads s')) =
   word s + N.of_nat (count_pc posted_already (threads s')))%N.
Proof. intros Hs Hfit Hr. apply (tallied_run l s s s' Hfit (tallied_start s Hs) Hr). Qed.

(** Nothing runs any more, unless a signal comes. *)
Definition stuck (s : raw_semaphore) : Prop :=
  (∀ i, raw_sem_step (Run i) s = None) ∧ (∀ i j, raw_sem_step (Wake i j) s = None).

Lemma stuck_counts s : stuck s →
  count_pc awake (threads s) = 0 ∧ count_pc will_wake (threads s) = 0 ∧
  count_pc posted_already (threads s) = count_pc posts_it (threads s).
Proof.
  intros [Hr Hw].
  assert (∀ i x, threads s !! i = Some x → awake x = false ∧ x ≠ fetch_add ∧ x ≠ futex_wake) as Hall.
  { intros i x Hi. specialize (Hr i). simpl in Hr. rewrite Hi in Hr. simpl in Hr. destruct x; try done.
    case_bool_decide as Ha; [|done]. apply list_elem_of_lookup in Ha as [j Hj]. specialize (Hw i j). simpl in Hw.
    by rewrite bool_decide_eq_true_2 in Hw. }
  split_and!.
  - apply count_none. intros i x Hi. by apply (Hall i).
  - apply count_none. intros i x Hi. apply bool_decide_eq_false_2. by apply (Hall i).
  - apply Nat.le_antisymm; [apply count_le; by intros []|]. unfold count_pc.
    assert (Forall (λ x, posts_it x = true → posted_already x = true) (threads s)) as Hf.
    { apply Forall_lookup. intros i x Hi. destruct (Hall i x Hi) as (_ & ? & ?). by destruct x. }
    clear -Hf. induction Hf as [|x k Hx _ IH]; [done|]. rewrite !filter_cons.
    destruct (posts_it x), (posted_already x); repeat case_decide; simpl; try done; try lia.
Qed.
Lemma count_partition l :
  count_pc waits l = count_pc awake l + count_pc sleeps l + count_pc took l + count_pc faulted l.
Proof.
  assert (∀ x, Nat.b2n (waits x) = Nat.b2n (awake x) + Nat.b2n (sleeps x) + Nat.b2n (took x) + Nat.b2n (faulted x)) as Hx.
  { intros []; try reflexivity. unfold took, sleeps. simpl. repeat case_bool_decide; simplify_eq; reflexivity. }
  unfold count_pc. induction l as [|x l IH]; [done|]. rewrite !filter_cons. specialize (Hx x).
  destruct (waits x), (awake x), (sleeps x), (took x), (faulted x); simpl in *; repeat case_decide; simpl; done || lia.
Qed.

(** C27: a wake-up is never lost.  When as many units are there or posted as there are
waits, no wait has failed and no thread can make a step of its own, then no thread
sleeps: every wait has returned 0, whatever the interleaving was. *)
Theorem posts_suffice s l s' :
  Forall starting (threads s) → fits_word s → run_events l s = Some s' → stuck s' →
  count_pc faulted (threads s') = 0 →
  (N.of_nat (count_pc waits (threads s)) ≤ word s + N.of_nat (count_pc posts_it (threads s)))%N →
  count_pc sleeps (threads s') = 0 ∧ count_pc took (threads s') = count_pc waits (threads s').
Proof.
  intros Hs Hfit Hr Hst Hf Hen. destruct (tallied_run l s s s' Hfit (tallied_start s Hs) Hr) as [Hw Hp _ Hu Hk].
  destruct (stuck_counts _ Hst) as (Ha & Hwk & Hpost). pose proof (count_partition (threads s')).
  destruct Hk; split; lia.
Qed.
