(* ===== verification/LinuxProcess.v ===== *)
(** * Linux processes

[local_linux_process] ([src/mcmini/real_world/local_linux_process.cpp]) and
[signal_tracker] ([src/mcmini/signal.cpp]).  The checker, the processes it runs and
the signal handler share memory, so a method is a machine: a program counter, one
atomic step at a time ([execute_runner_step], the whole body of the method), and
between two steps anything the environment may do ([env_step]).  A step that blocks
has no successor.

The kernel is modelled by what the code relies on: the counters of the semaphores,
the children that [waitpid] can report, and a [SIGCHLD] handler that may run at any
point. *)

From stdpp Require Import functions.
From stdpp Require Import options.
From S2P Require Import Prelude Coordinator.

(** ** The state shared with the environment *)

(** The semaphores in shared memory. *)
Inductive sem :=
  | model_side_sem (r : runner_id_t)
  | child_side_sem (r : runner_id_t)
  | mcmini_process_sem
  | libmcmini_sem.
#[export] Instance sem_eq_dec : EqDecision sem.
Proof. solve_decision. Defined.

(** How a child ended, as [WIFEXITED], [WIFSIGNALED] tell. *)
Inductive exit_status := exited (code : Z) | signaled (signo : Z) | other_status.
(** A process [waitpid] knows; one it does not know is no child of the checker. *)
Inductive child := running_child | zombie (status : exit_status).
#[export] Instance exit_status_eq_dec : EqDecision exit_status.
Proof. solve_decision. Defined.
#[export] Instance child_eq_dec : EqDecision child.
Proof. solve_decision. Defined.

Record machine := Machine {
  sems : sem → N;
  flags : N;                        (* flags[SIGCHLD] *)
  handling : N;                     (* handlers between [set_signal] and [sem_post] *)
  current_sem : option sem;
  mailboxes : runner_id_t → runner_mailbox;
  children : gmap Z child;
  cpid : Z;                         (* of the template's structure *)
}.

Definition SEM_VALUE_MAX : N := 2147483647.

Definition set_sems (f : sem → N) (m : machine) : machine :=
  Machine f (flags m) (handling m) (current_sem m) (mailboxes m) (children m) (cpid m).
Definition set_flags (n : N) (m : machine) : machine :=
  Machine (sems m) n (handling m) (current_sem m) (mailboxes m) (children m) (cpid m).
Definition set_handling (n : N) (m : machine) : machine :=
  Machine (sems m) (flags m) n (current_sem m) (mailboxes m) (children m) (cpid m).
Definition set_children (c : gmap Z child) (m : machine) : machine :=
  Machine (sems m) (flags m) (handling m) (current_sem m) (mailboxes m) c (cpid m).
Definition set_mailboxes (f : runner_id_t → runner_mailbox) (m : machine) : machine :=
  Machine (sems m) (flags m) (handling m) (current_sem m) f (children m) (cpid m).
Definition set_cpid (pid : Z) (m : machine) : machine :=
  Machine (sems m) (flags m) (handling m) (current_sem m) (mailboxes m) (children m) pid.

(** [sem_post], [false] for [EOVERFLOW]; [sem_wait], [None] when it blocks. *)
Definition sem_post (s : sem) (m : machine) : bool * machine :=
  if bool_decide (SEM_VALUE_MAX ≤ sems m s)%N then (false, m)
  else (true, set_sems (<[s := (sems m s + 1)%N]> (sems m)) m).
Definition sem_wait (s : sem) (m : machine) : option machine :=
  if bool_decide (sems m s = 0)%N then None
  else Some (set_sems (<[s := (sems m s - 1)%N]> (sems m)) m).
(** The child side is a futex word. *)
Definition mc_wake_thread (r : runner_id_t) (m : machine) : machine :=
  set_sems (<[child_side_sem r := u32 (sems m (child_side_sem r) + 1)]> (sems m)) m.

(** ** [signal_tracker], for [SIGCHLD] *)

Definition set_sem (s : sem) (m : machine) : machine :=
  Machine (sems m) (flags m) (handling m) (Some s) (mailboxes m) (children m) (cpid m).
(** [fetch_add] on an [atomic_uint32_t]. *)
Definition set_signal (m : machine) : machine := set_flags (u32 (flags m + 1)) m.
Definition has_signal (m : machine) : bool := bool_decide (0 < flags m)%N.
(** The compare-and-exchange loop ends in one of these two ways, atomically. *)
Definition try_consume_signal (m : machine) : bool * machine :=
  if has_signal m then (true, set_flags (flags m - 1) m) else (false, m).
(** The handler has two steps; it may run on any thread of the checker. *)
Definition signal_tracker_sig_handler_enter (m : machine) : machine :=
  set_handling (handling m + 1) (set_signal m).
Definition signal_tracker_sig_handler_post (m : machine) : machine :=
  if bool_decide (handling m = 0%N) then m else
  let m := set_handling (handling m - 1) m in
  match current_sem m with
  | Some s => (sem_post s m).2
  | None => m
  end.

(** ** The environment *)

Inductive env_event :=
  | answers (r : runner_id_t) (mb : runner_mailbox)   (* a thread fills its mailbox and wakes the checker *)
  | ends (pid : Z) (status : exit_status)             (* a child of the checker ends *)
  | sigchld                                           (* the handler starts, and counts the signal *)
  | handler_posts                                     (* a handler that started posts [current_sem] *)
  | forks (pid : Z).                                  (* the template writes [cpid] and wakes the checker *)

Definition env_step (e : env_event) (m : machine) : machine :=
  match e with
  | answers r mb => (sem_post (model_side_sem r) (set_mailboxes (<[r := mb]> (mailboxes m)) m)).2
  | ends pid status => set_children (<[pid := zombie status]> (children m)) m
  | sigchld => signal_tracker_sig_handler_enter m
  | handler_posts => signal_tracker_sig_handler_post m
  | forks pid => (sem_post mcmini_process_sem (set_cpid pid m)).2
  end.

(** ** [waitpid] *)

Inductive wait_result := unchanged | changed (status : exit_status) | wait_error.

(** [waitpid(pid, &status, WNOHANG)]: a child that ended is reaped. *)
Definition waitpid (pid : Z) (m : machine) : wait_result * machine :=
  match children m !! pid with
  | None => (wait_error, m)
  | Some running_child => (unchanged, m)
  | Some (zombie status) => (changed status, set_children (delete pid (children m)) m)
  end.

(** ** [execute_runner] *)

Inductive execute_pc :=
  | set_semaphore | wake_thread_up | wait_for_answer | consume_signal | ask_status
  | executed (out : res runner_mailbox).

(** What the answer of [waitpid] is turned into; [None] goes back to waiting. *)
Definition outcome_of (id : runner_id_t) (w : wait_result) : option exn :=
  match w with
  | unchanged => None
  | wait_error => Some ExecutionError
  | changed (exited exit_code) =>
      Some (if bool_decide (exit_code ≠ 0%Z) then NonzeroExitCodeError exit_code id else ExecutionError)
  | changed (signaled signo) => Some (TerminationError signo id)
  | changed other_status => Some ExecutionError
  end.

Definition execute_runner_step (pid : Z) (id : runner_id_t) (s : execute_pc * machine) :
    option (execute_pc * machine) :=
  let '(pc, m) := s in
  match pc with
  | set_semaphore => Some (wake_thread_up, set_sem (model_side_sem id) m)
  | wake_thread_up => Some (wait_for_answer, mc_wake_thread id m)
  | wait_for_answer => m' ← sem_wait (model_side_sem id) m; Some (consume_signal, m')
  | consume_signal =>
      let '(consumed, m') := try_consume_signal m in
      Some (if consumed then ask_status else executed (Ok (mailboxes m' id)), m')
  | ask_status =>
      let '(w, m') := waitpid pid m in
      Some (match outcome_of id w with
            | None => wait_for_answer
            | Some e => executed (Throw e)
            end, m')
  | executed _ => None
  end.

(** ** The destructor *)

Inductive destroy_pc := kill_process | reap_process | consume_death | reap_any | consume_orphan | destroyed.

(** [pick] is the child, ended, that [waitpid(-1, ..., WNOHANG)] reaps; the effect of
[SIGUSR1] on the process is up to the environment. *)
Definition destroy_step (pick : gmap Z child → option Z) (pid : Z) (should_wait : bool)
    (s : destroy_pc * machine) : option (destroy_pc * machine) :=
  let '(pc, m) := s in
  match pc with
  | kill_process => Some (if bool_decide (pid ≤ 0)%Z then destroyed
                          else if should_wait then reap_process else destroyed, m)
  | reap_process =>
      match waitpid pid m with
      | (unchanged, _) => None
      | (changed _, m') => Some (consume_death, m')
      | (wait_error, m') => Some (destroyed, m')
      end
  | consume_death | consume_orphan => Some (reap_any, (try_consume_signal m).2)
  | reap_any =>
      Some match pick (children m) with
           | Some p => (consume_orphan, set_children (delete p (children m)) m)
           | None => (destroyed, m)
           end
  | destroyed => None
  end.

(** Interleavings of the steps of a method with those of the environment; the list
holds the latter. *)
Section interleaving.
Context {P : Type} (step : P * machine → option (P * machine)).

Inductive interleaves : P * machine → list env_event → P * machine → Prop :=
  | interleaves_nil s : interleaves s [] s
  | interleaves_checker s s1 evs s2 :
      step s = Some s1 → interleaves s1 evs s2 → interleaves s evs s2
  | interleaves_env pc m e evs s2 :
      interleaves (pc, env_step e m) evs s2 → interleaves (pc, m) (e :: evs) s2.

(** A schedule, executed: [None] is a step of the method, if it can take one. *)
Fixpoint run_schedule (sched : list (option env_event)) (s : P * machine) : P * machine :=
  match sched with
  | [] => s
  | None :: sched => run_schedule sched (default s (step s))
  | Some e :: sched => run_schedule sched (s.1, env_step e s.2)
  end.

Lemma run_schedule_interleaves sched s : interleaves s (omap id sched) (run_schedule sched s).
Proof.
  revert s. induction sched as [|[e|] sched IH]; intros s; simpl; [constructor| |].
  - destruct s as [pc m]. apply interleaves_env, IH.
  - destruct (step s) as [s1|] eqn:Hs; simpl; [by eapply interleaves_checker|apply IH].
Qed.

Lemma interleaves_trans s1 evs1 s2 evs2 s3 :
  interleaves s1 evs1 s2 → interleaves s2 evs2 s3 → interleaves s1 (evs1 ++ evs2) s3.
Proof.
  intros Hi Hi2. induction Hi; simpl; [done|eapply interleaves_checker; eauto|apply interleaves_env; eauto].
Qed.

(** An invariant that counts the events of the environment. *)
Lemma interleaves_inv (I : list env_event → P * machine → Prop) s evs s' :
  (∀ l s1 s2, I l s1 → step s1 = Some s2 → I l s2) →
  (∀ l pc m e, I l (pc, m) → I (l ++ [e]) (pc, env_step e m)) →
  ∀ l, I l s → interleaves s evs s' → I (l ++ evs) s'.
Proof.
  intros Hstep Henv l Hl Hi. revert l Hl.
  induction Hi as [|s s1 evs s2 Hs _ IH|pc m e evs s2 _ IH]; intros l Hl.
  - by rewrite app_nil_r.
  - by eapply IH, Hstep.
  - rewrite cons_middle, app_assoc. by apply IH, Henv.
Qed.
End interleaving.

(** ** Lemmas *)

Lemma sems_insert (f : sem → N) s s' n : (<[s := n]> f) s' = if decide (s = s') then n else f s'.
Proof. case_decide; subst; [apply fn_lookup_insert|by apply fn_lookup_insert_ne]. Qed.

Lemma sem_post_below s m :
  (sems m s < SEM_VALUE_MAX)%N → sem_post s m = (true, set_sems (<[s := (sems m s + 1)%N]> (sems m)) m).
Proof. intros Hs. unfold sem_post. by rewrite bool_decide_eq_false_2 by lia. Qed.
(** A post changes nothing but its semaphore. *)
Lemma sem_post_other s s' m : s ≠ s' → sems (sem_post s m).2 s' = sems m s'.
Proof.
  intros Hs. unfold sem_post. case_bool_decide; simpl; [done|]. by rewrite sems_insert, decide_False.
Qed.
Lemma sem_post_frame s m :
  flags (sem_post s m).2 = flags m ∧ handling (sem_post s m).2 = handling m ∧ current_sem (sem_post s m).2 = current_sem m ∧
  mailboxes (sem_post s m).2 = mailboxes m ∧ children (sem_post s m).2 = children m ∧
  cpid (sem_post s m).2 = cpid m.
Proof. unfold sem_post. by case_bool_decide. Qed.

(** ** Posts and signals *)

(** Who posts a semaphore, the handler apart. *)
Definition posts (s : sem) (e : env_event) : bool :=
  match s, e with
  | model_side_sem r, answers r' _ => bool_decide (r = r')
  | mcmini_process_sem, forks _ => true
  | _, _ => false
  end.
Definition posted (s : sem) (l : list env_event) : Prop := Exists (λ e, posts s e = true) l.
Definition count_posts (s : sem) (l : list env_event) : N := N.of_nat (length (filter (λ e, posts s e = true) l)).

Lemma count_posts_snoc s l e :
  count_posts s (l ++ [e]) = (count_posts s l + (if posts s e then 1 else 0))%N.
Proof.
  unfold count_posts. rewrite filter_app, length_app. destruct (posts s e) eqn:He.
  - rewrite filter_cons_True, filter_nil by done. simpl. lia.
  - rewrite filter_cons_False, filter_nil by congruence. simpl. lia.
Qed.
Lemma count_posts_pos s l : (0 < count_posts s l)%N ↔ posted s l.
Proof.
  unfold count_posts, posted. rewrite Exists_exists. split.
  - destruct (filter _ l) as [|e l'] eqn:Hf; simpl; [lia|]. intros _. exists e.
    assert (e ∈ filter (λ e, posts s e = true) l) as Hx by (rewrite Hf; left).
    apply list_elem_of_filter in Hx as [? ?]. done.
  - intros (e & Hin & He). assert (e ∈ filter (λ e, posts s e = true) l) as Hx by by apply list_elem_of_filter.
    destruct (filter _ l); [by apply not_elem_of_nil in Hx|simpl; lia].
Qed.
Lemma posted_snoc_other s l e : posts s e = false → posted s (l ++ [e]) → posted s l.
Proof. intros He [?|Hx]%Exists_app; [done|]. inversion Hx as [? ? Hy|? ? Hy]; [congruence|inversion Hy]. Qed.
Lemma elem_of_snoc_l {A} (x y : A) l : x ∈ l → x ∈ l ++ [y].
Proof. intros. apply elem_of_app. by left. Qed.
Lemma elem_of_snoc_r {A} (x : A) l : x ∈ l ++ [x].
Proof. apply elem_of_app. right. by left. Qed.

(** A semaphore the checker waits on since [m0]: it is [current_sem], so that its
posts are those of the events [l] and one for each signal; [owed] is what was
waited for and not yet accounted for. *)
Record counts (s : sem) (m0 : machine) (l : list env_event) (owed : N) (m : machine) : Prop := Counts {
  ct_current : current_sem m = Some s;
  ct_balance : (sems m s + owed + handling m = count_posts s l + flags m)%N;
  ct_bound : (count_posts s l + flags m ≤ flags m0 + N.of_nat (length l))%N;
}.

(** [set_sem s] has been called, and the semaphore counts as many posts as there are
signals not consumed, but for those of handlers at work: what a method needs to find when it starts to wait. *)
Definition balanced (s : sem) (m : machine) : Prop := current_sem m = Some s ∧ (sems m s + handling m)%N = flags m.

Lemma counts_initial s m : balanced s m → counts s m [] 0 m.
Proof. intros [Hc Hb]. split; [done|unfold count_posts; simpl; lia..]. Qed.

(** An event that posts some semaphore [s'] and is no signal. *)
Lemma counts_post s s' m0 l owed m m1 e :
  (sems m s < SEM_VALUE_MAX)%N → counts s m0 l owed m →
  sems m1 = sems m → flags m1 = flags m → handling m1 = handling m → current_sem m1 = current_sem m →
  posts s e = bool_decide (s = s') → counts s m0 (l ++ [e]) owed (sem_post s' m1).2.
Proof.
  intros Hlt [Hc Hb Hn] Hs Hf Hh Hcs Hp. pose proof (sem_post_frame s' m1) as (Hf' & Hh' & Hcs' & _).
  split; rewrite ?Hcs', ?Hf', ?Hf, ?Hh', ?Hh, ?count_posts_snoc, ?Hp, ?length_app; simpl.
  - by rewrite Hcs.
  - case_bool_decide as Heq.
    + subst s'. rewrite sem_post_below by by rewrite Hs. simpl. rewrite fn_lookup_insert, Hs. lia.
    + rewrite sem_post_other by congruence. rewrite Hs. lia.
  - case_bool_decide; lia.
Qed.

Lemma counts_sigchld s m0 l owed m :
  (flags m + 1 < 2^32)%N → counts s m0 l owed m →
  counts s m0 (l ++ [sigchld]) owed (env_step sigchld m).
Proof.
  intros Hfl [Hc Hb Hn]. assert (u32 (flags m + 1) = (flags m + 1)%N) as Hu by by apply N.mod_small.
  assert (posts s sigchld = false) as Hp by by destruct s.
  split; simpl; [done|..]; rewrite Hu, count_posts_snoc, ?length_app, Hp; simpl; lia.
Qed.
Lemma counts_handler s m0 l owed m :
  (sems m s < SEM_VALUE_MAX)%N → counts s m0 l owed m →
  counts s m0 (l ++ [handler_posts]) owed (env_step handler_posts m).
Proof.
  intros Hlt [Hc Hb Hn]. assert (posts s handler_posts = false) as Hp by by destruct s.
  simpl. unfold signal_tracker_sig_handler_post. case_bool_decide as Hh.
  - split; [done|..]; rewrite count_posts_snoc, ?length_app, Hp; simpl; lia.
  - cbn [current_sem set_handling]. rewrite Hc, sem_post_below by done.
    split; simpl; [done|..]; rewrite count_posts_snoc, ?length_app, ?fn_lookup_insert, Hp; simpl; lia.
Qed.

Lemma counts_env s m0 l owed m e :
  (∀ r, s ≠ child_side_sem r) → s ≠ libmcmini_sem →
  (flags m0 + N.of_nat (length (l ++ [e])) < SEM_VALUE_MAX)%N →
  counts s m0 l owed m → counts s m0 (l ++ [e]) owed (env_step e m).
Proof.
  rewrite length_app. simpl. intros Hs1 Hs2 Hmax Hct. pose proof Hct as [Hc Hb Hn].
  assert (sems m s < SEM_VALUE_MAX)%N as Hlt by lia.
  destruct e as [r mb|p status| | |p].
  - apply (counts_post _ _ _ _ _ m); [done..|].
    destruct s as [r'| | |]; simpl; [|first [done|symmetry; by apply bool_decide_eq_false_2]..].
    apply bool_decide_ext. naive_solver.
  - assert (posts s (ends p status) = false) as Hp by by destruct s.
    split; simpl; [done|rewrite count_posts_snoc, Hp; simpl; lia|
      rewrite count_posts_snoc, length_app, Hp; simpl; lia].
  - apply counts_sigchld; [|done]. unfold SEM_VALUE_MAX in Hmax. lia.
  - by apply counts_handler.
  - apply (counts_post _ _ _ _ _ m); [done..|].
    destruct s; simpl; first [done|symmetry; first [by apply bool_decide_eq_true_2|by apply bool_decide_eq_false_2]].
Qed.

Lemma sem_wait_pos s m :
  (0 < sems m s)%N → sem_wait s m = Some (set_sems (<[s := (sems m s - 1)%N]> (sems m)) m).
Proof. intros Hs. unfold sem_wait. by rewrite bool_decide_eq_false_2 by lia. Qed.

(** Waiting and consuming keep the counts; a wait that blocks, and a check that finds
no signal, tell who has posted. *)
Lemma counts_wait s m0 l m m' : counts s m0 l 0 m → sem_wait s m = Some m' → counts s m0 l 1 m'.
Proof.
  intros [Hc Hb Hn]. unfold sem_wait. case_bool_decide as Hz; [done|]. intros [= <-].
  split; simpl; [done| |done]. rewrite fn_lookup_insert. lia.
Qed.
Lemma counts_consume s m0 l m m' :
  counts s m0 l 1 m → try_consume_signal m = (true, m') → counts s m0 l 0 m'.
Proof.
  intros [Hc Hb Hn]. unfold try_consume_signal, has_signal. case_bool_decide as Hz; [|done]. intros [= <-].
  split; simpl; [done|lia..].
Qed.
Lemma counts_blocked s m0 l m :
  counts s m0 l 0 m → sem_wait s m = None → handling m = 0%N → ¬ posted s l ∧ flags m = 0%N.
Proof.
  intros [_ Hb _]. unfold sem_wait. case_bool_decide as Hz; [|done]. intros _ Hh.
  rewrite <- count_posts_pos. lia.
Qed.
Lemma counts_no_signal s m0 l m m' :
  counts s m0 l 1 m → try_consume_signal m = (false, m') → posted s l ∧ m' = m.
Proof.
  intros [_ Hb _]. unfold try_consume_signal, has_signal. case_bool_decide as Hz; [done|]. intros [= <-].
  rewrite <- count_posts_pos. split; [lia|done].
Qed.

(** ** The invariant of [execute_runner] *)

Section execute_runner.
Context (pid : Z) (id : runner_id_t).
Abbreviation step := (execute_runner_step pid id).
Abbreviation mine := (model_side_sem id).
Abbreviation answered := (posted mine).

(** What [waitpid] can say of the process, given what ended so far. *)
Definition known_status (m0 : machine) (l : list env_event) (w : wait_result) : Prop :=
  match w with
  | unchanged => False
  | changed status => children m0 !! pid = Some (zombie status) ∨ ends pid status ∈ l
  | wait_error => children m0 !! pid = None
  end.

(** Posts of the semaphore that were waited for and not yet accounted for. *)
Definition owed (pc : execute_pc) : N := match pc with consume_signal => 1 | _ => 0 end.

(** What the mailbox and the child show of the events. *)
Record observed (m0 : machine) (l : list env_event) (m : machine) : Prop := Observed {
  ob_mailbox : answered l → answers id (mailboxes m id) ∈ l;
  ob_child : children m !! pid = children m0 !! pid ∨
    ∃ status, ends pid status ∈ l ∧ children m !! pid = Some (zombie status);
}.

(** Before the end the counts hold; at the end the outcome is justified. *)
Definition execute_inv (m0 : machine) (l : list env_event) (s : execute_pc * machine) : Prop :=
  (flags m0 + N.of_nat (length l) < SEM_VALUE_MAX)%N →
  match s.1 with
  | set_semaphore => False
  | executed (Ok mb) => answers id mb ∈ l
  | executed (Throw e) => ∃ w, known_status m0 l w ∧ outcome_of id w = Some e
  | pc => counts mine m0 l (owed pc) s.2 ∧ observed m0 l s.2
  end.

Lemma observed_frame m0 l m e m1 :
  posts mine e = false → mailboxes m1 id = mailboxes m id → children m1 !! pid = children m !! pid →
  observed m0 l m → observed m0 (l ++ [e]) m1.
Proof.
  intros He Hmb Hch [Hm Hc]. split.
  - intros Ha. rewrite Hmb. apply elem_of_snoc_l, Hm. by eapply posted_snoc_other.
  - rewrite Hch. destruct Hc as [?|(st & ? & ?)]; [by left|right]. exists st. split; [by apply elem_of_snoc_l|done].
Qed.

Lemma observed_env m0 l m e : observed m0 l m → observed m0 (l ++ [e]) (env_step e m).
Proof.
  intros Hob. destruct e as [r mb|p status| | |p].
  - destruct (decide (id = r)) as [<-|Hr].
    + destruct Hob as [_ Hc]. simpl. destruct (sem_post_frame mine (set_mailboxes (<[id := mb]> (mailboxes m)) m))
        as (_ & _ & _ & Hmb & Hch & _). split.
      * intros _. rewrite Hmb. simpl. rewrite fn_lookup_insert. apply elem_of_snoc_r.
      * rewrite Hch. simpl. destruct Hc as [?|(st & ? & ?)]; [by left|right].
        exists st. split; [by apply elem_of_snoc_l|done].
    + simpl. set (m1 := set_mailboxes _ m).
      destruct (sem_post_frame (model_side_sem r) m1) as (_ & _ & _ & Hmb & Hch & _).
      apply (observed_frame _ _ m); [by apply bool_decide_eq_false_2| |by rewrite Hch|done].
      rewrite Hmb. simpl. by rewrite fn_lookup_insert_ne.
  - destruct (decide (p = pid)) as [->|Hp].
    + split; simpl.
      * intros Ha. apply elem_of_snoc_l, Hob. by eapply posted_snoc_other; [|exact Ha].
      * right. exists status. rewrite lookup_insert_eq. split; [apply elem_of_snoc_r|done].
    + apply (observed_frame _ _ m); [done|done| |done]. simpl. by rewrite lookup_insert_ne.
  - by apply (observed_frame _ _ m).
  - simpl. unfold signal_tracker_sig_handler_post. case_bool_decide; [by apply (observed_frame _ _ m)|]. simpl.
    destruct (current_sem m) as [s|]; [|by apply (observed_frame _ _ m)].
    destruct (sem_post_frame s (set_handling (handling m - 1) m)) as (_ & _ & _ & Hmb & Hch & _).
    apply (observed_frame _ _ m); [done|by rewrite Hmb|by rewrite Hch|done].
  - simpl. destruct (sem_post_frame mcmini_process_sem (set_cpid p m)) as (_ & _ & _ & Hmb & Hch & _).
    apply (observed_frame _ _ m); [done|by rewrite Hmb|by rewrite Hch|done].
Qed.

Lemma execute_inv_env m0 l pc m e :
  execute_inv m0 l (pc, m) → execute_inv m0 (l ++ [e]) (pc, env_step e m).
Proof.
  unfold execute_inv. intros Hi Hmax. pose proof Hmax as Hmax'. rewrite length_app in Hmax'. simpl in Hmax'.
  specialize (Hi ltac:(lia)). simpl in *.
  assert (∀ n, counts mine m0 l n m ∧ observed m0 l m →
    counts mine m0 (l ++ [e]) n (env_step e m) ∧ observed m0 (l ++ [e]) (env_step e m)) as Hgo.
  { intros n [Hct Hob]. split; [by apply counts_env|by apply observed_env]. }
  destruct pc as [| | | | |[mb|ex]]; [done|by apply Hgo..| |].
  - by apply elem_of_snoc_l.
  - destruct Hi as (w & Hw & He). exists w. split; [|done].
    destruct w as [|st|]; simpl in *; [done| |done]. destruct Hw; [by left|right; by apply elem_of_snoc_l].
Qed.

Lemma execute_inv_step m0 l s1 s2 : execute_inv m0 l s1 → step s1 = Some s2 → execute_inv m0 l s2.
Proof.
  destruct s1 as [pc m]. unfold execute_inv. intros Hi Hs Hmax. specialize (Hi Hmax). simpl in Hi.
  destruct pc; simpl in Hs; [done| | | | |done]; destruct Hi as [Hct [Hm Hch]].
  - injection Hs as <-. simpl. split; [|by split]. by destruct Hct.
  - destruct (sem_wait mine m) as [m'|] eqn:Hw; [|done]. injection Hs as <-. simpl.
    split; [by eapply counts_wait|]. unfold sem_wait in Hw. case_bool_decide; [done|]. injection Hw as <-. by split.
  - destruct (try_consume_signal m) as [[] m'] eqn:Ht; injection Hs as <-; simpl.
    + split; [by eapply counts_consume|]. unfold try_consume_signal in Ht. destruct (has_signal m); [|done].
      injection Ht as <-. by split.
    + destruct (counts_no_signal _ _ _ _ _ Hct Ht) as [Ha ->]. by apply Hm.
  - unfold waitpid in Hs. destruct (children m !! pid) as [[|st]|] eqn:Hp; simpl in Hs; injection Hs as <-.
    + split; [done|]. split; simpl; rewrite ?Hp; done.
    + assert (known_status m0 l (changed st)) as Hk.
      { destruct Hch as [Hch|(st' & ? & [= <-])]; [left; congruence|by right]. }
      destruct st; simpl; eexists; (split; [exact Hk|done]).
    + exists wait_error. destruct Hch as [Hch|(st' & ? & ?)]; [|done]. split; [simpl; congruence|done].
Qed.

Lemma execute_inv_reached m evs s :
  balanced mine m → interleaves step (wake_thread_up, m) evs s → execute_inv m evs s.
Proof.
  intros Hb Hi. apply (interleaves_inv step (execute_inv m) _ evs s) with (l := []) in Hi; [done|..].
  - intros l s1 s2. apply execute_inv_step.
  - intros l pc m1 e. apply execute_inv_env.
  - intros _. simpl. split; [by apply counts_initial|]. split; [by intros ?%Exists_nil|by left].
Qed.

(** ** Running alone *)

(** What the method has, when it goes on waiting, to come to an end: posts for all
the signals and for an answer, or a signal and a process that ended. *)
Definition enough (m : machine) : Prop :=
  (flags m < sems m mine)%N ∨
  (0 < flags m)%N ∧ sems m mine = flags m ∧ children m !! pid ≠ Some running_child.

Lemma ask_status_alone m :
  children m !! pid ≠ Some running_child →
  ∃ out m', step (ask_status, m) = Some (executed out, m').
Proof.
  intros Hch. simpl. unfold waitpid. destruct (children m !! pid) as [[|st]|]; simpl; [done| |eauto].
  destruct st; simpl; eauto.
Qed.

Lemma wait_alone n m :
  flags m = n → enough m → ∃ out m', interleaves step (wait_for_answer, m) [] (executed out, m').
Proof.
  revert m. induction n as [|n IH] using N.peano_ind; intros m Hf Hen.
  - assert (0 < sems m mine)%N as Hs by (destruct Hen as [?|[? _]]; lia).
    do 2 eexists. eapply interleaves_checker; [simpl; by rewrite sem_wait_pos|].
    eapply interleaves_checker; [simpl; unfold try_consume_signal, has_signal; simpl|apply interleaves_nil].
    by rewrite bool_decide_eq_false_2 by lia.
  - assert (0 < sems m mine)%N as Hs by (destruct Hen as [?|[? [? _]]]; lia).
    set (m1 := set_flags n (set_sems (<[mine := (sems m mine - 1)%N]> (sems m)) m)).
    assert (∃ out m', interleaves step (ask_status, m1) [] (executed out, m')) as (out & m' & Hrun).
    { destruct (decide (children m1 !! pid = Some running_child)) as [Hch|Hch].
      - destruct (IH m1) as (out & m' & Hrun); [done| |].
        { destruct Hen as [Hlt|(_ & _ & Hx)]; [left|done]. simpl. rewrite fn_lookup_insert. lia. }
        exists out, m'. eapply interleaves_checker; [|exact Hrun]. simpl in *. unfold waitpid. simpl. by rewrite Hch.
      - destruct (ask_status_alone m1 Hch) as (out & m' & Hstep). exists out, m'.
        eapply interleaves_checker; [exact Hstep|constructor]. }
    exists out, m'. eapply interleaves_checker; [simpl; by rewrite sem_wait_pos|].
    eapply interleaves_checker; [|exact Hrun]. simpl. unfold try_consume_signal, has_signal. simpl.
    rewrite bool_decide_eq_true_2 by lia. unfold m1. do 3 f_equal. lia.
Qed.
Lemma interleaves_step s1 s2 evs s3 :
  step s1 = Some s2 → interleaves step s2 evs s3 → interleaves step s1 evs s3.
Proof. apply interleaves_checker. Qed.

(** From [ask_status] on: the method ends, or the process runs and it waits. *)
Lemma ask_alone m :
  children m !! pid ≠ Some running_child ∨ (flags m < sems m mine)%N →
  ∃ out m', interleaves step (ask_status, m) [] (executed out, m').
Proof.
  intros Hor. destruct (decide (children m !! pid = Some running_child)) as [Hch|Hch].
  - destruct Hor as [Hx|Hlt]; [done|]. destruct (wait_alone (flags m) m) as (out & m' & Hrun); [done|by left|].
    exists out, m'. eapply interleaves_step; [|exact Hrun]. simpl. unfold waitpid. by rewrite Hch.
  - destruct (ask_status_alone m Hch) as (out & m' & Hs). exists out, m'.
    eapply interleaves_step; [exact Hs|constructor].
Qed.

Lemma counts_alone m0 l pc m :
  counts mine m0 l (owed pc) m → handling m = 0%N → (∀ out, pc ≠ executed out) → pc ≠ set_semaphore →
  answered l ∨ (children m !! pid ≠ Some running_child ∧ (0 < flags m)%N) →
  ∃ out m', interleaves step (pc, m) [] (executed out, m').
Proof.
  intros [Hc Hb Hn] Hh Hpc Hset Hor. rewrite <- count_posts_pos in Hor.
  destruct pc; simpl in Hb; [done| | | | |by destruct (Hpc out)].
  - destruct (wait_alone (flags m) (mc_wake_thread id m)) as (out & m' & Hrun); [done| |].
    + unfold enough. simpl. rewrite fn_lookup_insert_ne by done. destruct Hor as [?|[? ?]]; [left; lia|].
      destruct (decide (flags m < sems m mine)%N); [by left|right]. split_and!; [done|lia|done].
    + exists out, m'. by eapply interleaves_step.
  - apply (wait_alone (flags m)); [done|]. unfold enough.
    destruct Hor as [?|[? ?]]; [left; lia|].
    destruct (decide (flags m < sems m mine)%N); [by left|right]. split_and!; [done|lia|done].
  - destruct (decide (flags m = 0)%N) as [Hz|Hz].
    + do 2 eexists. eapply interleaves_step; [|constructor]. simpl.
      unfold try_consume_signal, has_signal. by rewrite bool_decide_eq_false_2 by lia.
    + destruct (ask_alone (set_flags (flags m - 1) m)) as (out & m' & Hrun).
      { simpl. destruct Hor as [?|[? ?]]; [right; lia|by left]. }
      exists out, m'. eapply interleaves_step; [|exact Hrun]. simpl.
      unfold try_consume_signal, has_signal. by rewrite bool_decide_eq_true_2 by lia.
  - apply ask_alone. destruct Hor as [?|[? ?]]; [right; lia|by left].
Qed.

(** C23: what [execute_runner] reports, whatever happens between its steps.  Once
[set_sem] has been called with as many posts in the semaphore as signals pending:
the mailbox it returns is an answer of that runner to that call; an exception is
the one for what [waitpid] says of that process, which ended or was no child from
the start; and it blocks, while no handler is at work, only as long as the runner
has not answered and no [SIGCHLD] is left. *)
Theorem execute_runner_outcomes m evs pc m' :
  balanced mine m → (flags m + N.of_nat (length evs) < SEM_VALUE_MAX)%N →
  interleaves step (wake_thread_up, m) evs (pc, m') →
  match pc with
  | executed (Ok mb) => answers id mb ∈ evs
  | executed (Throw e) => ∃ w, known_status m evs w ∧ outcome_of id w = Some e
  | _ => step (pc, m') = None → handling m' = 0%N → ¬ answered evs ∧ flags m' = 0%N
  end.
Proof.
  intros Hbal Hmax Hi. pose proof (execute_inv_reached _ _ _ Hbal Hi Hmax) as Hinv. simpl in Hinv.
  destruct pc; simpl in *; try done.
  - destruct (sem_wait mine m') eqn:Hw; [done|]. intros _ ?. by eapply counts_blocked; [apply Hinv|..].
  - unfold try_consume_signal. by destruct (has_signal m').
  - by destruct (waitpid pid m').
Qed.

(** [execute_runner] comes to an end.  From any state it can reach, when the
handlers have posted and the runner has answered, or the process is gone and a
[SIGCHLD] is still pending, the method returns or throws by its own steps. *)
Theorem execute_runner_returns m evs pc m' :
  balanced mine m → (flags m + N.of_nat (length evs) < SEM_VALUE_MAX)%N →
  interleaves step (wake_thread_up, m) evs (pc, m') →
  handling m' = 0%N →
  answered evs ∨ (children m' !! pid ≠ Some running_child ∧ (0 < flags m')%N) →
  ∃ out m'', interleaves step (pc, m') [] (executed out, m'').
Proof.
  intros Hbal Hmax Hi Hh Hor. pose proof (execute_inv_reached _ _ _ Hbal Hi Hmax) as Hinv. simpl in Hinv.
  destruct pc as [| | | | |out]; [done|by eapply counts_alone; [apply Hinv|..]..|]. exists out, m'. constructor.
Qed.

(** A [SIGCHLD] left from before loses an answer.  When the counter of signals
is ahead of the semaphore by one (the handler ran after the last check and posted
the semaphore of another runner), the method takes the post of the runner's answer
for that of the signal, sees that the process is alive, and blocks for ever. *)
Theorem leftover_signal_loses_answer m mb :
  flags m = 1%N → sems m mine = 0%N → children m !! pid = Some running_child →
  ∃ m', interleaves step (set_semaphore, m) [answers id mb] (wait_for_answer, m') ∧
    step (wait_for_answer, m') = None ∧ flags m' = 0%N ∧ mailboxes m' id = mb.
Proof.
  intros Hf Hs Hch. set (m0 := mc_wake_thread id (set_sem mine m)). set (m1 := env_step (answers id mb) m0).
  assert (sems m0 mine = 0%N) as Hs0 by (simpl; by rewrite fn_lookup_insert_ne).
  assert (m1 = set_sems (<[mine := 1%N]> (sems m0)) (set_mailboxes (<[id := mb]> (mailboxes m)) m0)) as Hm1.
  { unfold m1. cbn [env_step]. rewrite sem_post_below by (cbn [sems set_mailboxes set_sems]; by rewrite Hs0).
    cbn [sems set_mailboxes snd]. by rewrite Hs0. }
  assert (sems m1 mine = 1%N) as Hs1 by (rewrite Hm1; simpl; by rewrite fn_lookup_insert).
  assert (flags m1 = 1%N ∧ children m1 = children m ∧ mailboxes m1 id = mb) as (Hf1 & Hch1 & Hmb1).
  { rewrite Hm1. simpl. by rewrite fn_lookup_insert. }
  set (m2 := set_sems (<[mine := (sems m1 mine - 1)%N]> (sems m1)) m1).
  exists (set_flags 0 m2). split_and!.
  - do 2 (eapply interleaves_step; [done|]). apply interleaves_env. fold m0 m1.
    eapply interleaves_step; [simpl; by rewrite sem_wait_pos by lia|].
    eapply interleaves_step; [simpl; unfold try_consume_signal, has_signal; simpl; by rewrite Hf1|].
    eapply interleaves_step; [simpl; unfold waitpid; simpl; by rewrite Hch1, Hch|]. constructor.
  - simpl. unfold sem_wait. simpl. by rewrite fn_lookup_insert, Hs1.
  - done.
  - done.
Qed.
End execute_runner.

(** ** The destructor cleans up *)

Section destroy.
Context (pick : gmap Z child → option Z) (pid : Z).

Definition ended (c : child) : Prop := ∃ status, c = zombie status.
#[export] Instance ended_dec c : Decision (ended c).
Proof. destruct c as [|st]; [right; by intros []|left; by exists st]. Defined.
Definition zombies (c : gmap Z child) : gmap Z child := filter (λ pc, ended pc.2) c.

(** What [waitpid(-1, ..., WNOHANG)] is documented to do. *)
Definition reaps_any : Prop := ∀ c,
  match pick c with
  | Some p => is_Some (zombies c !! p)
  | None => zombies c = ∅
  end.

Lemma zombies_delete p c : zombies (delete p c) = delete p (zombies c).
Proof. unfold zombies. by rewrite map_filter_delete. Qed.

Lemma consumed_flags m : flags (try_consume_signal m).2 = (flags m - 1)%N ∧ children (try_consume_signal m).2 = children m.
Proof.
  unfold try_consume_signal, has_signal. case_bool_decide; simpl; [done|]. split; [lia|done].
Qed.

Lemma drain_alone n m :
  reaps_any → size (zombies (children m)) = n →
  ∃ m', interleaves (destroy_step pick pid true) (reap_any, m) [] (destroyed, m') ∧
    zombies (children m') = ∅ ∧ flags m' = (flags m - N.of_nat n)%N ∧
    ∀ p, children m !! p = Some running_child ↔ children m' !! p = Some running_child.
Proof.
  intros Hpick. revert m. induction n as [|n IH]; intros m Hn.
  - exists m. pose proof (Hpick (children m)) as Hp.
    apply map_size_empty_iff in Hn. split_and!; [|done|lia|done].
    eapply interleaves_checker; [simpl|constructor].
    destruct (pick (children m)) as [p|]; [|done]. rewrite Hn, lookup_empty in Hp. by destruct Hp.
  - pose proof (Hpick (children m)) as Hp. destruct (pick (children m)) as [p|] eqn:Hpk.
    2:{ rewrite Hp, map_size_empty in Hn. done. }
    set (m1 := set_children (delete p (children m)) m). destruct (consumed_flags m1) as [Hf1 Hc1].
    destruct (IH (try_consume_signal m1).2) as (m' & Hrun & Hz & Hf & Hr).
    { rewrite Hc1. simpl. rewrite zombies_delete, map_size_delete.
      destruct Hp as [x Hx]. rewrite Hx, Hn. lia. }
    exists m'. split_and!; [|done| |].
    + eapply interleaves_checker; [simpl; by rewrite Hpk|]. by eapply interleaves_checker.
    + rewrite Hf, Hf1. simpl. lia.
    + intros q. rewrite <- Hr, Hc1. simpl. rewrite lookup_delete_Some.
      destruct Hp as [x Hx]. apply map_lookup_filter_Some in Hx as [Hx [st Hst]]. simpl in Hst.
      split; [|by intros [_ ?]]. intros Hq. split; [|done]. intros <-. congruence.
Qed.

(** The destructor of a process that is waited for.  Once the process has ended,
it reaps it and every other child that has ended, takes back one [SIGCHLD] for
each, and leaves the children that run: if no more signals were delivered than
children ended, the next process finds none. *)
Theorem destructor_takes_signals_back m status :
  reaps_any → (0 < pid)%Z → children m !! pid = Some (zombie status) →
  ∃ m', interleaves (destroy_step pick pid true) (kill_process, m) [] (destroyed, m') ∧
    zombies (children m') = ∅ ∧ flags m' = (flags m - N.of_nat (size (zombies (children m))))%N ∧
    ∀ p, children m !! p = Some running_child ↔ children m' !! p = Some running_child.
Proof.
  intros Hpick Hpid Hch. set (m1 := set_children (delete pid (children m)) m).
  destruct (consumed_flags m1) as [Hf1 Hc1].
  assert (zombies (children m) !! pid = Some (zombie status)) as Hz.
  { apply map_lookup_filter_Some. split; [done|]. by exists status. }
  assert (size (zombies (children m)) = S (size (zombies (children m1)))) as Hsize.
  { simpl. rewrite zombies_delete, map_size_delete, Hz. simpl.
    assert (size (zombies (children m)) ≠ 0); [|lia].
    apply map_size_non_empty_iff. intros He. rewrite He, lookup_empty in Hz. done. }
  destruct (drain_alone (size (zombies (children m1))) (try_consume_signal m1).2) as (m' & Hrun & Hz' & Hf & Hr);
    [done|by rewrite Hc1|].
  exists m'. split_and!; [|done| |].
  - eapply interleaves_checker; [simpl; by rewrite bool_decide_eq_false_2 by lia|].
    eapply interleaves_checker; [simpl; unfold waitpid; by rewrite Hch|]. by eapply interleaves_checker.
  - rewrite Hf, Hf1, Hsize. simpl. lia.
  - intros q. rewrite <- Hr, Hc1. simpl. rewrite lookup_delete_Some. split; [|by intros [_ ?]].
    intros Hq. split; [|done]. intros <-. congruence.
Qed.
End destroy.
