(* ===== verification/ProcessSource.v ===== *)
(** * Process sources

[fork_process_source::make_new_process] and the two [make_new_template_process]
([src/mcmini/real_world/fork_process_source.cpp]), with the reset of the shared
semaphores ([resources.cpp]), as machines over the state of [LinuxProcess.v].  The
source's own field, the handle of the template process, is part of the program
counter.  [target::launch_dont_wait], which forks and executes a program, is an
outcome given to the machine. *)

From stdpp Require Import functions.
From stdpp Require Import options.
From S2P Require Import Prelude Coordinator LinuxProcess.

(** ** [xpc_resources] *)

(** [mc_runner_mailbox_init]: the payload is cleared, the type is not. *)
Definition mc_runner_mailbox_init (mb : runner_mailbox) : runner_mailbox :=
  RunnerMailbox (type mb) (replicate 64 0%N).

Definition of_mailbox (s : sem) : bool :=
  match s with
  | model_side_sem r | child_side_sem r => bool_decide (r < MAX_TOTAL_THREADS_IN_PROGRAM)%N
  | _ => false
  end.
Definition reset_binary_semaphores_for_new_branch (m : machine) : machine :=
  set_mailboxes (λ r, if bool_decide (r < MAX_TOTAL_THREADS_IN_PROGRAM)%N
                      then mc_runner_mailbox_init (mailboxes m r) else mailboxes m r)
    (set_sems (λ s, if of_mailbox s then 0%N else sems m s) m).

(** ** [make_new_process] *)

Definition TEMPLATE_FORK_FAILED : Z := -2.

Inductive source_pc :=
  | reset_semaphores
  | select_ready_semaphore        (* multithreaded_fork_process_source only *)
  | launch_template
  | wait_until_ready (tpid : Z)
  | check_template_alive (tpid : Z) (acquired : bool)
  | check_death
  | select_semaphore
  | request_fork
  | wait_for_fork
  | check_death_again
  | read_cpid
  | made (out : res Z).

Section source.
(** [multithreaded] is the dynamic type of the source, [launched] what
[launch_dont_wait] gives. *)
Context (multithreaded : bool) (launched : res Z).

(** [waitid] with [WNOWAIT]: the child has ended and stays to be reaped. *)
Definition template_died (tpid : Z) (m : machine) : bool :=
  match children m !! tpid with Some (zombie _) => true | _ => false end.

Definition failed : source_pc := made (Throw ProcessCreationError).

(** [s.1] holds the program counter and [template_process_handle]. *)
Definition make_new_process_step (s : source_pc * option Z * machine) : option (source_pc * option Z * machine) :=
  let '(pc, template, m) := s in
  match pc with
  | reset_semaphores =>
      Some (match template with
            | Some _ => check_death
            | None => if multithreaded then select_ready_semaphore else launch_template
            end, template, reset_binary_semaphores_for_new_branch m)
  | select_ready_semaphore => Some (launch_template, template, set_sem mcmini_process_sem m)
  | launch_template =>
      Some match launched with
           | Throw e => (made (Throw e), None, m)
           | Ok tpid => (if multithreaded then wait_until_ready tpid else check_death, Some tpid,
                         set_children (<[tpid := running_child]> (children m)) m)
           end
  | wait_until_ready tpid =>
      Some match sem_wait mcmini_process_sem m with
           | Some m' => (check_template_alive tpid true, template, m')
           | None => (check_template_alive tpid false, template, m)      (* the time is up *)
           end
  | check_template_alive tpid acquired =>
      Some (if template_died tpid m then (failed, None, m)
            else (if acquired then check_death else wait_until_ready tpid, template, m))
  | check_death =>
      let '(consumed, m') := try_consume_signal m in
      Some (if consumed then (failed, None, m') else (select_semaphore, template, m'))
  | select_semaphore => Some (request_fork, template, set_sem mcmini_process_sem m)
  | request_fork =>
      let '(ok, m') := sem_post libmcmini_sem m in
      Some (if ok then wait_for_fork else failed, template, m')
  | wait_for_fork =>
      m' ← sem_wait mcmini_process_sem m; Some (check_death_again, template, m')
  | check_death_again =>
      let '(consumed, m') := try_consume_signal m in
      Some (if consumed then (failed, None, m') else (read_cpid, template, m'))
  | read_cpid =>
      Some (made (if bool_decide (cpid m = TEMPLATE_FORK_FAILED) then Throw ProcessCreationError
                  else Ok (cpid m)), template, m)
  | made _ => None
  end.
Abbreviation step := make_new_process_step.

(** A run goes on by a step or an event. *)
Lemma interleaves_snoc_step s l s1 s2 : interleaves step s l s1 → step s1 = Some s2 → interleaves step s l s2.
Proof. induction 1; intros Hs; [by eapply interleaves_checker; [|constructor]|eapply interleaves_checker; eauto|constructor; auto]. Qed.
Lemma interleaves_snoc_env s l pc m e : interleaves step s l (pc, m) → interleaves step s (l ++ [e]) (pc, env_step e m).
Proof.
  remember (pc, m) as s' eqn:Hs'. induction 1 as [s|s s1 evs s2 Hs _ IH|pc0 m0 e0 evs s2 _ IH]; subst.
  - do 2 constructor.
  - eapply interleaves_checker; eauto.
  - simpl. constructor. by apply IH.
Qed.

(** ** From the call to the answer *)

(** The semaphore while the method runs, whatever [current_sem] is: it counts every post of the
events not waited for yet, and beyond those no more than there are signals left. *)
Record waiting (m0 : machine) (l : list env_event) (owed : N) (m : machine) : Prop := Waiting {
  wt_posts : (count_posts mcmini_process_sem l ≤ sems m mcmini_process_sem + owed)%N;
  wt_signals : (sems m mcmini_process_sem + owed + handling m ≤ count_posts mcmini_process_sem l + flags m)%N;
  wt_bound : (count_posts mcmini_process_sem l + flags m ≤ flags m0 + N.of_nat (length l))%N;
  wt_cpid : posted mcmini_process_sem l → forks (cpid m) ∈ l;
  wt_flags : (0 < flags m)%N → (0 < flags m0)%N ∨ sigchld ∈ l;
}.
(** No signal is without its post, but those of handlers at work. *)
Definition all_heard (l : list env_event) (owed : N) (m : machine) : Prop :=
  (sems m mcmini_process_sem + owed + handling m = count_posts mcmini_process_sem l + flags m)%N.
(** A [SIGCHLD] came after the test for one and before [set_sem]: its handler may have posted
another semaphore. *)
Definition unheard (s0 : source_pc * option Z * machine) (l : list env_event) : Prop :=
  ∃ l1 l2 t m1, l = l1 ++ l2 ∧ interleaves step s0 l1 (select_semaphore, t, m1) ∧ sigchld ∈ l1.

(** Why the source gives up. *)
Definition failure (m0 : machine) (l : list env_event) : Prop :=
  (SEM_VALUE_MAX ≤ sems m0 libmcmini_sem)%N ∨ (0 < flags m0)%N ∨ sigchld ∈ l ∨
  forks TEMPLATE_FORK_FAILED ∈ l.

Definition early (s0 : source_pc * option Z * machine) (l : list env_event) (t : option Z) (m : machine) : Prop :=
  waiting s0.2 l 0 m ∧ t = s0.1.2 ∧ is_Some t ∧ sems m libmcmini_sem = sems s0.2 libmcmini_sem ∧
  current_sem m ≠ Some libmcmini_sem.
Definition late (s0 : source_pc * option Z * machine) (l : list env_event) (owed : N) (t : option Z) (m : machine) : Prop :=
  waiting s0.2 l owed m ∧ t = s0.1.2 ∧ current_sem m = Some mcmini_process_sem ∧ (all_heard l owed m ∨ unheard s0 l).
Definition source_inv (s0 : source_pc * option Z * machine) (l : list env_event) (s : source_pc * option Z * machine) : Prop :=
  (flags s0.2 + N.of_nat (length l) < SEM_VALUE_MAX)%N →
  match s with
  | (reset_semaphores, t, m) | (check_death, t, m) => early s0 l t m ∧ interleaves step s0 l s
  | (select_semaphore, t, m) => early s0 l t m ∧ interleaves step s0 l s ∧ (flags m = 0%N ∨ sigchld ∈ l)
  | (request_fork, t, m) => late s0 l 0 t m ∧ sems m libmcmini_sem = sems s0.2 libmcmini_sem
  | (wait_for_fork, t, m) => late s0 l 0 t m
  | (check_death_again, t, m) => late s0 l 1 t m
  | (read_cpid, t, m) => forks (cpid m) ∈ l ∧ t = s0.1.2
  | (made (Ok pid), t, _) => forks pid ∈ l ∧ pid ≠ TEMPLATE_FORK_FAILED ∧ t = s0.1.2
  | (made (Throw e), _, _) => e = ProcessCreationError ∧ failure s0.2 l
  | _ => False
  end.

Lemma handler_frame m :
  flags (signal_tracker_sig_handler_post m) = flags m ∧ cpid (signal_tracker_sig_handler_post m) = cpid m ∧
  children (signal_tracker_sig_handler_post m) = children m.
Proof.
  unfold signal_tracker_sig_handler_post. case_bool_decide; [done|]. simpl.
  destruct (current_sem m) as [s|]; [|done].
  by destruct (sem_post_frame s (set_handling (handling m - 1) m)) as (-> & _ & _ & _ & -> & ->).
Qed.

Lemma cpid_env l e m :
  (posted mcmini_process_sem l → forks (cpid m) ∈ l) →
  posted mcmini_process_sem (l ++ [e]) → forks (cpid (env_step e m)) ∈ l ++ [e].
Proof.
  intros Hc Ha.
  assert (posts mcmini_process_sem e = false → forks (cpid m) ∈ l ++ [e]) as Hold.
  { intros He. apply elem_of_snoc_l, Hc. by eapply posted_snoc_other. }
  destruct e as [r mb|p status| | |p]; simpl.
  - destruct (sem_post_frame (model_side_sem r) (set_mailboxes (<[r := mb]> (mailboxes m)) m))
      as (_ & _ & _ & _ & _ & ->). by apply Hold.
  - by apply Hold.
  - by apply Hold.
  - destruct (handler_frame m) as (_ & -> & _). by apply Hold.
  - destruct (sem_post_frame mcmini_process_sem (set_cpid p m)) as (_ & _ & _ & _ & _ & ->).
    apply elem_of_snoc_r.
Qed.

Lemma flags_env m0 l e m :
  ((0 < flags m)%N → (0 < flags m0)%N ∨ sigchld ∈ l) →
  (0 < flags (env_step e m))%N → (0 < flags m0)%N ∨ sigchld ∈ l ++ [e].
Proof.
  intros Hf.
  assert ((0 < flags m)%N → (0 < flags m0)%N ∨ sigchld ∈ l ++ [e]) as Hold.
  { intros [?|?]%Hf; [by left|right; by apply elem_of_snoc_l]. }
  destruct e as [r mb|p status| | |p]; simpl.
  - by destruct (sem_post_frame (model_side_sem r) (set_mailboxes (<[r := mb]> (mailboxes m)) m)) as (-> & _).
  - done.
  - intros _. right. apply elem_of_snoc_r.
  - by destruct (handler_frame m) as (-> & _).
  - by destruct (sem_post_frame mcmini_process_sem (set_cpid p m)) as (-> & _).
Qed.

(** What an event does to the semaphore and the signals. *)
Lemma env_effect e m : (sems m mcmini_process_sem < SEM_VALUE_MAX)%N → (flags m + 1 < 2^32)%N →
  let m' := env_step e m in let p : N := if posts mcmini_process_sem e then 1%N else 0%N in
  flags m' = (flags m + match e with sigchld => 1 | _ => 0 end)%N ∧
  (sems m mcmini_process_sem + p ≤ sems m' mcmini_process_sem)%N ∧
  (sems m' mcmini_process_sem + handling m' + flags m ≤ sems m mcmini_process_sem + handling m + flags m' + p)%N ∧
  (current_sem m = Some mcmini_process_sem →
   (sems m' mcmini_process_sem + handling m' + flags m)%N = (sems m mcmini_process_sem + handling m + flags m' + p)%N).
Proof.
  intros Hs Hf. destruct e as [r mb|p st| | |p]; cbn [posts env_step].
  - destruct (sem_post_frame (model_side_sem r) (set_mailboxes (<[r := mb]> (mailboxes m)) m)) as (-> & -> & _).
    rewrite sem_post_other by done. simpl. split_and!; [lia..|intros _; lia].
  - simpl. split_and!; [lia..|intros _; lia].
  - unfold signal_tracker_sig_handler_enter, set_signal. cbn.
    unfold u32. rewrite N.mod_small by lia. split_and!; [lia..|intros _; lia].
  - destruct (handler_frame m) as (-> & _).
    unfold signal_tracker_sig_handler_post. case_bool_decide as Hh; [split_and!; [lia..|intros _; lia]|]. cbn [current_sem set_handling].
    destruct (current_sem m) as [s|] eqn:Hc; [|simpl; split_and!; [lia..|done]].
    destruct (sem_post_frame s (set_handling (handling m - 1) m)) as (_ & -> & _).
    destruct (decide (s = mcmini_process_sem)) as [->|Hne].
    + rewrite sem_post_below by done. simpl. rewrite fn_lookup_insert. split_and!; [lia..|intros _; lia].
    + rewrite sem_post_other by done. simpl. split_and!; [lia..|]. intros [= ?]. done.
  - destruct (sem_post_frame mcmini_process_sem (set_cpid p m)) as (-> & -> & _).
    rewrite sem_post_below by done. simpl. rewrite fn_lookup_insert. split_and!; [lia..|intros _; lia].
Qed.
Lemma waiting_room m0 l owed m e :
  (flags m0 + N.of_nat (length (l ++ [e])) < SEM_VALUE_MAX)%N → waiting m0 l owed m →
  (sems m mcmini_process_sem < SEM_VALUE_MAX)%N ∧ (flags m + 1 < 2^32)%N.
Proof. rewrite length_app. simpl. intros Hmax [Hp Hs Hb _ _]. unfold SEM_VALUE_MAX in *. lia. Qed.
Lemma waiting_env m0 l owed m e :
  (flags m0 + N.of_nat (length (l ++ [e])) < SEM_VALUE_MAX)%N →
  waiting m0 l owed m → waiting m0 (l ++ [e]) owed (env_step e m).
Proof.
  intros Hmax Hw. destruct (waiting_room _ _ _ _ _ Hmax Hw) as [Hroom Hfl]. destruct Hw as [Hp Hs Hb Hc Hf].
  destruct (env_effect e m Hroom Hfl) as (Hfl' & H1 & H2 & _). cbv zeta in *.
  split; [..|by apply cpid_env|by apply flags_env]; rewrite count_posts_snoc, ?length_app; cbn [length]; [lia|lia|].
  destruct e; simpl in *; lia.
Qed.
Lemma all_heard_env m0 l owed m e : (flags m0 + N.of_nat (length (l ++ [e])) < SEM_VALUE_MAX)%N → waiting m0 l owed m →
  current_sem m = Some mcmini_process_sem → all_heard l owed m → all_heard (l ++ [e]) owed (env_step e m).
Proof.
  intros Hmax Hw Hc Ha. destruct (waiting_room _ _ _ _ _ Hmax Hw) as [Hroom Hfl].
  destruct (env_effect e m Hroom Hfl) as (_ & _ & _ & Hex). specialize (Hex Hc). unfold all_heard in *.
  rewrite count_posts_snoc. lia.
Qed.
Lemma unheard_snoc s0 l e : unheard s0 l → unheard s0 (l ++ [e]).
Proof. intros (l1 & l2 & t & m1 & -> & H). exists l1, (l2 ++ [e]), t, m1. by rewrite app_assoc. Qed.

(** The environment posts the semaphore the template waits on only through the
handler, which posts [current_sem]. *)
Lemma current_sem_env e m : current_sem (env_step e m) = current_sem m.
Proof.
  destruct e as [r mb|p st| | |p]; cbn [env_step]; [|done|done| |].
  - by destruct (sem_post_frame (model_side_sem r) (set_mailboxes (<[r := mb]> (mailboxes m)) m)) as (_ & _ & -> & _).
  - unfold signal_tracker_sig_handler_post. case_bool_decide; [done|]. cbn [current_sem set_handling].
    destruct (current_sem m) as [s|] eqn:Hc; [|done].
    by destruct (sem_post_frame s (set_handling (handling m - 1) m)) as (_ & _ & -> & _).
  - by destruct (sem_post_frame mcmini_process_sem (set_cpid p m)) as (_ & _ & -> & _).
Qed.
Lemma libmcmini_env e m :
  current_sem m ≠ Some libmcmini_sem → sems (env_step e m) libmcmini_sem = sems m libmcmini_sem.
Proof.
  intros Hc. destruct e as [r mb|p status| | |p]; simpl;
    [by rewrite sem_post_other|done|done| |by rewrite sem_post_other].
  unfold signal_tracker_sig_handler_post. case_bool_decide; [done|]. cbn [current_sem set_handling].
  destruct (current_sem m) as [s|]; [|done]. by rewrite sem_post_other by congruence.
Qed.

Lemma failure_snoc m0 l e : failure m0 l → failure m0 (l ++ [e]).
Proof. intros [?|[?|[?|?]]]; [by left|by right; left|right; right; left|do 3 right]; by apply elem_of_snoc_l. Qed.

Lemma early_env s0 l t m e : (flags s0.2 + N.of_nat (length (l ++ [e])) < SEM_VALUE_MAX)%N →
  early s0 l t m → early s0 (l ++ [e]) t (env_step e m).
Proof.
  intros Hmax (Hw & -> & Ht & Hl & Hc). split_and!; [by apply waiting_env|done|done| |by rewrite current_sem_env].
  by rewrite libmcmini_env.
Qed.
Lemma late_env s0 l owed t m e : (flags s0.2 + N.of_nat (length (l ++ [e])) < SEM_VALUE_MAX)%N →
  late s0 l owed t m → late s0 (l ++ [e]) owed t (env_step e m).
Proof.
  intros Hmax (Hw & -> & Hc & Ha). split_and!; [by apply waiting_env|done|by rewrite current_sem_env|].
  destruct Ha; [left; by eapply all_heard_env|right; by apply unheard_snoc].
Qed.

Lemma source_inv_env s0 l pc m e :
  source_inv s0 l (pc, m) → source_inv s0 (l ++ [e]) (pc, env_step e m).
Proof.
  intros Hi Hmax. pose proof Hmax as Hmax'. rewrite length_app in Hmax'. simpl in Hmax'.
  specialize (Hi ltac:(lia)). destruct pc as [[| | | | | | | | | | |[pid|ex]] t]; try done; cbn beta iota in *.
  - destruct Hi as (He & Hr). split; [by apply early_env|by apply interleaves_snoc_env].
  - destruct Hi as (He & Hr). split; [by apply early_env|by apply interleaves_snoc_env].
  - destruct Hi as (He & Hr & Hf). split_and!; [by apply early_env|by apply interleaves_snoc_env|].
    destruct e; try (destruct Hf; [|right; by apply elem_of_snoc_l]); [..|right; apply elem_of_snoc_r| |]; left; simpl; [| |by destruct (handler_frame m) as (-> & _)|].
    + by destruct (sem_post_frame (model_side_sem r) (set_mailboxes (<[r := mb]> (mailboxes m)) m)) as (-> & _).
    + done.
    + by destruct (sem_post_frame mcmini_process_sem (set_cpid pid m)) as (-> & _).
  - destruct Hi as (Hla & Hl). split; [by apply late_env|]. rewrite libmcmini_env; [done|]. destruct Hla as (_ & _ & -> & _). done.
  - by apply late_env.
  - by apply late_env.
  - destruct Hi as (Hin & ->). split; [|done]. apply (cpid_env l); [done|].
    apply Exists_app. left. apply Exists_exists. by eexists.
  - destruct Hi as (Hin & ? & ?). split_and!; [by apply elem_of_snoc_l|done..].
  - destruct Hi. split; [done|by apply failure_snoc].
Qed.

Lemma source_inv_step s0 l s1 s2 : source_inv s0 l s1 → step s1 = Some s2 → source_inv s0 l s2.
Proof.
  destruct s1 as [[pc t] m]. intros Hi Hs Hmax. specialize (Hi Hmax). pose proof Hs as Hs'.
  destruct pc as [| | | | | | | | | | |[pid|ex]]; try done; cbn beta iota in Hi; cbn in Hs.
  - destruct Hi as (He & Hr). pose proof He as (Hw & _ & [tpid ->] & Hl & Hc). injection Hs as <-.
    split; [|by eapply interleaves_snoc_step]. destruct He as (_ & ? & ? & _). split_and!; [|done|done|done|done].
    destruct Hw as [Hp Hsg Hb Hcp Hf]. by split.
  - destruct Hi as (He & Hr). pose proof He as (Hw & -> & Ht & Hl & Hc). unfold try_consume_signal, has_signal in Hs.
    case_bool_decide as Hz; injection Hs as <-.
    + split; [done|]. destruct (wt_flags _ _ _ _ Hw Hz); [by right; left|by right; right; left].
    + split_and!; [done|by eapply interleaves_snoc_step|left; lia].
  - destruct Hi as (He & Hr & Hf). pose proof He as (Hw & -> & Ht & Hl & Hc). injection Hs as <-. split; [|done]. split_and!.
    + destruct Hw as [Hp Hsg Hb Hcp Hfl]. by split.
    + done.
    + done.
    + destruct Hf as [Hf|Hin]; [left|right; by exists l, [], (s0.1.2), m; rewrite app_nil_r].
      destruct Hw as [Hp Hsg _ _ _]. unfold all_heard. simpl. lia.
  - destruct Hi as ((Hw & -> & Hc & Ha) & Hl). unfold sem_post in Hs. case_bool_decide as Hov; injection Hs as <-.
    + split; [done|]. left. by rewrite <- Hl.
    + split_and!; [|done|done|].
      * destruct Hw as [Hp Hsg Hb Hcp Hf]. split; simpl; rewrite ?fn_lookup_insert_ne by done; done.
      * destruct Ha as [Ha|]; [left|by right]. unfold all_heard in *. simpl. by rewrite fn_lookup_insert_ne.
  - destruct Hi as (Hw & -> & Hc & Ha). destruct (sem_wait mcmini_process_sem m) as [m'|] eqn:Hwait; [|done].
    injection Hs as <-. unfold sem_wait in Hwait. case_bool_decide as Hz; [done|]. injection Hwait as <-. split_and!; [|done|done|].
    + destruct Hw as [Hp Hsg Hb Hcp Hf]. split; simpl; rewrite ?fn_lookup_insert; [lia|lia|done..].
    + destruct Ha as [Ha|]; [left|by right]. unfold all_heard in *. simpl. rewrite fn_lookup_insert. lia.
  - destruct Hi as (Hw & -> & Hc & Ha). unfold try_consume_signal, has_signal in Hs.
    case_bool_decide as Hz; injection Hs as <-.
    + split; [done|]. destruct (wt_flags _ _ _ _ Hw Hz); [by right; left|by right; right; left].
    + split; [|done]. apply (wt_cpid _ _ _ _ Hw). apply count_posts_pos. destruct Hw as [Hp Hsg _ _ _]. lia.
  - destruct Hi as (Hin & ->). injection Hs as <-. case_bool_decide as Hf; simpl.
    + split; [done|]. do 3 right. by rewrite <- Hf.
    + done.
Qed.

(** C32: what a call of [make_new_process] gives while there is a template, whatever
happens between its steps: a handle only for a process id that the template wrote
during the call, other than the mark of a failed [fork]; a [process_creation_exception]
only for a full semaphore, a [SIGCHLD] or that mark; and it blocks, while no handler is
at work, only as long as the template has not answered, and either no [SIGCHLD] is left
or one came between the test for one and [set_sem] ([unheard]), where its handler posts
another semaphore ([template_death_blocks] says that this happens).  The call starts with
no more posts of the semaphore, and handlers at work, than there are signals. *)
Theorem make_new_process_outcomes m tpid evs pc t' m' :
  (sems m mcmini_process_sem + handling m ≤ flags m)%N → current_sem m ≠ Some libmcmini_sem →
  (flags m + N.of_nat (length evs) < SEM_VALUE_MAX)%N →
  interleaves step (reset_semaphores, Some tpid, m) evs (pc, t', m') →
  match pc with
  | made (Ok pid) => forks pid ∈ evs ∧ pid ≠ TEMPLATE_FORK_FAILED ∧ t' = Some tpid
  | made (Throw e) => e = ProcessCreationError ∧ failure m evs
  | _ => step (pc, t', m') = None → handling m' = 0%N →
      ¬ posted mcmini_process_sem evs ∧ (flags m' = 0%N ∨ unheard (reset_semaphores, Some tpid, m) evs)
  end.
Proof.
  intros Hbal Hc Hmax Hi.
  apply (interleaves_inv step (source_inv (reset_semaphores, Some tpid, m)) _ evs (pc, t', m')) with (l := []) in Hi as Hinv.
  - specialize (Hinv Hmax). destruct pc as [| | | | | | | | | | |[pid|ex]]; try done; cbn in *.
    + by destruct (try_consume_signal m') as [[]].
    + unfold sem_post. by case_bool_decide.
    + destruct Hinv as (Hw & _ & _ & Ha). destruct (sem_wait mcmini_process_sem m') eqn:Hwait; [done|].
      intros _ Hh. unfold sem_wait in Hwait. case_bool_decide as Hz; [|done]. destruct Hw as [Hp _ _ _ _]. rewrite <- count_posts_pos.
      split; [lia|]. destruct Ha as [Ha|]; [left|by right]. unfold all_heard in Ha. lia.
    + by destruct (try_consume_signal m') as [[]].
  - intros l s1 s2. apply source_inv_step.
  - intros l pc0 m0 e. apply source_inv_env.
  - intros _. cbn. split; [|constructor]. split_and!; [|done|done|done|done].
    split; unfold count_posts; simpl; [lia|lia|lia|by intros ?%Exists_nil|by left].
Qed.

(** ** Starting the template *)

(** A template that dies while it starts is noticed.  From any point of the loop
of [multithreaded_fork_process_source::make_new_template_process], if the template
has ended, the source forgets it and fails by its own steps, even when no
[SIGCHLD] ever comes. *)
Theorem dead_template_noticed t m tpid :
  template_died tpid m = true → ∃ m', interleaves step (wait_until_ready tpid, t, m) [] (failed, None, m').
Proof.
  intros Hd. destruct (sem_wait mcmini_process_sem m) as [m'|] eqn:Hw; [exists m'|exists m].
  - assert (template_died tpid m' = true) as Hd'.
    { unfold sem_wait in Hw. case_bool_decide; [done|]. by injection Hw as <-. }
    eapply interleaves_checker; [simpl; by rewrite Hw|].
    eapply interleaves_checker; [simpl; by rewrite Hd'|constructor].
  - eapply interleaves_checker; [simpl; by rewrite Hw|].
    eapply interleaves_checker; [simpl; by rewrite Hd|constructor].
Qed.

(** The death of the template can block the source for ever.  When its [SIGCHLD]
is handled after the first check but before [set_sem], the handler posts the
semaphore of the last runner, so the source waits for a template that is gone with
nothing left to wake it. *)
Theorem template_death_blocks m t tpid status r :
  flags m = 0%N → handling m = 0%N → current_sem m = Some (model_side_sem r) → sems m mcmini_process_sem = 0%N →
  (sems m libmcmini_sem < SEM_VALUE_MAX)%N →
  ∃ m', interleaves step (check_death, t, m) [ends tpid status; sigchld; handler_posts] (wait_for_fork, t, m') ∧
    step (wait_for_fork, t, m') = None ∧ template_died tpid m' = true ∧ flags m' = 1%N ∧ handling m' = 0%N.
Proof.
  intros Hf Hh Hc Hs Hl.
  set (m1 := env_step handler_posts (env_step sigchld (env_step (ends tpid status) m))).
  assert (flags m1 = 1%N ∧ handling m1 = 0%N ∧ template_died tpid m1 = true ∧ sems m1 mcmini_process_sem = 0%N ∧
    sems m1 libmcmini_sem = sems m libmcmini_sem) as (Hf1 & Hh1 & Hd1 & Hs1 & Hl1).
  { unfold m1. cbn [env_step]. destruct (handler_frame (env_step sigchld (env_step (ends tpid status) m))) as (Hf' & _ & Hch).
    cbn [env_step] in Hf', Hch. unfold template_died. rewrite Hf', Hch.
    unfold signal_tracker_sig_handler_post. simpl. rewrite Hh, bool_decide_eq_false_2 by done. simpl. rewrite Hc.
    set (m2 := set_handling _ _). destruct (sem_post_frame (model_side_sem r) m2) as (_ & -> & _).
    rewrite !sem_post_other by done. split_and!; [by rewrite Hf|done| |done..].
    by rewrite lookup_insert_eq. }
  set (m2 := set_sems (<[libmcmini_sem := (sems m1 libmcmini_sem + 1)%N]> (sems m1)) (set_sem mcmini_process_sem m1)).
  exists m2. split_and!; [|..|done|done|done].
  - eapply interleaves_checker; [simpl; unfold try_consume_signal, has_signal; by rewrite Hf|].
    do 3 apply interleaves_env. fold m1.
    eapply interleaves_checker; [done|]. eapply interleaves_checker; [|constructor].
    simpl. by rewrite sem_post_below by (cbn [sems set_sem]; by rewrite Hl1).
  - simpl. unfold sem_wait. simpl. rewrite fn_lookup_insert_ne by done. by rewrite Hs1.
Qed.
End source.

(** ** The loops of the template

What one turn of each loop of [src/lib/template/loop.c] leaves in shared memory,
given what the function that forks returned; in the child the loop returns. *)

Section template.
Context (m : machine).

(** [mc_template_process_loop_forever]: the mark of a failure is overwritten. *)
Definition mc_template_process_loop_turn (pid : Z) : option machine :=
  let m := if bool_decide (pid = -1)%Z then set_cpid TEMPLATE_FORK_FAILED m else m in
  if bool_decide (pid = 0)%Z then None
  else Some (sem_post mcmini_process_sem (set_cpid pid m)).2.
(** [mc_template_thread_loop_forever]. *)
Definition mc_template_thread_loop_turn (pid : Z) : option machine :=
  if bool_decide (pid = -1)%Z then Some (sem_post mcmini_process_sem (set_cpid TEMPLATE_FORK_FAILED m)).2
  else if bool_decide (pid = 0)%Z then None
  else Some (sem_post mcmini_process_sem (set_cpid pid m)).2.

Lemma process_loop_turn pid :
  pid ≠ 0%Z → mc_template_process_loop_turn pid = Some (env_step (forks pid) m).
Proof.
  intros Hp. unfold mc_template_process_loop_turn. rewrite (bool_decide_eq_false_2 (pid = 0%Z)) by done.
  by case_bool_decide.
Qed.
Lemma thread_loop_turn pid :
  pid ≠ 0%Z → mc_template_thread_loop_turn pid =
    Some (env_step (forks (if bool_decide (pid = -1)%Z then TEMPLATE_FORK_FAILED else pid)) m).
Proof.
  intros Hp. unfold mc_template_thread_loop_turn. rewrite (bool_decide_eq_false_2 (pid = 0%Z)) by done.
  by case_bool_decide.
Qed.
End template.

(** A failed fork is noticed with the template thread only.  When the source waits
and nothing else happened, the failure of [fork] reported by
[mc_template_thread_loop_forever] makes [make_new_process] throw; reported by
[mc_template_process_loop_forever] it gives a handle of the process -1. *)
Theorem failed_fork_reported multithreaded launched m t :
  balanced mcmini_process_sem m → flags m = 0%N →
  ∃ m1 m2 m1' m2',
    mc_template_thread_loop_turn m (-1) = Some m1 ∧
    interleaves (make_new_process_step multithreaded launched) (wait_for_fork, t, m1) [] (failed, t, m1') ∧
    mc_template_process_loop_turn m (-1) = Some m2 ∧
    interleaves (make_new_process_step multithreaded launched) (wait_for_fork, t, m2) [] (made (Ok (-1)%Z), t, m2').
Proof.
  intros [Hc Hb] Hf. rewrite thread_loop_turn, process_loop_turn by done.
  assert (sems m mcmini_process_sem = 0%N) as Hs by lia.
  assert (∀ p, env_step (forks p) m = set_sems (<[mcmini_process_sem := 1%N]> (sems m)) (set_cpid p m)) as He.
  { intros p. simpl. rewrite sem_post_below by (simpl; by rewrite Hs). simpl. by rewrite Hs. }
  assert (∀ p, ∃ m', interleaves (make_new_process_step multithreaded launched)
    (wait_for_fork, t, env_step (forks p) m) []
    (made (if bool_decide (p = TEMPLATE_FORK_FAILED) then Throw ProcessCreationError else Ok p), t, m')) as Hrun.
  { intros p. rewrite He. set (m1 := set_sems _ _). assert (sems m1 mcmini_process_sem = 1%N) as Hs1.
    { simpl. apply fn_lookup_insert. }
    eexists. eapply interleaves_checker; [cbn [make_new_process_step]; rewrite sem_wait_pos by lia; done|].
    eapply interleaves_checker; [simpl; unfold try_consume_signal, has_signal; simpl; by rewrite Hf|].
    eapply interleaves_checker; [done|]. constructor. }
  destruct (Hrun TEMPLATE_FORK_FAILED) as [m1' H1]. destruct (Hrun (-1)%Z) as [m2' H2].
  exists (env_step (forks TEMPLATE_FORK_FAILED) m), (env_step (forks (-1)%Z) m), m1', m2'. by split_and!.
Qed.

(** ** [dmtcp_process_source::make_new_process] *)

Inductive dmtcp_pc := dmtcp_reset | dmtcp_launch | dmtcp_wait (pid : Z) | dmtcp_made (out : res Z).

Definition dmtcp_make_new_process_step (launched : res Z) (s : dmtcp_pc * machine) : option (dmtcp_pc * machine) :=
  let '(pc, m) := s in
  match pc with
  | dmtcp_reset => Some (dmtcp_launch, reset_binary_semaphores_for_new_branch m)
  | dmtcp_launch =>
      Some match launched with
           | Throw e => (dmtcp_made (Throw e), m)
           | Ok pid => (dmtcp_wait pid, set_children (<[pid := running_child]> (children m)) m)
           end
  | dmtcp_wait pid => m' ← sem_wait mcmini_process_sem m; Some (dmtcp_made (Ok pid), m')
  | dmtcp_made _ => None
  end.

Section dmtcp.
Context (launched : res Z).
Abbreviation step := (dmtcp_make_new_process_step launched).

(** The semaphore counts the posts of the events, as no handler posts it. *)
Definition dmtcp_inv (l : list env_event) (s : dmtcp_pc * machine) : Prop :=
  (N.of_nat (length l) < SEM_VALUE_MAX)%N →
  current_sem s.2 ≠ Some mcmini_process_sem ∧
  match s.1 with
  | dmtcp_made (Ok pid) => launched = Ok pid ∧ posted mcmini_process_sem l
  | dmtcp_made (Throw e) => launched = Throw e
  | dmtcp_wait pid => launched = Ok pid ∧ sems s.2 mcmini_process_sem = count_posts mcmini_process_sem l
  | _ => sems s.2 mcmini_process_sem = count_posts mcmini_process_sem l
  end.

Lemma template_sem_env l e m :
  (N.of_nat (length l) < SEM_VALUE_MAX)%N → current_sem m ≠ Some mcmini_process_sem →
  sems m mcmini_process_sem = count_posts mcmini_process_sem l →
  sems (env_step e m) mcmini_process_sem = count_posts mcmini_process_sem (l ++ [e]).
Proof.
  intros Hmax Hc Hs. rewrite count_posts_snoc.
  destruct e as [r mb|p status| | |p]; simpl; rewrite ?N.add_0_r; [by rewrite sem_post_other|done|done|..].
  - unfold signal_tracker_sig_handler_post. case_bool_decide; [done|]. cbn [current_sem set_handling].
    destruct (current_sem m) as [s|]; [|done]. rewrite sem_post_other by congruence. done.
  - rewrite sem_post_below; simpl; rewrite ?fn_lookup_insert, ?Hs; [done|].
    unfold count_posts. pose proof (length_filter (λ e, posts mcmini_process_sem e = true) l). lia.
Qed.

Lemma dmtcp_inv_env l pc m e : dmtcp_inv l (pc, m) → dmtcp_inv (l ++ [e]) (pc, env_step e m).
Proof.
  intros Hi Hmax. rewrite length_app in Hmax. simpl in Hmax. destruct (Hi ltac:(lia)) as [Hc Hp].
  simpl in *. rewrite current_sem_env. split; [done|].
  assert (N.of_nat (length l) < SEM_VALUE_MAX)%N as Hl by lia.
  destruct pc as [| |pid|[pid|ex]].
  - by apply template_sem_env.
  - by apply template_sem_env.
  - destruct Hp. split; [done|by apply template_sem_env].
  - destruct Hp. split; [done|]. apply Exists_app. by left.
  - done.
Qed.

Lemma dmtcp_inv_step l s1 s2 : dmtcp_inv l s1 → step s1 = Some s2 → dmtcp_inv l s2.
Proof.
  destruct s1 as [pc m]. intros Hi Hs Hmax. destruct (Hi Hmax) as [Hc Hp]. simpl in *.
  destruct pc as [| |pid|out]; [| | |done].
  - by injection Hs as <-.
  - injection Hs as <-. by destruct launched.
  - destruct (sem_wait mcmini_process_sem m) as [m'|] eqn:Hw; [|done]. injection Hs as <-.
    unfold sem_wait in Hw. case_bool_decide as Hz; [done|]. injection Hw as <-. simpl.
    destruct Hp as [Hl Hp]. split_and!; [done|done|]. apply count_posts_pos. lia.
Qed.

(** [dmtcp_process_source::make_new_process] gives the process it launched, only
after a post of the restarted process, and blocks until there is one.  It does not
call [set_sem], so the end of that process, whatever signals it causes, never
ends the wait. *)
Theorem dmtcp_make_new_process_outcomes m evs pc m' :
  current_sem m ≠ Some mcmini_process_sem → sems m mcmini_process_sem = 0%N →
  (N.of_nat (length evs) < SEM_VALUE_MAX)%N →
  interleaves step (dmtcp_reset, m) evs (pc, m') →
  match pc with
  | dmtcp_made (Ok pid) => launched = Ok pid ∧ posted mcmini_process_sem evs
  | dmtcp_made (Throw e) => launched = Throw e
  | _ => step (pc, m') = None ↔ (∃ pid, pc = dmtcp_wait pid) ∧ ¬ posted mcmini_process_sem evs
  end.
Proof.
  intros Hc Hs Hmax Hi.
  apply (interleaves_inv step dmtcp_inv _ evs (pc, m')) with (l := []) in Hi as Hinv.
  - destruct (Hinv Hmax) as [_ Hp]. simpl in Hp. destruct pc as [| |pid|[pid|ex]]; [..|done|done].
    + split; [done|]. by intros [[? ?] _].
    + split; [done|]. by intros [[? ?] _].
    + destruct Hp as [_ Hp]. rewrite <- count_posts_pos, <- Hp. simpl. unfold sem_wait.
      case_bool_decide as Hz; simpl; [|split; [done|]; intros [_ ?]; lia].
      split; [|done]. intros _. split; [eauto|lia].
  - intros l s1 s2. apply dmtcp_inv_step.
  - intros l pc0 m0 e. apply dmtcp_inv_env.
  - intros _. simpl. done.
Qed.
End dmtcp.
