(* ===== verification/Signals.v ===== *)
(** * Signals

The table of names, the bad signals, the thread that listens for signals and the heuristic
for a debugger ([mcmini/signal.cpp]); the counters of the tracker and its handler are in
[LinuxProcess].  [listener_spec] says what the listener does with each signal. *)

From stdpp Require Import gmap strings list pretty.
From Stdlib Require Import Ascii.
From stdpp Require Import options.
From S2P Require Import Prelude CommandLine ThreadQueue Text LinuxProcess.

#[local] Open Scope Z_scope.

(** ** Numbers and names *)

Definition SIGHUP := 1.
Definition SIGINT := 2.
Definition SIGQUIT := 3.
Definition SIGILL := 4.
Definition SIGTRAP := 5.
Definition SIGABRT := 6.
Definition SIGBUS := 7.
Definition SIGFPE := 8.
Definition SIGKILL := 9.
Definition SIGUSR1 := 10.
Definition SIGSEGV := 11.
Definition SIGUSR2 := 12.
Definition SIGPIPE := 13.
Definition SIGALRM := 14.
Definition SIGTERM := 15.
Definition SIGSTKFLT := 16.
Definition SIGCHLD := 17.
Definition SIGCONT := 18.
Definition SIGSTOP := 19.
Definition SIGTSTP := 20.
Definition SIGTTIN := 21.
Definition SIGTTOU := 22.
Definition SIGURG := 23.
Definition SIGXCPU := 24.
Definition SIGXFSZ := 25.
Definition SIGVTALRM := 26.
Definition SIGPROF := 27.
Definition SIGWINCH := 28.
Definition SIGIO := 29.
Definition SIGPOLL := 29.
Definition SIGPWR := 30.
Definition SIGSYS := 31.

(** Of two entries with one key the map holds the first. *)
Definition signal_names : list (Z * text) := [
  (SIGHUP, lit "SIGHUP"); (SIGINT, lit "SIGINT"); (SIGQUIT, lit "SIGQUIT");
  (SIGILL, lit "SIGILL"); (SIGTRAP, lit "SIGTRAP"); (SIGABRT, lit "SIGABRT");
  (SIGBUS, lit "SIGBUS"); (SIGFPE, lit "SIGFPE"); (SIGKILL, lit "SIGKILL");
  (SIGUSR1, lit "SIGUSR1"); (SIGSEGV, lit "SIGSEGV"); (SIGUSR2, lit "SIGUSR2");
  (SIGPIPE, lit "SIGPIPE"); (SIGALRM, lit "SIGALRM"); (SIGTERM, lit "SIGTERM");
  (SIGSTKFLT, lit "SIGSTKFLT"); (SIGCHLD, lit "SIGCHLD"); (SIGCONT, lit "SIGCONT");
  (SIGSTOP, lit "SIGSTOP"); (SIGTSTP, lit "SIGTSTP"); (SIGTTIN, lit "SIGTTIN");
  (SIGTTOU, lit "SIGTTOU"); (SIGURG, lit "SIGURG"); (SIGXCPU, lit "SIGXCPU");
  (SIGXFSZ, lit "SIGXFSZ"); (SIGVTALRM, lit "SIGVTALRM"); (SIGPROF, lit "SIGPROF");
  (SIGWINCH, lit "SIGWINCH"); (SIGIO, lit "SIGIO"); (SIGPOLL, lit "SIGPOLL");
  (SIGPWR, lit "SIGPWR"); (SIGSYS, lit "SIGSYS")].
Definition sig_to_str : gmap Z text := list_to_map signal_names.

Definition is_bad_signal (signo : Z) : bool :=
  bool_decide (signo ∈ [SIGILL; SIGABRT; SIGBUS; SIGFPE; SIGKILL; SIGSEGV; SIGPIPE; SIGSYS]).

(** ** The debugger *)

(** [operator>>] for a string: the characters up to a space, after spaces. *)
Fixpoint until_space (s : text) : text :=
  match s with a :: s => if isspace a then [] else a :: until_space s | [] => [] end.
Definition extract_key (line : text) : text * text :=
  let s := skip_space line in
  let key := until_space s in
  (key, drop (length key) s).
(** For an [int]; 0 when there is no number. *)
Definition extract_int (s : text) : Z := (strtol (String.string_of_list_ascii s)).1.
Fixpoint find_tracer (lines : list text) : bool :=
  match lines with
  | [] => false
  | line :: lines =>
      let '(key, rest) := extract_key line in
      if bool_decide (key = lit "TracerPid:") then bool_decide (extract_int rest ≠ 0) else find_tracer lines
  end.
(** [status] is the content of /proc/self/status, [None] when it cannot be opened. *)
Definition is_likely_debugging (status : option text) : bool :=
  match status with None => false | Some s => find_tracer (getlines s) end.

(** ** The listener *)

(** [sigfillset]: the signals below [NSIG]. *)
Definition NSIG : nat := 65.
Definition sigfillset : gset Z := list_to_set (Z.of_nat <$> seq 1 (NSIG - 1)).
(** What the listener waits for. *)
Definition waited_signals : gset Z :=
  sigfillset ∖ {[SIGCHLD]} ∖ {[SIGTSTP]}
  ∖ list_to_set (filter (λ s, is_bad_signal s = true) (map_to_list sig_to_str).*1).

Inductive reaction := waits_again | terminates | stops | exits (code : Z).
(** A turn of the loop with the signal that [sigwait] gave: the line written and what follows. *)
Definition handle_incoming_signal (status : option text) (sig : Z) : res (text * reaction) :=
  match sig_to_str !! sig with
  | None => Throw OutOfRange
  | Some name => Ok (lit "Received signal: " ++ name ++ [newline],
      if is_bad_signal sig then terminates
      else if bool_decide (sig = SIGINT) then
        (if is_likely_debugging status then stops else exits EXIT_FAILURE)
      else waits_again)
  end.

(** ** [throw_if_received] *)

(** The message of an [interrupted_error]. *)
Definition interrupted_error (sig : Z) : text :=
  lit "Interrupted with signal " ++ lit (pretty sig) ++
  match sig_to_str !! sig with
  | Some name => lit " (" ++ name ++ lit ")"
  | None => lit " (unknown signal name)"
  end.
(** For [SIGCHLD]; the message when it throws. *)
Definition throw_if_received (m : machine) : option text * machine :=
  let '(consumed, m) := try_consume_signal m in
  ((if consumed : bool then Some (interrupted_error SIGCHLD) else None), m).

(** ** What the listener does *)

Lemma elem_of_sigfillset s : s ∈ sigfillset ↔ 1 ≤ s ≤ 64.
Proof.
  unfold sigfillset. rewrite elem_of_list_to_set, list_elem_of_fmap. unfold NSIG. split.
  - intros (n & -> & Hn%elem_of_seq). lia.
  - intros Hs. exists (Z.to_nat s). split; [lia|]. apply elem_of_seq. lia.
Qed.

(** The names are those of the signals up to 31. *)
Lemma named_signals s : is_Some (sig_to_str !! s) ↔ 1 ≤ s ≤ 31.
Proof.
  rewrite <- elem_of_dom. unfold sig_to_str. rewrite dom_list_to_map_L, elem_of_list_to_set.
  assert (signal_names.*1 = (Z.of_nat <$> seq 1 29) ++ [29; 30; 31]) as -> by done.
  rewrite elem_of_app, list_elem_of_fmap. split.
  - intros [(n & -> & Hn%elem_of_seq)|Hs]; [lia|]. set_unfold in Hs. lia.
  - intros Hs. destruct (decide (s ≤ 29)).
    + left. exists (Z.to_nat s). split; [lia|]. apply elem_of_seq. lia.
    + right. set_unfold. lia.
Qed.

Lemma waited_spec s : s ∈ waited_signals ↔ 1 ≤ s ≤ 64 ∧ s ≠ SIGCHLD ∧ s ≠ SIGTSTP ∧ is_bad_signal s = false.
Proof.
  unfold waited_signals. rewrite !elem_of_difference, elem_of_sigfillset, !elem_of_singleton.
  rewrite elem_of_list_to_set, list_elem_of_filter.
  assert (is_bad_signal s = true → s ∈ (map_to_list sig_to_str).*1) as Hnamed.
  { intros Hb. assert (is_Some (sig_to_str !! s)) as [name Hname].
    { apply named_signals. unfold is_bad_signal in Hb. apply bool_decide_eq_true in Hb.
      set_unfold in Hb. unfold SIGILL, SIGABRT, SIGBUS, SIGFPE, SIGKILL, SIGSEGV, SIGPIPE, SIGSYS in Hb. lia. }
    apply list_elem_of_fmap. exists (s, name). split; [done|]. by apply elem_of_map_to_list. }
  destruct (is_bad_signal s); split.
  - intros [_ Hno]. destruct Hno. auto.
  - by intros (_ & _ & _ & ?).
  - tauto.
  - intros (Hs & Hc & Ht & _). assert (¬ (false = true ∧ s ∈ (map_to_list sig_to_str).*1)) by (by intros [? _]). tauto.
Qed.

(** Of the signals it waits for, the listener throws on exactly those without a name,
the real-time ones; it never takes one for a bad signal; an interrupt makes the checker
exit, or stop when it is traced, and any other is only reported. *)
Theorem listener_spec status s : s ∈ waited_signals →
  (handle_incoming_signal status s = Throw OutOfRange ↔ 32 ≤ s)
  ∧ (s < 32 → ∃ line, handle_incoming_signal status s = Ok (line,
      if bool_decide (s = SIGINT) then if is_likely_debugging status then stops else exits EXIT_FAILURE
      else waits_again)).
Proof.
  intros (Hs & _ & _ & Hb)%waited_spec. unfold handle_incoming_signal. pose proof (named_signals s) as Hn.
  destruct (sig_to_str !! s) as [name|]; rewrite ?Hb.
  - destruct Hn as [Hn _]. specialize (Hn (mk_is_Some _ name eq_refl)). split; [|eauto].
    split; [done|lia].
  - destruct Hn as [_ Hn]. split; [|intros Hlt; destruct Hn; [lia|done]].
    split; [|done]. intros _. destruct (decide (32 ≤ s)); [done|]. destruct Hn; [lia|done].
Qed.

Lemma until_space_app s t : Forall (λ a, isspace a = false) s → (∀ a, head t = Some a → isspace a = true) →
  until_space (s ++ t) = s.
Proof.
  induction 1 as [|a s Ha _ IH]; simpl; intros Ht.
  - destruct t as [|a t]; [done|]. simpl. by rewrite (Ht a eq_refl).
  - rewrite Ha. by rewrite IH.
Qed.

(** The line of /proc/self/status for the tracer [n]. *)
Definition tracer_line (n : N) : text := lit "TracerPid:" ++ "009"%char :: lit (pretty n).

Lemma extract_tracer_line n : (n < 2^31)%N →
  (extract_key (tracer_line n)).1 = lit "TracerPid:" ∧ extract_int (extract_key (tracer_line n)).2 = Z.of_N n.
Proof.
  intros Hn. assert (extract_key (tracer_line n) = (lit "TracerPid:", "009"%char :: lit (pretty n))) as ->.
  { unfold extract_key, tracer_line. change (skip_space (lit "TracerPid:" ++ ?x)) with (lit "TracerPid:" ++ x).
    rewrite until_space_app; [|by repeat constructor|by intros a [= <-]]. by rewrite drop_app_length. }
  split; [done|]. unfold extract_int, strtol. cbn [snd String.string_of_list_ascii].
  change (lit (pretty n)) with (String.list_ascii_of_string (pretty n)).
  rewrite String.string_of_list_ascii_of_string.
  change (scan_number (String "009" (pretty n))) with (scan_number (pretty n)). rewrite scan_pretty.
  cbn [fst]. unfold LONG_MAX. lia.
Qed.

(** The checker takes itself to be debugged when the first line of its status with the
key of the tracer names a process. *)
Theorem is_likely_debugging_spec before n after :
  Forall (λ l, (newline ∉ l) ∧ (extract_key l).1 ≠ lit "TracerPid:") before → (n < 2^31)%N →
  is_likely_debugging (Some (unlines (before ++ [tracer_line n]) ++ after)) = bool_decide (n ≠ 0%N).
Proof.
  intros Hb Hn. unfold is_likely_debugging. rewrite getlines_unlines_app.
  - rewrite <- app_assoc. cbn [app]. induction Hb as [|l before [_ Hk] _ IH]; cbn [app find_tracer].
    + pose proof (extract_tracer_line n Hn) as [Hkey Hint]. destruct (extract_key (tracer_line n)) as [key rest].
      simpl in Hkey, Hint. rewrite bool_decide_true by done. rewrite Hint. by apply bool_decide_ext; lia.
    + destruct (extract_key l) as [key rest]. by rewrite bool_decide_false.
  - apply Forall_app. split; [eapply Forall_impl; [exact Hb|]; naive_solver|]. constructor; [|done].
    unfold tracer_line. intros [Hin|[Hin|Hin]%elem_of_cons]%elem_of_app; [|done|by apply pretty_not_in in Hin].
    revert Hin. apply (bool_decide_eq_true_1 (newline ∉ lit "TracerPid:")). reflexivity.
Qed.
