(* ===== verification/TraceReports.v ===== *)
(** * What the checker prints

The callbacks of [mcmini.cpp] that report a trace, a deadlock or the end of a process, and
[to_string] of every transition.  They write on the standard output: the transitions of the
trace in order and the next one of every runner.  What is printed identifies them
([deadlock_report_identifies]). *)

From stdpp Require Import gmap strings list pretty.
From Stdlib Require Import Ascii.
From stdpp Require Import options.
From S2P Require Import Prelude CommandLine Transitions Program StackItem Dpor Text Logging Signals.

(** ** [to_string] *)

(** [std::to_string] and [operator<<] of an unsigned integer. *)
Definition number : N → text := Logger.to_text.
Definition mutex_init_to_string (m : N) : text := lit "pthread_mutex_init(mutex:" ++ number m ++ lit ")".
Definition mutex_lock_to_string (m : N) : text := lit "pthread_mutex_lock(mutex:" ++ number m ++ lit ")".
Definition mutex_unlock_to_string (m : N) : text := lit "pthread_mutex_unlock(mutex:" ++ number m ++ lit ")".
Definition sem_init_to_string (s : N) : text := lit "sem_init(semaphore:" ++ number s ++ lit ")".
Definition sem_post_to_string (s : N) : text := lit "sem_post(semaphore:" ++ number s ++ lit ")".
Definition sem_wait_to_string (s : N) : text := lit "sem_wait(semaphore:" ++ number s ++ lit ")".
Definition thread_create_to_string (target : N) : text := lit "pthread_create(thread: " ++ number target ++ lit ")".
Definition thread_exit_to_string : text := lit "exits".
Definition thread_join_to_string (target : N) : text := lit "pthread_join(thread: " ++ number target ++ lit ")".
Definition thread_start_to_string : text := lit "starts".
Definition process_abort_to_string : text := lit "abort(2) (syscall)".
Definition process_exit_to_string : text := lit "exit(2) (syscall)".
Definition condition_variable_init_to_string (c : N) : text := lit "pthread_cond_init(condition_variable:" ++ number c ++ lit ")".
Definition condition_variable_enqueue_thread_to_string (c m : N) : text :=
  lit "pthread_cond_wait(cond:" ++ number c ++ lit ", mutex:" ++ number m ++ lit "(awake -> asleep))".
Definition condition_variable_wait_to_string (executor c m : N) : text :=
  lit "thread: " ++ number executor ++ lit " pthread_cond_wait (cond: )" ++ number c ++ lit ", mutex: "
    ++ number m ++ lit ") (asleep -> awake)".
Definition condition_variable_signal_to_string (c : N) : text := lit "pthread_cond_signal(cond:" ++ number c ++ lit ")".
Definition condition_variable_broadcast_to_string (c : N) : text := lit "pthread_cond_broadcast(condition_variable:" ++ number c ++ lit ")".
Definition condition_variable_destroy_to_string (c : N) : text := lit "pthread_cond_destroy(condition_variable:" ++ number c ++ lit ")".
Definition to_string (t : transition) : text :=
  match operation_of t with
  | mutex_init m => mutex_init_to_string m
  | mutex_lock m => mutex_lock_to_string m
  | mutex_unlock m => mutex_unlock_to_string m
  | sem_init s _ => sem_init_to_string s
  | sem_post s => sem_post_to_string s
  | sem_wait s => sem_wait_to_string s
  | thread_create target => thread_create_to_string target
  | thread_exit => thread_exit_to_string
  | thread_join target => thread_join_to_string target
  | thread_start => thread_start_to_string
  | process_abort => process_abort_to_string
  | process_exit _ => process_exit_to_string
  | condition_variable_init c => condition_variable_init_to_string c
  | condition_variable_enqueue_thread c m => condition_variable_enqueue_thread_to_string c m
  | condition_variable_wait c m => condition_variable_wait_to_string (executor t) c m
  | condition_variable_signal c => condition_variable_signal_to_string c
  | condition_variable_broadcast c => condition_variable_broadcast_to_string c
  | condition_variable_destroy c => condition_variable_destroy_to_string c
  end.

(** ** The reports *)

Definition line (who : runner_id_t) (what : text) : text := lit "thread " ++ number who ++ lit ": " ++ what.
Definition trace_line (t : option transition) : res text := t ← deref t; Ok (line (get_executor t) (to_string t)).
Definition trace_lines (p : program) : res (list text) :=
  foldr (λ t ls, l ← trace_line t; ls ← ls; Ok (l :: ls)) (Ok []) (trace p).
Definition next_lines (p : program) : list text := (λ '(r, t), line r (to_string t)) <$> pending_list (next_steps p).
Definition next_heading : list text := [[]; lit "NEXT THREAD OPERATIONS"].
Definition trace_heading (s : stats) : text := lit "TRACE " ++ number (trace_id s).

Definition finished_trace_classic_dpor (p : program) (s : stats) : res text :=
  ls ← trace_lines p; Ok (unlines (trace_heading s :: ls ++ next_heading ++ next_lines p)).
(** The text of the exception goes to the standard error. *)
Definition found_undefined_behavior (p : program) (s : stats) : res text := finished_trace_classic_dpor p s.
Definition found_deadlock (p : program) : res text :=
  ls ← trace_lines p; Ok (unlines (ls ++ next_heading ++ next_lines p)).

(** What [found_abnormal_termination] and [found_nonzero_exit_code] print of the culprit, and
of the others: the culprit may have no next step in the model. *)
Definition culprit_line (p : program) (culprit : runner_id_t) : text :=
  match get_pending_transition_for p culprit with
  | Some t => line (get_executor t) (to_string t)
  | None => line culprit (lit "(no longer pending)")
  end.
Definition next_line (p : program) (culprit : runner_id_t) (rt : runner_id_t * transition) : text :=
  line rt.1 (match get_pending_transition_for p culprit with
             | Some t => if bool_decide (rt.1 = get_executor t) then lit "executing" else to_string rt.2
             | None => to_string rt.2
             end).
Definition culprit_report (p : program) (s : stats) (culprit : runner_id_t) : res text :=
  ls ← trace_lines p;
  Ok (unlines (trace_heading s :: ls ++ [culprit_line p culprit] ++ next_heading
    ++ (next_line p culprit <$> pending_list (next_steps p))
    ++ [number (u32 (total_transitions s + 1)) ++ lit " total transitions executed"])).
(** The name of the signal goes to the standard error first. *)
Definition found_abnormal_termination (p : program) (s : stats) (signo : Z) (culprit : runner_id_t) : res text :=
  match sig_to_str !! signo with
  | None => Throw OutOfRange
  | Some _ => culprit_report p s culprit
  end.
Definition found_nonzero_exit_code (p : program) (s : stats) (culprit : runner_id_t) : res text := culprit_report p s culprit.

(** The callback of an event, called while the model is [p]. *)
Definition report (e : event) (p : program) : res text :=
  match e with
  | trace_completed s => finished_trace_classic_dpor p s
  | deadlock s => found_deadlock p
  | abnormal_termination s signo culprit => found_abnormal_termination p s signo culprit
  | nonzero_exit_code s code culprit => found_nonzero_exit_code p s culprit
  | undefined_behavior s => found_undefined_behavior p s
  end.

(** ** Numbers and lines *)

Lemma number_inj n m : number n = number m → n = m.
Proof.
  unfold number, Logger.to_text, lit. intros H. apply (inj pretty). rewrite <- (String.string_of_list_ascii_of_string (pretty n)), H.
  apply String.string_of_list_ascii_of_string.
Qed.
(** A number ends where something else than a digit follows. *)
Definition no_digit (s : text) : bool := match s with a :: _ => negb (isdigit a) | [] => true end.
Lemma digits_app_inj l1 l2 s1 s2 :
  Forall (λ a, isdigit a = true) l1 → Forall (λ a, isdigit a = true) l2 → no_digit s1 = true → no_digit s2 = true →
  l1 ++ s1 = l2 ++ s2 → l1 = l2 ∧ s1 = s2.
Proof.
  intros H1. revert l2. induction H1 as [|a l1 Ha H1 IH]; intros l2 H2 Hs1 Hs2.
  - destruct H2 as [|b l2 Hb H2]; [done|]. simpl. intros ->. simpl in Hs1. by rewrite Hb in Hs1.
  - destruct H2 as [|b l2 Hb H2]; simpl; [intros <-; simpl in Hs2; by rewrite Ha in Hs2|].
    intros [= -> H]. destruct (IH l2 H2 Hs1 Hs2 H) as [-> ->]. done.
Qed.
Lemma number_app_inj n m s1 s2 :
  number n ++ s1 = number m ++ s2 → no_digit s1 = true → no_digit s2 = true → n = m ∧ s1 = s2.
Proof.
  intros H H1 H2. destruct (digits_app_inj _ _ _ _ (pretty_digits n) (pretty_digits m) H1 H2 H) as [He ->].
  by apply number_inj in He as ->.
Qed.

(** ** What a line tells *)

(** What is printed of an operation: not the initial count of a semaphore, nor the exit code. *)
Definition visible_operation (o : operation) : operation :=
  match o with sem_init s _ => sem_init s 0 | process_exit _ => process_exit 0 | o => o end.
Definition visible (t : transition) : transition := Transition (executor t) (visible_operation (operation_of t)).

(** The text of an operation, with its literals. *)
Ltac reveal_in H := unfold to_string in H; cbn [operation_of executor] in H; unfold mutex_init_to_string, mutex_lock_to_string, mutex_unlock_to_string, sem_init_to_string, sem_post_to_string,
  sem_wait_to_string, thread_create_to_string, thread_exit_to_string, thread_join_to_string, thread_start_to_string,
  process_abort_to_string, process_exit_to_string, condition_variable_init_to_string, condition_variable_enqueue_thread_to_string,
  condition_variable_wait_to_string, condition_variable_signal_to_string, condition_variable_broadcast_to_string, condition_variable_destroy_to_string in H.
Ltac strip H := apply app_inv_head in H.
Lemma to_string_inj t t' : to_string t = to_string t' → visible_operation (operation_of t) = visible_operation (operation_of t').
Proof.
  destruct t as [r o], t' as [r' o']. intros H. cbn [operation_of].
  destruct o, o'; try reflexivity; try (exfalso; cbn in H; discriminate H); reveal_in H.
  all: repeat (repeat strip H; apply number_app_inj in H as [-> H]; [|done|done]); try done.
Qed.
Lemma no_newline_lit s : bool_decide (newline ∈ lit s) = false → newline ∉ lit s.
Proof. apply bool_decide_eq_false_1. Qed.
Lemma no_newline_number n : newline ∉ number n.
Proof. by apply pretty_not_in. Qed.
Lemma no_newline_to_string t : newline ∉ to_string t.
Proof.
  destruct t as [r o]. pose proof (eq_refl (to_string (Transition r o))) as Ht. revert Ht. generalize (to_string (Transition r o)) at 1 3.
  intros out Ht. destruct o; reveal_in Ht; subst out; rewrite ?not_elem_of_app;
    split_and?; first [apply no_newline_number|apply no_newline_lit; vm_compute; reflexivity].
Qed.
Lemma line_inj r r' o o' : line r o = line r' o' → r = r' ∧ o = o'.
Proof.
  unfold line. intros H. strip H. apply number_app_inj in H as [-> H]; [|done|done]. by strip H.
Qed.
Lemma no_newline_line r o : newline ∉ o → newline ∉ line r o.
Proof.
  intros Ho. unfold line. rewrite !not_elem_of_app.
  split_and!; [apply no_newline_lit; vm_compute; reflexivity|apply no_newline_number|apply no_newline_lit; vm_compute; reflexivity|done].
Qed.

Lemma trace_lines_ok p ls : trace_lines p = Ok ls ↔
  ∃ ts, trace p = Some <$> ts ∧ ls = (λ t, line (executor t) (to_string t)) <$> ts.
Proof.
  unfold trace_lines. revert ls. induction (trace p) as [|[t|] l IH]; intros ls; cbn [foldr].
  - split; [intros [= <-]; by exists []|]. by intros ([|] & ? & ->).
  - cbn. unfold get_executor. destruct (foldr _ _ l) as [ls'|e]; cbn.
    + split.
      * intros [= <-]. destruct (proj1 (IH ls') eq_refl) as (ts & -> & ->). by exists (t :: ts).
      * intros ([|t' ts] & [= <- Hl] & ->). pose proof (proj2 (IH _) (ex_intro _ ts (conj Hl eq_refl))) as He. by injection He as ->.
    + split; [done|]. intros ([|t' ts] & [= <- Hl] & ->). by pose proof (proj2 (IH _) (ex_intro _ ts (conj Hl eq_refl))).
  - split; [done|]. by intros ([|] & [=] & _).
Qed.
(** Every line of a report is a line: none contains a newline. *)
Lemma no_newline_trace (ts : list transition) : Forall (λ l, newline ∉ l) ((λ t, line (executor t) (to_string t)) <$> ts).
Proof. apply Forall_fmap, Forall_true. intros t. apply no_newline_line, no_newline_to_string. Qed.
Lemma no_newline_next p : Forall (λ l, newline ∉ l) (next_heading ++ next_lines p).
Proof.
  apply Forall_app. split; [constructor; [apply not_elem_of_nil|constructor; [apply no_newline_lit; vm_compute; reflexivity|constructor]]|].
  apply Forall_fmap, Forall_true. intros [r t]. apply no_newline_line, no_newline_to_string.
Qed.
Lemma unlines_inj ls ls' : Forall (λ l, newline ∉ l) ls → Forall (λ l, newline ∉ l) ls' → unlines ls = unlines ls' → ls = ls'.
Proof. intros H1 H2 H. by rewrite <- (getlines_unlines ls H1), <- (getlines_unlines ls' H2), H. Qed.
(** The blank line ends the trace. *)
Lemma split_blank (ls ls' rest rest' : list text) :
  [] ∉ ls → [] ∉ ls' → ls ++ [] :: rest = ls' ++ [] :: rest' → ls = ls' ∧ rest = rest'.
Proof.
  revert ls'. induction ls as [|l ls IH]; intros [|l' ls'] H1 H2 H; simpl in H.
  - by injection H as ->.
  - injection H as <- _. by destruct H2; left.
  - injection H as -> _. by destruct H1; left.
  - injection H as -> H. apply not_elem_of_cons in H1 as [_ H1], H2 as [_ H2]. by destruct (IH ls' H1 H2 H) as [-> ->].
Qed.
Lemma line_not_blank (ts : list transition) : [] ∉ (λ t, line (executor t) (to_string t)) <$> ts.
Proof. intros (t & Ht & _)%list_elem_of_fmap. done. Qed.
Lemma trace_identified (ts ts' : list transition) :
  (λ t, line (executor t) (to_string t)) <$> ts = (λ t, line (executor t) (to_string t)) <$> ts' → visible <$> ts = visible <$> ts'.
Proof.
  revert ts'. induction ts as [|t ts IH]; intros [|t' ts']; [done..|].
  rewrite !fmap_cons. intros H. pose proof (f_equal tail H) as Hl. apply (f_equal (hd [])) in H. cbn [tail hd] in H, Hl.
  f_equal; [|by apply IH].
  apply line_inj in H as [Hr Ho]. unfold visible. by rewrite Hr, (to_string_inj _ _ Ho).
Qed.

Lemma next_identified p p' : next_lines p = next_lines p' →
  (visible_operation ∘ operation_of) <$> next_steps p = (visible_operation ∘ operation_of) <$> next_steps p'.
Proof.
  assert (∀ p p' r t, next_lines p = next_lines p' → next_steps p !! r = Some t →
    ∃ t', next_steps p' !! r = Some t' ∧ visible_operation (operation_of t) = visible_operation (operation_of t')) as Hgo.
  { intros q q' r t Hl Ht. assert (line r (to_string t) ∈ next_lines q') as Hin.
    { rewrite <- Hl. apply list_elem_of_fmap. exists (r, t). split; [done|]. by apply elem_of_pending_list. }
    apply list_elem_of_fmap in Hin as ([r' t'] & Heq & Hin). apply line_inj in Heq as [<- Heq].
    exists t'. split; [by apply elem_of_pending_list|]. by apply to_string_inj. }
  intros Hl. apply map_eq. intros r. rewrite !lookup_fmap. destruct (next_steps p !! r) as [t|] eqn:Ht.
  - destruct (Hgo p p' r t Hl Ht) as (t' & -> & He). cbn. by rewrite He.
  - destruct (next_steps p' !! r) as [t'|] eqn:Ht'; [|done].
    destruct (Hgo p' p r t' (eq_sym Hl) Ht') as (t & Ht2 & _). by rewrite Ht in Ht2.
Qed.

(** The same executions and the same next steps, as far as operations are printed. *)
Definition looks_like (p p' : program) : Prop :=
  fmap (M:=option) visible <$> trace p = fmap (M:=option) visible <$> trace p' ∧
  (visible_operation ∘ operation_of) <$> next_steps p = (visible_operation ∘ operation_of) <$> next_steps p'.

Lemma body_identifies (ts ts' : list transition) p p' :
  trace p = Some <$> ts → trace p' = Some <$> ts' →
  ((λ t, line (executor t) (to_string t)) <$> ts) ++ next_heading ++ next_lines p =
  ((λ t, line (executor t) (to_string t)) <$> ts') ++ next_heading ++ next_lines p' → looks_like p p'.
Proof.
  intros Ht Ht' H. apply split_blank in H as [Hts Hn]; [|apply line_not_blank..]. apply (f_equal tail) in Hn. cbn [tail] in Hn.
  split; [|by apply next_identified]. rewrite Ht, Ht', <- !list_fmap_compose.
  apply trace_identified in Hts. apply (f_equal (fmap Some)) in Hts. by rewrite <- !list_fmap_compose in Hts.
Qed.

Lemma ok_inj {A} (a b : A) : Ok a = Ok b → a = b.
Proof. congruence. Qed.

(** A report can be read back: from what is printed for a deadlock or a completed trace the
executors of the trace follow, with their operations and the objects these are about, and the
next operation of every runner; of a trace its number too. *)
Theorem reports_identify_traces p p' s s' out :
  (found_deadlock p = Ok out → found_deadlock p' = Ok out → looks_like p p') ∧
  (finished_trace_classic_dpor p s = Ok out → finished_trace_classic_dpor p' s' = Ok out →
    looks_like p p' ∧ trace_id s = trace_id s').
Proof.
  split.
  - intros (ls & Hls & Ho)%bind_ok (ls' & Hls' & Ho')%bind_ok. rewrite <- Ho' in Ho. apply ok_inj in Ho. clear Ho'.
    apply trace_lines_ok in Hls as (ts & Ht & ->), Hls' as (ts' & Ht' & ->).
    apply unlines_inj in Ho; [|apply Forall_app; split; [apply no_newline_trace|apply no_newline_next]..].
    by apply (body_identifies ts ts').
  - intros (ls & Hls & Ho)%bind_ok (ls' & Hls' & Ho')%bind_ok. rewrite <- Ho' in Ho. apply ok_inj in Ho. clear Ho'.
    apply trace_lines_ok in Hls as (ts & Ht & ->), Hls' as (ts' & Ht' & ->).
    assert (∀ s0, newline ∉ trace_heading s0) as Hh.
    { intros s0. unfold trace_heading. rewrite not_elem_of_app. split; [apply no_newline_lit; vm_compute; reflexivity|apply no_newline_number]. }
    apply unlines_inj in Ho; [|constructor; [apply Hh|]; apply Forall_app; split; [apply no_newline_trace|apply no_newline_next]..].
    pose proof (f_equal (hd []) Ho) as Hid. apply (f_equal tail) in Ho. cbn [tail hd] in Hid, Ho. split; [by apply (body_identifies ts ts')|].
    unfold trace_heading in Hid. strip Hid. by apply number_inj.
Qed.
(** A process that ends by a signal without a name in the table is not reported: the lookup of
the name throws, out of the callback. *)
Lemma nameless_signal_not_reported p s signo culprit :
  ¬ (1 ≤ signo ≤ 31)%Z → found_abnormal_termination p s signo culprit = Throw OutOfRange.
Proof.
  intros Hs. unfold found_abnormal_termination. destruct (sig_to_str !! signo) as [n|] eqn:Hn; [|done].
  destruct Hs. apply named_signals. by exists n.
Qed.
