(* ===== verification/TemplateLoop.v ===== *)
(** * The loop of the template process

The two loops that fork branches, the handler of [SIGCHLD] that reaps them and tells the
checker, and what a branch does first ([lib/template/loop.c], [lib/template/sig.c]).
The handler runs on the thread of the loop, between two of its steps.
[template_forks_one_branch] says that there is never more than one branch and that the
template is not interrupted while it waits for a request. *)

From stdpp Require Import gmap.
From stdpp Require Import options.
From S2P Require Import Prelude CommandLine ThreadQueue Text LinuxProcess ProcessSource Signals.

#[local] Open Scope nat_scope.

Module TemplateLoop.

(** ** The process *)

Inductive loop_pc :=
  | wait_request
  | make_process
  | report (cpid : Z)       (* before [sem_post] on [mcmini_process_sem] *)
  | wait_child (cpid : Z).
(** In the handler. *)
Inductive handler_pc := reap | tell (signal_mcmini : bool) | post.

Record process := Process {
  pc : loop_pc;
  handler : option handler_pc;
  pending : bool;              (* a SIGCHLD that was not delivered yet *)
  libmcmini_sem : nat;
  sigchld_sem : nat;
  kids : gmap Z child;
  cpid : Z;                    (* of the template's structure *)
  mcmini_process_posts : nat;
  reaped : list exit_status;   (* what [waitpid] gave *)
  kills : nat;                 (* SIGCHLD sent to the checker *)
}.
Definition start : process := Process wait_request None false 0 0 ∅ 0%Z 0 [] 0.

Definition set_pc (x : loop_pc) (p : process) : process :=
  Process x (handler p) (pending p) (libmcmini_sem p) (sigchld_sem p) (kids p) (cpid p) (mcmini_process_posts p) (reaped p) (kills p).
Definition set_handler (x : option handler_pc) (p : process) : process :=
  Process (pc p) x (pending p) (libmcmini_sem p) (sigchld_sem p) (kids p) (cpid p) (mcmini_process_posts p) (reaped p) (kills p).
Definition set_pending (x : bool) (p : process) : process :=
  Process (pc p) (handler p) x (libmcmini_sem p) (sigchld_sem p) (kids p) (cpid p) (mcmini_process_posts p) (reaped p) (kills p).
Definition set_request (x : nat) (p : process) : process :=
  Process (pc p) (handler p) (pending p) x (sigchld_sem p) (kids p) (cpid p) (mcmini_process_posts p) (reaped p) (kills p).
Definition set_sigchld (x : nat) (p : process) : process :=
  Process (pc p) (handler p) (pending p) (libmcmini_sem p) x (kids p) (cpid p) (mcmini_process_posts p) (reaped p) (kills p).
Definition set_kids (x : gmap Z child) (p : process) : process :=
  Process (pc p) (handler p) (pending p) (libmcmini_sem p) (sigchld_sem p) x (cpid p) (mcmini_process_posts p) (reaped p) (kills p).
Definition set_cpid (x : Z) (p : process) : process :=
  Process (pc p) (handler p) (pending p) (libmcmini_sem p) (sigchld_sem p) (kids p) x (mcmini_process_posts p) (reaped p) (kills p).
Definition post_process_sem (p : process) : process :=
  Process (pc p) (handler p) (pending p) (libmcmini_sem p) (sigchld_sem p) (kids p) (cpid p) (S (mcmini_process_posts p)) (reaped p) (kills p).
Definition add_reaped (x : exit_status) (p : process) : process :=
  Process (pc p) (handler p) (pending p) (libmcmini_sem p) (sigchld_sem p) (kids p) (cpid p) (mcmini_process_posts p) (reaped p ++ [x]) (kills p).
Definition kill_checker (p : process) : process :=
  Process (pc p) (handler p) (pending p) (libmcmini_sem p) (sigchld_sem p) (kids p) (cpid p) (mcmini_process_posts p) (reaped p) (S (kills p)).

(** ** The handler *)

(** Whether the checker is told how a branch ended. *)
Definition signals_mcmini (status : exit_status) : bool :=
  match status with
  | exited _ => true
  | signaled signo => is_bad_signal signo
  | other_status => false
  end.
(** [pid] is the child that [waitpid] picks among those that ended; it waits when none did,
and fails when there is none at all. *)
Definition mc_template_receive_sigchld (pid : Z) (x : handler_pc) (p : process) : option process :=
  match x with
  | reap =>
      match kids p !! pid with
      | Some (zombie status) =>
          Some (set_handler (Some (tell (signals_mcmini status))) (add_reaped status (set_kids (delete pid (kids p)) p)))
      | _ => if bool_decide (kids p = ∅) then Some (set_handler None p) else None
      end
  | tell signal_mcmini => Some (set_handler (Some post) (if signal_mcmini then kill_checker p else p))
  | post => Some (set_handler None (set_sigchld (S (sigchld_sem p)) p))
  end.

(** ** The loops *)

Section loop.
(** Which of the two loops: [mc_template_thread_loop_forever] when it holds. *)
Context (threaded : bool).

(** What the structure holds when the checker is posted. *)
Definition reported_cpid (pid : Z) : Z :=
  if bool_decide (pid = (-1)%Z) && threaded then TEMPLATE_FORK_FAILED else pid.
(** [pid] is what the function that forks returned, not 0: in the branch the loop returns. *)
Definition loop_step (pid : Z) (p : process) : option process :=
  match pc p with
  | wait_request => match libmcmini_sem p with O => None | S n => Some (set_pc make_process (set_request n p)) end
  | make_process =>
      if bool_decide (pid = (-1)%Z) then Some (set_pc (report pid) (set_cpid (reported_cpid pid) p))
      else if bool_decide (0 < pid)%Z && bool_decide (kids p !! pid = None)
      then Some (set_pc (report pid) (set_cpid (reported_cpid pid) (set_kids (<[pid := running_child]> (kids p)) p)))
      else None
  | report c => Some (set_pc (wait_child c) (post_process_sem p))
  | wait_child c => match sigchld_sem p with O => None | S n => Some (set_pc wait_request (set_sigchld n p)) end
  end.

(** The checker posts [libmcmini_sem]; a branch ends; the signal is delivered; a step of the
handler; a step of the loop, which waits for the handler to return. *)
Inductive loop_event := Request | Ends (pid : Z) (status : exit_status) | Deliver | Handler (pid : Z) | Loop (pid : Z).
Definition step (e : loop_event) (p : process) : option process :=
  match e with
  | Request => Some (set_request (S (libmcmini_sem p)) p)
  | Ends pid status =>
      if bool_decide (kids p !! pid = Some running_child)
      then Some (set_pending true (set_kids (<[pid := zombie status]> (kids p)) p)) else None
  | Deliver => if pending p && bool_decide (handler p = None) then Some (set_handler (Some reap) (set_pending false p)) else None
  | Handler pid => x ← handler p; mc_template_receive_sigchld pid x p
  | Loop pid => match handler p with None => loop_step pid p | Some _ => None end
  end.
Fixpoint run (l : list loop_event) (p : process) : option process :=
  match l with [] => Some p | e :: l => p' ← step e p; run l p' end.
End loop.

(** ** A branch *)

(** What a branch does before it runs: it asks to be killed when the template dies and then
looks whether it already did. *)
Inductive branch_pc := call_prctl | check_parent | set_up | prepared | aborted | exited_early.
Record branch := Branch {
  bpc : branch_pc;
  template_alive : bool;
  parent : Z;          (* getppid() *)
  pdeathsig : bool;
  sigterm : bool;      (* the kernel sent it *)
}.
(** [TemplateDies] leaves the branch to the process [reaper]. *)
Inductive branch_event := Prepare (rc : Z) | TemplateDies (reaper : Z).
Definition mc_prepare_new_child_process (template_pid : Z) (e : branch_event) (b : branch) : branch :=
  match e with
  | TemplateDies reaper =>
      if template_alive b then Branch (bpc b) false reaper (pdeathsig b) (sigterm b || pdeathsig b) else b
  | Prepare rc =>
      match bpc b with
      | call_prctl => if bool_decide (rc = (-1)%Z) then Branch aborted (template_alive b) (parent b) (pdeathsig b) (sigterm b)
                      else Branch check_parent (template_alive b) (parent b) true (sigterm b)
      | check_parent => Branch (if bool_decide (parent b ≠ template_pid) then exited_early else set_up)
                          (template_alive b) (parent b) (pdeathsig b) (sigterm b)
      | set_up => Branch prepared (template_alive b) (parent b) (pdeathsig b) (sigterm b)
      | _ => b
      end
  end.

(** ** The invariant *)

(** No branch, and none to be noticed. *)
Record quiet (p : process) : Prop := Quiet {
  q_handler : handler p = None;
  q_pending : pending p = false;
  q_kids : kids p = ∅;
  q_sem : sigchld_sem p = 0;
}.
(** The life of the branch [c]: it runs; it ended and the signal is pending or the handler
starts; it was reaped; the loop may go on. *)
Inductive life (c : Z) (p : process) : Prop :=
  | runs : handler p = None → pending p = false → kids p = {[c := running_child]} → sigchld_sem p = 0 → life c p
  | ended status : (handler p = None ∧ pending p = true ∨ handler p = Some reap ∧ pending p = false) →
      kids p = {[c := zombie status]} → sigchld_sem p = 0 → life c p
  | was_reaped : ((∃ b, handler p = Some (tell b)) ∨ handler p = Some post) → pending p = false → kids p = ∅ →
      sigchld_sem p = 0 → life c p
  | noticed : handler p = None → pending p = false → kids p = ∅ → sigchld_sem p = 1 → life c p.
Definition in_phase (p : process) : Prop :=
  match pc p with
  | wait_request | make_process => quiet p
  | report c | wait_child c => if bool_decide (c = (-1)%Z) then quiet p else life c p
  end.
(** The checker is told once of each branch that exited or was killed by a bad signal. *)
Definition told (p : process) : Prop :=
  kills p + (if handler p is Some (tell true) then 1 else 0) = length (filter (λ s, signals_mcmini s = true) (reaped p)).

(** What only matters to the life of the branch. *)
Lemma life_ext c p p' : handler p' = handler p → pending p' = pending p → kids p' = kids p →
  sigchld_sem p' = sigchld_sem p → life c p → life c p'.
Proof.
  intros Hh Hp Hk Hs [H1 H2 H3 H4|st H1 H2 H3|H1 H2 H3 H4|H1 H2 H3 H4]; [apply runs|apply (ended _ _ st)|apply was_reaped|apply noticed];
    rewrite ?Hh, ?Hp, ?Hk, ?Hs; done.
Qed.

Section invariant.
Context (threaded : bool).

Lemma loop_step_phase pid p p' : handler p = None → in_phase p → loop_step threaded pid p = Some p' → in_phase p'.
Proof using Type.
  intros Hh Hp. unfold loop_step. destruct (pc p) as [| |c|c] eqn:Hpc; unfold in_phase in Hp; rewrite Hpc in Hp.
  - destruct (libmcmini_sem p); intros [= <-]. by destruct Hp.
  - destruct Hp as [_ Hpe Hk Hs]. case_bool_decide as Hpid; [intros [= <-]; unfold in_phase; cbn; rewrite (bool_decide_true (pid = -1)%Z) by done; by split|].
    destruct (bool_decide (0 < pid)%Z && bool_decide (kids p !! pid = None)); intros [= <-].
    unfold in_phase. cbn. rewrite bool_decide_false by done. apply runs; cbn; [done..| |done].
    rewrite Hk. apply insert_empty.
  - intros [= <-]. unfold in_phase. cbn. case_bool_decide; [by destruct Hp|by apply (life_ext c p)].
  - destruct (sigchld_sem p) as [|n] eqn:Hs; intros [= <-]. unfold in_phase. cbn.
    case_bool_decide; [destruct Hp; congruence|].
    destruct Hp as [? ? ? ?|? ? ? ?|[[? ?]|?] ? ? ?|? ? ? ?]; try congruence. split; cbn; [done..|congruence].
Qed.

Lemma handler_phase pid x p p' : handler p = Some x → in_phase p →
  mc_template_receive_sigchld pid x p = Some p' → in_phase p'.
Proof using Type.
  intros Hh Hp. assert (∃ c, c ≠ (-1)%Z ∧ life c p ∧ (pc p = report c ∨ pc p = wait_child c)) as (c & Hc & Hl & Hpc).
  { unfold in_phase in Hp. destruct (pc p) as [| |c|c].
    1-2: destruct Hp; congruence.
    all: case_bool_decide; [destruct Hp; congruence|]; exists c; auto. }
  assert (∀ p1, pc p1 = pc p → life c p1 → in_phase p1) as Hdone.
  { intros p1 Hpc1 Hl1. unfold in_phase. rewrite Hpc1. destruct Hpc as [-> | ->]; by rewrite bool_decide_false. }
  destruct Hl as [? ? ? ?|st Hor Hk Hs|Hor Hpe Hk Hs|? ? ? ?]; [congruence| | |congruence].
  - destruct Hor as [[? ?]|[Hr Hpe]]; [congruence|]. assert (x = reap) as -> by congruence. simpl.
    rewrite Hk. destruct (decide (pid = c)) as [->|Hne].
    + rewrite lookup_singleton_eq. intros [= <-]. apply Hdone; [done|]. apply was_reaped; cbn; [eauto|done| |done].
      apply delete_singleton_eq.
    + rewrite lookup_singleton_ne by done. rewrite bool_decide_false; [done|]. apply map_non_empty_singleton.
  - destruct Hor as [[b Hb]|Hb]; [assert (x = tell b) as -> by congruence|assert (x = post) as -> by congruence];
      intros [= <-]; (apply Hdone; [by destruct b || done|]).
    + apply was_reaped; destruct b; cbn; auto.
    + apply noticed; cbn; [done..|by rewrite Hs].
Qed.

(** Events that need a branch. *)
Lemma in_phase_life p p' : in_phase p → pc p' = pc p → ¬ quiet p → (∀ c, life c p → life c p') → in_phase p'.
Proof using Type.
  unfold in_phase. intros Hp -> Hq Hl. destruct (pc p); [by destruct Hq..| |]; (case_bool_decide; [by destruct Hq|auto]).
Qed.

Lemma life_ends c p pid status : kids p !! pid = Some running_child → life c p →
  life c (set_pending true (set_kids (<[pid := zombie status]> (kids p)) p)).
Proof using Type.
  intros Hrun [Hh Hpe Hk Hs|st _ Hk _|_ _ Hk _|_ _ Hk _]; rewrite Hk in Hrun.
  - apply lookup_singleton_Some in Hrun as [<- _]. apply (ended _ _ status); cbn; [auto| |done].
    rewrite Hk. apply insert_singleton_eq.
  - by apply lookup_singleton_Some in Hrun as [_ ?].
  - by rewrite lookup_empty in Hrun.
  - by rewrite lookup_empty in Hrun.
Qed.

Lemma life_delivers c p : pending p = true → handler p = None → life c p →
  life c (set_handler (Some reap) (set_pending false p)).
Proof using Type.
  intros Hpe Hh [? ? ? ?|st ? ? ?|? ? ? ?|? ? ? ?]; try congruence. apply (ended _ _ st); cbn; auto.
Qed.

Lemma step_phase e p p' : in_phase p → step threaded e p = Some p' → in_phase p'.
Proof using Type.
  intros Hp. destruct e as [|pid status| |pid|pid]; simpl.
  - intros [= <-]. unfold in_phase in *. cbn. destruct (pc p) as [| |c|c]; [by destruct Hp..| |];
      (case_bool_decide; [by destruct Hp|by apply (life_ext c p)]).
  - case_bool_decide as Hrun; [|done]. intros [= <-]. apply (in_phase_life p); [done|done| |].
    + intros [_ _ Hk _]. by rewrite Hk, lookup_empty in Hrun.
    + intros c. by apply life_ends.
  - destruct (pending p) eqn:Hpe; [|done]. case_bool_decide as Hh; [|done]. intros [= <-].
    apply (in_phase_life p); [done|done| |].
    + intros []. congruence.
    + intros c. by apply life_delivers.
  - destruct (handler p) as [x|] eqn:Hh; simpl; [|done]. by apply handler_phase.
  - destruct (handler p) eqn:Hh; [done|]. by apply loop_step_phase.
Qed.

Lemma step_told e p p' : told p → step threaded e p = Some p' → told p'.
Proof using Type.
  unfold told. intros Ht. destruct e as [|pid status| |pid|pid]; simpl.
  - by intros [= <-].
  - case_bool_decide; [|done]. by intros [= <-].
  - destruct (pending p); [|done]. case_bool_decide as Hh; [|done]. intros [= <-]. cbn. by rewrite Hh in Ht.
  - destruct (handler p) as [x|] eqn:Hh; simpl; [|done]. destruct x as [|b|]; simpl.
    + destruct (kids p !! pid) as [[|status]|].
      2:{ intros [= <-]. cbn. rewrite filter_app, length_app, <- Ht. rewrite filter_cons.
          destruct (signals_mcmini status); simpl; lia. }
      all: case_bool_decide; [|done]; intros [= <-]; cbn; lia.
    + intros [= <-]. destruct b; cbn; lia.
    + intros [= <-]. cbn. lia.
  - destruct (handler p) eqn:Hh; [done|]. unfold loop_step. intros Hs.
    assert (kills p' = kills p ∧ handler p' = None ∧ reaped p' = reaped p) as (-> & -> & ->); [|done].
    destruct (pc p); repeat case_match; simplify_eq; done.
Qed.

Lemma run_invariant l p p' : in_phase p ∧ told p → run threaded l p = Some p' → in_phase p' ∧ told p'.
Proof using Type.
  revert p. induction l as [|e l IH]; intros p Hp; simpl; [by intros [= <-]|].
  intros (p1 & Hstep & Hrun)%bind_Some. apply (IH p1); [|done]. destruct Hp. split; [by eapply step_phase|by eapply step_told].
Qed.

(** C39: the template has at most one branch; while it waits for a request there is none left
to reap and no signal can interrupt the wait; and when no handler runs it has told the
checker of exactly the branches that exited or were killed by a bad signal. *)
Theorem template_forks_one_branch l p : run threaded l start = Some p →
  size (kids p) ≤ 1
  ∧ (pc p = wait_request → kids p = ∅ ∧ pending p = false ∧ handler p = None ∧ sigchld_sem p = 0)
  ∧ (handler p = None → kills p = length (filter (λ s, signals_mcmini s = true) (reaped p))).
Proof using Type.
  intros Hrun. destruct (run_invariant l start p) as [Hp Ht]; [by split|done|].
  split_and!.
  - unfold in_phase in Hp. destruct (pc p); [destruct Hp as [_ _ -> _]; by rewrite map_size_empty; lia..| |];
      (case_bool_decide; [destruct Hp as [_ _ -> _]; rewrite map_size_empty; lia|]);
      destruct Hp as [_ _ Hk _|st _ Hk _|_ _ Hk _|_ _ Hk _]; rewrite Hk, ?map_size_empty, ?map_size_singleton; lia.
  - unfold in_phase in Hp. intros Hpc. rewrite Hpc in Hp. by destruct Hp.
  - unfold told in Ht. intros Hh. rewrite Hh in Ht. lia.
Qed.

(** The template's own steps. *)
Definition own (e : loop_event) : Prop := match e with Request | Ends _ _ => False | _ => True end.
(** No fork fails. *)
Definition steady (e : loop_event) : Prop := match e with Request | Ends _ _ => False | Loop pid => pid ≠ (-1)%Z | _ => True end.
Lemma steady_own e : steady e → own e.
Proof. by destruct e. Qed.

(** From a wait for a branch that does not run any more. *)
Lemma comes_back p c : in_phase p → pc p = wait_child c → c ≠ (-1)%Z → kids p !! c ≠ Some running_child →
  ∃ l' p', Forall steady l' ∧ run threaded l' p = Some p' ∧ pc p' = wait_request ∧ kids p' = ∅
    ∧ libmcmini_sem p' = libmcmini_sem p ∧ mcmini_process_posts p' = mcmini_process_posts p.
Proof using Type.
  intros Hp Hpc Hc Hk.
  unfold in_phase in Hp. rewrite Hpc, bool_decide_false in Hp by done.
  assert (∀ q, handler q = None → pc q = wait_child c → kids q = ∅ → sigchld_sem q = 1 →
    ∃ q', step threaded (Loop 0) q = Some q' ∧ pc q' = wait_request ∧ kids q' = ∅
    ∧ libmcmini_sem q' = libmcmini_sem q ∧ mcmini_process_posts q' = mcmini_process_posts q) as Hgo.
  { intros q Hh Hq Hkq Hs. simpl. rewrite Hh. unfold loop_step. rewrite Hq, Hs. eexists. by split_and!. }
  assert (∀ b q, handler q = Some (tell b) → pc q = wait_child c → kids q = ∅ → sigchld_sem q = 0 →
    ∃ q', run threaded [Handler 0; Handler 0; Loop 0] q = Some q' ∧ pc q' = wait_request ∧ kids q' = ∅
    ∧ libmcmini_sem q' = libmcmini_sem q ∧ mcmini_process_posts q' = mcmini_process_posts q) as Htell.
  { intros b q Hh Hq Hkq Hs. simpl. rewrite Hh. destruct b; cbn; unfold loop_step; cbn; rewrite Hq, Hs; eexists; by split_and!. }
  assert (∀ st q, handler q = Some reap → pc q = wait_child c → kids q = {[c := zombie st]} → sigchld_sem q = 0 →
    ∃ q', run threaded [Handler c; Handler 0; Handler 0; Loop 0] q = Some q' ∧ pc q' = wait_request ∧ kids q' = ∅
    ∧ libmcmini_sem q' = libmcmini_sem q ∧ mcmini_process_posts q' = mcmini_process_posts q) as Hreap.
  { intros st q Hh Hq Hkq Hs.
    change (run threaded (Handler c :: ?x) q) with (step threaded (Handler c) q ≫= run threaded x).
    simpl step. rewrite Hh. cbn [mbind option_bind mc_template_receive_sigchld].
    rewrite Hkq, lookup_singleton_eq, delete_singleton_eq. 
    by apply (Htell (signals_mcmini st) (set_handler (Some (tell (signals_mcmini st))) (add_reaped st (set_kids ∅ q)))). }
  destruct Hp as [_ _ Hkids _|st [[Hh Hpe]|[Hh Hpe]] Hkids Hs|[[b Hh]|Hh] Hpe Hkids Hs|Hh Hpe Hkids Hs].
  - destruct Hk. by rewrite Hkids, lookup_singleton_eq.
  - destruct (Hreap st (set_handler (Some reap) (set_pending false p))) as (p' & Hr & ? & ? & ? & ?); [done..|].
    exists [Deliver; Handler c; Handler 0; Handler 0; Loop 0], p'. split_and!; [by repeat constructor| |done..].
    change (run threaded (Deliver :: ?x) p) with (step threaded Deliver p ≫= run threaded x).
    simpl step. rewrite Hpe, Hh. exact Hr.
  - destruct (Hreap st p) as (p' & Hr & ? & ? & ? & ?); [done..|]. eexists _, p'. split_and!; [|exact Hr|done..]. by repeat constructor.
  - destruct (Htell b p) as (p' & Hr & ? & ? & ? & ?); [done..|]. eexists _, p'. split_and!; [|exact Hr|done..]. by repeat constructor.
  - destruct (Hgo (set_handler None (set_sigchld 1 p))) as (p' & Hr & ? & ? & ? & ?); [done..|].
    exists [Handler 0; Loop 0], p'. split_and!; [by repeat constructor| |done..].
    change (run threaded (Handler 0 :: ?x) p) with (step threaded (Handler 0) p ≫= run threaded x).
    simpl step at 1. rewrite Hh. cbn [mbind option_bind mc_template_receive_sigchld]. rewrite Hs.
    change (run threaded [Loop 0] ?q) with (step threaded (Loop 0) q ≫= Some). by rewrite Hr.
  - destruct (Hgo p) as (p' & Hr & ? & ? & ? & ?); [done..|]. exists [Loop 0], p'. split_and!; [by repeat constructor| |done..].
    change (run threaded [Loop 0] p) with (step threaded (Loop 0) p ≫= Some). by rewrite Hr.
Qed.

(** A template that waits for a branch that ended takes requests again: its handler
reaps the branch and lets the loop go on, without anything else happening. *)
Theorem template_comes_back l p c : run threaded l start = Some p → pc p = wait_child c → c ≠ (-1)%Z →
  kids p !! c ≠ Some running_child →
  ∃ l' p', Forall own l' ∧ run threaded l' p = Some p' ∧ pc p' = wait_request ∧ kids p' = ∅.
Proof using Type.
  intros Hrun Hpc Hc Hk. destruct (run_invariant l start p) as [Hp _]; [by split|done|].
  destruct (comes_back p c Hp Hpc Hc Hk) as (l' & p' & Hl & ? & ? & ? & _). exists l', p'. split; [|done].
  eapply Forall_impl; [exact Hl|apply steady_own].
Qed.

(** After a fork that failed the template waits for a branch there is none of: whatever
happens it takes no other request. *)
Theorem failed_fork_stops_template l1 l2 p p1 p2 :
  run threaded l1 start = Some p → pc p = make_process → step threaded (Loop (-1)) p = Some p1 →
  run threaded l2 p1 = Some p2 → (pc p2 = report (-1) ∨ pc p2 = wait_child (-1)) ∧ kids p2 = ∅.
Proof using Type.
  intros Hrun Hpc Hfork Hrun2. destruct (run_invariant l1 start p) as [Hp _]; [by split|done|].
  pose proof (step_phase _ _ _ Hp Hfork) as Hp1.
  assert (pc p1 = report (-1)) as Hpc1.
  { simpl in Hfork. destruct (handler p); [done|]. unfold loop_step in Hfork. rewrite Hpc in Hfork. by injection Hfork as <-. }
  clear Hrun Hpc Hfork Hp. assert (pc p1 = report (-1) ∨ pc p1 = wait_child (-1)) as Hor by auto. clear Hpc1.
  revert p1 Hp1 Hor Hrun2. induction l2 as [|e l2 IH]; intros p1 Hp1 Hor; simpl.
  - intros [= <-]. split; [done|]. unfold in_phase in Hp1. destruct Hor as [Hpc|Hpc]; rewrite Hpc in Hp1; by destruct Hp1.
  - intros (q & Hstep & Hrun)%bind_Some. apply (IH q); [by eapply step_phase| |done].
    assert (quiet p1) as [Hh Hpe Hk Hs].
    { unfold in_phase in Hp1. by destruct Hor as [Hpc|Hpc]; rewrite Hpc in Hp1. }
    destruct e as [|pid status| |pid|pid]; simpl in Hstep.
    + by injection Hstep as <-.
    + by rewrite Hk, lookup_empty in Hstep.
    + by rewrite Hpe in Hstep.
    + by rewrite Hh in Hstep.
    + rewrite Hh in Hstep. unfold loop_step in Hstep. destruct Hor as [Hpc|Hpc]; rewrite Hpc in Hstep.
      * injection Hstep as <-. by right.
      * by rewrite Hs in Hstep.
Qed.

End invariant.

(** ** No branch outlives the template unnoticed *)

Section orphans.
Context (template_pid : Z).

Definition first_branch : branch := Branch call_prctl true template_pid false false.
(** The kernel gives an orphan to another process. *)
Definition adopted (e : branch_event) : Prop := match e with TemplateDies reaper => reaper ≠ template_pid | _ => True end.

Record guarded (b : branch) : Prop := Guarded {
  g_parent : template_alive b = false → parent b ≠ template_pid;
  g_asked : bpc b ≠ call_prctl → bpc b ≠ aborted → pdeathsig b = true;
  g_checked : (bpc b = set_up ∨ bpc b = prepared) → template_alive b = false → sigterm b = true;
}.

Lemma guarded_step e b : adopted e → guarded b → guarded (mc_prepare_new_child_process template_pid e b).
Proof using Type.
  intros He [Hp Ha Hc]. destruct e as [rc|reaper]; simpl in *.
  - destruct (bpc b) eqn:Hb; simpl; try by split; rewrite ?Hb.
    + case_bool_decide; split; simpl; try done; naive_solver.
    + case_bool_decide as Hpar; split; simpl; try done; try naive_solver.
    + split; simpl; try done; naive_solver.
  - destruct (template_alive b) eqn:Hal; [|split; rewrite ?Hal; [exact Hp|exact Ha|exact Hc]]. split; simpl; [by intros _|exact Ha|].
    intros Hor _. rewrite (Ha); [apply orb_true_r|..]; destruct Hor; congruence.
Qed.

(** However the death of the template falls between the steps of a new branch, a branch
that gets past the check is alone only after it was sent SIGTERM. *)
Theorem no_orphans l b : Forall adopted l →
  foldl (λ b e, mc_prepare_new_child_process template_pid e b) first_branch l = b →
  bpc b = prepared → template_alive b = false → sigterm b = true.
Proof using Type.
  intros Hl <- Hb Hal. assert (guarded (foldl (λ b e, mc_prepare_new_child_process template_pid e b) first_branch l)) as [_ _ Hc].
  { clear Hb Hal. assert (guarded first_branch) as Hg by (split; simpl; naive_solver). revert Hg.
    generalize first_branch. induction Hl as [|e l He _ IH]; intros b Hg; [done|]. apply IH. by apply guarded_step. }
  auto.
Qed.

End orphans.

End TemplateLoop.
