(* ===== verification/TemplateFork.v ===== *)
(** * The forks of the template process

[fast_multithreaded_fork] ([lib/dmtcp-callback.c]): every thread of a restarted program
puts its context into a slot of [threadInfos] before it notifies the template thread,
which then forks a branch for each execution; the branch has only the thread that
forked, resets the mutex of the log and recreates the others from the slots.  The
threads are interleaved between the atomic increment, the accesses of the slot and the
semaphore.  [branches_recreate_threads] says that each branch has each thread once, as far as
[clone] succeeds. *)

From stdpp Require Import gmap list.
From stdpp Require Import options.
From S2P Require Import Prelude Logging.

(** ** The slots *)

(** A context is that of the thread that called [getcontext]. *)
Record threadinfo := Threadinfo {
  origTid : Z;
  context : option nat;
  fs : N;
  gs : N;
  pthread_descriptor : N;
}.
Definition zero_info : threadinfo := Threadinfo 0 None 0 0 0.
Definition SLOTS : nat := 1000.

(** What the kernel and glibc know of a thread: its identifier, its TLS registers and the
address of its descriptor. *)
Record user_thread := UserThread {
  tid : Z;
  fs_register : N;
  gs_register : N;
  self : N;
}.

(** The memory of the process: [tids] is the field of each descriptor that holds the
identifier of its thread. *)
Record memory := Memory {
  threadInfos : list threadinfo;
  threadIdx : nat;
  tids : gmap N Z;
  dmtcp_restart_sem : nat;
  liblog : LibLog.log_state;
}.
Definition write_slot (k : nat) (i : threadinfo) (m : memory) : memory :=
  Memory (<[k := i]> (threadInfos m)) (threadIdx m) (tids m) (dmtcp_restart_sem m) (liblog m).
Definition set_tid (d : N) (t : Z) (m : memory) : memory :=
  Memory (threadInfos m) (threadIdx m) (<[d := t]> (tids m)) (dmtcp_restart_sem m) (liblog m).
Definition set_restart_sem (n : nat) (m : memory) : memory :=
  Memory (threadInfos m) (threadIdx m) (tids m) n (liblog m).
Definition set_liblog (l : LibLog.log_state) (m : memory) : memory :=
  Memory (threadInfos m) (threadIdx m) (tids m) (dmtcp_restart_sem m) l.

(** [patchThreadDescriptor] by a thread whose identifier is [t]: what was there before. *)
Definition patchThreadDescriptor (t : Z) (pthreadSelf : N) : eff memory (option Z) := λ m,
  (Ok (tids m !! pthreadSelf), set_tid pthreadSelf t m).
Definition saveThreadStateBeforeFork (i : nat) (u : user_thread) (k : nat) : eff memory unit :=
  let! oldTid := patchThreadDescriptor (tid u) (self u) in
  if bool_decide (oldTid = Some (tid u)) then
    λ m, (Ok tt, write_slot k (Threadinfo (tid u) (Some i) (fs_register u) (gs_register u) (self u)) m)
  else throw AbortCalled.

(** ** The threads before the first fork *)

(** Where a thread is in [thread_handle_after_dmtcp_restart]. *)
Inductive thread_pc :=
  | entering
  | took (slot : nat)       (* after the fetch and add *)
  | cleared (slot : nat)    (* after memset *)
  | saved (slot : nat)      (* after getcontext *)
  | notified (slot : nat).
#[export] Instance thread_pc_eq_dec : EqDecision thread_pc.
Proof. solve_decision. Defined.

(** [taken] counts the waits of the template thread on [dmtcp_restart_sem]. *)
Record template := Template {
  mem : memory;
  pcs : list thread_pc;
  taken : nat;
}.
Inductive thread_event := Thread (i : nat) | TakePost.

Section Template.
Context (users : list user_thread).

(** A thread's next step; [Throw UB] for a slot outside of the array. *)
Definition thread_step (i : nat) (pc : thread_pc) : eff memory thread_pc :=
  match pc with
  | entering => λ m, (Ok (took (threadIdx m)),
      Memory (threadInfos m) (S (threadIdx m)) (tids m) (dmtcp_restart_sem m) (liblog m))
  | took k => λ m, if bool_decide (k < length (threadInfos m)) then (Ok (cleared k), write_slot k zero_info m)
                   else (Throw UB, m)
  | cleared k =>
      let! u := query (λ _, deref (users !! i)) in
      do! saveThreadStateBeforeFork i u k in ret (saved k)
  | saved k => λ m, (Ok (notified k), set_restart_sem (S (dmtcp_restart_sem m)) m)
  | notified k => throw Blocked
  end.
Definition step (e : thread_event) (t : template) : res template :=
  match e with
  | Thread i =>
      pc ← deref (pcs t !! i);
      match thread_step i pc (mem t) with
      | (Ok pc', m) => Ok (Template m (<[i := pc']> (pcs t)) (taken t))
      | (Throw e, _) => Throw e
      end
  | TakePost =>
      match dmtcp_restart_sem (mem t) with
      | O => Throw Blocked
      | S n => Ok (Template (set_restart_sem n (mem t)) (pcs t) (S (taken t)))
      end
  end.
Fixpoint run (l : list thread_event) (t : template) : res template :=
  match l with [] => Ok t | e :: l => t' ← step e t; run l t' end.

(** The memory after the restart. *)
Definition restarted : memory :=
  Memory (replicate SLOTS zero_info) 0 (list_to_map ((λ u, (self u, tid u)) <$> users)) 0 LibLog.initial_log_state.
Definition start : template := Template restarted ((λ _, entering) <$> users) 0.

End Template.

(** ** The fork *)

(** A thread of a branch: the context it resumes, the TLS register it runs with and its
identifier. *)
Record resumed := Resumed {
  resumed_context : option nat;
  resumed_fs : N;
  resumed_tid : Z;
}.

(** What becomes of a [clone]: a thread with an identifier, an error, or no memory for the
stack, where the code computes with a null pointer. *)
Inductive clone_result := cloned (t : Z) | clone_failed | no_stack.
Definition is_cloned (r : clone_result) : bool := match r with cloned _ => true | _ => false end.
(** The kernel stores the identifier of the new thread at the address given, the thread patches
its descriptor and resumes the context. *)
Definition libc_clone (r : clone_result) (i : threadinfo) : eff memory (option resumed) :=
  match r with
  | cloned t =>
      do! (λ m, (Ok tt, set_tid (pthread_descriptor i) t m)) in
      do! patchThreadDescriptor t (pthread_descriptor i) in
      ret (Some (Resumed (context i) (fs i) t))
  | clone_failed => ret None
  | no_stack => throw UB
  end.
(** The loop of [restart_child_threads_fast] from the slot [k], which ends when the [news], the
results of the calls of [clone], are used up.  It does not look at them: a thread whose
[clone] failed is missing. *)
Fixpoint restart_from (k : nat) (news : list clone_result) : eff memory (list resumed) :=
  match news with
  | [] => ret []
  | new :: news =>
      let! i := query (λ m, deref (threadInfos m !! k)) in
      let! r := libc_clone new i in
      let! rs := restart_from (S k) news in
      ret (option_list r ++ rs)
  end.
Definition restart_child_threads_fast (kernel : nat → clone_result) : eff memory (list resumed) :=
  let! m := get in
  restart_from 0 (kernel <$> seq 0 (threadIdx m)).

(** What [_Fork] gave: its result in the parent, and in the child, whose memory is a copy,
the threads that run next to the one that forked. *)
Inductive fork_result := ForkParent (childpid : Z) | ForkChild (threads : list resumed).
Definition fast_multithreaded_fork (childpid : Z) (kernel : nat → clone_result) : eff memory fork_result :=
  if bool_decide (childpid = 0%Z) then
    do! (λ m, (Ok tt, set_liblog (LibLog.mcmini_log_reset_after_fork (liblog m)) m)) in
    let! threads := restart_child_threads_fast kernel in
    ret (ForkChild threads)
  else ret (ForkParent childpid).

Definition is_recreated_info (t : N) (i : threadinfo) : bool :=
  bool_decide (origTid i ≠ 0%Z) && bool_decide (pthread_descriptor i = t).
(** The loop reads the slots below [threadIdx]. *)
Definition mc_pthread_is_recreated_thread (t : N) (m : memory) : bool :=
  existsb (is_recreated_info t) (take (threadIdx m) (threadInfos m)).

(** ** Each thread has a slot of its own *)

Definition slot_of (pc : thread_pc) : option nat :=
  match pc with entering => None | took k | cleared k | saved k | notified k => Some k end.
Definition has_saved (pc : thread_pc) : option nat :=
  match pc with saved k | notified k => Some k | _ => None end.
Definition has_notified (pc : thread_pc) : bool := match pc with notified _ => true | _ => false end.
Definition notifications (l : list thread_pc) : nat := length (filter (λ pc, has_notified pc = true) l).
(** What thread [i] saves. *)
Definition info_of (i : nat) (u : user_thread) : threadinfo :=
  Threadinfo (tid u) (Some i) (fs_register u) (gs_register u) (self u).

Section Slots.
Context (users : list user_thread).
Context (descriptors_differ : NoDup (self <$> users)) (tids_nonzero : Forall (λ u, tid u ≠ 0%Z) users).

(** [order] lists the threads as they took their slots. *)
Record slots (order : list nat) (t : template) : Prop := Slots {
  sl_index : threadIdx (mem t) = length order;
  sl_once : NoDup order;
  sl_threads : length (pcs t) = length users;
  sl_taken i pc : pcs t !! i = Some pc → (i ∈ order ↔ slot_of pc ≠ None);
  sl_order i pc k : pcs t !! i = Some pc → slot_of pc = Some k → order !! k = Some i;
  sl_range i : i ∈ order → i < length users;
  sl_array : length (threadInfos (mem t)) = SLOTS;
  sl_saved i pc k u : pcs t !! i = Some pc → has_saved pc = Some k → users !! i = Some u →
    threadInfos (mem t) !! k = Some (info_of i u);
  sl_tids u : u ∈ users → tids (mem t) !! self u = Some (tid u);
  sl_inside i pc k : pcs t !! i = Some pc → slot_of pc = Some k → pc = took k ∨ k < SLOTS;
  sl_posts : dmtcp_restart_sem (mem t) + taken t = notifications (pcs t);
}.

Lemma slots_start : slots [] (start users).
Proof using All.
  split; cbn; try done.
  - constructor.
  - by rewrite length_fmap.
  - intros i pc (u & -> & _)%list_lookup_fmap_Some. cbn. set_solver.
  - intros i pc k (u & -> & _)%list_lookup_fmap_Some. done.
  - set_solver.
  - intros i pc k u (u' & -> & _)%list_lookup_fmap_Some. done.
  - intros u Hu. apply elem_of_list_to_map_1.
    + by rewrite <- list_fmap_compose.
    + apply list_elem_of_fmap. by exists u.
  - intros i pc k (u' & -> & _)%list_lookup_fmap_Some. done.
  - clear. induction users; [done|]. simpl. by rewrite filter_cons_False.
Qed.

Lemma notifications_insert l i pc pc' : l !! i = Some pc →
  notifications (<[i := pc']> l) + Nat.b2n (has_notified pc) = notifications l + Nat.b2n (has_notified pc').
Proof using Type.
  unfold notifications. revert i. induction l as [|x l IH]; intros [|i] Hi; simpl in *; [done|done| |].
  - injection Hi as ->. rewrite !filter_cons. destruct (has_notified pc), (has_notified pc'); simpl; lia.
  - specialize (IH i Hi). rewrite !filter_cons. case_decide; simpl; lia.
Qed.

Lemma notifications_le l : notifications l ≤ length l.
Proof using Type. apply length_filter. Qed.
Lemma notifications_full l : length l ≤ notifications l → Forall (λ pc, has_notified pc = true) l.
Proof using Type.
  unfold notifications. induction l as [|pc l IH]; [constructor|]. rewrite filter_cons.
  pose proof (notifications_le l) as Hle. unfold notifications in Hle.
  case_decide; simpl; intros Hl; [|lia]. constructor; [done|]. apply IH. lia.
Qed.

(** A step of a thread that has its slot changes neither the order nor the other slots. *)
Lemma slots_move order t i pc pc' k m' :
  slots order t → pcs t !! i = Some pc → slot_of pc = Some k → slot_of pc' = Some k →
  threadIdx m' = threadIdx (mem t) → length (threadInfos m') = SLOTS →
  (∀ k', k' ≠ k → threadInfos m' !! k' = threadInfos (mem t) !! k') →
  (∀ u, has_saved pc' = Some k → users !! i = Some u → threadInfos m' !! k = Some (info_of i u)) →
  tids m' = tids (mem t) → (pc' = took k ∨ k < SLOTS) →
  dmtcp_restart_sem m' + Nat.b2n (has_notified pc) = dmtcp_restart_sem (mem t) + Nat.b2n (has_notified pc') →
  slots order (Template m' (<[i := pc']> (pcs t)) (taken t)).
Proof using All.
  intros [Hidx Hnd Hlen Htk Hord Hrg Harr Hsv Htid Hins Hps] Hi Hk Hk' Hidx' Harr' Hother Hnew Htid' Hin' Hsem.
  assert (i < length (pcs t)) as Hil by (eapply lookup_lt_Some; done).
  assert (∀ j pcj, <[i := pc']> (pcs t) !! j = Some pcj → (j = i ∧ pcj = pc') ∨ (j ≠ i ∧ pcs t !! j = Some pcj)) as Hlook.
  { intros j pcj. destruct (decide (j = i)) as [->|Hne]; [rewrite list_lookup_insert_eq by done; naive_solver|].
    rewrite list_lookup_insert_ne by done. auto. }
  split; cbn [mem pcs taken]; try done.
  - by rewrite Hidx'.
  - by rewrite length_insert.
  - intros j pcj [[-> ->]|[Hne Hj]]%Hlook; [|by apply Htk]. rewrite (Htk i pc Hi), Hk, Hk'. done.
  - intros j pcj k0 [[-> ->]|[Hne Hj]]%Hlook Hk0; [|by eapply Hord]. assert (k0 = k) as -> by congruence. by eapply Hord.
  - intros j pcj k0 u [[-> ->]|[Hne Hj]]%Hlook Hs Hu.
    + assert (k0 = k) as -> by (destruct pc'; simplify_eq/=; congruence). by apply Hnew.
    + rewrite Hother; [by eapply Hsv|]. intros ->. apply Hne.
      assert (slot_of pcj = Some k) as Hsj by (by destruct pcj).
      pose proof (Hord _ _ _ Hj Hsj). pose proof (Hord _ _ _ Hi Hk). congruence.
  - intros u Hu. rewrite Htid'. by apply Htid.
  - intros j pcj k0 [[-> ->]|[Hne Hj]]%Hlook Hk0; [|by eapply Hins]. assert (k0 = k) as -> by congruence. done.
  - pose proof (notifications_insert _ _ _ pc' Hi). lia.
Qed.

Lemma save_ok i u k m : tids m !! self u = Some (tid u) →
  saveThreadStateBeforeFork i u k m = (Ok tt, write_slot k (info_of i u) (set_tid (self u) (tid u) m)).
Proof using Type.
  intros Hu. unfold saveThreadStateBeforeFork, patchThreadDescriptor, ebind. rewrite Hu.
  by rewrite bool_decide_true.
Qed.

(** The atomic increment gives a thread the next slot. *)
Lemma slots_enter order t i : slots order t → pcs t !! i = Some entering →
  slots (order ++ [i]) (Template (Memory (threadInfos (mem t)) (S (threadIdx (mem t))) (tids (mem t))
    (dmtcp_restart_sem (mem t)) (liblog (mem t))) (<[i := took (threadIdx (mem t))]> (pcs t)) (taken t)).
Proof using All.
  intros [Hidx Hnd Hlen Htk Hord Hrg Harr Hsv Htid Hins Hps] Hi.
  assert (i < length (pcs t)) as Hil by (eapply lookup_lt_Some; done).
  assert (i ∉ order) as Hfresh by (intros Hin; by apply (Htk i entering Hi) in Hin).
  assert (∀ j pcj, <[i := took (threadIdx (mem t))]> (pcs t) !! j = Some pcj →
    (j = i ∧ pcj = took (length order)) ∨ (j ≠ i ∧ pcs t !! j = Some pcj)) as Hlook.
  { rewrite Hidx. intros j pcj. destruct (decide (j = i)) as [->|Hne]; [rewrite list_lookup_insert_eq by done; naive_solver|].
    rewrite list_lookup_insert_ne by done. auto. }
  split; cbn [mem pcs taken threadIdx threadInfos tids dmtcp_restart_sem]; try done.
  - rewrite length_app. simpl. lia.
  - apply NoDup_app. split_and!; [done| |apply NoDup_singleton]. set_solver.
  - by rewrite length_insert.
  - intros j pcj [[-> ->]|[Hne Hj]]%Hlook; [set_solver|]. rewrite <- (Htk j pcj Hj). set_solver.
  - intros j pcj k [[-> ->]|[Hne Hj]]%Hlook Hk.
    + injection Hk as <-. apply list_lookup_middle. done.
    + apply lookup_app_l_Some. by eapply Hord.
  - intros j [Hj|Hj%list_elem_of_singleton]%elem_of_app; [by apply Hrg|]. subst j. lia.
  - intros j pcj k u [[-> ->]|[Hne Hj]]%Hlook Hs Hu; [done|by eapply Hsv].
  - intros j pcj k [[-> ->]|[Hne Hj]]%Hlook Hk; [left; by injection Hk as <-|by eapply Hins].
  - pose proof (notifications_insert _ _ _ (took (threadIdx (mem t))) Hi). simpl in *. lia.
Qed.

Lemma slots_step order e t t' : slots order t → step users e t = Ok t' → ∃ order', slots order' t'.
Proof using All.
  intros Ht. destruct e as [i|]; simpl.
  - intros (pc & Hi & Hstep)%bind_ok. apply deref_ok in Hi.
    assert (∀ k, slot_of pc = Some k → k < length order) as Hlt.
    { intros k Hk. eapply lookup_lt_Some, (sl_order _ _ Ht); done. }
    destruct pc as [|k|k|k|k]; simpl in Hstep.
    + injection Hstep as <-. exists (order ++ [i]). by apply slots_enter.
    + case_bool_decide as Hk; [|done]. injection Hstep as <-. exists order.
      apply (slots_move _ _ _ (took k) (cleared k) k); cbn; try done.
      * by rewrite length_insert, (sl_array _ _ Ht).
      * intros k' Hne. by apply list_lookup_insert_ne.
      * right. by rewrite <- (sl_array _ _ Ht).
    + destruct (users !! i) as [u|] eqn:Hu; [|done]. pose proof (list_elem_of_lookup_2 _ _ _ Hu) as Hin.
      unfold ebind at 1, query in Hstep. simpl deref in Hstep. unfold ebind at 1 in Hstep.
      rewrite save_ok in Hstep by (by apply (sl_tids _ _ Ht)). injection Hstep as <-. exists order.
      assert (k < SLOTS) as Hk by (by destruct (sl_inside _ _ Ht i (cleared k) k Hi)).
      apply (slots_move _ _ _ (cleared k) (saved k) k); cbn; auto.
      * by rewrite length_insert, (sl_array _ _ Ht).
      * intros k' Hne. by apply list_lookup_insert_ne.
      * intros u' _ Hu'. simplify_eq. apply list_lookup_insert_eq. by rewrite (sl_array _ _ Ht).
      * apply insert_id. by apply (sl_tids _ _ Ht).
    + injection Hstep as <-. exists order. destruct (sl_inside _ _ Ht i (saved k) k Hi); [done..|].
      apply (slots_move _ _ _ (saved k) (notified k) k); cbn; auto; try lia; try apply (sl_array _ _ Ht).
      intros u _ Hu. by eapply (sl_saved _ _ Ht).
    + done.
  - destruct (dmtcp_restart_sem (mem t)) as [|n] eqn:Hsem; [done|]. intros [= <-]. exists order.
    destruct Ht as [? ? ? ? ? ? ? ? ? ? Hps]. split; cbn; try done. rewrite Hsem in Hps. unfold notifications in Hps. lia.
Qed.

Lemma slots_run order l t t' : slots order t → run users l t = Ok t' → ∃ order', slots order' t'.
Proof using All.
  revert order t. induction l as [|e l IH]; intros order t Ht; simpl; [intros [= <-]; eauto|].
  intros (t1 & Hstep & Hrun)%bind_ok. destruct (slots_step _ _ _ _ Ht Hstep) as [order1 Ht1]. by eapply IH.
Qed.

(** When the template thread has waited as often as there are threads, each has its slot. *)
Lemma slots_full order t : slots order t → taken t = length users →
  threadIdx (mem t) = length users ∧ order ≡ₚ seq 0 (length users)
  ∧ ∀ k i, order !! k = Some i → ∃ u, users !! i = Some u ∧ threadInfos (mem t) !! k = Some (info_of i u).
Proof using All.
  intros Ht Htaken.
  assert (∀ i pc, pcs t !! i = Some pc → has_notified pc = true) as Hall.
  { pose proof (sl_posts _ _ Ht) as Hp. rewrite Htaken, <- (sl_threads _ _ Ht) in Hp.
    assert (length (pcs t) ≤ notifications (pcs t)) as Hl by lia. apply notifications_full in Hl.
    rewrite Forall_forall in Hl. intros i pc Hi%list_elem_of_lookup_2. by apply Hl. }
  assert (order ≡ₚ seq 0 (length users)) as Hperm.
  { apply NoDup_Permutation; [apply (sl_once _ _ Ht)|apply NoDup_seq|]. intros i. rewrite elem_of_seq. split.
    - intros Hi%(sl_range _ _ Ht). lia.
    - intros [_ Hi]. rewrite <- (sl_threads _ _ Ht) in Hi. destruct (lookup_lt_is_Some_2 _ _ Hi) as [pc Hpc].
      apply (sl_taken _ _ Ht i pc Hpc). specialize (Hall i pc Hpc). by destruct pc. }
  split_and!; [|done|].
  - rewrite (sl_index _ _ Ht), Hperm. apply length_seq.
  - intros k i Hk. assert (i < length users) as Hi by (apply (sl_range _ _ Ht); eauto using list_elem_of_lookup_2).
    destruct (lookup_lt_is_Some_2 users i Hi) as [u Hu]. exists u. split; [done|].
    rewrite <- (sl_threads _ _ Ht) in Hi. destruct (lookup_lt_is_Some_2 _ _ Hi) as [pc Hpc].
    specialize (Hall i pc Hpc). destruct pc as [| | | |k']; try done.
    assert (order !! k' = Some i) as Hk' by (eapply (sl_order _ _ Ht); done).
    assert (k = k') as -> by (eapply NoDup_lookup; [apply (sl_once _ _ Ht)|done..]).
    by eapply (sl_saved _ _ Ht).
Qed.

Lemma slots_fit order t : slots order t → taken t = length users → length users ≤ SLOTS.
Proof using All.
  intros Ht Htaken. destruct (slots_full _ _ Ht Htaken) as (_ & Hperm & Hall).
  destruct (length users) as [|n] eqn:Hn; [lia|].
  assert (length order = S n) as Hl by (by rewrite Hperm, length_seq).
  destruct (lookup_lt_is_Some_2 order n) as [i Hi]; [lia|].
  destruct (Hall n i Hi) as (u & _ & Hu). apply lookup_lt_Some in Hu. rewrite (sl_array _ _ Ht) in Hu. lia.
Qed.

(** ** Every wait ends *)

Definition rank (pc : thread_pc) : nat :=
  match pc with entering => 4 | took _ => 3 | cleared _ => 2 | saved _ => 1 | notified _ => 0 end.
Definition remaining (t : template) : nat := sum_list (rank <$> pcs t) + (length users - taken t).

Lemma sum_insert l i pc pc' : l !! i = Some pc →
  sum_list (rank <$> <[i := pc']> l) + rank pc = sum_list (rank <$> l) + rank pc'.
Proof using Type.
  revert i. induction l as [|x l IH]; intros [|i] Hi; simpl in *; [done|done| |].
  - injection Hi as ->. lia.
  - specialize (IH i Hi). unfold fmap in IH. lia.
Qed.

(** A step brings the end nearer. *)
Lemma step_remaining order e t t' : slots order t → step users e t = Ok t' → S (remaining t') = remaining t.
Proof using All.
  intros Ht. destruct e as [i|]; simpl.
  - intros (pc & Hi & Hstep)%bind_ok. apply deref_ok in Hi. unfold remaining.
    destruct (thread_step users i pc (mem t)) as [[pc'|] m] eqn:Hth; [|done]. injection Hstep as <-. cbn.
    assert (rank pc = S (rank pc')) as Hr.
    { destruct pc as [|k|k|k|k]; simpl in Hth; [by simplify_eq| | |by simplify_eq|done].
      - case_bool_decide; by simplify_eq.
      - destruct (users !! i) as [u|] eqn:Hu; [|done].
        unfold ebind at 1, query in Hth. simpl deref in Hth. unfold ebind at 1 in Hth.
        rewrite save_ok in Hth by (apply (sl_tids _ _ Ht); eauto using list_elem_of_lookup_2). by injection Hth as <-. }
    pose proof (sum_insert _ _ _ pc' Hi). lia.
  - destruct (dmtcp_restart_sem (mem t)) as [|n] eqn:Hsem; [done|]. intros [= <-]. unfold remaining. cbn.
    pose proof (sl_posts _ _ Ht) as Hp. pose proof (notifications_le (pcs t)). rewrite (sl_threads _ _ Ht) in *. lia.
Qed.

(** Until the template thread has waited for all threads, something can happen. *)
Lemma slots_progress order t : slots order t → length users ≤ SLOTS → taken t < length users →
  ∃ e t', step users e t = Ok t'.
Proof using All.
  intros Ht Hn Htaken. destruct (dmtcp_restart_sem (mem t)) as [|n] eqn:Hsem.
  2:{ exists TakePost. simpl. rewrite Hsem. eauto. }
  destruct (decide (Forall (λ pc, has_notified pc = true) (pcs t))) as [Hall|Hsome].
  { exfalso. pose proof (sl_posts _ _ Ht) as Hp. rewrite Hsem in Hp.
    assert (notifications (pcs t) = length (pcs t)) as Heq; [|rewrite (sl_threads _ _ Ht) in Heq; lia].
    unfold notifications. clear -Hall. induction Hall as [|pc l Hpc _ IH]; [done|].
    rewrite filter_cons_True by done. simpl. by f_equal. }
  apply not_Forall_Exists in Hsome; [|apply _]. apply Exists_exists in Hsome as (pc & Hpc & Hno).
  apply list_elem_of_lookup in Hpc as [i Hi]. exists (Thread i). simpl. rewrite Hi. cbn.
  assert (i < length users) as Hil by (rewrite <- (sl_threads _ _ Ht); eapply lookup_lt_Some; done).
  destruct (lookup_lt_is_Some_2 users i Hil) as [u Hu].
  destruct pc as [|k|k|k|k]; simpl; [eauto| | |eauto|by destruct Hno].
  - rewrite bool_decide_true; [eauto|]. rewrite (sl_array _ _ Ht).
    assert (k < length order) as Hk by exact (lookup_lt_Some _ _ _ (sl_order _ _ Ht i _ k Hi eq_refl)).
    assert (length order ≤ length users); [|lia]. rewrite <- (length_seq (length users) 0).
    apply submseteq_length, NoDup_submseteq; [apply (sl_once _ _ Ht)|].
    intros j Hj%(sl_range _ _ Ht). apply elem_of_seq. lia.
  - rewrite Hu. unfold ebind at 1, query. simpl deref. unfold ebind at 1.
    rewrite save_ok by (apply (sl_tids _ _ Ht); eauto using list_elem_of_lookup_2). unfold ret. eauto.
Qed.

End Slots.

(** ** What a branch is made of *)

(** The other parts of the memory do not change. *)
Definition same_slots (m m' : memory) : Prop :=
  threadInfos m' = threadInfos m ∧ threadIdx m' = threadIdx m ∧ liblog m' = liblog m.

Definition no_stack_missing (news : list clone_result) : Prop := Forall (λ r, r ≠ no_stack) news.
(** The thread a slot becomes. *)
Definition resumed_from (i : threadinfo) (r : clone_result) : option resumed :=
  match r with cloned t => Some (Resumed (context i) (fs i) t) | _ => None end.
Definition resumed_all (infos : list threadinfo) (news : list clone_result) : list resumed := omap id (zip_with resumed_from infos news).
(** The elements whose [clone] succeeds. *)
Definition survivors {A} (l : list A) (news : list clone_result) : list A :=
  omap id (zip_with (λ x r, if is_cloned r then Some x else None) l news).

Lemma clone_ok r i m : r ≠ no_stack →
  libc_clone r i m = (Ok (resumed_from i r), match r with
    | cloned t => set_tid (pthread_descriptor i) t (set_tid (pthread_descriptor i) t m) | _ => m end).
Proof. by destruct r. Qed.

(** The threads are those of the slots, in order. *)
Lemma restart_from_spec k news m infos : length infos = length news → no_stack_missing news →
  (∀ j i, infos !! j = Some i → threadInfos m !! (k + j) = Some i) →
  ∃ m', restart_from k news m = (Ok (resumed_all infos news), m')
    ∧ same_slots m m'
    ∧ (∀ d, d ∉ (pthread_descriptor <$> infos) → tids m' !! d = tids m !! d)
    ∧ (NoDup (pthread_descriptor <$> infos) → ∀ j i t, infos !! j = Some i → news !! j = Some (cloned t) →
        tids m' !! pthread_descriptor i = Some t).
Proof.
  revert k m infos. induction news as [|r news IH]; intros k m infos Hlen Hst Hinfos; destruct infos as [|i infos]; try done.
  { exists m. by split_and!. }
  apply Forall_cons in Hst as [Hr Hst]. cbn [restart_from]. unfold ebind at 1, query.
  pose proof (Hinfos 0 i eq_refl) as Hi. rewrite Nat.add_0_r in Hi. rewrite Hi. cbn [deref].
  unfold ebind at 1. rewrite clone_ok by done. set (m1 := match r with cloned _ => _ | _ => _ end).
  assert (threadInfos m1 = threadInfos m ∧ threadIdx m1 = threadIdx m ∧ liblog m1 = liblog m) as (Ht1 & Ht2 & Ht3) by (by destruct r).
  destruct (IH (S k) m1 infos) as (m' & Hrun & (Hs1 & Hs2 & Hs3) & Hout & Hin).
  { by injection Hlen. }
  { done. }
  { intros j i' Hj. rewrite Nat.add_succ_comm, Ht1. by apply Hinfos. }
  exists m'. unfold ebind. rewrite Hrun. split_and!.
  - unfold resumed_all. cbn. by destruct (resumed_from i r).
  - split_and!; congruence.
  - intros d Hd. rewrite fmap_cons, not_elem_of_cons in Hd. destruct Hd as [Hne Hd].
    rewrite Hout by done. unfold m1. destruct r; [|done..]. cbn. by rewrite !lookup_insert_ne.
  - rewrite fmap_cons. intros [Hfresh Hnd]%NoDup_cons [|j] i' t' Hj Ht; simplify_eq/=.
    + rewrite Hout by done. unfold m1. cbn. by rewrite lookup_insert_eq.
    + by apply (Hin Hnd j).
Qed.

Lemma resumed_contexts infos news : resumed_context <$> resumed_all infos news = survivors (context <$> infos) news.
Proof.
  unfold resumed_all, survivors. revert news. induction infos as [|i infos IH]; intros [|r news]; [done..|].
  cbn. destruct r; cbn; [by f_equal; apply IH|apply IH..].
Qed.
Lemma survivors_fmap {A B} (f : A → B) l news : survivors (f <$> l) news = f <$> survivors l news.
Proof.
  unfold survivors. revert news. induction l as [|x l IH]; intros [|r news]; [done..|].
  cbn. destruct r; cbn; [by f_equal; apply IH|apply IH..].
Qed.
Lemma survivors_all {A} (l : list A) news : length l = length news → Forall (λ r, is_cloned r = true) news → survivors l news = l.
Proof.
  unfold survivors. revert news. induction l as [|x l IH]; intros [|r news] Hl Hall; [done..|].
  apply Forall_cons in Hall as [Hr Hall]. cbn. rewrite Hr. cbn. f_equal. apply IH; [by injection Hl|done].
Qed.
Lemma elem_of_resumed_all r infos news : r ∈ resumed_all infos news →
  ∃ k i t, infos !! k = Some i ∧ news !! k = Some (cloned t) ∧ r = Resumed (context i) (fs i) t.
Proof.
  unfold resumed_all. intros (o & [k Hk]%list_elem_of_lookup & Ho)%list_elem_of_omap.
  apply lookup_zip_with_Some in Hk as (i & c & -> & Hi & Hc). destruct c as [t| |]; [|done..].
  injection Ho as <-. by exists k, i, t.
Qed.

Section Branch.
Context (users : list user_thread).
Context (descriptors_differ : NoDup (self <$> users)) (tids_nonzero : Forall (λ u, tid u ≠ 0%Z) users).

(** The slots in use once all threads have notified the template. *)
Definition filled (infos : list threadinfo) : Prop :=
  ∃ order, order ≡ₚ seq 0 (length users) ∧ length infos = length users
    ∧ ∀ k i, order !! k = Some i → ∃ u, users !! i = Some u ∧ infos !! k = Some (info_of i u).

Lemma slots_filled order t : slots users order t → taken t = length users →
  threadIdx (mem t) = length users ∧ filled (take (length users) (threadInfos (mem t))).
Proof using All.
  intros Ht Htaken. destruct (slots_full _ descriptors_differ tids_nonzero _ _ Ht Htaken) as (Hidx & Hperm & Hall).
  pose proof (slots_fit _ descriptors_differ tids_nonzero _ _ Ht Htaken) as Hfit.
  split; [done|]. exists order. split_and!; [done| |].
  - rewrite length_take, (sl_array _ _ _ Ht). lia.
  - intros k i Hk. destruct (Hall k i Hk) as (u & Hu & Hs). exists u. split; [done|].
    apply lookup_take_Some. split; [done|]. apply lookup_lt_Some in Hk. by rewrite Hperm, length_seq in Hk.
Qed.

(** Each slot is that of one thread, and each thread has one. *)
Lemma filled_slot infos k x : filled infos → infos !! k = Some x →
  ∃ i u, users !! i = Some u ∧ x = info_of i u.
Proof using Type.
  intros (order & Hperm & Hlen & Hall) Hk. assert (k < length order) as Hlt.
  { rewrite Hperm, length_seq, <- Hlen. by eapply lookup_lt_Some. }
  destruct (lookup_lt_is_Some_2 order k Hlt) as [i Hi]. destruct (Hall k i Hi) as (u & Hu & Hx).
  exists i, u. by simplify_eq.
Qed.

Lemma filled_thread infos i u : filled infos → users !! i = Some u → info_of i u ∈ infos.
Proof using Type.
  intros (order & Hperm & Hlen & Hall) Hu. assert (i ∈ order) as [k Hk]%list_elem_of_lookup.
  { rewrite Hperm. apply elem_of_seq. apply lookup_lt_Some in Hu. lia. }
  destruct (Hall k i Hk) as (u' & Hu' & Hx). simplify_eq. by eapply list_elem_of_lookup_2.
Qed.

(** The contexts are those of the threads, in the order of the slots. *)
Lemma filled_order infos : filled infos → ∃ order, order ≡ₚ seq 0 (length users) ∧ context <$> infos = Some <$> order.
Proof using Type.
  intros (order & Hperm & Hlen & Hall). exists order. split; [done|].
  apply list_eq_same_length with (length users); [by rewrite length_fmap, Hperm, length_seq|by rewrite length_fmap|].
  intros k x y _ Hx Hy. apply list_lookup_fmap_Some in Hx as (i0 & -> & Hi0).
  apply list_lookup_fmap_Some in Hy as (i & -> & Hi). destruct (Hall k i Hi) as (u & _ & Hu). by simplify_eq.
Qed.

Lemma filled_descriptors infos : filled infos → NoDup (pthread_descriptor <$> infos).
Proof using descriptors_differ.
  intros (order & Hperm & Hlen & Hall). apply NoDup_alt. intros a b d Ha Hb.
  assert (NoDup order) as Hnd by (rewrite Hperm; apply NoDup_seq).
  assert (∀ c, (pthread_descriptor <$> infos) !! c = Some d → ∃ i u, order !! c = Some i ∧ users !! i = Some u ∧ self u = d) as Hc.
  { intros c (x & -> & Hx)%list_lookup_fmap_Some. assert (c < length order) as Hlt.
    { rewrite Hperm, length_seq, <- Hlen. by eapply lookup_lt_Some. }
    destruct (lookup_lt_is_Some_2 order c Hlt) as [i Hi]. destruct (Hall c i Hi) as (u & Hu & Hx').
    exists i, u. by simplify_eq. }
  destruct (Hc a Ha) as (i & u & Hi & Hu & Hd), (Hc b Hb) as (j & v & Hj & Hv & He).
  assert (i = j) as <-.
  { apply (NoDup_lookup (self <$> users) i j d); [done|..]; rewrite list_lookup_fmap, ?Hu, ?Hv; cbn; by f_equal. }
  by eapply NoDup_lookup.
Qed.

Lemma recreated_spec infos d m : filled infos → threadIdx m = length users → take (length users) (threadInfos m) = infos →
  mc_pthread_is_recreated_thread d m = true ↔ d ∈ self <$> users.
Proof using tids_nonzero.
  intros Hf Hidx Hinfos. unfold mc_pthread_is_recreated_thread. rewrite Hidx, Hinfos, existsb_exists. split.
  - intros (x & [k Hk]%list_elem_of_In%list_elem_of_lookup & Hx).
    destruct (filled_slot _ _ _ Hf Hk) as (i & u & Hu & ->). unfold is_recreated_info in Hx.
    apply andb_prop in Hx as [_ <-%bool_decide_eq_true]. apply (list_elem_of_fmap_2 self users u). by eapply list_elem_of_lookup_2.
  - intros (u & -> & [i Hu]%list_elem_of_lookup)%list_elem_of_fmap. exists (info_of i u). split.
    + apply list_elem_of_In. by apply filled_thread.
    + unfold is_recreated_info. cbn. rewrite !bool_decide_true; [done|done|].
      rewrite Forall_lookup in tids_nonzero. by eapply tids_nonzero.
Qed.

(** C38: once the template thread has waited for as many notifications as there are
threads, every fork makes a branch with those of the threads whose [clone] succeeds, each
once, resuming its own context with its own TLS register, its new identifier in its
descriptor, and in which the log can be used whatever thread held its mutex.  The slots are
in some order of the threads, and [kernel] says what becomes of the [clone] for each slot:
with every thread when all of them succeed, and otherwise without those that failed, which
the library does not notice.  Memory for the stacks is there. *)
Theorem branches_recreate_threads l t kernel log :
  run users l (start users) = Ok t → taken t = length users → no_stack_missing (kernel <$> seq 0 (length users)) →
  ∃ threads branch order, fast_multithreaded_fork 0 kernel (set_liblog log (mem t)) = (Ok (ForkChild threads), branch)
    ∧ order ≡ₚ seq 0 (length users)
    ∧ (resumed_context <$> threads) = (Some <$> survivors order (kernel <$> seq 0 (length users)))
    ∧ (Forall (λ r, is_cloned r = true) (kernel <$> seq 0 (length users)) → (resumed_context <$> threads) ≡ₚ (Some <$> seq 0 (length users)))
    ∧ (∀ r i u, r ∈ threads → resumed_context r = Some i → users !! i = Some u →
        resumed_fs r = fs_register u ∧ tids branch !! self u = Some (resumed_tid r))
    ∧ (∀ d, mc_pthread_is_recreated_thread d branch = true ↔ d ∈ self <$> users)
    ∧ LibLog.log_mut (liblog branch) = None.
Proof using All.
  intros Hrun Htaken Hmem.
  destruct (slots_run _ descriptors_differ tids_nonzero _ _ _ _ (slots_start _ descriptors_differ tids_nonzero) Hrun) as [order Ht].
  destruct (slots_filled _ _ Ht Htaken) as [Hidx Hf].
  set (infos := take (length users) (threadInfos (mem t))) in *. set (news := kernel <$> seq 0 (length users)) in *.
  set (m0 := set_liblog (LibLog.mcmini_log_reset_after_fork log) (mem t)).
  assert (length infos = length news) as Hlen.
  { destruct Hf as (? & _ & -> & _). unfold news. by rewrite length_fmap, length_seq. }
  destruct (restart_from_spec 0 news m0 infos Hlen Hmem) as (m' & Hm' & (Hs1 & Hs2 & Hs3) & _ & Hin).
  { intros j i Hj. unfold infos in Hj. by apply lookup_take_Some in Hj as [Hj _]. }
  destruct (filled_order _ Hf) as (slots_order & Hperm & Hctx).
  assert (resumed_context <$> resumed_all infos news = Some <$> survivors slots_order news) as Hres.
  { by rewrite resumed_contexts, Hctx, survivors_fmap. }
  exists (resumed_all infos news), m', slots_order. split_and!; [|done|done|..].
  - unfold fast_multithreaded_fork. rewrite bool_decide_true by done. unfold ebind at 1. cbn iota beta.
    change (set_liblog _ (set_liblog log (mem t))) with m0. unfold ebind at 1, restart_child_threads_fast.
    unfold ebind at 1, get. change (threadIdx m0) with (threadIdx (mem t)). rewrite Hidx. fold news. by rewrite Hm'.
  - intros Hall. rewrite Hres, survivors_all; [by rewrite Hperm| |done]. unfold news. by rewrite Hperm, length_fmap.
  - intros r i u (k & x & n & Hx & Hn & ->)%elem_of_resumed_all Hr Hu. destruct (filled_slot _ _ _ Hf Hx) as (i' & u' & Hu' & ->).
    injection Hr as ->. simplify_eq. split; [done|]. exact (Hin (filled_descriptors _ Hf) _ _ _ Hx Hn).
  - intros d. apply (recreated_spec infos); [done|by rewrite Hs2|by rewrite Hs1].
  - by rewrite Hs3.
Qed.

Lemma run_app l1 l2 t : run users (l1 ++ l2) t = run users l1 t ≫= run users l2.
Proof using Type.
  revert t. induction l1 as [|e l1 IH]; intros t; simpl; [done|]. destruct (step users e t); simpl; [apply IH|done].
Qed.

Lemma run_remaining order l t t' : slots users order t → run users l t = Ok t' →
  length l + remaining users t' = remaining users t.
Proof using All.
  revert order t. induction l as [|e l IH]; intros order t Ht; simpl; [by intros [= <-]|].
  intros (t1 & Hstep & Hrun)%bind_ok.
  pose proof (step_remaining _ descriptors_differ tids_nonzero _ _ _ _ Ht Hstep).
  destruct (slots_step _ descriptors_differ tids_nonzero _ _ _ _ Ht Hstep) as [order1 Ht1].
  pose proof (IH _ _ Ht1 Hrun). lia.
Qed.

Lemma taken_bound order t : slots users order t → taken t ≤ length users.
Proof using Type.
  intros Ht. pose proof (sl_posts _ _ _ Ht). pose proof (notifications_le (pcs t)).
  pose proof (sl_threads _ _ _ Ht). lia.
Qed.

(** When there are no more threads than slots, the waits of the template thread end:
whatever happened so far takes at most five steps for each thread and can go on until
all threads have been waited for. *)
Theorem template_waits_end l t :
  run users l (start users) = Ok t → length users ≤ SLOTS →
  length l ≤ 5 * length users ∧ ∃ l' t', run users (l ++ l') (start users) = Ok t' ∧ taken t' = length users.
Proof using All.
  intros Hrun Hfit. pose proof (slots_start _ descriptors_differ tids_nonzero) as Hstart.
  destruct (slots_run _ descriptors_differ tids_nonzero _ _ _ _ Hstart Hrun) as [order Ht]. split.
  - pose proof (run_remaining _ _ _ _ Hstart Hrun) as Hr. enough (remaining users (start users) = 5 * length users) by lia.
    unfold remaining, start. cbn [pcs taken]. assert (sum_list (rank <$> ((λ _, entering) <$> users)) = 4 * length users); [|lia].
    clear. induction users as [|u us IH]; [done|]. simpl in *. unfold fmap in IH. lia.
  - setoid_rewrite run_app. rewrite Hrun. cbn. clear Hrun l. remember (remaining users t) as n eqn:Hn.
    revert order t Ht Hn. induction n as [n IH] using lt_wf_ind. intros order t Ht Hn.
    destruct (decide (taken t = length users)) as [Hd|Hd]; [by exists [], t|].
    pose proof (taken_bound _ _ Ht). destruct (slots_progress _ descriptors_differ tids_nonzero _ _ Ht Hfit) as (e & t1 & Hstep); [lia|].
    pose proof (step_remaining _ descriptors_differ tids_nonzero _ _ _ _ Ht Hstep).
    destruct (slots_step _ descriptors_differ tids_nonzero _ _ _ _ Ht Hstep) as [order1 Ht1].
    destruct (IH (remaining users t1)) with (order := order1) (t := t1) as (l' & t' & Hl' & Hdone); [lia|done..|].
    exists (e :: l'), t'. cbn. by rewrite Hstep.
Qed.

(** With more threads than slots they never are: nothing checks the index. *)
Lemma more_threads_than_slots l t : SLOTS < length users → run users l (start users) = Ok t → taken t ≠ length users.
Proof using All.
  intros Hmany Hrun Htaken.
  destruct (slots_run _ descriptors_differ tids_nonzero _ _ _ _ (slots_start _ descriptors_differ tids_nonzero) Hrun) as [order Ht].
  pose proof (slots_fit _ descriptors_differ tids_nonzero _ _ Ht Htaken). lia.
Qed.

End Branch.
