(* ===== verification/MultithreadedFork.v ===== *)
(** * The fork of all threads

[common/multithreaded_fork.c], the older form of the fork of [TemplateFork.v]: the thread that
forks first sends a signal to every other thread, whose handler puts its context into a slot of
[childThread] and posts [sem_fork_parent]; it waits for as many posts as it sent signals, marks
two more slots as empty and forks, and the child recreates the threads of the slots that are not
empty.  The handlers are the machine of [TemplateFork.v], step by step; what is new is who may
run them, and the thread that forks ([fork_step]).  The signal masks of the threads are empty:
with another one the handler aborts the process. *)

From stdpp Require Import gmap list strings pretty.
From stdpp Require Import options.
From S2P Require Import Prelude Text TsanSupport Logging TemplateFork.

(** ** The other threads *)

(** [entries] are those of [/proc/self/task], [None] when it cannot be opened, for which the
result is -1; [real_to_virtual] gives 0 for a thread DMTCP does not know.  The array has room
for 1000 numbers, the terminating 0 included. *)
Definition get_child_threads (dmtcp : bool) (real_to_virtual : Z → Z) (entries : option (list text)) : res (option (list Z)) :=
  match entries with
  | None => Ok None
  | Some entries =>
      let child_threads := (λ t, if dmtcp && bool_decide (real_to_virtual t ≠ 0%Z) then real_to_virtual t else t)
                             <$> filter (λ t, t ≠ 0%Z) (atoi <$> entries) in
      if bool_decide (length child_threads < 1000) then Ok (Some child_threads) else Throw UB
  end.

Section fork.
Context (users : list user_thread).
(** Whether the file is compiled for DMTCP, whose checkpoint thread is left alone. *)
Context (dmtcp : bool) (mytid ckpt_tid : Z).

Inductive parent_pc :=
  | signalling (tids : list Z)
  | waiting (posts : nat)
  | reserving
  | forked.
(** [inside] counts the posts the parent has taken; [signalled] are the threads whose handler
runs or has run. *)
Record fork_state := ForkState {
  inside : template;
  signalled : list nat;
  parent : parent_pc;
}.

Definition left_alone (t : Z) : bool := bool_decide (t = mytid) || dmtcp && bool_decide (t = ckpt_tid).
Definition num_secondary_threads (num_threads : nat) : nat := num_threads - (if dmtcp then 2 else 1).
(** [childThread[k].origTid = 0]. *)
Definition clear_slot (k : nat) : eff memory unit := λ m,
  match threadInfos m !! k with
  | Some i => (Ok tt, write_slot k (Threadinfo 0 (context i) (fs i) (gs i) (pthread_descriptor i)) m)
  | None => (Throw UB, m)
  end.
Definition set_index (n : nat) (m : memory) : memory :=
  Memory (threadInfos m) n (tids m) (dmtcp_restart_sem m) (liblog m).
(** Two slots for the checkpoint thread and the thread itself. *)
Definition reserve : eff memory unit :=
  let! m := get in
  let ckptThreadIdx := threadIdx m in
  let templateThreadThreadIdx := S (threadIdx m) in
  do! (λ m, (Ok tt, set_index (S (S (threadIdx m))) m)) in
  do! clear_slot ckptThreadIdx in
  clear_slot templateThreadThreadIdx.

Inductive fork_event := Parent | Handler (i : nat).
(** [tgkill] fails for a number that is no thread. *)
Definition parent_step (num_threads : nat) (s : fork_state) : res fork_state :=
  match parent s with
  | signalling (t :: tids) =>
      if left_alone t then Ok (ForkState (inside s) (signalled s) (signalling tids))
      else match list_find (λ u, tid u = t) users with
           | Some (i, _) => Ok (ForkState (inside s) (i :: signalled s) (signalling tids))
           | None => Throw AssertionFailed
           end
  | signalling [] => Ok (ForkState (inside s) (signalled s) (waiting (num_secondary_threads num_threads)))
  | waiting (S posts) => t ← step users TakePost (inside s); Ok (ForkState t (signalled s) (waiting posts))
  | waiting O => Ok (ForkState (inside s) (signalled s) reserving)
  | reserving =>
      match reserve (mem (inside s)) with
      | (Ok _, m) => Ok (ForkState (Template m (pcs (inside s)) (taken (inside s))) (signalled s) forked)
      | (Throw e, _) => Throw e
      end
  | forked => Throw Blocked
  end.
Definition fork_step (num_threads : nat) (e : fork_event) (s : fork_state) : res fork_state :=
  match e with
  | Parent => parent_step num_threads s
  | Handler i => if bool_decide (i ∈ signalled s) then t ← step users (Thread i) (inside s); Ok (ForkState t (signalled s) (parent s))
                 else Throw Blocked
  end.
Fixpoint run_fork (num_threads : nat) (l : list fork_event) (s : fork_state) : res fork_state :=
  match l with [] => Ok s | e :: l => s' ← fork_step num_threads e s; run_fork num_threads l s' end.

(** The index is set to 0 and the semaphore initialised; the slots are those of an earlier fork. *)
Definition fork_start (m : memory) (tids : list Z) : fork_state :=
  ForkState (Template (set_restart_sem 0 (set_index 0 m)) ((λ _, entering) <$> users) 0) [] (signalling tids).

(** ** The child *)

(** The loop from the slot [k] over [n] slots; [kernel] says what becomes of the [clone] for each. *)
Fixpoint restart_child_threads (k n : nat) (kernel : nat → clone_result) : eff memory (list resumed) :=
  match n with
  | O => ret []
  | S n =>
      let! i := query (λ m, deref (threadInfos m !! k)) in
      if bool_decide (origTid i = 0%Z) then restart_child_threads (S k) n kernel
      else
        let! r := libc_clone (kernel k) i in
        let! rs := restart_child_threads (S k) n kernel in
        ret (option_list r ++ rs)
  end.
Definition after_fork (childpid : Z) (num_threads : nat) (kernel : nat → clone_result) : eff memory fork_result :=
  if bool_decide (childpid = 0%Z) then
    do! (λ m, (Ok tt, set_liblog (LibLog.mcmini_log_reset_after_fork (liblog m)) m)) in
    let! threads := restart_child_threads 0 num_threads kernel in
    ret (ForkChild threads)
  else ret (ForkParent childpid).

(** ** The slots of the child *)

Lemma skip_empty k n kernel m : (∀ j, k ≤ j < k + n → ∃ i, threadInfos m !! j = Some i ∧ origTid i = 0%Z) →
  restart_child_threads k n kernel m = (Ok [], m).
Proof using Type.
  revert k. induction n as [|n IH]; intros k Hempty; [done|]. cbn [restart_child_threads]. unfold ebind at 1, query.
  destruct (Hempty k) as (i & Hi & H0); [lia|]. rewrite Hi. cbn [deref]. rewrite bool_decide_eq_true_2 by done. apply IH.
  intros j Hj. apply Hempty. lia.
Qed.
(** On slots in use with empty ones behind them the loop is that of the other fork. *)
Lemma restart_child_threads_from k infos e kernel m :
  (∀ j i, infos !! j = Some i → threadInfos m !! (k + j) = Some i ∧ origTid i ≠ 0%Z) →
  (∀ j, k + length infos ≤ j < k + length infos + e → ∃ i, threadInfos m !! j = Some i ∧ origTid i = 0%Z) →
  no_stack_missing (kernel <$> seq k (length infos)) →
  restart_child_threads k (length infos + e) kernel m = restart_from k (kernel <$> seq k (length infos)) m.
Proof using Type.
  revert k m. induction infos as [|i infos IH]; intros k m Hin Hempty Hmem; [apply skip_empty; intros j Hj; apply Hempty; cbn in *; lia|].
  apply Forall_cons in Hmem as [Hk Hmem].
  cbn [length Nat.add restart_child_threads seq fmap list_fmap restart_from]. unfold ebind at 1 4, query.
  destruct (Hin 0 i eq_refl) as [Hi Hi0]. rewrite Nat.add_0_r in Hi. rewrite Hi. cbn [deref]. rewrite bool_decide_eq_false_2 by done.
  unfold ebind at 1 3. rewrite clone_ok by done. unfold ebind. set (m1 := match kernel k with cloned _ => _ | _ => _ end).
  assert (threadInfos m1 = threadInfos m) as Hm1 by (unfold m1; by destruct (kernel k)). f_equal. rewrite IH; [done|..|done].
  - intros j i' Hj. rewrite Hm1, Nat.add_succ_comm. by apply Hin.
  - intros j Hj. rewrite Hm1. apply Hempty. cbn. lia.
Qed.

Lemma reserve_inv m m' : reserve m = (Ok tt, m') →
  S (threadIdx m) < length (threadInfos m) ∧ (∀ k, k < threadIdx m → threadInfos m' !! k = threadInfos m !! k)
  ∧ (∀ k, threadIdx m ≤ k < S (S (threadIdx m)) → ∃ i, threadInfos m' !! k = Some i ∧ origTid i = 0%Z)
  ∧ tids m' = tids m ∧ length (threadInfos m') = length (threadInfos m).
Proof using Type.
  unfold reserve, ebind, get, clear_slot. cbn. destruct (threadInfos m !! threadIdx m) as [i|] eqn:Hi; [|done]. cbn.
  rewrite list_lookup_insert_ne by lia. destruct (threadInfos m !! S (threadIdx m)) as [i'|] eqn:Hi'; [|done]. intros [= <-]. cbn.
  apply lookup_lt_Some in Hi, Hi'. split_and!; [done| | |done|by rewrite !length_insert].
  - intros k Hk. by rewrite !list_lookup_insert_ne by lia.
  - intros k Hk. destruct (decide (k = threadIdx m)) as [->|].
    + eexists. by rewrite list_lookup_insert_ne, list_lookup_insert_eq by lia.
    + assert (k = S (threadIdx m)) as -> by lia. eexists. by rewrite list_lookup_insert_eq by (rewrite length_insert; lia).
Qed.
Lemma reserve_ok m : S (threadIdx m) < length (threadInfos m) → ∃ m', reserve m = (Ok tt, m').
Proof using Type.
  intros Hm. unfold reserve, ebind, get, clear_slot. cbn. destruct (lookup_lt_is_Some_2 (threadInfos m) (threadIdx m)) as [i ->]; [lia|].
  cbn. rewrite list_lookup_insert_ne by lia. destruct (lookup_lt_is_Some_2 (threadInfos m) (S (threadIdx m))) as [i' ->]; [lia|]. by eexists.
Qed.

(** ** The handlers are the machine of [TemplateFork.v] *)

Context (descriptors_differ : NoDup (self <$> users)) (tids_nonzero : Forall (λ u, tid u ≠ 0%Z) users).
Context (tids_differ : NoDup (tid <$> users)) (mine : mytid ∉ tid <$> users) (checkpoint : ckpt_tid ∉ tid <$> users).
(** The threads the process has when it forks. *)
Context (all : list Z) (all_threads : all ≡ₚ mytid :: (if dmtcp then [ckpt_tid] else []) ++ (tid <$> users)).
Context (m0 : memory) (slots_there : length (threadInfos m0) = SLOTS) (tids_there : ∀ u, u ∈ users → tids m0 !! self u = Some (tid u)).

Lemma secondary_threads : num_secondary_threads (length all) = length users.
Proof using All.
  unfold num_secondary_threads. rewrite all_threads. simpl. rewrite length_app, length_fmap. destruct dmtcp; simpl; lia.
Qed.
Lemma listed_thread t : t ∈ all → left_alone t = false → ∃ i u, list_find (λ u, tid u = t) users = Some (i, u) ∧ users !! i = Some u ∧ tid u = t.
Proof using All.
  intros Ht. rewrite all_threads in Ht. unfold left_alone.
  intros [Hm%bool_decide_eq_false Hc]%orb_false_iff.
  assert (t ∈ tid <$> users) as (u & -> & Hu)%list_elem_of_fmap.
  { apply elem_of_cons in Ht as [?|[Ht|?]%elem_of_app]; [done| |done]. destruct dmtcp; [|by apply elem_of_nil in Ht].
    apply list_elem_of_singleton in Ht. by rewrite bool_decide_eq_true_2 in Hc. }
  destruct (list_find_elem_of (λ v, tid v = tid u) users u Hu eq_refl) as [[i v] Hf]. exists i, v. split; [done|].
  by apply list_find_Some in Hf as (? & ? & _).
Qed.
Lemma user_not_left_alone u : u ∈ users → left_alone (tid u) = false.
Proof using All.
  intros Hu. assert (tid u ∈ tid <$> users) as Hin by (by apply list_elem_of_fmap_2). unfold left_alone.
  rewrite !bool_decide_eq_false_2; [by rewrite andb_false_r|by intros <-|by intros <-].
Qed.

Lemma fork_slots : slots users [] (inside (fork_start m0 all)).
Proof using All.
  split; cbn; try done.
  - constructor.
  - by rewrite length_fmap.
  - intros i pc (u & -> & _)%list_lookup_fmap_Some. cbn. set_solver.
  - intros i pc k (u & -> & _)%list_lookup_fmap_Some. done.
  - set_solver.
  - intros i pc k u (u' & -> & _)%list_lookup_fmap_Some. done.
  - intros i pc k (u' & -> & _)%list_lookup_fmap_Some. done.
  - clear. induction users; [done|]. simpl. by rewrite filter_cons_False.
Qed.

(** Where the parent is, the handlers being in [t]. *)
Definition parent_inv (t : template) (sig : list nat) (pc : parent_pc) : Prop :=
  match pc with
  | signalling todo => taken t = 0 ∧ (∀ x, x ∈ todo → x ∈ all) ∧
      ∀ i u, users !! i = Some u → i ∈ sig ∨ tid u ∈ todo
  | waiting posts => taken t + posts = length users ∧ ∀ i u, users !! i = Some u → i ∈ sig
  | reserving => taken t = length users
  | forked => False
  end.
(** Before the fork, or from a state before the fork by [reserve]. *)
Definition fork_inv (s : fork_state) : Prop :=
  (∃ order, slots users order (inside s) ∧ parent_inv (inside s) (signalled s) (parent s)) ∨
  (parent s = forked ∧ ∃ order t, slots users order t ∧ taken t = length users ∧ pcs (inside s) = pcs t ∧
    reserve (mem t) = (Ok tt, mem (inside s))).

Lemma all_notified order t i pc : slots users order t → taken t = length users → pcs t !! i = Some pc → has_notified pc = true.
Proof using All.
  intros Ht Htaken Hi. pose proof (sl_posts _ _ _ Ht) as Hp. rewrite Htaken, <- (sl_threads _ _ _ Ht) in Hp.
  assert (length (pcs t) ≤ notifications (pcs t)) as Hl by lia. apply notifications_full in Hl.
  rewrite Forall_lookup in Hl. by apply (Hl i).
Qed.
Lemma notified_stuck i t pc : pcs t !! i = Some pc → has_notified pc = true → is_ok (step users (Thread i) t) = false.
Proof using All. intros Hi Hn. cbn. rewrite Hi. cbn. by destruct pc. Qed.
Lemma thread_taken i t t' : step users (Thread i) t = Ok t' → taken t' = taken t.
Proof using All.
  cbn. intros (pc & _ & Hs)%bind_ok. destruct (thread_step _ _ _ _) as [[pc'|] m]; [|done]. by injection Hs as <-.
Qed.

Lemma fork_start_inv : fork_inv (fork_start m0 all).
Proof using All.
  left. exists []. split; [apply fork_slots|]. cbn. split_and!; [done|done|]. intros i u Hu. right. rewrite all_threads.
  apply elem_of_cons. right. apply elem_of_app. right. apply list_elem_of_fmap_2. by eapply list_elem_of_lookup_2.
Qed.
Lemma fork_step_inv e s s' : fork_inv s → fork_step (length all) e s = Ok s' → fork_inv s'.
Proof using All.
  intros [(order & Hsl & Hp)|(Hpc & order & t & Hsl & Ht & Hpcs & Hr)] Hstep.
  2: { destruct e as [|i]; cbn in Hstep; [unfold parent_step in Hstep; by rewrite Hpc in Hstep|].
       case_bool_decide; [|done]. apply bind_ok in Hstep as (t' & Hs & _). cbn in Hs. apply bind_ok in Hs as (pc & Hi & Hs).
       apply deref_ok in Hi. rewrite Hpcs in Hi. pose proof (all_notified _ _ _ _ Hsl Ht Hi) as Hn. by destruct pc. }
  destruct e as [|i]; cbn in Hstep.
  - unfold parent_step in Hstep. destruct (parent s) as [[|x todo]|[|posts]| |] eqn:Hpc; cbn in Hp.
    + injection Hstep as <-. left. exists order. split; [done|]. cbn. destruct Hp as (Ht & _ & Hall). rewrite secondary_threads. split; [lia|].
      intros i u Hu. destruct (Hall i u Hu) as [?|[]%elem_of_nil]; done.
    + destruct Hp as (Ht & Hin & Hall). destruct (left_alone x) eqn:Hx.
      * injection Hstep as <-. left. exists order. split; [done|]. cbn. split_and!; [done|intros y Hy; apply Hin; by right|].
        intros i u Hu. destruct (Hall i u Hu) as [?|[Hux|?]%elem_of_cons]; [by left| |by right].
        pose proof (user_not_left_alone u (list_elem_of_lookup_2 _ _ _ Hu)) as Hn. by rewrite Hux, Hx in Hn.
      * destruct (listed_thread x) as (i & u & Hf & Hu & <-); [apply Hin; by left|done|]. rewrite Hf in Hstep. injection Hstep as <-.
        left. exists order. split; [done|]. cbn. split_and!; [done|intros y Hy; apply Hin; by right|].
        intros j v Hv. destruct (Hall j v Hv) as [?|[Hvu|?]%elem_of_cons]; [left; by right| |by right].
        assert (j = i) as ->; [|left; by left].
        apply (NoDup_lookup (tid <$> users) j i (tid u)); [done|rewrite list_lookup_fmap, Hv; cbn; by f_equal|by rewrite list_lookup_fmap, Hu].
    + injection Hstep as <-. left. exists order. split; [done|]. cbn. lia.
    + apply bind_ok in Hstep as (t' & Hs & [= <-]).
      destruct (slots_step _ descriptors_differ tids_nonzero _ _ _ _ Hsl Hs) as [order' Hsl']. left. exists order'. split; [done|]. cbn.
      cbn in Hs. destruct (dmtcp_restart_sem _); [done|]. injection Hs as <-. cbn. destruct Hp as [Hp ?]. split; [lia|done].
    + destruct (reserve (mem (inside s))) as [[[]|e] m] eqn:Hr; [|done]. injection Hstep as <-. right. split; [done|].
      by exists order, (inside s).
    + done.
  - case_bool_decide; [|done]. apply bind_ok in Hstep as (t' & Hs & [= <-]).
    destruct (slots_step _ descriptors_differ tids_nonzero _ (Thread i) _ _ Hsl Hs) as [order' Hsl']. left. exists order'. split; [done|]. cbn [inside parent signalled].
    unfold parent_inv in *. by rewrite (thread_taken _ _ _ Hs).
Qed.
Lemma run_fork_inv l s s' : fork_inv s → run_fork (length all) l s = Ok s' → fork_inv s'.
Proof using All.
  revert s. induction l as [|e l IH]; intros s Hs; cbn; [by intros [= <-]|]. intros (s1 & Hstep & Hrun)%bind_ok.
  eapply IH; [|done]. by eapply fork_step_inv.
Qed.

(** ** What the child has *)

(** The child of the fork has those of the other threads whose [clone] succeeds, each once,
resuming the context its handler saved, with its own TLS register and its new identifier in its
descriptor, and neither the checkpoint thread nor the thread that forked a second time. *)
Theorem fork_recreates_threads l s kernel log : run_fork (length all) l (fork_start m0 all) = Ok s → parent s = forked →
  no_stack_missing (kernel <$> seq 0 (length users)) →
  ∃ threads branch order, after_fork 0 (length all) kernel (set_liblog log (mem (inside s))) = (Ok (ForkChild threads), branch)
    ∧ order ≡ₚ seq 0 (length users)
    ∧ (resumed_context <$> threads) = (Some <$> survivors order (kernel <$> seq 0 (length users)))
    ∧ (∀ r i u, r ∈ threads → resumed_context r = Some i → users !! i = Some u →
        resumed_fs r = fs_register u ∧ tids branch !! self u = Some (resumed_tid r))
    ∧ LibLog.log_mut (liblog branch) = None.
Proof using All.
  intros Hrun Hforked Hmem. destruct (run_fork_inv _ _ _ fork_start_inv Hrun) as [(order & _ & Hp)|(_ & order & t & Hsl & Ht & _ & Hr)].
  { by rewrite Hforked in Hp. }
  destruct (slots_filled _ descriptors_differ tids_nonzero _ _ Hsl Ht) as [Hidx Hf].
  apply reserve_inv in Hr as (Hfit & Hkeep & Hempty & Htids & Hlen). rewrite Hidx in *.
  set (infos := take (length users) (threadInfos (mem t))) in *.
  set (m := set_liblog (LibLog.mcmini_log_reset_after_fork log) (mem (inside s))).
  assert (length infos = length users) as Hil by (by destruct Hf as (? & _ & ? & _)).
  assert (∀ j i, infos !! j = Some i → threadInfos m !! j = Some i) as Hslot.
  { intros j i Hj. unfold infos in Hj. apply lookup_take_Some in Hj as [Hj Hjl]. cbn. by rewrite Hkeep. }
  destruct (restart_from_spec 0 (kernel <$> seq 0 (length users)) m infos) as (m' & Hm' & (_ & _ & Hs3) & _ & Hin); [|done..|].
  { by rewrite Hil, length_fmap, length_seq. }
  destruct (filled_order _ _ Hf) as (slots_order & Hperm & Hctx).
  exists (resumed_all infos (kernel <$> seq 0 (length users))), m', slots_order. split_and!; [|done|..].
  - unfold after_fork. rewrite bool_decide_eq_true_2 by done. unfold ebind at 1. cbn iota beta. unfold ebind at 1.
    change (set_liblog _ (set_liblog log (mem (inside s)))) with m. pose proof secondary_threads as Hsec. unfold num_secondary_threads in Hsec.
    replace (length all) with (length infos + (length all - length infos)).
    2: { rewrite all_threads. cbn. rewrite length_app, length_fmap. lia. }
    rewrite restart_child_threads_from, Hil, Hm'; [done| | |by rewrite Hil].
    + intros j i Hj. split; [by apply Hslot|]. destruct (filled_slot _ _ _ _ Hf Hj) as (i' & u & Hu & ->). cbn.
      rewrite Forall_lookup in tids_nonzero. by eapply tids_nonzero.
    + intros j Hj. cbn. apply Hempty. rewrite Hil in *. destruct dmtcp; lia.
  - by rewrite resumed_contexts, Hctx, survivors_fmap.
  - intros r i u (k & x & n & Hx & Hn & ->)%elem_of_resumed_all Hres Hu. destruct (filled_slot _ _ _ _ Hf Hx) as (i' & u' & Hu' & ->).
    injection Hres as ->. simplify_eq. split; [done|]. exact (Hin (filled_descriptors _ descriptors_differ _ Hf) _ _ _ Hx Hn).
  - by rewrite Hs3.
Qed.

(** ** The fork is reached *)

Definition parent_rank (pc : parent_pc) : nat :=
  match pc with signalling todo => length todo + 3 | waiting _ => 2 | reserving => 1 | forked => 0 end.
Definition fork_rank (s : fork_state) : nat := remaining users (inside s) + parent_rank (parent s).

Lemma fork_step_rank e s s' : fork_inv s → fork_step (length all) e s = Ok s' → S (fork_rank s') = fork_rank s.
Proof using All.
  intros Hs Hstep. unfold fork_rank. destruct e as [|i]; cbn in Hstep.
  - unfold parent_step in Hstep. destruct (parent s) as [[|x todo]|[|posts]| |] eqn:Hpc; cbn.
    + injection Hstep as <-. cbn. lia.
    + destruct (left_alone x); [injection Hstep as <-; cbn; lia|].
      destruct (list_find _ users) as [[i u]|]; [|done]. injection Hstep as <-. cbn. lia.
    + injection Hstep as <-. cbn. lia.
    + apply bind_ok in Hstep as (t' & Ht & [= <-]). destruct Hs as [(order & Hsl & _)|(? & _)]; [|congruence].
      pose proof (step_remaining _ descriptors_differ tids_nonzero _ _ _ _ Hsl Ht). cbn. lia.
    + destruct (reserve (mem (inside s))) as [[[]|e] m]; [|done]. injection Hstep as <-. unfold remaining. cbn. lia.
    + done.
  - pose proof Hstep as Hstep'. case_bool_decide; [|done]. apply bind_ok in Hstep as (t' & Ht & [= <-]). cbn.
    destruct Hs as [(order & Hsl & _)|(Hpc & order & t & Hsl & Htk & Hpcs & _)].
    + pose proof (step_remaining _ descriptors_differ tids_nonzero _ (Thread i) _ _ Hsl Ht). lia.
    + cbn in Ht. apply bind_ok in Ht as (pc & Hi & Hs). apply deref_ok in Hi. rewrite Hpcs in Hi.
      pose proof (all_notified _ _ _ _ Hsl Htk Hi) as Hn. by destruct pc.
Qed.
(** Until the parent has forked, the parent or a handler can go on. *)
Lemma fork_step_enabled s : fork_inv s → length users + 2 ≤ SLOTS → parent s ≠ forked →
  ∃ e s', fork_step (length all) e s = Ok s'.
Proof using All.
  intros [(order & Hsl & Hp)|(? & _)] Hfit Hn; [|done]. destruct (parent s) as [[|x todo]|[|posts]| |] eqn:Hpc; cbn in Hp.
  - exists Parent. eexists. cbn. unfold parent_step. by rewrite Hpc.
  - exists Parent. cbn. unfold parent_step. rewrite Hpc. destruct (left_alone x) eqn:Hx; [by eexists|].
    destruct (listed_thread x) as (i & u & -> & _); [apply Hp; by left|done|]. by eexists.
  - exists Parent. eexists. cbn. unfold parent_step. by rewrite Hpc.
  - destruct Hp as [Ht Hsig]. destruct (slots_progress _ descriptors_differ tids_nonzero _ _ Hsl) as ([i|] & t' & Hs); [lia|lia| |].
    + exists (Handler i). cbn -[step]. rewrite Hs. rewrite bool_decide_eq_true_2; [by eexists|].
      cbn in Hs. apply bind_ok in Hs as (pc & Hi & _). apply deref_ok, lookup_lt_Some in Hi. rewrite (sl_threads _ _ _ Hsl) in Hi.
      destruct (lookup_lt_is_Some_2 users i Hi) as [u Hu]. by eapply Hsig.
    + exists Parent. cbn -[step]. unfold parent_step. rewrite Hpc, Hs. by eexists.
  - exists Parent. cbn. unfold parent_step. rewrite Hpc. destruct (reserve_ok (mem (inside s))) as [m ->]; [|by eexists].
    rewrite (sl_array _ _ _ Hsl). destruct (slots_filled _ descriptors_differ tids_nonzero _ _ Hsl Hp) as [-> _]. lia.
  - done.
Qed.

Lemma run_fork_app l1 l2 s : run_fork (length all) (l1 ++ l2) s = run_fork (length all) l1 s ≫= run_fork (length all) l2.
Proof using Type. clear. revert s. induction l1 as [|e l1 IH]; intros s; simpl; [done|]. destruct (fork_step _ e s); simpl; [apply IH|done]. Qed.
Lemma run_fork_rank l s s' : fork_inv s → run_fork (length all) l s = Ok s' → length l + fork_rank s' = fork_rank s.
Proof using All.
  revert s. induction l as [|e l IH]; intros s Hs; cbn; [by intros [= <-]|]. intros (s1 & Hstep & Hrun)%bind_ok.
  pose proof (fork_step_rank _ _ _ Hs Hstep). pose proof (IH s1 (fork_step_inv _ _ _ Hs Hstep) Hrun). lia.
Qed.
Lemma fork_can_end s : fork_inv s → length users + 2 ≤ SLOTS → ∃ l s', run_fork (length all) l s = Ok s' ∧ parent s' = forked.
Proof using All.
  intros Hs Hfit. remember (fork_rank s) as n eqn:Hn. revert s Hs Hn. induction n as [n IH] using lt_wf_ind. intros s Hs Hn.
  assert (parent s = forked ∨ parent s ≠ forked) as [Hd|Hd] by (destruct (parent s); [by right..|by left]).
  { by exists [], s. }
  destruct (fork_step_enabled s Hs Hfit Hd) as (e & s1 & Hstep). pose proof (fork_step_rank _ _ _ Hs Hstep).
  destruct (IH (fork_rank s1)) with (s := s1) as (l & s' & Hl & Hs'); [lia|by eapply fork_step_inv|done|].
  exists (e :: l), s'. cbn. by rewrite Hstep.
Qed.
(** Whatever the order of the parent and the handlers, the fork takes five steps for each
other thread, one for each thread listed and three more, if there are two slots left. *)
Theorem fork_reached l s : run_fork (length all) l (fork_start m0 all) = Ok s → length users + 2 ≤ SLOTS →
  length l ≤ 5 * length users + length all + 3
  ∧ ∃ l' s', run_fork (length all) (l ++ l') (fork_start m0 all) = Ok s' ∧ parent s' = forked.
Proof using All.
  intros Hrun Hfit. pose proof (run_fork_inv _ _ _ fork_start_inv Hrun) as Hs. split.
  - pose proof (run_fork_rank _ _ _ fork_start_inv Hrun) as Hr.
    assert (fork_rank (fork_start m0 all) = 5 * length users + length all + 3); [|lia].
    unfold fork_rank, remaining, fork_start. cbn.
    assert (sum_list (rank <$> ((λ _, entering) <$> users)) = 4 * length users); [|lia].
    clear. induction users as [|u us IH]; [done|]. simpl in *. unfold fmap in IH. lia.
  - destruct (fork_can_end s Hs Hfit) as (l' & s' & Hl & Hf). exists l', s'. by rewrite run_fork_app, Hrun.
Qed.
End fork.

(** The directory has an entry for each thread, next to [.] and [..]. *)
Lemma get_child_threads_spec dmtcp real_to_virtual ns : Forall (λ n, 0 < n < 2^31)%N ns → length ns < 1000 →
  get_child_threads dmtcp real_to_virtual (Some (lit "." :: lit ".." :: ((λ n, lit (pretty n)) <$> ns))) =
  Ok (Some ((λ n, let v := real_to_virtual (Z.of_N n) in if dmtcp && bool_decide (v ≠ 0%Z) then v else Z.of_N n) <$> ns)).
Proof.
  intros Hns Hlen. unfold get_child_threads.
  assert (filter (λ t, t ≠ 0%Z) (atoi <$> (lit "." :: lit ".." :: ((λ n, lit (pretty n)) <$> ns))) = Z.of_N <$> ns) as ->.
  { rewrite !fmap_cons, !filter_cons_False by (by intros []; vm_compute). clear Hlen.
    induction Hns as [|n ns Hn _ IH]; [done|]. rewrite !fmap_cons, atoi_pretty by lia. rewrite filter_cons_True by lia. by f_equal. }
  rewrite <- list_fmap_compose, length_fmap, bool_decide_eq_true_2 by done. done.
Qed.

(** When it cannot be opened the number of threads is -1: no loop has a round, and the child
has none of the threads of its parent. *)
Lemma unlisted_threads_lost users dmtcp mytid ckpt_tid m kernel : length (threadInfos m) = SLOTS →
  ∃ s branch, run_fork users dmtcp mytid ckpt_tid 0 [Parent; Parent; Parent] (fork_start users m []) = Ok s ∧ parent s = forked ∧
    after_fork 0 0 kernel (mem (inside s)) = (Ok (ForkChild []), branch).
Proof.
  intros Hm. unfold run_fork, fork_step at 1, parent_step. cbn -[reserve].
  replace (num_secondary_threads dmtcp 0) with 0 by (by destruct dmtcp). cbn -[reserve].
  destruct (reserve_ok (set_restart_sem 0 (set_index 0 m))) as [m' ->]; [cbn; rewrite Hm; unfold SLOTS; lia|].
  cbn. by eexists _, _.
Qed.

(** Two threads, the checkpoint thread and the thread that forks; the second thread takes its
slot first, and the first only after the parent has taken a post. *)
Definition two_users : list user_thread := [UserThread 101 16 0 1000; UserThread 102 17 0 2000].
Definition before_fork : memory :=
  Memory (replicate SLOTS zero_info) 7 {[ 1000%N := 101%Z; 2000%N := 102%Z ]} 3 LibLog.initial_log_state.
Definition one_order : list fork_event :=
  [Parent; Parent; Parent; Parent; Handler 1; Parent; Handler 1; Handler 1; Handler 1; Parent; Handler 0; Handler 0; Handler 0;
   Handler 0; Parent; Parent; Parent].
Definition new_threads (k : nat) : clone_result := cloned (Z.of_nat (200 + k)).
Example fork_recreates_threads_witness :
  ∃ s, run_fork two_users true 100 99 4 one_order (fork_start two_users before_fork [100; 99; 101; 102]%Z) = Ok s ∧ parent s = forked ∧
  ∃ threads branch order, after_fork 0 4 new_threads (set_liblog LibLog.initial_log_state (mem (inside s))) = (Ok (ForkChild threads), branch)
    ∧ order ≡ₚ [0; 1]
    ∧ (resumed_context <$> threads) = (Some <$> survivors order [cloned 200; cloned 201])
    ∧ (∀ r i u, r ∈ threads → resumed_context r = Some i → two_users !! i = Some u →
        resumed_fs r = fs_register u ∧ tids branch !! self u = Some (resumed_tid r))
    ∧ LibLog.log_mut (liblog branch) = None.
Proof.
  destruct (run_fork two_users true 100 99 4 one_order (fork_start two_users before_fork [100; 99; 101; 102]%Z)) as [s|] eqn:Hrun.
  2: { exfalso. revert Hrun. by vm_compute. }
  assert (parent s = forked) as Hf.
  { assert ((λ r, match r with Ok s => Some (parent s) | _ => None end)
      (run_fork two_users true 100 99 4 one_order (fork_start two_users before_fork [100; 99; 101; 102]%Z)) = Some forked) as Hp by (by vm_compute).
    rewrite Hrun in Hp. by injection Hp. }
  exists s. split_and!; [done|done|].
  apply (fork_recreates_threads two_users true 100 99) with (all := [100; 99; 101; 102]%Z) (m0 := before_fork) (l := one_order).
  - by apply (bool_decide_unpack _).
  - by repeat constructor.
  - by apply (bool_decide_unpack _).
  - by apply (bool_decide_unpack _).
  - by apply (bool_decide_unpack _).
  - done.
  - apply length_replicate.
  - intros u [->|[->|[]%elem_of_nil]%elem_of_cons]%elem_of_cons; by vm_compute.
  - done.
  - done.
  - by repeat constructor.
Defined.
