(* ===== verification/System.v ===== *)
(** * The processes behind the coordinator

The checker, the template and its branches put together: the methods of [LinuxProcess.v]
and [ProcessSource.v] run interleaved with the loop of the template ([TemplateLoop.v]), with
the threads of the branches and with signals, in the order a schedule gives.  That is an
implementation of the interface [World] of the coordinator ([system_World]), and over any
target whose threads answer by the runners executed so far it behaves as [Lockstep.v] asks
of a process source, whatever the schedule ([system_deterministic]). *)

From stdpp Require Import functions gmap.
From stdpp Require Import options.
From S2P Require Import Prelude Signals Transitions StateSequence Program Runners Dependency StackItem Dpor Exploration Mirror.
From S2P Require Import Coordinator Lockstep LinuxProcess ProcessSource TemplateLoop.

(** ** The state *)

(** A branch: the runners whose operations it executed, and the threads that were let run
and have not answered yet; the others wait at the semaphores of their mailboxes. *)
Record branch_process := BranchProcess { ran_so_far : list runner_id_t; awake : gset runner_id_t }.
Definition forked : branch_process := BranchProcess [] ∅.

(** What happens next: a step of the method the checker is in, of the template, of a branch,
or of the kernel. *)
Inductive choice :=
  | checker_runs
  | template_runs (e : TemplateLoop.loop_event)
  | template_is_ready
  | template_ends (status : exit_status)
  | branch_wakes (pid : Z) (r : runner_id_t)
  | branch_answers (pid : Z) (r : runner_id_t)
  | branch_ends (pid : Z) (status : exit_status)
  | branch_dies (pid : Z)           (* of the SIGUSR1 of the checker *)
  | signal_arrives
  | signal_posts.

Record system := System {
  mach : machine;
  template : option Z;              (* template_process_handle *)
  template_alive : bool;
  announced : bool;                 (* the template thread has posted that it is ready *)
  tpl : TemplateLoop.process;
  branches : gmap Z branch_process;
  killed : gset Z;                  (* the branches the checker has sent SIGUSR1 *)
  sched : list choice;
}.
Definition set_mach (m : machine) (w : system) : system :=
  System m (template w) (template_alive w) (announced w) (tpl w) (branches w) (killed w) (sched w).
Definition set_template (t : option Z) (w : system) : system :=
  System (mach w) t (template_alive w) (announced w) (tpl w) (branches w) (killed w) (sched w).
Definition set_alive (alive ready : bool) (w : system) : system :=
  System (mach w) (template w) alive ready (tpl w) (branches w) (killed w) (sched w).
Definition set_tpl (p : TemplateLoop.process) (w : system) : system :=
  System (mach w) (template w) (template_alive w) (announced w) p (branches w) (killed w) (sched w).
Definition set_branch (pid : Z) (b : branch_process) (w : system) : system :=
  System (mach w) (template w) (template_alive w) (announced w) (tpl w) (<[pid := b]> (branches w)) (killed w) (sched w).
Definition set_sched (l : list choice) (w : system) : system :=
  System (mach w) (template w) (template_alive w) (announced w) (tpl w) (branches w) (killed w) l.
Definition set_killed (x : gset Z) (w : system) : system :=
  System (mach w) (template w) (template_alive w) (announced w) (tpl w) (branches w) x (sched w).
Definition new_branch (pid : Z) (w : system) : system := set_killed (killed w ∖ {[pid]}) (set_branch pid forked w).

#[export] Instance own_dec e : Decision (TemplateLoop.own e).
Proof. destruct e; simpl; apply _. Defined.

Section system.
(** [multithreaded] is the dynamic type of the source and says which loop the template runs;
[launched] is what launching the template gives.  [answer] is the target: the mailbox that
the last of these runners fills; [memory] is its memory then. *)
Context (multithreaded : bool) (launched : res Z).
Context (answer : list runner_id_t → runner_mailbox) (memory : list runner_id_t → addr → nat → option (list N)).
Context (mutex_initializer cond_initializer : list N).

(** ** The environment of the checker *)

Definition branch_running (pid : Z) (w : system) : bool := bool_decide (TemplateLoop.kids (tpl w) !! pid = Some running_child).

(** The template's semaphore is the one in shared memory; what it posts and writes there is
seen by the checker, and a process it forks is a branch. *)
Definition load (w : system) : TemplateLoop.process :=
  TemplateLoop.set_request (N.to_nat (sems (mach w) libmcmini_sem)) (tpl w).
Definition store (p : TemplateLoop.process) (w : system) : system :=
  let m := set_sems (<[libmcmini_sem := N.of_nat (TemplateLoop.libmcmini_sem p)]> (sems (mach w))) (mach w) in
  set_mach (if bool_decide (TemplateLoop.mcmini_process_posts p = TemplateLoop.mcmini_process_posts (tpl w)) then m
            else env_step (forks (TemplateLoop.cpid p)) m) (set_tpl p w).
Definition template_step (e : TemplateLoop.loop_event) (w : system) : system :=
  match TemplateLoop.step multithreaded e (load w) with
  | None => w
  | Some p =>
      match e with
      | TemplateLoop.Loop pid =>
          if bool_decide (TemplateLoop.kids p !! pid = Some running_child ∧ TemplateLoop.kids (tpl w) !! pid = None)
          then new_branch pid (store p w) else store p w
      | _ => store p w
      end
  end.

Definition environment_step (c : choice) (w : system) : system :=
  match c with
  | checker_runs => w
  | template_runs e =>
      if template_alive w && (negb multithreaded || announced w) && bool_decide (TemplateLoop.own e)
      then template_step e w else w
  | template_is_ready =>
      if template_alive w && multithreaded && negb (announced w)
      then set_mach (sem_post mcmini_process_sem (mach w)).2 (set_alive true true w) else w
  | template_ends status =>
      match template w with
      | Some tpid => if template_alive w then set_mach (env_step (ends tpid status) (mach w)) (set_alive false (announced w) w) else w
      | None => w
      end
  | branch_wakes pid r =>
      match branches w !! pid, sem_wait (child_side_sem r) (mach w) with
      | Some b, Some m =>
          if branch_running pid w && bool_decide (r ∉ awake b)
          then set_branch pid (BranchProcess (ran_so_far b) ({[r]} ∪ awake b)) (set_mach m w) else w
      | _, _ => w
      end
  | branch_answers pid r =>
      match branches w !! pid with
      | Some b =>
          if branch_running pid w && bool_decide (r ∈ awake b)
          then let hist := ran_so_far b ++ [r] in
               set_branch pid (BranchProcess hist (awake b ∖ {[r]})) (set_mach (env_step (answers r (answer hist)) (mach w)) w)
          else w
      | None => w
      end
  | branch_ends pid status => template_step (TemplateLoop.Ends pid status) w
  | branch_dies pid =>
      if bool_decide (pid ∈ killed w) then template_step (TemplateLoop.Ends pid (signaled SIGUSR1)) w else w
  | signal_arrives => set_mach (env_step sigchld (mach w)) w
  | signal_posts => set_mach (env_step handler_posts (mach w)) w
  end.
(** ** The methods *)

(** A method runs until it has a result; when the schedule ends before, it is still blocked. *)
Fixpoint run_method {P A} (step : P → system → option (P * system)) (result : P → option (res A))
    (l : list choice) (pc : P) (w : system) : res A * system :=
  match result pc with
  | Some out => (out, set_sched l w)
  | None =>
      match l with
      | [] => (Throw Blocked, set_sched [] w)
      | checker_runs :: l =>
          match step pc w with
          | Some (pc, w) => run_method step result l pc w
          | None => run_method step result l pc w
          end
      | c :: l => run_method step result l pc (environment_step c w)
      end
  end.
Definition call_method {P A} (step : P → system → option (P * system)) (result : P → option (res A)) (pc : P) : eff system A :=
  λ w, run_method step result (sched w) pc w.
Definition on_machine {P} (step : P * machine → option (P * machine)) (pc : P) (w : system) : option (P * system) :=
  '(pc, m) ← step (pc, mach w); Some (pc, set_mach m w).

(** Launching starts a template. *)
Definition start_template (w : system) : system := set_alive true false (set_tpl TemplateLoop.start w).
Definition source_step (pc : source_pc) (w : system) : option (source_pc * system) :=
  match make_new_process_step multithreaded launched (pc, template w, mach w) with
  | None => None
  | Some (pc', t, m) =>
      let w' := set_mach m (set_template t w) in
      Some (pc', match pc, launched with launch_template, Ok _ => start_template w' | _, _ => w' end)
  end.
Definition made_result (pc : source_pc) : option (res (option Z)) :=
  match pc with made (Ok pid) => Some (Ok (Some pid)) | made (Throw e) => Some (Throw e) | _ => None end.
Definition executed_result (pc : execute_pc) : option (res runner_mailbox) :=
  match pc with executed out => Some out | _ => None end.
(** The handles of branches are made with [should_wait] false: the destructor sends
[SIGUSR1] and returns. *)
Definition kill_step (h : Z) (pc : destroy_pc) (w : system) : option (destroy_pc * system) :=
  '(pc', w') ← on_machine (destroy_step (λ _, None) h false) pc w;
  Some (pc', match pc with
             | kill_process => if bool_decide (0 < h)%Z then set_killed ({[h]} ∪ killed w') w' else w'
             | _ => w'
             end).
Definition destroyed_result (pc : destroy_pc) : option (res unit) :=
  match pc with destroyed => Some (Ok tt) | _ => None end.

#[export] Instance system_World : World system := {|
  handle := Z;
  make_new_process := call_method source_step made_result reset_semaphores;
  destroy_process h w := (call_method (kill_step h) destroyed_result kill_process w).2;
  process_execute_runner h r := call_method (on_machine (execute_runner_step h r)) executed_result set_semaphore;
  get_pid h := h;
  process_vm_readv w pid a n := b ← branches w !! pid; if branch_running pid w then memory (ran_so_far b) a n else None;
  PTHREAD_MUTEX_INITIALIZER := mutex_initializer;
  PTHREAD_COND_INITIALIZER := cond_initializer;
|}.
End system.

(** ** Semaphores and signals *)

(** The semaphores the checker waits on. *)
Definition watched (s : sem) : Prop := match s with model_side_sem _ | mcmini_process_sem => True | _ => False end.

(** The checker waits on [s], which was posted [a] times for an answer; [owed] is what it
took and has not accounted for yet.  Either the signals are ahead of the semaphore, and the
checker cannot tell an answer from a signal any more, or they are even and no other
semaphore has a post. *)
Definition accounted (s : sem) (a owed : N) (m : machine) : Prop :=
  watched s ∧ current_sem m = Some s ∧
  ((sems m s + owed + handling m < a + flags m)%N ∨
   (sems m s + owed + handling m = a + flags m)%N ∧ ∀ s', watched s' → s' ≠ s → sems m s' = 0%N).
(** Between two waits: only the semaphore of the last one has posts, those of signals. *)
Definition settled (m : machine) : Prop :=
  ∃ s, watched s ∧ (∀ s', current_sem m = Some s' → s' = s) ∧ (sems m s + handling m ≤ flags m)%N ∧
    ∀ s', watched s' → s' ≠ s → sems m s' = 0%N.

Lemma settled_select s m : watched s → settled m → accounted s 0 0 (set_sem s m).
Proof.
  intros Hs (s0 & Hs0 & _ & Hle & Hz). split; [done|]. split; [done|]. simpl.
  destruct (decide (s = s0)) as [->|Hne].
  - destruct (decide (sems m s0 + handling m = flags m)%N); [right; split; [lia|done]|left; lia].
  - rewrite (Hz s) by done. destruct (decide (handling m = flags m)); [right|left; lia]. split; [lia|].
    intros s' Hs' _. destruct (decide (s' = s0)) as [->|]; [lia|by apply Hz].
Qed.

(** What was taken was an answer when no signal is left. *)
Lemma accounted_answered s a m :
  accounted s a 1 m → (a ≤ 1)%N → flags m = 0%N → a = 1%N ∧ settled m.
Proof.
  intros (Hs & Hc & Hor) Ha Hf. assert (a = 1%N ∧ sems m s = 0%N ∧ handling m = 0%N) as (-> & Hz & Hh) by lia.
  split; [done|]. exists s. split_and!; [done|by intros s' [= ->]%(eq_trans (eq_sym Hc))|lia|].
  destruct Hor as [?|[_ ?]]; [lia|done].
Qed.

(** Steps that leave the signals and the semaphores alone. *)
Record same_signals (m m' : machine) : Prop := SameSignals {
  ss_current : current_sem m' = current_sem m;
  ss_flags : flags m' = flags m;
  ss_handling : handling m' = handling m;
  ss_sems : ∀ s, watched s → sems m' s = sems m s;
}.
Lemma accounted_same s a owed m m' : same_signals m m' → accounted s a owed m → accounted s a owed m'.
Proof.
  intros [Hc Hf Hh He] (Hs & Hcs & Hor). split; [done|]. rewrite Hc, Hf, Hh, He by done. split; [done|].
  destruct Hor as [?|[? Hz]]; [by left|right; split; [done|]]. intros s' Hs' Hne. rewrite He by done. by apply Hz.
Qed.
Lemma settled_same m m' : same_signals m m' → settled m → settled m'.
Proof.
  intros [Hc Hf Hh He] (s & Hs & Hcs & Hle & Hz). exists s. rewrite Hc, Hf, Hh, He by done.
  split_and!; [done..|]. intros s' Hs' Hne. rewrite He by done. by apply Hz.
Qed.
(** A post to the semaphore the checker waits on. *)
Lemma accounted_post s a owed m m' :
  (sems m s < SEM_VALUE_MAX)%N → same_signals m m' → accounted s a owed m → accounted s (a + 1) owed (sem_post s m').2.
Proof.
  intros Hlt Hsame Ha. apply (accounted_same _ _ _ _ _ Hsame) in Ha. rewrite <- (ss_sems _ _ Hsame) in Hlt by apply Ha.
  clear Hsame m. rewrite sem_post_below by done. destruct Ha as (Hs & Hc & Hor). split; [done|]. split; [done|]. simpl.
  rewrite fn_lookup_insert. destruct Hor as [?|[? Hz]]; [left; lia|right; split; [lia|]].
  intros s' Hs' Hne. rewrite fn_lookup_insert_ne by congruence. by apply Hz.
Qed.
Lemma accounted_wait s a m m' : accounted s a 0 m → sem_wait s m = Some m' → accounted s a 1 m'.
Proof.
  intros (Hs & Hc & Hor). unfold sem_wait. case_bool_decide; [done|]. intros [= <-]. split; [done|]. split; [done|].
  simpl. rewrite fn_lookup_insert. destruct Hor as [?|[? Hz]]; [left; lia|right; split; [lia|]].
  intros s' Hs' Hne. rewrite fn_lookup_insert_ne by congruence. by apply Hz.
Qed.
Lemma accounted_consume s a m m' : accounted s a 1 m → try_consume_signal m = (true, m') → accounted s a 0 m'.
Proof.
  intros (Hs & Hc & Hor). unfold try_consume_signal, has_signal. case_bool_decide; [|done]. intros [= <-].
  split; [done|]. split; [done|]. simpl. destruct Hor as [?|[? Hz]]; [left; lia|right; split; [lia|done]].
Qed.
Lemma no_signal m m' : try_consume_signal m = (false, m') → m' = m ∧ flags m = 0%N.
Proof. unfold try_consume_signal, has_signal. case_bool_decide; [done|]. intros [= <-]. split; [done|lia]. Qed.

(** Room for the signals and posts of [n] more choices. *)
Definition fits (n : nat) (m : machine) : Prop := (flags m + N.of_nat n + 1 < SEM_VALUE_MAX)%N.

(** A post of a handler. *)
Lemma handler_step m :
  signal_tracker_sig_handler_post m = m ∨
  handling m ≠ 0%N ∧ current_sem m = None ∧ signal_tracker_sig_handler_post m = set_handling (handling m - 1) m ∨
  ∃ s, handling m ≠ 0%N ∧ current_sem m = Some s ∧
    signal_tracker_sig_handler_post m = (sem_post s (set_handling (handling m - 1) m)).2.
Proof.
  unfold signal_tracker_sig_handler_post. case_bool_decide as Hh; [by left|right]. simpl.
  destruct (current_sem m) as [s|]; [right; by exists s|by left].
Qed.
Lemma accounted_signal s a owed m n : (a ≤ 1)%N → fits (S n) m → accounted s a owed m →
  accounted s a owed (env_step sigchld m) ∧ accounted s a owed (env_step handler_posts m).
Proof.
  intros Ha Hfit (Hs & Hc & Hor). unfold fits in Hfit. split.
  - split; [done|]. split; [done|]. simpl. unfold u32. rewrite N.mod_small by (unfold SEM_VALUE_MAX in *; lia).
    destruct Hor as [?|[? Hz]]; [left; lia|right; split; [lia|done]].
  - simpl. destruct (handler_step m) as [-> |[(? & ? & _)|(s' & Hh & Hc' & ->)]]; [done|congruence|].
    rewrite Hc in Hc'. injection Hc' as <-. rewrite sem_post_below by (simpl; unfold SEM_VALUE_MAX in *; lia).
    split; [done|]. split; [done|]. simpl. rewrite fn_lookup_insert.
    destruct Hor as [?|[? Hz]]; [left; lia|right; split; [lia|]].
    intros s' Hs' Hne. rewrite fn_lookup_insert_ne by congruence. by apply Hz.
Qed.
Lemma settled_signal m n : fits (S n) m → settled m → settled (env_step sigchld m) ∧ settled (env_step handler_posts m).
Proof.
  intros Hfit (s & Hs & Hc & Hle & Hz). unfold fits in Hfit. split.
  - exists s. simpl. unfold u32. rewrite N.mod_small by (unfold SEM_VALUE_MAX in *; lia). split_and!; [done..|lia|done].
  - simpl. destruct (handler_step m) as [-> |[(Hh & Hcn & ->)|(s' & Hh & Hc' & ->)]]; [by exists s| |].
    + exists s. simpl. split_and!; [done..|lia|done].
    + apply Hc in Hc' as Heq. subst s'. exists s. rewrite sem_post_below by (simpl; unfold SEM_VALUE_MAX in *; lia).
      simpl. rewrite fn_lookup_insert. split_and!; [done..|lia|].
      intros s' Hs' Hne. rewrite fn_lookup_insert_ne by congruence. by apply Hz.
Qed.
(** A signal touches no other semaphore, no mailbox and no child. *)
Lemma signal_frame e m s : (e = sigchld ∨ e = handler_posts) → (∀ s', current_sem m = Some s' → watched s') → ¬ watched s →
  sems (env_step e m) s = sems m s.
Proof.
  intros [-> | ->] Hw Hs; simpl; [done|]. destruct (handler_step m) as [-> |[(_ & _ & ->)|(s' & _ & Hc & ->)]]; [done..|].
  rewrite sem_post_other; [done|]. intros ->. by apply Hs, Hw.
Qed.

(** ** What leaves the system alone *)

Section frames.
Context (multithreaded : bool) (launched : res Z).
Context (answer : list runner_id_t → runner_mailbox) (memory : list runner_id_t → addr → nat → option (list N)).
Context (mutex_initializer cond_initializer : list N).
Abbreviation env_choice := (environment_step multithreaded answer).
Implicit Types w : system.
Import TemplateLoop(kids, in_phase, wait_request, wait_child, make_process, report, mcmini_process_posts, Loop, Ends, Request).

Definition running_in w (c : Z) : Prop := kids (tpl w) !! c = Some running_child.
(** No thread of a branch was told to run. *)
Definition nobody_asked w : Prop := ∀ r, sems (mach w) (child_side_sem r) = 0%N.
Definition idle w : Prop := ∀ c, running_in w c → ∃ hist, branches w !! c = Some (BranchProcess hist ∅).
(** The branch that runs, if there is one. *)
Definition branch_is (pid : Z) (b : branch_process) w : Prop := ∀ c, running_in w c → c = pid ∧ branches w !! c = Some b.
Definition ready w : Prop := multithreaded = true → template_alive w = true → announced w = true.
(** The template has no request at work. *)
Definition at_rest (p : TemplateLoop.process) : Prop := in_phase p ∧ (TemplateLoop.pc p = wait_request ∨ ∃ c, TemplateLoop.pc p = wait_child c).
Definition selects_watched w : Prop := ∀ s, current_sem (mach w) = Some s → watched s.

Definition signals_step (m m' : machine) : Prop :=
  same_signals m m' ∨ m' = env_step sigchld m ∨ m' = env_step handler_posts m.
Record calm w w' : Prop := Calm {
  calm_signals : signals_step (mach w) (mach w');
  calm_sems : ∀ s, ¬ watched s → sems (mach w') s = sems (mach w) s;
  calm_mailboxes : mailboxes (mach w') = mailboxes (mach w);
  calm_cpid : cpid (mach w') = cpid (mach w);
  calm_kids : ∀ c, running_in w' c → running_in w c;
  calm_branches : branches w' = branches w;
  calm_pc : TemplateLoop.pc (tpl w') = TemplateLoop.pc (tpl w) ∨ at_rest (tpl w) ∧ at_rest (tpl w');
  calm_phase : in_phase (tpl w) → in_phase (tpl w');
  calm_told : TemplateLoop.cpid (tpl w') = TemplateLoop.cpid (tpl w);
  calm_ready : ready w → ready w';
  calm_announced : announced w' = announced w;
}.

Lemma same_signals_refl m : same_signals m m.
Proof. by split. Qed.
Lemma calm_refl w : calm w w.
Proof. split; try done; [left; apply same_signals_refl|by left]. Qed.

Lemma calm_rest w w' : calm w w' → at_rest (tpl w) → at_rest (tpl w').
Proof.
  intros Hc [Hp Hpc]. destruct (calm_pc _ _ Hc) as [He|[_ ?]]; [|done]. split; [by apply (calm_phase _ _ Hc)|]. by rewrite He.
Qed.
Lemma calm_branch_is w w' pid b : calm w w' → branch_is pid b w → branch_is pid b w'.
Proof. intros Hc Hb c Hr%(calm_kids _ _ Hc). rewrite (calm_branches _ _ Hc). by apply Hb. Qed.
Lemma calm_idle w w' : calm w w' → idle w → idle w'.
Proof. intros Hc Hb c Hr%(calm_kids _ _ Hc). rewrite (calm_branches _ _ Hc). by apply Hb. Qed.
Lemma calm_asked w w' : calm w w' → nobody_asked w → nobody_asked w'.
Proof. intros Hc Hz r. rewrite (calm_sems _ _ Hc); [apply Hz|by intros []]. Qed.
Lemma branch_is_idle pid hist w : branch_is pid (BranchProcess hist ∅) w → idle w.
Proof. intros Hb c [_ Hc]%Hb. by exists hist. Qed.

Lemma signals_accounted s a owed m m' n :
  (a ≤ 1)%N → fits (S n) m → signals_step m m' → accounted s a owed m → accounted s a owed m'.
Proof.
  intros Ha Hf Hst Hacc. destruct (accounted_signal s a owed m n Ha Hf Hacc) as [Hs Hh].
  destruct Hst as [Hsame|[-> | ->]]; [by apply (accounted_same _ _ _ _ _ Hsame)|done..].
Qed.
Lemma signals_settled m m' n : fits (S n) m → signals_step m m' → settled m → settled m'.
Proof.
  intros Hf Hst Hset. destruct (settled_signal m n Hf Hset) as [Hs Hh].
  destruct Hst as [Hsame|[-> | ->]]; [by apply (settled_same _ _ Hsame)|done..].
Qed.
Lemma accounted_watched s a owed w : accounted s a owed (mach w) → selects_watched w.
Proof. intros (Hs & Hc & _) s' Hs'. congruence. Qed.
Lemma settled_watched w : settled (mach w) → selects_watched w.
Proof. intros (s & Hs & Hc & _) s' ->%Hc. done. Qed.

(** Steps of the template that answer no request. *)
Lemma template_same e (p p' : TemplateLoop.process) :
  e ≠ Request → in_phase p → (∀ pid, e = Loop pid → at_rest p ∧ TemplateLoop.libmcmini_sem p = 0) →
  TemplateLoop.step multithreaded e p = Some p' →
  TemplateLoop.libmcmini_sem p' = TemplateLoop.libmcmini_sem p ∧ mcmini_process_posts p' = mcmini_process_posts p
  ∧ TemplateLoop.cpid p' = TemplateLoop.cpid p ∧ (∀ c, kids p' !! c = Some running_child → kids p !! c = Some running_child)
  ∧ (TemplateLoop.pc p' = TemplateLoop.pc p ∨ at_rest p ∧ at_rest p').
Proof.
  intros He Hp Hloop Hstep. pose proof (TemplateLoop.step_phase _ _ _ _ Hp Hstep) as Hp'.
  destruct e as [|pid status| |pid|pid]; simpl in Hstep; [done|..].
  - case_bool_decide as Hk; [|done]. injection Hstep as <-. cbn. split_and!; [done..| |by left].
    intros c [[_ ?]|[_ ?]]%lookup_insert_Some; done.
  - destruct (TemplateLoop.pending p); [|done]. case_bool_decide; [|done]. injection Hstep as <-. cbn. split_and!; auto.
  - destruct (TemplateLoop.handler p) as [[|b|]|]; simpl in Hstep; [| | |done].
    + destruct (kids p !! pid) as [[|st]|]; [case_bool_decide; [|done]| |case_bool_decide; [|done]];
        injection Hstep as <-; cbn; split_and!; auto. intros c [_ ?]%lookup_delete_Some. done.
    + injection Hstep as <-. destruct b; cbn; split_and!; auto.
    + injection Hstep as <-. cbn. split_and!; auto.
  - destruct (Hloop pid eq_refl) as [[_ Hpc] Hl]. destruct (TemplateLoop.handler p); [done|].
    unfold TemplateLoop.loop_step in Hstep. destruct Hpc as [Hpc|[c Hpc]]; rewrite Hpc in Hstep; [by rewrite Hl in Hstep|].
    destruct (TemplateLoop.sigchld_sem p) eqn:Hs; [done|]. injection Hstep as <-. cbn. split_and!; auto.
    right. split; [split; [done|by right; exists c]|]. split; [done|by left].
Qed.

Lemma in_phase_request n p : in_phase p → in_phase (TemplateLoop.set_request n p).
Proof.
  unfold in_phase. cbn. destruct (TemplateLoop.pc p); [by intros []..| |]; (case_bool_decide; [by intros []|]);
    by apply TemplateLoop.life_ext.
Qed.

Lemma calm_template e w :
  e ≠ Request → in_phase (tpl w) → (∀ pid, e = Loop pid → at_rest (tpl w) ∧ sems (mach w) libmcmini_sem = 0%N) →
  calm w (template_step multithreaded e w).
Proof.
  intros He Hp Hloop. unfold template_step. destruct (TemplateLoop.step multithreaded e (load w)) as [p|] eqn:Hstep; [|apply calm_refl].
  pose proof (in_phase_request (N.to_nat (sems (mach w) libmcmini_sem)) _ Hp) as Hp1.
  pose proof (TemplateLoop.step_phase _ _ _ _ Hp1 Hstep) as Hp'.
  destruct (template_same e (load w) p He Hp1) as (Hl & Hposts & Hcpid & Hkids & Hpc).
  { intros pid ->. destruct (Hloop pid eq_refl) as [[? Hr] Hz]. split; [by split|]. cbn. by rewrite Hz. }
  { done. }
  assert (calm w (store p w)) as Hcalm.
  { unfold store. cbn in Hl, Hposts, Hcpid, Hkids, Hpc. rewrite (bool_decide_eq_true_2 _ Hposts).
    assert (∀ s, sems (set_sems (<[libmcmini_sem := N.of_nat (TemplateLoop.libmcmini_sem p)]> (sems (mach w))) (mach w)) s = sems (mach w) s) as Hs.
    { intros s. cbn. rewrite sems_insert. case_decide; [|done]. subst s. rewrite Hl. lia. }
    split; cbn [mach set_mach tpl set_tpl branches announced mailboxes set_sems cpid]; try done.
    - left. split; [done..|]. intros s _. apply Hs.
    - destruct Hpc as [?|[[? Hr] ?]]; [by left|right]. split; [|done]. by split. }
  destruct e as [|?| |?|pid]; [done|done..|]. rewrite bool_decide_eq_false_2; [done|].
  intros [Hr Hn]. cbn in Hkids. apply Hkids in Hr. congruence.
Qed.

Lemma signal_calm e w : (e = sigchld ∨ e = handler_posts) → selects_watched w → calm w (set_mach (env_step e (mach w)) w).
Proof.
  intros He Hw.
  assert (mailboxes (env_step e (mach w)) = mailboxes (mach w) ∧ cpid (env_step e (mach w)) = cpid (mach w)) as [Hm Hc].
  { destruct He as [-> | ->]; simpl; [done|].
    destruct (handler_step (mach w)) as [-> |[(_ & _ & ->)|(s & _ & _ & ->)]]; [done..|].
    by destruct (sem_post_frame s (set_handling (handling (mach w) - 1) (mach w))) as (_ & _ & _ & -> & _ & ->). }
  split; cbn [mach set_mach tpl branches announced]; try done; [right; destruct He as [-> | ->]; auto| |by left].
  intros s Hs. apply signal_frame; [done|done|done].
Qed.

(** The choices that change nothing but signals when no thread of a branch runs. *)
Lemma calm_choice c w :
  (∀ e, c ≠ template_runs e) → ready w ∨ c ≠ template_is_ready → in_phase (tpl w) →
  (∀ pid r, c = branch_answers pid r → idle w) → (∀ pid r, c = branch_wakes pid r → nobody_asked w) → selects_watched w →
  calm w (env_choice c w).
Proof.
  intros Hnt Hr Hp Hi Hz Hw. destruct c as [|e| |status|pid r|pid r|pid status|pid| |]; simpl.
  - apply calm_refl.
  - by destruct (Hnt e).
  - destruct (template_alive w && multithreaded && negb (announced w)) eqn:Hb; [|apply calm_refl].
    apply andb_prop in Hb as [[Ha Hm]%andb_prop Hn%negb_true_iff]. destruct Hr as [Hr|]; [|done].
    specialize (Hr Hm Ha). congruence.
  - destruct (template w) as [tpid|]; [|apply calm_refl]. destruct (template_alive w); [|apply calm_refl].
    split; try done; [left; by split|by left].
  - destruct (branches w !! pid) as [b|]; [|apply calm_refl]. unfold sem_wait.
    rewrite bool_decide_eq_true_2 by by eapply Hz. apply calm_refl.
  - destruct (branches w !! pid) as [b|] eqn:Hb; [|apply calm_refl].
    destruct (branch_running pid w && bool_decide (r ∈ awake b)) eqn:Hg; [|apply calm_refl].
    apply andb_prop in Hg as [Hrun%bool_decide_eq_true_1 Hin%bool_decide_eq_true_1].
    destruct (Hi pid r eq_refl pid Hrun) as [hist Hh]. rewrite Hb in Hh. injection Hh as ->. set_solver.
  - apply calm_template; [done|done|]. by intros ? [=].
  - case_match; [|apply calm_refl]. apply calm_template; [done|done|]. by intros ? [=].
  - apply (signal_calm sigchld); auto.
  - apply (signal_calm handler_posts); auto.
Qed.

(** Every choice uses up room. *)
Lemma sem_post_flags s m : flags (sem_post s m).2 = flags m.
Proof. apply sem_post_frame. Qed.
Lemma sem_post_handling s m : handling (sem_post s m).2 = handling m.
Proof. apply sem_post_frame. Qed.
Lemma sem_post_cpid s m : cpid (sem_post s m).2 = cpid m.
Proof. apply sem_post_frame. Qed.
Lemma store_flags p w : flags (mach (store p w)) = flags (mach w).
Proof. unfold store. cbn [mach set_mach]. case_bool_decide; [done|]. cbn [env_step]. by rewrite sem_post_flags. Qed.
Lemma template_step_flags e w : flags (mach (template_step multithreaded e w)) = flags (mach w).
Proof.
  unfold template_step. destruct (TemplateLoop.step multithreaded e (load w)) as [p|]; [|done].
  destruct e; try apply store_flags. case_bool_decide; apply store_flags.
Qed.
Lemma fits_choice c w n : fits (S n) (mach w) → fits n (mach (env_choice c w)).
Proof.
  unfold fits. intros Hf. assert (flags (mach (env_choice c w)) ≤ flags (mach w) + 1)%N; [|lia].
  destruct c as [|e| |status|pid r|pid r|pid status|pid| |]; cbn [environment_step].
  - lia.
  - case_match; [rewrite template_step_flags|]; lia.
  - case_match; cbn [mach set_mach]; [rewrite sem_post_flags|]; lia.
  - destruct (template w); [|lia]. destruct (template_alive w); cbn; lia.
  - destruct (branches w !! pid) as [b|]; [|lia]. unfold sem_wait. case_bool_decide; [lia|]. case_match; cbn; lia.
  - destruct (branches w !! pid) as [b|]; [|lia]. case_match; [|lia]. cbn [mach set_mach set_branch env_step].
    rewrite sem_post_flags. cbn. lia.
  - rewrite template_step_flags. lia.
  - case_match; [rewrite template_step_flags|]; lia.
  - cbn. unfold u32. rewrite N.mod_small by (unfold SEM_VALUE_MAX in *; lia). lia.
  - cbn [mach set_mach env_step]. destruct (handler_frame (mach w)) as (-> & _ & _). lia.
Qed.

(** ** Running a method *)

Lemma run_method_inv {P A} (step : P → system → option (P * system)) (result : P → option (res A)) (I : P → system → Prop) :
  (∀ pc w pc' w', I pc w → step pc w = Some (pc', w') → I pc' w' ∧ (flags (mach w') ≤ flags (mach w))%N) →
  (∀ pc w c n, I pc w → fits (S n) (mach w) → result pc = None → I pc (env_choice c w)) →
  ∀ l pc w out w', I pc w → fits (length l) (mach w) → run_method multithreaded answer step result l pc w = (out, w') →
  ∃ pc' w0 l', I pc' w0 ∧ (result pc' = Some out ∨ out = Throw Blocked) ∧ fits (length l') (mach w0) ∧ w' = set_sched l' w0.
Proof using Type.
  intros Hstep Henv l. induction l as [|c l IH]; intros pc w a w' HI Hf; cbn [run_method].
  - destruct (result pc) as [out|] eqn:Hres; intros [= <- <-]; exists pc, w, []; auto.
  - destruct (result pc) as [out|] eqn:Hres; [intros [= <- <-]; exists pc, w, (c :: l); auto|].
    assert (run_method multithreaded answer step result l pc (env_choice c w) = (a, w') → ∃ pc' w0 l', I pc' w0 ∧
      (result pc' = Some a ∨ a = Throw Blocked) ∧ fits (length l') (mach w0) ∧ w' = set_sched l' w0) as Hgo.
    { apply IH; [by eapply Henv|by apply fits_choice]. }
    destruct c; try exact Hgo. destruct (step pc w) as [[pc1 w1]|] eqn:Hs; [|exact Hgo].
    destruct (Hstep _ _ _ _ HI Hs) as [HI1 Hfl]. apply IH; [done|]. unfold fits in *. simpl in Hf. lia.
Qed.

(** Schedules in which no signal arrives, no process ends but the branches the checker has
killed, and no fork fails. *)
Definition quiet (c : choice) : Prop :=
  match c with
  | signal_arrives | template_ends _ | branch_ends _ _ => False
  | template_runs (Loop pid) => pid ≠ (-1)%Z
  | _ => True
  end.
#[export] Instance quiet_dec c : Decision (quiet c).
Proof. destruct c as [|e| | | | | | | |]; [|destruct e|..]; apply _. Defined.
(** There is such a way to go on in which the method returns [a]. *)
Definition returns {P A} (step : P → system → option (P * system)) (result : P → option (res A)) (a : A) (pc : P) w : Prop :=
  ∃ l w', Forall quiet l ∧ run_method multithreaded answer step result l pc w = (Ok a, w').
Lemma returns_env {P A} (step : P → system → option (P * system)) (result : P → option (res A)) a pc w c :
  c ≠ checker_runs → quiet c → result pc = None → returns step result a pc (env_choice c w) → returns step result a pc w.
Proof using Type.
  intros Hc Hq Hres (l & w' & Hl & Hr). exists (c :: l), w'. split; [by constructor|]. cbn [run_method]. rewrite Hres. by destruct c.
Qed.
Lemma returns_checker {P A} (step : P → system → option (P * system)) (result : P → option (res A)) a pc w pc' w' :
  result pc = None → step pc w = Some (pc', w') → returns step result a pc' w' → returns step result a pc w.
Proof using Type.
  intros Hres Hs (l & w1 & Hl & Hr). exists (checker_runs :: l), w1. split; [by constructor|]. cbn [run_method]. by rewrite Hres, Hs.
Qed.

(** ** A runner is executed *)

Section execute.
Context (h : Z) (r : runner_id_t) (hist : list runner_id_t).

(** How far the branch is; the number of answers it has given. *)
Inductive asked w : N → Prop :=
  | awoken : (∀ q, sems (mach w) (child_side_sem q) = if decide (q = r) then 1%N else 0%N) →
      branch_is h (BranchProcess hist ∅) w → asked w 0
  | working : nobody_asked w → branch_is h (BranchProcess hist {[r]}) w → asked w 0
  | has_answered : nobody_asked w → branch_is h (BranchProcess (hist ++ [r]) ∅) w →
      mailboxes (mach w) r = answer (hist ++ [r]) → asked w 1.
Definition no_request w : Prop := at_rest (tpl w) ∧ sems (mach w) libmcmini_sem = 0%N ∧ ready w.

Definition executing (pc : execute_pc) w : Prop :=
  no_request w ∧
  match pc with
  | set_semaphore => settled (mach w) ∧ nobody_asked w ∧ branch_is h (BranchProcess hist ∅) w
  | wake_thread_up => accounted (model_side_sem r) 0 0 (mach w) ∧ nobody_asked w ∧ branch_is h (BranchProcess hist ∅) w
  | wait_for_answer | ask_status => ∃ a, accounted (model_side_sem r) a 0 (mach w) ∧ asked w a
  | consume_signal => ∃ a, accounted (model_side_sem r) a 1 (mach w) ∧ asked w a
  | executed (Ok mb) => settled (mach w) ∧ nobody_asked w ∧ branch_is h (BranchProcess (hist ++ [r]) ∅) w ∧ mb = answer (hist ++ [r])
  | executed (Throw _) => True
  end.

Lemma asked_le w a : asked w a → (a ≤ 1)%N.
Proof. intros []; lia. Qed.
Lemma calm_no_request w w' : calm w w' → no_request w → no_request w'.
Proof using Type.
  intros Hc (Hr & Hl & Hd). split; [by eapply calm_rest|]. split; [|by apply (calm_ready _ _ Hc)].
  rewrite (calm_sems _ _ Hc); [done|by intros []].
Qed.
Lemma calm_asked_phase w w' a : calm w w' → asked w a → asked w' a.
Proof using Type.
  intros Hc [Hq Hb|Hz Hb|Hz Hb Hm].
  - apply awoken; [|by eapply calm_branch_is]. intros q. rewrite (calm_sems _ _ Hc); [apply Hq|by intros []].
  - apply working; [by eapply calm_asked|by eapply calm_branch_is].
  - apply has_answered; [by eapply calm_asked|by eapply calm_branch_is|by rewrite (calm_mailboxes _ _ Hc)].
Qed.

(** The template has nothing to do. *)
Lemma calm_template_runs e w :
  TemplateLoop.own e → no_request w → calm w (template_step multithreaded e w).
Proof using Type.
  intros He (Hr & Hl & Hd). apply calm_template; [by intros ->|apply Hr|by intros].
Qed.
Lemma calm_idle_choice c w :
  no_request w → (∀ pid q, c = branch_answers pid q → idle w) → (∀ pid q, c = branch_wakes pid q → nobody_asked w) →
  selects_watched w → calm w (env_choice c w).
Proof using Type.
  intros Hn Hi Hz Hw. destruct c as [|e| | | | | | | |].
  2: { cbn [environment_step]. case_match eqn:He; [|apply calm_refl]. apply andb_prop in He as [_ He%bool_decide_eq_true_1].
       by apply calm_template_runs. }
  all: apply calm_choice; try done; [by left; apply Hn|by apply Hn].
Qed.

(** The thread that was asked is let run, and answers. *)
Lemma asked_wakes pid q w a :
  asked w a → no_request w →
  let w' := env_choice (branch_wakes pid q) w in same_signals (mach w) (mach w') ∧ asked w' a ∧ no_request w'.
Proof using Type.
  intros Ha Hn. cbn [environment_step]. pose proof (same_signals_refl (mach w)).
  destruct (branches w !! pid) as [b|] eqn:Hb; [|done]. unfold sem_wait. case_bool_decide as Hq; [done|].
  destruct (branch_running pid w && bool_decide (q ∉ awake b)) eqn:Hg; [|done].
  apply andb_prop in Hg as [Hrun%bool_decide_eq_true_1 Hin%bool_decide_eq_true_1].
  destruct Ha as [Hs Hbr|Hz Hbr|Hz Hbr Hm]; [|by destruct (Hq (Hz q))..].
  rewrite Hs in Hq. case_decide as Hqr; [subst q|done]. destruct (Hbr pid Hrun) as [-> Hb']. rewrite Hb in Hb'. injection Hb' as ->.
  rewrite Hs, decide_True by done. split_and!.
  - split; try done. intros s Hw. cbn. rewrite fn_lookup_insert_ne; [done|]. by intros <-.
  - apply working.
    + intros q. cbn. rewrite sems_insert. case_decide as Hqr; [done|]. rewrite Hs, decide_False; [done|]. congruence.
    + intros c [-> _]%Hbr. split; [done|]. cbn. by rewrite lookup_insert_eq, (right_id_L ∅ (∪)).
  - destruct Hn as (Hr & Hl & Hd). split; [done|]. split; [|done]. cbn. by rewrite fn_lookup_insert_ne.
Qed.
Lemma asked_answers pid q w a :
  asked w a → no_request w →
  let w' := env_choice (branch_answers pid q) w in
  w' = w ∨ a = 0%N ∧ asked w' 1 ∧ no_request w' ∧
    ∃ m, same_signals (mach w) m ∧ mach w' = (sem_post (model_side_sem r) m).2 ∧ ∀ c, running_in w' c ↔ running_in w c.
Proof using Type.
  intros Ha Hn. cbn [environment_step].
  destruct (branches w !! pid) as [b|] eqn:Hb; [|by left].
  destruct (branch_running pid w && bool_decide (q ∈ awake b)) eqn:Hg; [right|by left].
  apply andb_prop in Hg as [Hrun%bool_decide_eq_true_1 Hin%bool_decide_eq_true_1].
  assert (b = BranchProcess hist {[r]} ∧ a = 0%N ∧ nobody_asked w ∧ branch_is h b w ∧ pid = h) as (-> & -> & Hz & Hbr & ->).
  { destruct Ha as [Hs Hbr|Hz Hbr|Hz Hbr Hm]; destruct (Hbr pid Hrun) as [-> Hb']; rewrite Hb in Hb'; injection Hb' as ->;
      cbn in Hin; [set_solver| |set_solver]. done. }
  cbn in Hin. apply elem_of_singleton in Hin as ->.
  cbn [mach set_mach set_branch env_step ran_so_far awake].
  destruct (sem_post_frame (model_side_sem r) (set_mailboxes (<[r := answer (hist ++ [r])]> (mailboxes (mach w))) (mach w)))
    as (_ & _ & _ & Hmb & _ & _).
  split; [done|]. split; [|split].
  - apply has_answered.
    + intros q. cbn. rewrite sem_post_other by done. apply Hz.
    + intros c [-> _]%Hbr. split; [done|]. cbn. by rewrite lookup_insert_eq, difference_diag_L.
    + cbn [mach set_mach set_branch]. rewrite Hmb. cbn. by rewrite fn_lookup_insert.
  - destruct Hn as (Hr & Hl & Hd). split; [done|]. split; [|done]. cbn. by rewrite sem_post_other.
  - eexists. split; [|by split]. by split.
Qed.

Lemma asked_choice c w a owed n :
  fits (S n) (mach w) → accounted (model_side_sem r) a owed (mach w) → asked w a → no_request w →
  ∃ a', accounted (model_side_sem r) a' owed (mach (env_choice c w)) ∧ asked (env_choice c w) a' ∧ no_request (env_choice c w).
Proof using Type.
  intros Hf Hacc Ha Hn.
  assert (calm w (env_choice c w) → ∃ a', accounted (model_side_sem r) a' owed (mach (env_choice c w)) ∧
    asked (env_choice c w) a' ∧ no_request (env_choice c w)) as Hcalm.
  { intros Hc. exists a. split_and!; [|by eapply calm_asked_phase|by eapply calm_no_request].
    eapply signals_accounted; [by eapply asked_le|done|by apply Hc|done]. }
  destruct c; try (apply Hcalm, calm_idle_choice; [done|done|done|by eapply accounted_watched]).
  - destruct (asked_wakes pid r0 w a Ha Hn) as (Hsame & Ha' & Hn'). exists a. split; [by apply (accounted_same _ _ _ _ _ Hsame)|done].
  - destruct (asked_answers pid r0 w a Ha Hn) as [-> |(-> & Ha' & Hn' & m & Hsame & Hm & _)]; [by exists a|].
    exists 1%N. split; [|done]. rewrite Hm. apply (accounted_post _ 0 _ (mach w)); [|done|done].
    destruct Hacc as (_ & _ & Hor). unfold fits in Hf. lia.
Qed.

Lemma executing_choice pc w c n :
  executing pc w → fits (S n) (mach w) → executed_result pc = None → executing pc (env_choice c w).
Proof using Type.
  intros [Hn Hpc] Hf Hres. destruct pc as [| | | | |out]; [..|done].
  1,2: destruct Hpc as (Hs & Hz & Hb);
    (assert (calm w (env_choice c w)) as Hc by (apply calm_idle_choice; [done|by intros; eapply branch_is_idle|done|
      first [by eapply accounted_watched|by apply settled_watched]]));
    (split; [by eapply calm_no_request|]); (split; [|split; [by eapply calm_asked|by eapply calm_branch_is]]).
  - eapply signals_settled; [done|by apply Hc|done].
  - eapply signals_accounted; [|done|by apply Hc|done]. lia.
  - destruct Hpc as (a & Hacc & Ha). destruct (asked_choice c w a 0 n) as (a' & ? & ? & ?); [done..|]. split; [done|]. by exists a'.
  - destruct Hpc as (a & Hacc & Ha). destruct (asked_choice c w a 1 n) as (a' & ? & ? & ?); [done..|]. split; [done|]. by exists a'.
  - destruct Hpc as (a & Hacc & Ha). destruct (asked_choice c w a 0 n) as (a' & ? & ? & ?); [done..|]. split; [done|]. by exists a'.
Qed.

(** A step of the method moves the machine alone. *)
Lemma same_executing w m : same_signals (mach w) m → (∀ s, ¬ watched s → sems m s = sems (mach w) s) →
  mailboxes m = mailboxes (mach w) → no_request w → no_request (set_mach m w) ∧ ∀ a, asked w a → asked (set_mach m w) a.
Proof using Type.
  intros Hs Hw Hm (Hr & Hl & Hd). split.
  - split; [done|]. split; [|done]. cbn. rewrite Hw; [done|by intros []].
  - intros a [Hq Hb|Hz Hb|Hz Hb Hmb]; [apply awoken|apply working|apply has_answered]; try done; cbn.
    + intros q. rewrite Hw; [apply Hq|by intros []].
    + intros q. rewrite Hw; [apply Hz|by intros []].
    + intros q. rewrite Hw; [apply Hz|by intros []].
    + by rewrite Hm.
Qed.

Lemma executing_step pc w pc' w' :
  executing pc w → on_machine (execute_runner_step h r) pc w = Some (pc', w') →
  executing pc' w' ∧ (flags (mach w') ≤ flags (mach w))%N.
Proof using Type.
  intros [Hn Hpc] (  [pc1 m] & Hs & [= <- <-])%bind_Some. cbn [mach set_mach].
  destruct pc as [| | | | |out]; simpl in Hs; [..|done].
  - injection Hs as <- <-. split; [|cbn; lia]. destruct Hpc as (Hset & Hz & Hb). split; [done|].
    split; [by apply settled_select|]. by split.
  - injection Hs as <- <-. split; [|cbn; lia]. destruct Hpc as (Hacc & Hz & Hb). split.
    { destruct Hn as (Hr & Hl & Hd). split; [done|]. split; [|done]. cbn. by rewrite fn_lookup_insert_ne. }
    exists 0%N. split.
    + apply (accounted_same _ _ _ (mach w)); [|done]. split; try done. intros s Hw. cbn. rewrite fn_lookup_insert_ne; [done|]. by intros <-.
    + apply awoken; [|done]. intros q. cbn. rewrite (Hz r). case_decide as Hq; [subst q; by rewrite fn_lookup_insert|].
      rewrite fn_lookup_insert_ne by congruence. apply Hz.
  - destruct (sem_wait (model_side_sem r) (mach w)) as [m'|] eqn:Hwait; [|done]. injection Hs as <- <-.
    destruct Hpc as (a & Hacc & Ha). pose proof (accounted_wait _ _ _ _ Hacc Hwait) as Hacc'.
    unfold sem_wait in Hwait. case_bool_decide; [done|]. injection Hwait as <-. split; [|cbn; lia].
    split; [|exists a; split; [done|]].
    + destruct Hn as (Hr & Hl & Hd). split; [done|]. split; [|done]. cbn. by rewrite fn_lookup_insert_ne.
    + destruct Ha as [Hq Hb|Hz Hb|Hz Hb Hmb]; [apply awoken|apply working|apply has_answered]; try done;
        intros q; cbn; rewrite fn_lookup_insert_ne by done; first [apply Hz|apply Hq].
  - destruct (try_consume_signal (mach w)) as [consumed m'] eqn:Ht. destruct Hpc as (a & Hacc & Ha).
    destruct consumed; injection Hs as <- <-.
    + pose proof (accounted_consume _ _ _ _ Hacc Ht) as Hacc'.
      unfold try_consume_signal in Ht. destruct (has_signal (mach w)); [|done]. injection Ht as <-.
      split; [|cbn; lia]. split; [done|]. exists a. split; [done|]. by destruct Ha; [apply awoken|apply working|apply has_answered].
    + apply no_signal in Ht as [-> Hf]. split; [|lia].
      destruct (accounted_answered _ _ _ Hacc) as [-> Hset]; [by eapply asked_le|done|].
      inversion Ha as [| |Hz Hb Hm]. split; [done|]. split; [done|]. split; [done|]. split; [done|]. exact Hm.
  - destruct Hpc as (a & Hacc & Ha). unfold waitpid in Hs.
    destruct (children (mach w) !! h) as [[|st]|]; [|destruct st|]; cbn in Hs; injection Hs as <- <-; (split; [|cbn; lia]);
      (split; [exact Hn|]); try done.
    exists a. split; [done|]. by apply (same_executing w (mach w)); [apply same_signals_refl|..].
Qed.
End execute.

(** ** A process is made *)

Abbreviation answer_sem := mcmini_process_sem.

(** How far the template is with a request; the number of answers it has given. *)
Inductive requested w : N → Prop :=
  | waits_for_template : at_rest (tpl w) → sems (mach w) libmcmini_sem = 1%N → requested w 0
  | accepted : in_phase (tpl w) → TemplateLoop.pc (tpl w) = make_process → sems (mach w) libmcmini_sem = 0%N → requested w 0
  | has_forked c : in_phase (tpl w) → TemplateLoop.pc (tpl w) = report c → sems (mach w) libmcmini_sem = 0%N →
      branch_is (TemplateLoop.cpid (tpl w)) forked w → requested w 0
  | has_told : at_rest (tpl w) → sems (mach w) libmcmini_sem = 0%N → branch_is (cpid (mach w)) forked w → requested w 1.
Record requesting (a owed : N) w : Prop := Requesting {
  rq_asked : nobody_asked w;
  rq_idle : idle w;
  rq_ready : ready w;
  rq_phase : requested w a;
  rq_sem : accounted answer_sem a owed (mach w);
}.

Lemma requested_le w a : requested w a → (a ≤ 1)%N.
Proof. intros []; lia. Qed.
Lemma calm_requested w w' a : calm w w' → requested w a → requested w' a.
Proof using Type.
  intros Hc Hr.
  assert (∀ x, sems (mach w) libmcmini_sem = x → sems (mach w') libmcmini_sem = x) as Hl.
  { intros x <-. apply (calm_sems _ _ Hc). by intros []. }
  assert (∀ x, in_phase (tpl w) → (∀ c, x ≠ wait_child c) → x ≠ wait_request → TemplateLoop.pc (tpl w) = x →
    TemplateLoop.pc (tpl w') = x) as Hpc.
  { intros x Hp Hne Hne' Hx. destruct (calm_pc _ _ Hc) as [->|[[_ [Hw|[c Hw]]] _]]; [done|congruence|]. destruct (Hne c). congruence. }
  destruct Hr as [Hr Hz|Hp Hx Hz|c Hp Hx Hz Hb|Hr Hz Hb].
  - apply waits_for_template; [by eapply calm_rest|by apply Hl].
  - apply accepted; [by apply (calm_phase _ _ Hc)|by apply Hpc|by apply Hl].
  - apply (has_forked _ c); [by apply (calm_phase _ _ Hc)|by apply Hpc|by apply Hl|].
    rewrite (calm_told _ _ Hc). by eapply calm_branch_is.
  - apply has_told; [by eapply calm_rest|by apply Hl|]. rewrite (calm_cpid _ _ Hc). by eapply calm_branch_is.
Qed.
Lemma calm_requesting a owed w w' n : fits (S n) (mach w) → calm w w' → requesting a owed w → requesting a owed w'.
Proof using Type.
  intros Hf Hc [Hz Hi Hr Hp Hs]. split; [by eapply calm_asked|by eapply calm_idle|by apply (calm_ready _ _ Hc)|by eapply calm_requested|].
  eapply signals_accounted; [by eapply requested_le|done|by apply Hc|done].
Qed.

(** The steps of the loop that serve the request. *)
Lemma store_quietly p w : mcmini_process_posts p = mcmini_process_posts (tpl w) →
  same_signals (mach w) (mach (store p w)) ∧ (∀ s, s ≠ libmcmini_sem → sems (mach (store p w)) s = sems (mach w) s)
  ∧ sems (mach (store p w)) libmcmini_sem = N.of_nat (TemplateLoop.libmcmini_sem p) ∧ tpl (store p w) = p
  ∧ branches (store p w) = branches w ∧ (ready w → ready (store p w)).
Proof.
  intros Hp. unfold store. cbn [mach set_mach tpl set_tpl branches]. rewrite bool_decide_eq_true_2 by done.
  assert (∀ s, s ≠ libmcmini_sem → sems (set_sems (<[libmcmini_sem := N.of_nat (TemplateLoop.libmcmini_sem p)]>
    (sems (mach w))) (mach w)) s = sems (mach w) s) as Hs by (intros s Hs; cbn; by rewrite fn_lookup_insert_ne).
  split; [|split; [exact Hs|split; [cbn; by rewrite fn_lookup_insert|done]]].
  split; [done..|]. intros s Hw. apply Hs. by intros ->.
Qed.

Lemma requesting_store p a a' owed w :
  mcmini_process_posts p = mcmini_process_posts (tpl w) → (a ≤ a')%N → (a' ≤ a)%N →
  requesting a owed w → idle (store p w) → requested (store p w) a' → requesting a' owed (store p w).
Proof using Type.
  intros Hp Hle Hge [Hz Hi Hr _ Hs] Hi' Hrq. assert (a' = a) as -> by lia.
  destruct (store_quietly p w Hp) as (Hsame & Hsems & _ & _ & _ & Hrd). split; [|done|by apply Hrd|done|].
  - intros r. rewrite Hsems by done. apply Hz.
  - by apply (accounted_same _ _ _ _ _ Hsame).
Qed.
(** The kids are those there were. *)
Lemma store_idle p w : kids p = kids (tpl w) → idle w → idle (store p w).
Proof. intros Hk Hi c. unfold running_in, store. cbn [tpl set_mach set_tpl branches]. rewrite Hk. apply Hi. Qed.

Lemma requesting_loop pid a owed w n :
  fits (S n) (mach w) → requesting a owed w → ∃ a', requesting a' owed (template_step multithreaded (Loop pid) w).
Proof using Type.
  intros Hf Hrq. pose proof Hrq as [Hz Hi Hr Hp Hs].
  destruct Hp as [Hrest Hl|Hp Hx Hl|c Hp Hx Hl Hb|Hrest Hl Hb].
  4:{ exists 1%N. eapply calm_requesting; [done| |done]. apply calm_template; [done|apply Hrest|by intros]. }
  all: unfold template_step; destruct (TemplateLoop.step multithreaded (Loop pid) (load w)) as [p|] eqn:Hstep; [|by exists 0%N].
  all: assert (in_phase p) as Hp' by (eapply TemplateLoop.step_phase; [apply in_phase_request|exact Hstep]; first [apply Hrest|done]).
  all: simpl in Hstep; destruct (TemplateLoop.handler (tpl w)); [done|]; unfold TemplateLoop.loop_step in Hstep; cbn in Hstep.
  - rewrite Hl in Hstep. assert (kids p = kids (tpl w) ∧ mcmini_process_posts p = mcmini_process_posts (tpl w)) as [Hk Hposts].
    { destruct Hrest as [Hp [Hx|[c Hx]]]; rewrite Hx in Hstep; [by injection Hstep as <-|].
      destruct (TemplateLoop.sigchld_sem (tpl w)); [done|]. by injection Hstep as <-. }
    rewrite bool_decide_eq_false_2 by (rewrite Hk; intros [? ?]; congruence).
    exists 0%N. eapply requesting_store; [done|done|done|exact Hrq|by apply store_idle|].
    destruct (store_quietly p w Hposts) as (_ & _ & Hlp & Htp & _).
    destruct Hrest as [Hp [Hx|[c Hx]]]; rewrite Hx in Hstep.
    + injection Hstep as Hpe. apply accepted; [by rewrite Htp|by rewrite Htp, <- Hpe|rewrite Hlp, <- Hpe; cbn; by rewrite ?Hl].
    + destruct (TemplateLoop.sigchld_sem (tpl w)); [done|]. injection Hstep as Hpe.
      apply waits_for_template; [rewrite Htp; split; [done|left; by rewrite <- Hpe]|rewrite Hlp, <- Hpe; cbn; by rewrite Hl].
  - rewrite Hx in Hstep. assert (kids (tpl w) = ∅) as Hk by (unfold in_phase in Hp; rewrite Hx in Hp; by destruct Hp).
    rewrite Hk in Hstep.
    destruct (decide (pid = (-1)%Z)) as [Hpid|Hpid]; [rewrite bool_decide_eq_true_2 in Hstep by done|rewrite bool_decide_eq_false_2 in Hstep by done].
    + injection Hstep as Hpe. assert (kids p = kids (tpl w)) as Hkp by by rewrite <- Hpe.
      assert (mcmini_process_posts p = mcmini_process_posts (tpl w)) as Hposts by by rewrite <- Hpe.
      rewrite bool_decide_eq_false_2 by (rewrite Hkp; intros [? ?]; congruence).
      destruct (store_quietly p w Hposts) as (_ & _ & Hlp & Htp & _).
      exists 0%N. eapply requesting_store; [done|done|done|exact Hrq|by apply store_idle|].
      apply (has_forked _ pid); [by rewrite Htp|by rewrite Htp, <- Hpe|rewrite Hlp, <- Hpe; cbn; by rewrite ?Hl|].
      intros c. unfold running_in. by rewrite Htp, Hkp, Hk, lookup_empty.
    + destruct (bool_decide (0 < pid)%Z && _) eqn:Hpos; [|done]. injection Hstep as Hpe.
      assert (kids p = {[pid := running_child]}) as Hkp by (rewrite <- Hpe; cbn; rewrite ?Hk; apply insert_empty).
      assert (mcmini_process_posts p = mcmini_process_posts (tpl w)) as Hposts by by rewrite <- Hpe.
      rewrite bool_decide_eq_true_2 by (rewrite Hkp, Hk; by rewrite lookup_singleton_eq, lookup_empty).
      destruct (store_quietly p w Hposts) as (Hsame & Hsems & Hlp & Htp & Hbr & Hrd). exists 0%N.
      assert (branch_is pid forked (new_branch pid (store p w))) as Hnew.
      { intros c. unfold running_in. cbn [tpl new_branch set_killed set_branch branches]. rewrite Htp, Hkp.
        intros [<- _]%lookup_singleton_Some. split; [done|]. apply lookup_insert_eq. }
      split.
      * intros r. cbn. rewrite Hsems by done. apply Hz.
      * by eapply branch_is_idle.
      * by apply Hrd.
      * apply (has_forked _ pid); cbn [tpl new_branch set_killed set_branch mach]; [by rewrite Htp|by rewrite Htp, <- Hpe|rewrite Hlp, <- Hpe; cbn; by rewrite ?Hl|].
        assert (TemplateLoop.cpid p = pid) as Hcp; [|by rewrite Htp, Hcp].
        rewrite <- Hpe. cbn. unfold TemplateLoop.reported_cpid. by rewrite bool_decide_eq_false_2.
      * by apply (accounted_same _ _ _ _ _ Hsame).
  - rewrite Hx in Hstep. injection Hstep as Hpe. assert (kids p = kids (tpl w)) as Hk by by rewrite <- Hpe.
    rewrite bool_decide_eq_false_2 by (rewrite Hk; intros [? ?]; congruence).
    assert (TemplateLoop.cpid p = TemplateLoop.cpid (tpl w)) as Hcp by by rewrite <- Hpe.
    set (m1 := set_cpid (TemplateLoop.cpid p) (set_sems (<[libmcmini_sem := N.of_nat (TemplateLoop.libmcmini_sem p)]> (sems (mach w))) (mach w))).
    assert (store p w = set_mach (sem_post mcmini_process_sem m1).2 (set_tpl p w)) as ->.
    { unfold store. rewrite bool_decide_eq_false_2; [done|]. rewrite <- Hpe. cbn. lia. }
    assert (TemplateLoop.libmcmini_sem p = 0) as Hlp by (rewrite <- Hpe; cbn; by rewrite Hl).
    assert (∀ s, s ≠ libmcmini_sem → sems m1 s = sems (mach w) s) as Hsems by (intros s Hne; cbn; by rewrite fn_lookup_insert_ne).
    assert (same_signals (mach w) m1) as Hsame by (split; [done..|]; intros s Hw; apply Hsems; by intros ->).
    destruct (sem_post_frame mcmini_process_sem m1) as (_ & _ & _ & _ & _ & Hcpid).
    exists 1%N. split.
    + intros r. cbn [mach set_mach]. rewrite sem_post_other, Hsems by done. apply Hz.
    + intros c0. unfold running_in. cbn [tpl set_mach set_tpl branches]. rewrite Hk. apply Hi.
    + done.
    + apply has_told; cbn [tpl set_mach set_tpl mach].
      * split; [done|]. right. exists c. by rewrite <- Hpe.
      * rewrite sem_post_other by done. cbn. by rewrite fn_lookup_insert, Hlp.
      * rewrite Hcpid. cbn. rewrite Hcp. intros c0. unfold running_in. cbn [tpl set_mach set_tpl branches]. rewrite Hk. apply Hb.
    + cbn [mach set_mach]. apply (accounted_post _ 0 _ (mach w)); [|done|done].
      destruct Hs as (_ & _ & Hor). unfold fits in Hf. lia.
Qed.

Lemma requesting_choice c a owed w n :
  fits (S n) (mach w) → requesting a owed w → ∃ a', requesting a' owed (env_choice c w).
Proof using Type.
  intros Hf Hrq. pose proof Hrq as [Hz Hi Hr Hp Hs].
  assert (in_phase (tpl w)) as Hph by (destruct Hp as [[? _] _| | |[? _] _ _]; done).
  destruct c as [|e| | | | | | | |].
  2:{ cbn [environment_step]. case_match eqn:He; [|by exists a]. apply andb_prop in He as [_ He%bool_decide_eq_true_1].
      destruct e; try by eapply requesting_loop.
      all: exists a; eapply calm_requesting; [done| |done]; by apply calm_template. }
  all: exists a; eapply calm_requesting; [done| |done]; apply calm_choice; try done; [by left|by eapply accounted_watched].
Qed.

Definition n_announced w : N := if announced w then 1 else 0.
(** The template starts: it has no request and no branch, and may still have to announce itself. *)
Definition starting (owed : N) w : Prop :=
  at_rest (tpl w) ∧ sems (mach w) libmcmini_sem = 0%N ∧ nobody_asked w ∧ idle w ∧
  accounted answer_sem (n_announced w) owed (mach w).
(** Between two calls. *)
Definition stable w : Prop := settled (mach w) ∧ nobody_asked w ∧ idle w ∧ no_request w.

Definition sourcing (pc : source_pc) w : Prop :=
  match pc with
  | reset_semaphores | select_semaphore => stable w
  | select_ready_semaphore => multithreaded = true ∧ stable w
  | launch_template => nobody_asked w ∧ no_request w ∧ idle w ∧
      if multithreaded then accounted answer_sem 0 0 (mach w) else settled (mach w)
  | wait_until_ready _ => starting 0 w
  | check_template_alive _ acquired => starting (if acquired then 1 else 0) w
  | check_death => stable w ∨ starting 1 w
  | request_fork => nobody_asked w ∧ no_request w ∧ idle w ∧ accounted answer_sem 0 0 (mach w)
  | wait_for_fork => ∃ a, requesting a 0 w
  | check_death_again => ∃ a, requesting a 1 w
  | read_cpid => stable w ∧ branch_is (cpid (mach w)) forked w
  | made (Ok pid) => stable w ∧ branch_is pid forked w
  | made (Throw _) => True
  end.

Lemma announced_le w : (n_announced w ≤ 1)%N.
Proof. unfold n_announced. destruct (announced w); lia. Qed.
Lemma calm_stable w w' n : fits (S n) (mach w) → calm w w' → stable w → stable w'.
Proof using Type.
  intros Hf Hc (Hs & Hz & Hi & Hn). split; [by eapply signals_settled; [|apply Hc|]|].
  split; [by eapply calm_asked|split; [by eapply calm_idle|by eapply calm_no_request]].
Qed.
Lemma stable_choice c w : stable w → calm w (env_choice c w).
Proof using Type. intros (Hs & Hz & Hi & Hn). apply calm_idle_choice; try done. by apply settled_watched. Qed.
Lemma starting_choice c owed w n : fits (S n) (mach w) → starting owed w → starting owed (env_choice c w).
Proof using Type.
  intros Hf Hst. pose proof Hst as (Hr & Hl & Hz & Hi & Hs).
  assert (calm w (env_choice c w) → starting owed (env_choice c w)) as Hcalm.
  { intros Hc. split; [by eapply calm_rest|]. split; [rewrite (calm_sems _ _ Hc); [done|by intros []]|].
    split; [by eapply calm_asked|]. split; [by eapply calm_idle|]. unfold n_announced. rewrite (calm_announced _ _ Hc).
    eapply signals_accounted; [apply announced_le|done|by apply Hc|done]. }
  destruct c as [|e| | | | | | | |].
  2:{ cbn [environment_step] in *. case_match eqn:He; [|done]. apply andb_prop in He as [_ He%bool_decide_eq_true_1].
      apply Hcalm, calm_template; [by intros ->|apply Hr|by intros]. }
  2:{ cbn [environment_step] in *. case_match eqn:He; [|done]. apply andb_prop in He as [_ He%negb_true_iff].
      unfold starting, n_announced in *. cbn [mach set_mach set_alive tpl announced] in *. rewrite He in Hs.
      split; [done|]. split; [by rewrite sem_post_other|]. split; [|split; [done|]].
      - intros r. cbn. rewrite sem_post_other by done. apply Hz.
      - apply (accounted_post _ 0 _ (mach w)); [|apply same_signals_refl|done].
        destruct Hs as (_ & _ & Hor). unfold fits in Hf. lia. }
  all: apply Hcalm, calm_choice; try done; [by right|apply Hr|by eapply accounted_watched].
Qed.

Lemma settled_less m m' : current_sem m' = current_sem m → flags m' = flags m → handling m' = handling m →
  (∀ s, watched s → (sems m' s ≤ sems m s)%N) → settled m → settled m'.
Proof.
  intros Hc Hf Hh Hle (s & Hs & Hcs & Hl & Hz). exists s. rewrite Hc, Hf, Hh. pose proof (Hle s Hs).
  split_and!; [done..|lia|]. intros s' Hs' Hne. pose proof (Hle s' Hs') as Hle'. rewrite (Hz s' Hs' Hne) in Hle'. lia.
Qed.
Lemma requesting_mach m t a owed owed' w :
  (∀ s, ¬ watched s → sems m s = sems (mach w) s) → cpid m = cpid (mach w) → accounted answer_sem a owed' m →
  requesting a owed w → requesting a owed' (set_mach m (set_template t w)).
Proof using Type.
  intros Hs Hc Hacc [Hz Hi Hr Hp _]. split; [|done|done| |done].
  { intros r. cbn. rewrite Hs; [apply Hz|by intros []]. }
  assert (sems m libmcmini_sem = sems (mach w) libmcmini_sem) as Hl by (apply Hs; by intros []).
  destruct Hp as [Hr' Hz'|Hp Hx Hz'|c Hp Hx Hz' Hb|Hr' Hz' Hb].
  - apply waits_for_template; cbn; [done|by rewrite Hl].
  - apply accepted; cbn; [done..|by rewrite Hl].
  - apply (has_forked _ c); cbn; [done..|by rewrite Hl|done].
  - apply has_told; cbn; [done|by rewrite Hl|]. by rewrite Hc.
Qed.
Lemma start_at_rest : at_rest TemplateLoop.start.
Proof. split; [by split|by left]. Qed.

Lemma sourcing_choice pc w c n :
  sourcing pc w → fits (S n) (mach w) → made_result pc = None → sourcing pc (env_choice c w).
Proof using Type.
  intros Hpc Hf Hres.
  assert (stable w → stable (env_choice c w)) as Hstable by (intros Hs; eapply calm_stable; [done|by apply stable_choice|done]).
  destruct pc as [| | |tpid|tpid acq| | | | | | |[pid|e]]; simpl in Hpc |- *; try done; try (by apply Hstable); try by eapply starting_choice.
  - split; [apply Hpc|apply Hstable, Hpc].
  - destruct Hpc as (Hz & Hn & Hi & Hs). assert (calm w (env_choice c w)) as Hc.
    { apply calm_idle_choice; try done. destruct multithreaded; [by eapply accounted_watched|by apply settled_watched]. }
    split; [by eapply calm_asked|]. split; [by eapply calm_no_request|]. split; [by eapply calm_idle|].
    destruct multithreaded; [eapply signals_accounted; [lia|done|by apply Hc|done]|by eapply signals_settled; [|apply Hc|]].
  - destruct Hpc as [?|?]; [left; by apply Hstable|right; by eapply starting_choice].
  - destruct Hpc as (Hz & Hn & Hi & Hs). assert (calm w (env_choice c w)) as Hc.
    { apply calm_idle_choice; try done. by eapply accounted_watched. }
    split; [by eapply calm_asked|]. split; [by eapply calm_no_request|]. split; [by eapply calm_idle|].
    eapply signals_accounted; [lia|done|by apply Hc|done].
  - destruct Hpc as (a & Ha). by eapply requesting_choice.
  - destruct Hpc as (a & Ha). by eapply requesting_choice.
  - destruct Hpc as [Hs Hb]. pose proof (stable_choice c w Hs) as Hc. split; [by apply Hstable|].
    rewrite (calm_cpid _ _ Hc). by eapply calm_branch_is.
Qed.

Lemma sourcing_step pc w pc' w' :
  sourcing pc w → source_step multithreaded launched pc w = Some (pc', w') →
  sourcing pc' w' ∧ (flags (mach w') ≤ flags (mach w))%N.
Proof using Type.
  intros Hpc. unfold source_step.
  destruct (make_new_process_step multithreaded launched (pc, template w, mach w)) as [[[pc1 t] m]|] eqn:Hs; [|done].
  destruct pc as [| | |tpid|tpid acq| | | | | | |out]; simpl in Hs, Hpc; [..|done].
  - injection Hs as <- <- <-. intros [= <- <-]. split; [|cbn; lia].
    assert (stable (set_mach (reset_binary_semaphores_for_new_branch (mach w)) (set_template (template w) w))) as Hst.
    { destruct Hpc as (Hset & Hz & Hi & (Hr & Hl & Hd)). split; [|split; [|split; [done|split; [done|split; [|done]]]]].
      - apply (settled_less (mach w)); [done..| |done]. intros s _. cbn. destruct (of_mailbox s); lia.
      - intros r. cbn. case_bool_decide; [done|apply Hz].
      - done. }
    destruct (template w); [by left|]. destruct multithreaded eqn:Hm; [done|].
    destruct Hst as (Hset & Hz & Hi & Hn). simpl. rewrite Hm. by split_and!.
  - injection Hs as <- <- <-. intros [= <- <-]. split; [|cbn; lia]. destruct Hpc as [Hm (Hset & Hz & Hi & Hn)].
    simpl. rewrite Hm. split_and!; try done; by apply settled_select.
  - destruct Hpc as (Hz & (Hr & Hl & Hd) & Hi & Hs'). destruct launched as [tpid|e].
    + injection Hs as <- <- <-. intros [= <- <-]. split; [|cbn; lia].
      destruct multithreaded eqn:Hm; simpl.
      * split; [apply start_at_rest|]. by split_and!.
      * left. split_and!; try done. split; [apply start_at_rest|]. split; [done|]. intros ?. congruence.
    + injection Hs as <- <- <-. by intros [= <- <-].
  - destruct (sem_wait answer_sem (mach w)) as [m'|] eqn:Hw; injection Hs as <- <- <-; intros [= <- <-].
    + destruct Hpc as (Hr & Hl & Hz & Hi & Hacc). pose proof (accounted_wait _ _ _ _ Hacc Hw) as Hacc'.
      unfold sem_wait in Hw. case_bool_decide; [done|]. injection Hw as <-. split; [|cbn; lia]. simpl.
      split; [done|]. split; [cbn; by rewrite fn_lookup_insert_ne|]. split; [|done].
      intros r. cbn. rewrite fn_lookup_insert_ne by done. apply Hz.
    + by split; [|cbn; lia].
  - destruct (template_died tpid (mach w)); [|destruct acq]; injection Hs as <- <- <-; intros [= <- <-]; (split; [|cbn; lia]);
      [done|by right|done].
  - destruct (try_consume_signal (mach w)) as [[] m'] eqn:Ht; injection Hs as <- <- <-; intros [= <- <-].
    + split; [done|]. unfold try_consume_signal in Ht. destruct (has_signal (mach w)); [|done]. injection Ht as <-. cbn. lia.
    + apply no_signal in Ht as [-> Hf]. split; [|cbn; lia]. simpl. destruct Hpc as [Hpc|(Hr & Hl & Hz & Hi & Hacc)]; [exact Hpc|].
      destruct (accounted_answered _ _ _ Hacc) as [Ha Hset]; [apply announced_le|done|].
      split_and!; try done. split; [done|]. split; [done|]. intros _ _. cbn. unfold n_announced in Ha. by destruct (announced w).
  - injection Hs as <- <- <-. intros [= <- <-]. split; [|cbn; lia]. destruct Hpc as (Hset & Hz & Hi & Hn).
    split_and!; try done; by apply settled_select.
  - destruct Hpc as (Hz & (Hr & Hl & Hd) & Hi & Hacc). destruct (sem_post libmcmini_sem (mach w)) as [ok m'] eqn:Hp.
    injection Hs as <- <- <-. intros [= <- <-]. pose proof (sem_post_flags libmcmini_sem (mach w)) as Hfl. rewrite Hp in Hfl.
    split; [|cbn in *; lia]. unfold sem_post in Hp. case_bool_decide; injection Hp as <- <-; [done|]. exists 0%N. split; try done.
    + apply waits_for_template; [done|]. cbn. by rewrite fn_lookup_insert, Hl.
    + apply (accounted_same _ _ _ (mach w)); [|done]. split; try done. intros s Hw. cbn. rewrite fn_lookup_insert_ne; [done|]. by intros <-.
  - destruct (sem_wait answer_sem (mach w)) as [m'|] eqn:Hw; [|done]. injection Hs as <- <- <-. intros [= <- <-].
    destruct Hpc as [a Ha]. pose proof (accounted_wait _ _ _ _ (rq_sem _ _ _ Ha) Hw) as Hacc'.
    unfold sem_wait in Hw. case_bool_decide; [done|]. injection Hw as <-. split; [|cbn; lia]. exists a.
    eapply requesting_mach; [| |done|exact Ha]; [|done]. intros s Hne. cbn. rewrite fn_lookup_insert_ne; [done|]. by intros <-.
  - destruct (try_consume_signal (mach w)) as [[] m'] eqn:Ht; injection Hs as <- <- <-; intros [= <- <-].
    + split; [done|]. unfold try_consume_signal in Ht. destruct (has_signal (mach w)); [|done]. injection Ht as <-. cbn. lia.
    + apply no_signal in Ht as [-> Hf]. split; [|cbn; lia]. destruct Hpc as [a [Hz Hi Hr Hp Hacc]].
      destruct (accounted_answered _ _ _ Hacc) as [-> Hset]; [by eapply requested_le|done|].
      inversion Hp as [| | |Hrest Hl Hb]. by split_and!.
  - injection Hs as <- <- <-. intros [= <- <-]. split; [|cbn; lia]. destruct Hpc as [Hst Hb]. by case_bool_decide.
Qed.

(** ** A deterministic target *)

Lemma kill_step_process h w :
  kill_step h kill_process w = Some (destroyed, if bool_decide (0 < h)%Z then set_killed ({[h]} ∪ killed w) w else w).
Proof. unfold kill_step, on_machine. simpl. case_bool_decide as Hh; destruct w; by repeat case_bool_decide. Qed.

Definition valid w : Prop := stable w ∧ fits (length (sched w)) (mach w).
Definition ran w (h : Z) (hist : list runner_id_t) : Prop := branch_is h (BranchProcess hist ∅) w.

#[local] Instance world : World system :=
  system_World multithreaded launched answer memory mutex_initializer cond_initializer.

(** Whatever the schedule, the processes are what the coordinator takes them for. *)
Lemma system_deterministic : Deterministic system valid ran answer.
Proof using Type.
  split.
  - intros w h w' [Hst Hf] Hmake.
    destruct (run_method_inv _ _ sourcing sourcing_step sourcing_choice _ _ _ _ _ (Hst : sourcing reset_semaphores w) Hf Hmake)
      as (pc & w0 & l & Hpc & [Hres|?] & Hf0 & ->); [|done].
    destruct pc as [| | | | | | | | | | |[pid|e]]; try done. injection Hres as ->. destruct Hpc as [Hs Hb].
    split; [by split|exact Hb].
  - intros w h [Hst Hf]. unfold destroy_process. cbn [world system_World]. unfold call_method.
    destruct (run_method _ _ _ _ _ _ _) as [out w'] eqn:Hrun.
    edestruct (run_method_inv (kill_step h) destroyed_result
      (λ pc w, stable w ∧ (pc = kill_process ∨ pc = destroyed))) as (pc & w0 & l & [Hs _] & _ & Hf0 & ->);
      [| |split; [exact Hst|by left]|exact Hf|exact Hrun|by split].
    + intros pc w1 pc' w1' [Hs [-> | ->]]; [|done]. rewrite kill_step_process. intros [= <- <-].
      case_bool_decide; (split; [|cbn; lia]); (split; [exact Hs|by right]).
    + intros pc w1 c n [Hs Hpc] Hf1 _. split; [|done]. eapply calm_stable; [done|by apply stable_choice|done].
  - intros w h hist r mb w' [Hst Hf] Hr Hx. destruct Hst as (Hs & Hz & Hi & Hn).
    destruct (run_method_inv _ _ (executing h r hist) (executing_step h r hist) (executing_choice h r hist) _ _ _ _ _
      (conj Hn (conj Hs (conj Hz Hr)) : executing h r hist set_semaphore w) Hf Hx)
      as (pc & w0 & l & Hpc & [Hres|?] & Hf0 & ->); [|done].
    destruct pc as [| | | | |out]; try done. injection Hres as ->. destruct Hpc as (Hn0 & Hs0 & Hz0 & Hb0 & ->).
    split; [|split; [exact Hb0|done]]. split; [|exact Hf0]. split; [done|]. split; [done|]. split; [by eapply branch_is_idle|done].
Qed.

(** ** The search over the processes *)

(** Nothing has happened yet, and [l] will. *)
Definition new_machine : machine :=
  Machine (λ _, 0%N) 0 0 None (λ _, RunnerMailbox 0 (replicate 64 0%N)) ∅ 0.
Definition new_system (l : list choice) : system := System new_machine None false false TemplateLoop.start ∅ ∅ l.

Lemma new_system_valid l : (N.of_nat (length l) + 1 < SEM_VALUE_MAX)%N → valid (new_system l).
Proof using Type.
  intros Hl. split; [|exact Hl]. split; [by exists mcmini_process_sem|]. split; [done|]. split; [by intros c|].
  split; [apply start_at_rest|]. by split.
Qed.

(** C19: the processes follow the model.  For every schedule of the checker, the template,
its branches and signals, over a target whose threads answer by the runners executed so
far: at every head of the search no branch runs but that of the handle of the coordinator,
and it has executed the executors of the trace, in order, and nothing else.  While runners
have numbers of their own, the next transition of a runner after one of the trace, further
on in the trace or pending, is what the callbacks make of the mailbox filled there, for the
objects now bound to its addresses; and the first transition of a runner is the one it had
at the start, or its start. *)
Theorem system_follows_model config cbs p0 registry l c (ctx : dpor_context (Coordinator.coordinator (W := system))) :
  (N.of_nat (length l) + 1 < SEM_VALUE_MAX)%N → dense p0 → trace p0 = [] →
  new_coordinator p0 registry (new_system l) = (Ok tt, c) →
  (maximum_total_execution_depth config < 2^32)%N → loop_head config cbs c ctx → stack ctx ≠ [] →
  ∃ h ts, current_process_handle (Dpor.coordinator ctx) = Some h ∧ trace (model_of ctx) = Some <$> ts ∧
    (∀ pid, running_in (process_source (Dpor.coordinator ctx)) pid →
      pid = h ∧ branches (process_source (Dpor.coordinator ctx)) !! pid = Some (BranchProcess (get_executor <$> ts) ∅)) ∧
    (numbered (Dpor.coordinator ctx) →
     (∀ i t, ts !! i = Some t → ∃ t', next_at ts (next_steps (model_of ctx)) (S i) (get_executor t) = Some t' ∧
       made_of answer (Dpor.coordinator ctx) (get_executor <$> take (S i) ts) t') ∧
     ∀ r t, next_at ts (next_steps (model_of ctx)) 0 r = Some t →
       next_steps p0 !! r = Some t ∨ t = Transition r thread_start).
Proof using Type.
  intros Hl Hd Ht Hnew Hmax Hh Hne.
  exact (@follows_model system world valid ran answer system_deterministic config cbs p0 registry (new_system l) c ctx
    (new_system_valid l Hl) Hd Ht Hnew Hmax Hh Hne).
Qed.

(** ** Nothing is lost without signals *)

(** No signal arrives, and the branch [h] lives on. *)
Definition harmless (h : Z) (c : choice) : Prop :=
  c ≠ signal_arrives ∧ c ≠ branch_dies h ∧ ∀ status, c ≠ branch_ends h status.

Lemma choice_flags c w : c ≠ signal_arrives → flags (mach (env_choice c w)) = flags (mach w).
Proof using Type.
  intros Hc. destruct c as [|e| |status|pid r|pid r|pid status|pid| |]; cbn [environment_step]; try done.
  - case_match; [apply template_step_flags|done].
  - case_match; [apply sem_post_flags|done].
  - destruct (template w); [|done]. by destruct (template_alive w).
  - destruct (branches w !! pid) as [b|]; [|done]. unfold sem_wait. case_bool_decide; [done|]. by case_match.
  - destruct (branches w !! pid) as [b|]; [|done]. case_match; [|done].
    cbn [mach set_mach set_branch env_step]. by rewrite sem_post_flags.
  - apply template_step_flags.
  - case_match; [apply template_step_flags|done].
  - apply handler_frame.
Qed.
Lemma template_step_running e w h :
  e ≠ Request → (∀ status, e ≠ Ends h status) → running_in w h → running_in (template_step multithreaded e w) h.
Proof using Type.
  unfold running_in, template_step. intros Hq He Hr.
  destruct (TemplateLoop.step multithreaded e (load w)) as [p|] eqn:Hstep; [|done].
  assert (kids p !! h = Some running_child) as Hp.
  { destruct e as [|pid status| |pid|pid]; simpl in Hstep; [done|..].
    - case_bool_decide; [|done]. injection Hstep as <-. cbn. rewrite lookup_insert_ne; [done|]. intros ->. by destruct (He status).
    - destruct (TemplateLoop.pending (tpl w)); [|done]. case_bool_decide; [|done]. by injection Hstep as <-.
    - destruct (TemplateLoop.handler (tpl w)) as [[|b|]|]; simpl in Hstep; [| | |done].
      + destruct (kids (tpl w) !! pid) as [[|st]|] eqn:Hk; [case_bool_decide; [|done]| |case_bool_decide; [|done]];
          injection Hstep as <-; cbn; try done. rewrite lookup_delete_ne; [done|]. intros ->. congruence.
      + injection Hstep as <-. by destruct b.
      + by injection Hstep as <-.
    - destruct (TemplateLoop.handler (tpl w)); [done|]. unfold TemplateLoop.loop_step in Hstep. cbn in Hstep.
      destruct (TemplateLoop.pc (tpl w)).
      + destruct (N.to_nat _); [done|]. by injection Hstep as <-.
      + case_bool_decide; [by injection Hstep as <-|]. case_match eqn:Hb; [|done]. apply andb_prop in Hb as [_ Hb%bool_decide_eq_true_1].
        injection Hstep as <-. cbn. rewrite lookup_insert_ne; [done|]. intros ->. congruence.
      + by injection Hstep as <-.
      + destruct (TemplateLoop.sigchld_sem (tpl w)); [done|]. by injection Hstep as <-. }
  destruct e; try exact Hp. case_bool_decide; exact Hp.
Qed.
Lemma choice_running c w h : harmless h c → running_in w h → running_in (env_choice c w) h.
Proof using Type.
  intros (Hs & Hd & He) Hr. destruct c as [|e| |status|pid r|pid r|pid status|pid| |]; cbn [environment_step]; try done.
  - case_match eqn:Hg; [|done]. apply andb_prop in Hg as [_ Hown%bool_decide_eq_true_1].
    apply template_step_running; [by intros ->|by intros st ->|done].
  - by case_match.
  - destruct (template w); [|done]. by destruct (template_alive w).
  - destruct (branches w !! pid) as [b|]; [|done]. destruct (sem_wait _ _); [|done]. by case_match.
  - destruct (branches w !! pid) as [b|]; [|done]. by case_match.
  - apply template_step_running; [done| |done]. intros st [= -> ->]. by destruct (He st).
  - case_match; [|done]. apply template_step_running; [done| |done]. intros st [= -> _]. by destruct Hd.
Qed.
(** A calm choice without signals leaves the semaphores alone. *)
Lemma calm_quietly c w : c ≠ signal_arrives → (flags (mach w) = 0)%N → (handling (mach w) = 0)%N → calm w (env_choice c w) →
  same_signals (mach w) (mach (env_choice c w)).
Proof using Type.
  intros Hc Hf Hh Hcalm. pose proof (choice_flags c w Hc) as Hfl.
  destruct (calm_signals _ _ Hcalm) as [?|[He|He]]; [done| |].
  - rewrite He in Hfl. cbn in Hfl. by rewrite Hf in Hfl.
  - rewrite He. cbn. unfold signal_tracker_sig_handler_post. rewrite bool_decide_eq_true_2 by done. apply same_signals_refl.
Qed.

(** What is yet to happen does not matter to a step. *)
Lemma environment_step_sched c x w : env_choice c (set_sched x w) = set_sched x (env_choice c w).
Proof using Type.
  assert (∀ e, template_step multithreaded e (set_sched x w) = set_sched x (template_step multithreaded e w)) as Ht.
  { intros e. unfold template_step. change (load (set_sched x w)) with (load w).
    destruct (TemplateLoop.step multithreaded e (load w)) as [p|]; [|done]. destruct e; try done. cbn [tpl set_sched]. by case_bool_decide. }
  destruct c as [|e| |status|pid r|pid r|pid status|pid| |]; cbn [environment_step]; try done.
  - cbn [template_alive announced set_sched]. rewrite Ht. by case_match.
  - cbn [template_alive announced set_sched]. by case_match.
  - cbn [template template_alive set_sched]. destruct (template w); [|done]. by case_match.
  - cbn [branches mach set_sched]. destruct (branches w !! pid); [|done]. destruct (sem_wait _ _); [|done].
    change (branch_running pid (set_sched x w)) with (branch_running pid w). by case_match.
  - cbn [branches mach set_sched]. destruct (branches w !! pid); [|done].
    change (branch_running pid (set_sched x w)) with (branch_running pid w). by case_match.
  - cbn [killed set_sched]. rewrite Ht. by case_match.
Qed.
Lemma run_method_sched {P A} (step : P → system → option (P * system)) (result : P → option (res A)) l pc x w :
  (∀ pc w, step pc (set_sched x w) = prod_map id (set_sched x) <$> step pc w) →
  run_method multithreaded answer step result l pc (set_sched x w) = run_method multithreaded answer step result l pc w.
Proof using Type.
  intros Hs. revert pc w. induction l as [|c l IH]; intros pc w; cbn [run_method]; [done|]. destruct (result pc); [done|].
  assert (∀ c, run_method multithreaded answer step result l pc (env_choice c (set_sched x w)) =
    run_method multithreaded answer step result l pc (env_choice c w)) as Henv.
  { intros c'. by rewrite environment_step_sched. }
  destruct c; try apply Henv. rewrite Hs. destruct (step pc w) as [[pc' w']|]; simpl; apply IH.
Qed.
Lemma on_machine_sched {P} (step : P * machine → option (P * machine)) x pc w :
  on_machine step pc (set_sched x w) = prod_map id (set_sched x) <$> on_machine step pc w.
Proof. unfold on_machine. cbn [mach set_sched]. by destruct (step (pc, mach w)) as [[pc' m]|]. Qed.
Lemma source_step_sched x pc w :
  source_step multithreaded launched pc (set_sched x w) = prod_map id (set_sched x) <$> source_step multithreaded launched pc w.
Proof.
  unfold source_step. cbn [mach template set_sched].
  destruct (make_new_process_step multithreaded launched (pc, template w, mach w)) as [[[pc' t] m]|]; [|done].
  simpl. destruct pc; try done. by destruct launched.
Qed.

Section finish.
Context (h : Z) (r : runner_id_t) (hist : list runner_id_t).
Abbreviation mine := (model_side_sem r).
Abbreviation method := (run_method multithreaded answer (on_machine (execute_runner_step h r)) executed_result).

(** No signal, and a post for an answer that was not taken yet. *)
Record calmly (a : N) w : Prop := Calmly {
  cl_request : no_request w;
  cl_runs : running_in w h;
  cl_flags : flags (mach w) = 0%N;
  cl_handling : handling (mach w) = 0%N;
  cl_current : selects_watched w;
  cl_sem : sems (mach w) mine = a;
}.
Definition finishing (pc : execute_pc) w : Prop :=
  match pc with
  | set_semaphore | wake_thread_up => calmly 0 w ∧ nobody_asked w ∧ branch_is h (BranchProcess hist ∅) w
  | wait_for_answer => ∃ a, calmly a w ∧ asked h r hist w a
  | consume_signal => calmly 0 w ∧ asked h r hist w 1
  | ask_status => False
  | executed out => out = Ok (answer (hist ++ [r]))
  end.

Lemma calmly_calm a c w : harmless h c → calmly a w → calm w (env_choice c w) → calmly a (env_choice c w).
Proof using Type.
  intros Hc [Hn Hr Hf Hh Hw Hs] Hcalm. pose proof (calm_quietly c w (proj1 Hc) Hf Hh Hcalm) as [Hcur Hfl Hha Hse].
  split; [by eapply calm_no_request|by apply choice_running|by rewrite Hfl|by rewrite Hha| |].
  - intros s. rewrite Hcur. apply Hw.
  - by rewrite Hse.
Qed.

Lemma calmly_wakes a pid q w :
  calmly a w → asked h r hist w a → let w' := env_choice (branch_wakes pid q) w in calmly a w' ∧ asked h r hist w' a.
Proof using Type.
  intros [Hn Hr Hf Hh Hw Hs] Ha. destruct (asked_wakes h r hist pid q w a Ha Hn) as ([Hcur Hfl Hha Hse] & Ha' & Hn').
  split; [|done]. split; [done|by apply choice_running|by rewrite Hfl|by rewrite Hha| |by rewrite Hse].
  intros s. rewrite Hcur. apply Hw.
Qed.
Lemma calmly_answers a pid q w :
  calmly a w → asked h r hist w a →
  let w' := env_choice (branch_answers pid q) w in ∃ a', calmly a' w' ∧ asked h r hist w' a'.
Proof using Type.
  intros Hcl Ha. pose proof Hcl as [Hn Hr Hf Hh Hw Hs].
  destruct (asked_answers h r hist pid q w a Ha Hn) as [-> |(-> & Ha' & Hn' & m & [Hcur Hfl Hha Hse] & Hm & _)]; [by exists a|].
  exists 1%N. split; [|done]. rewrite sem_post_below in Hm by by rewrite Hse, Hs. split; [done|by apply choice_running|..].
  - by rewrite Hm, <- Hf, <- Hfl.
  - by rewrite Hm, <- Hh, <- Hha.
  - intros s. rewrite Hm. cbn [snd current_sem set_sems]. rewrite Hcur. apply Hw.
  - rewrite Hm. cbn [snd sems set_sems]. by rewrite fn_lookup_insert, Hse, Hs.
Qed.

Lemma finishing_choice pc w c : harmless h c → finishing pc w → finishing pc (env_choice c w).
Proof using Type.
  intros Hc Hpc. destruct pc as [| | | | |out]; simpl in Hpc |- *; [..|done].
  1,2: destruct Hpc as (Hcl & Hz & Hb);
    (assert (calm w (env_choice c w)) as Hcalm by (apply calm_idle_choice; [apply Hcl|by intros; eapply branch_is_idle|done|apply Hcl]));
    (split; [by apply calmly_calm|split; [by eapply calm_asked|by eapply calm_branch_is]]).
  - destruct Hpc as (a & Hcl & Ha).
    assert (calm w (env_choice c w) → ∃ a, calmly a (env_choice c w) ∧ asked h r hist (env_choice c w) a) as Hgo.
    { intros Hcalm. exists a. split; [by apply calmly_calm|by eapply calm_asked_phase]. }
    destruct c; try (apply Hgo, calm_idle_choice; [apply Hcl|done|done|apply Hcl]).
    + exists a. by apply calmly_wakes.
    + by apply (calmly_answers a).
  - destruct Hpc as (Hcl & Ha). assert (calm w (env_choice c w)) as Hcalm.
    { inversion Ha as [| |Hz Hb Hm]. apply calm_idle_choice; [apply Hcl|by intros; eapply branch_is_idle|done|apply Hcl]. }
    split; [by apply calmly_calm|by eapply calm_asked_phase].
  - done.
Qed.

Lemma finishing_step pc w :
  finishing pc w →
  match on_machine (execute_runner_step h r) pc w with
  | Some (pc', w') => finishing pc' w'
  | None => ∃ a, (pc = wait_for_answer ∧ a = 0%N ∧ asked h r hist w a) ∨ ∃ out, pc = executed out
  end.
Proof using Type.
  destruct pc as [| | | | |out]; unfold on_machine; simpl; [..|by exists 0%N; right; exists out].
  - intros ([Hn Hr Hf Hh Hw Hs] & Hz & Hb). split; [|done]. split; try done. by intros s [= <-].
  - intros ([(Hr & Hl & Hd) Hrun Hf Hh Hw Hs] & Hz & Hb). exists 0%N. split.
    + by split.
    + apply awoken; [|done]. intros q. cbn. rewrite (Hz r). case_decide as Hq; [subst q; by rewrite fn_lookup_insert|].
      rewrite fn_lookup_insert_ne by congruence. apply Hz.
  - intros (a & [(Hr & Hl & Hd) Hrun Hf Hh Hw Hs] & Ha). unfold sem_wait. case_bool_decide as Hz; simpl.
    + exists a. left. split_and!; [done|congruence|done].
    + inversion Ha as [? ? Ha'|? ? Ha'|Hz' Hb Hm Ha']; [congruence..|]. split.
      * split; try done. cbn. by rewrite fn_lookup_insert, Hs, <- Ha'.
      * apply has_answered; [|done|done]. intros q. cbn. rewrite fn_lookup_insert_ne by done. apply Hz'.
  - intros ([Hn Hr Hf Hh Hw Hs] & Ha). unfold try_consume_signal, has_signal. rewrite Hf. simpl.
    inversion Ha as [| |Hz Hb Hm]. by rewrite Hm.
  - done.
Qed.

Definition can_finish (pc : execute_pc) w : Prop :=
  returns (on_machine (execute_runner_step h r)) executed_result (answer (hist ++ [r])) pc w.

Lemma finish_executed out w : finishing (executed out) w → can_finish (executed out) w.
Proof using Type. intros ->. exists [], (set_sched [] w). by split. Qed.
Lemma finish_consume w : finishing consume_signal w → can_finish consume_signal w.
Proof using Type.
  intros Hf. pose proof (finishing_step consume_signal w Hf) as Hs. destruct Hf as [[_ _ Hfl _ _ _] _].
  assert (on_machine (execute_runner_step h r) consume_signal w = Some (executed (Ok (mailboxes (mach w) r)), set_mach (mach w) w)) as He.
  { unfold on_machine. simpl. unfold try_consume_signal, has_signal. by rewrite Hfl. }
  rewrite He in Hs. eapply returns_checker; [done|exact He|]. by apply finish_executed.
Qed.
Lemma finish_answered w a : calmly a w → asked h r hist w a → a ≠ 0%N → can_finish wait_for_answer w.
Proof using Type.
  intros Hcl Ha Hne. pose proof (finishing_step wait_for_answer w (ex_intro _ a (conj Hcl Ha))) as Hs.
  assert (0 < sems (mach w) mine)%N as Hpos by (rewrite (cl_sem _ _ Hcl); lia).
  assert (on_machine (execute_runner_step h r) wait_for_answer w =
    Some (consume_signal, set_mach (set_sems (<[mine := (sems (mach w) mine - 1)%N]> (sems (mach w))) (mach w)) w)) as He.
  { unfold on_machine. simpl. by rewrite sem_wait_pos by done. }
  rewrite He in Hs. eapply returns_checker; [done|exact He|]. by apply finish_consume.
Qed.
(** What the branch still has to do. *)
Lemma finish_working w : calmly 0 w → nobody_asked w → branch_is h (BranchProcess hist {[r]}) w → can_finish wait_for_answer w.
Proof using Type.
  intros Hcl Hz Hb. pose proof (working h r hist w Hz Hb) as Ha.
  apply (returns_env _ _ _ _ _ (branch_answers h r)); [done..|].
  destruct (calmly_answers 0 h r w Hcl Ha) as (a & Hcl' & Ha'). apply (finish_answered _ a); [done|done|].
  destruct (Hb h (cl_runs _ _ Hcl)) as [_ Hbr]. rewrite <- (cl_sem _ _ Hcl').
  cbn [environment_step]. rewrite Hbr. unfold branch_running. rewrite (bool_decide_eq_true_2 _ (cl_runs _ _ Hcl)). cbn [awake].
  rewrite bool_decide_eq_true_2 by set_solver. cbn [andb mach set_mach set_branch env_step].
  rewrite sem_post_below by (cbn; by rewrite (cl_sem _ _ Hcl)). cbn. rewrite fn_lookup_insert. lia.
Qed.
Lemma finish_awoken w : calmly 0 w → (∀ q, sems (mach w) (child_side_sem q) = if decide (q = r) then 1%N else 0%N) →
  branch_is h (BranchProcess hist ∅) w → can_finish wait_for_answer w.
Proof using Type.
  intros Hcl Hq Hb. pose proof (awoken h r hist w Hq Hb) as Ha.
  apply (returns_env _ _ _ _ _ (branch_wakes h r)); [done..|].
  destruct (calmly_wakes 0 h r w Hcl Ha) as [Hcl' Ha']. destruct (Hb h (cl_runs _ _ Hcl)) as [_ Hbr].
  inversion Ha' as [Hq' Hb'|Hz Hb'|]; [exfalso|by apply finish_working].
  specialize (Hq' r). cbn [environment_step] in Hq'. rewrite Hbr in Hq'.
  rewrite sem_wait_pos in Hq' by (rewrite Hq, decide_True by done; lia).
  unfold branch_running in Hq'. rewrite (bool_decide_eq_true_2 _ (cl_runs _ _ Hcl)) in Hq'. cbn [awake] in Hq'.
  rewrite bool_decide_eq_true_2 in Hq' by set_solver. cbn in Hq'.
  rewrite fn_lookup_insert, Hq, !decide_True in Hq' by done. done.
Qed.
Lemma finish_now pc w : finishing pc w → can_finish pc w.
Proof using Type.
  assert (∀ w, finishing wait_for_answer w → can_finish wait_for_answer w) as Hwait.
  { intros w' (a & Hcl & Ha). destruct Ha as [Hq Hb|Hz Hb|Hz Hb Hm]; [by apply finish_awoken|by apply finish_working|].
    apply (finish_answered _ 1); [done|by apply has_answered|done]. }
  assert (∀ w, finishing wake_thread_up w → can_finish wake_thread_up w) as Hwake.
  { intros w' Hf. eapply returns_checker; [done|done|]. by apply Hwait, (finishing_step wake_thread_up w'). }
  destruct pc as [| | | | |out]; intros Hf; [|by apply Hwake|by apply Hwait|by apply finish_consume|done|by apply finish_executed].
  eapply returns_checker; [done|done|]. by apply Hwake, (finishing_step set_semaphore w).
Qed.

Lemma finish_after l pc w : Forall (harmless h) l → finishing pc w →
  ∃ l' w', method (l ++ l') pc w = (Ok (answer (hist ++ [r])), w').
Proof using Type.
  intros Hl. revert pc w. induction Hl as [|c l Hc Hl IH]; intros pc w Hf.
  { destruct (finish_now pc w Hf) as (l' & w' & _ & Hr). by exists l', w'. }
  cbn [app run_method]. destruct (executed_result pc) as [out|] eqn:Hres.
  { destruct pc; try done. injection Hres as ->. rewrite Hf. by eexists [], _. }
  pose proof (finishing_choice pc w c Hc Hf) as Hc'. pose proof (finishing_step pc w Hf) as Hs.
  destruct c; try by apply IH. destruct (on_machine (execute_runner_step h r) pc w) as [[pc' w']|]; by apply IH.
Qed.
End finish.

(** A call of [execute_runner] is never stuck: from a state between two calls without
signals, whatever the checker, the template and the branch have done since, as long as no
signal arrives and the branch lives there is a way to go on in which the method returns the
answer of the runner. *)
Theorem execute_runner_can_return w h r hist l :
  stable w → ran w h hist → running_in w h → flags (mach w) = 0%N → Forall (harmless h) l →
  ∃ l' w', process_execute_runner (h : handle system) r (set_sched (l ++ l') w) = (Ok (answer (hist ++ [r])), w').
Proof using Type.
  intros (Hs & Hz & Hi & Hn) Hr Hrun Hf Hl.
  destruct (finish_after h r hist l set_semaphore w Hl) as (l' & w' & Hm).
  { destruct Hs as (s & Hs & Hc & Hle & Hoth). split; [|done]. split; try done; [lia|intros s' ->%Hc; done|].
    destruct (decide (model_side_sem r = s)) as [<-|Hne]; [lia|by apply Hoth]. }
  exists l', w'. cbn [process_execute_runner world system_World]. unfold call_method. cbn [sched set_sched].
  by rewrite run_method_sched by apply on_machine_sched.
Qed.

(** ** A process can be made *)

Section make.
Context (pid : Z) (Hpid : (0 < pid)%Z).
Abbreviation makes := (returns (source_step multithreaded launched) made_result (Some pid)).

(** The template takes its steps, and no signal is at work. *)
Record serving w : Prop := Serving {
  sv_alive : template_alive w = true;
  sv_announced : multithreaded = true → announced w = true;
  sv_flags : flags (mach w) = 0%N;
  sv_handling : handling (mach w) = 0%N;
}.
Lemma serving_runs e w : serving w → TemplateLoop.own e → env_choice (template_runs e) w = template_step multithreaded e w.
Proof using Type.
  intros [Ha Hn _ _] He. cbn [environment_step]. rewrite Ha, (bool_decide_eq_true_2 _ He).
  destruct multithreaded; [by rewrite Hn|done].
Qed.
(** A step of the loop. *)
Lemma makes_loop c p x w : c ≠ (-1)%Z → serving w → TemplateLoop.handler (tpl w) = None →
  TemplateLoop.loop_step multithreaded c (load w) = Some p → made_result x = None →
  makes x (if bool_decide (kids p !! c = Some running_child ∧ kids (tpl w) !! c = None)
           then new_branch c (store p w) else store p w) → makes x w.
Proof using Type.
  intros Hc Hs Hh Hl Hx Hgo. apply (returns_env _ _ _ _ _ (template_runs (Loop c))); [done..|].
  rewrite serving_runs by done. unfold template_step. simpl. by rewrite Hh, Hl.
Qed.

Lemma makes_told w : serving w → sems (mach w) answer_sem = 1%N → cpid (mach w) = pid → makes wait_for_fork w.
Proof using Hpid.
  intros [_ _ Hf _] Hs Hc. eapply returns_checker; [done| |].
  { unfold source_step. simpl. by rewrite sem_wait_pos by lia. }
  eapply returns_checker; [done| |].
  { unfold source_step. simpl. unfold try_consume_signal, has_signal. simpl. by rewrite Hf. }
  eapply returns_checker; [done|done|]. cbn. rewrite Hc, bool_decide_eq_false_2 by (unfold TEMPLATE_FORK_FAILED; lia). eexists [], _. by split.
Qed.
Lemma makes_report c w : serving w → TemplateLoop.handler (tpl w) = None → TemplateLoop.pc (tpl w) = report c →
  TemplateLoop.cpid (tpl w) = pid → sems (mach w) answer_sem = 0%N → makes wait_for_fork w.
Proof using Hpid.
  intros Hs Hh Hx Hc Hz. eapply (makes_loop 0); [done|done|done| |done|].
  { unfold TemplateLoop.loop_step. cbn. by rewrite Hx. }
  rewrite bool_decide_eq_false_2 by (intros [? ?]; cbn in *; congruence).
  unfold store. rewrite bool_decide_eq_false_2 by (cbn; lia). destruct Hs as [Ha Hn Hf Hha].
  apply makes_told; [split; try done|..]; cbn [mach set_mach env_step].
  - by rewrite sem_post_flags.
  - by rewrite sem_post_handling.
  - rewrite sem_post_below by (cbn; by rewrite fn_lookup_insert_ne, Hz). cbn. by rewrite fn_lookup_insert, fn_lookup_insert_ne, Hz.
  - by rewrite sem_post_cpid.
Qed.
Lemma serving_store p w : mcmini_process_posts p = mcmini_process_posts (tpl w) → serving w →
  serving (store p w) ∧ sems (mach (store p w)) answer_sem = sems (mach w) answer_sem ∧ tpl (store p w) = p.
Proof using Type.
  intros Hp [Ha Hn Hf Hh]. destruct (store_quietly p w Hp) as ([Hc Hfl Hha _] & Hs & _ & Ht & _).
  split_and!; [split|by apply Hs|done]; [done..|by rewrite Hfl|by rewrite Hha].
Qed.
Lemma makes_fork w : serving w → TemplateLoop.handler (tpl w) = None → TemplateLoop.pc (tpl w) = make_process →
  kids (tpl w) = ∅ → sems (mach w) answer_sem = 0%N → makes wait_for_fork w.
Proof using Hpid.
  intros Hs Hh Hx Hk Hz. eapply (makes_loop pid); [lia|done|done| |done|].
  { unfold TemplateLoop.loop_step. cbn [load TemplateLoop.set_request TemplateLoop.pc kids]. rewrite Hx, Hk.
    rewrite (bool_decide_eq_false_2 (pid = (-1)%Z)), (bool_decide_eq_true_2 (0 < pid)%Z) by lia.
    by rewrite bool_decide_eq_true_2 by apply lookup_empty. }
  set (p := TemplateLoop.set_pc _ _). destruct (serving_store p w eq_refl Hs) as (Hs' & Hz' & Ht).
  assert (∀ w1, mach w1 = mach (store p w) → tpl w1 = tpl (store p w) → serving w1 → makes wait_for_fork w1) as Hgo.
  { intros w1 Hm1 Ht1 Hs1. eapply (makes_report pid); [done|..]; rewrite ?Hm1, ?Ht1, ?Ht; [done|done| |by rewrite Hz'].
    cbn. unfold TemplateLoop.reported_cpid. by rewrite bool_decide_eq_false_2 by lia. }
  case_bool_decide; [|by apply Hgo]. apply Hgo; [done|done|]. destruct Hs' as [? ? ? ?]. by split.
Qed.
Lemma makes_accept w : serving w → TemplateLoop.handler (tpl w) = None → TemplateLoop.pc (tpl w) = wait_request →
  kids (tpl w) = ∅ → sems (mach w) libmcmini_sem = 1%N → sems (mach w) answer_sem = 0%N → makes wait_for_fork w.
Proof using Hpid.
  intros Hs Hh Hx Hk Hl Hz. eapply (makes_loop 0); [done|done|done| |done|].
  { unfold TemplateLoop.loop_step. cbn [load TemplateLoop.set_request TemplateLoop.pc TemplateLoop.libmcmini_sem]. by rewrite Hx, Hl. }
  rewrite bool_decide_eq_false_2 by (cbn; rewrite Hk; by intros [? _]).
  set (p := TemplateLoop.set_pc _ _). destruct (serving_store p w eq_refl Hs) as (Hs' & Hz' & Ht).
  apply makes_fork; [done|by rewrite Ht..|by rewrite Hz'].
Qed.

(** The source asks a template that waits for a request. *)
Lemma makes_ask w : serving w → TemplateLoop.handler (tpl w) = None → TemplateLoop.pc (tpl w) = wait_request →
  kids (tpl w) = ∅ → sems (mach w) libmcmini_sem = 0%N → sems (mach w) answer_sem = 0%N → makes check_death w.
Proof using Hpid.
  intros Hs Hhd Hx Hk Hl Hzero. pose proof Hs as [Ha Hn Hf Hh].
  eapply returns_checker; [done|unfold source_step; simpl; unfold try_consume_signal, has_signal; simpl; by rewrite Hf|].
  eapply returns_checker; [done|done|].
  eapply returns_checker; [done|unfold source_step; simpl; rewrite sem_post_below by (cbn; by rewrite Hl); done|].
  apply makes_accept; try done. cbn. by rewrite fn_lookup_insert, Hl.
Qed.
Lemma settled_zero m s : settled m → flags m = 0%N → watched s → sems m s = 0%N.
Proof.
  intros (s0 & Hw & _ & Hle & Hoth) Hf Hs. destruct (decide (s = s0)) as [->|Hne]; [lia|by apply Hoth].
Qed.
Lemma makes_request w tpid : serving w → stable w → template w = Some tpid → TemplateLoop.pc (tpl w) = wait_request →
  makes reset_semaphores w.
Proof using Hpid.
  intros Hs (Hset & Hz & Hi & (Hr & Hl & Hd)) Ht Hx. pose proof Hs as [Ha Hn Hf Hh].
  destruct Hr as [Hp _]. unfold in_phase in Hp. rewrite Hx in Hp. destruct Hp as [Hhd _ Hk _].
  eapply returns_checker; [done|by unfold source_step; simpl; rewrite Ht|].
  apply makes_ask; try done. cbn. by apply settled_zero.
Qed.
(** The source launches the template first. *)
Lemma env_ready w : multithreaded = true → template_alive w = true → announced w = false →
  env_choice template_is_ready w = set_mach (sem_post mcmini_process_sem (mach w)).2 (set_alive true true w).
Proof using Type. intros Hm Ha Hn. cbn [environment_step]. by rewrite Hm, Ha, Hn. Qed.
Lemma makes_launch w tpid : launched = Ok tpid → template w = None → stable w → flags (mach w) = 0%N → handling (mach w) = 0%N →
  makes reset_semaphores w.
Proof using Hpid.
  intros Hla Ht (Hset & Hz & Hi & (Hr & Hl & Hd)) Hf Hh. pose proof (settled_zero _ mcmini_process_sem Hset Hf I) as Hzero.
  assert (multithreaded = true ∨ multithreaded = false) as [Hm|Hm] by (destruct multithreaded; auto);
    (eapply returns_checker; [done|by unfold source_step; simpl; rewrite Ht, Hm|]).
  - eapply returns_checker; [done|done|].
    eapply returns_checker; [done|unfold source_step; simpl; by rewrite Hla, Hm|].
    apply (returns_env _ _ _ _ _ template_is_ready); [done..|]. rewrite env_ready by done. cbn [mach start_template set_alive set_tpl set_mach].
    rewrite sem_post_below by (cbn; by rewrite Hzero). cbn [snd].
    eapply returns_checker; [done|unfold source_step; simpl; rewrite sem_wait_pos; [done|cbn; rewrite fn_lookup_insert; lia]|].
    eapply returns_checker; [done|unfold source_step; simpl; unfold template_died; cbn [children set_sems set_children]; by rewrite lookup_insert_eq|].
    apply makes_ask; try done. cbn. rewrite !fn_lookup_insert, Hzero. done.
  - eapply returns_checker; [done|unfold source_step; simpl; by rewrite Hla, Hm|]. apply makes_ask; try done. split; try done. congruence.
Qed.

(** The template's own steps, when no request is there. *)
Lemma makes_catching_up l p w : serving w → stable w → Forall TemplateLoop.steady l →
  TemplateLoop.run multithreaded l (load w) = Some p →
  (∀ w', serving w' → stable w' → template w' = template w → TemplateLoop.pc (tpl w') = TemplateLoop.pc p →
    makes reset_semaphores w') → makes reset_semaphores w.
Proof using Type.
  intros Hs Hst Hl. revert w Hs Hst. induction Hl as [|e l Hq Hl IH]; intros w Hs Hst; simpl.
  { intros [= <-] Hgo. by apply Hgo. }
  pose proof (TemplateLoop.steady_own _ Hq) as He.
  intros (p1 & Hstep & Hrun)%bind_Some Hgo.
  assert (e ≠ Request) as Hne by by intros ->.
  assert (no_request w) as Hn by apply Hst.
  assert (calm w (template_step multithreaded e w)) as Hcalm by by apply calm_template_runs.
  assert (template_step multithreaded e w = store p1 w) as Heq.
  { unfold template_step. rewrite Hstep. destruct e as [| | | |c]; try done. rewrite bool_decide_eq_false_2; [done|].
    intros [Hr Hnone]. destruct Hn as (Hrest & Hz & _).
    destruct (template_same (Loop c) (load w) p1 Hne (in_phase_request _ _ (proj1 Hrest))) as (_ & _ & _ & Hk & _); [|done|].
    - intros c' _. cbn. rewrite Hz. split; [|done]. destruct Hrest. split; [by apply in_phase_request|done].
    - apply Hk in Hr. cbn in Hr. congruence. }
  destruct (template_same e (load w) p1 Hne (in_phase_request _ _ (proj1 (proj1 Hn)))) as (Hlp & Hposts & _).
  { intros c _. destruct Hn as (Hrest & Hz & _). cbn. rewrite Hz. split; [|done]. destruct Hrest. split; [by apply in_phase_request|done]. }
  { done. }
  destruct (serving_store p1 w Hposts Hs) as (Hs1 & _ & Ht1).
  apply (returns_env _ _ _ _ _ (template_runs e)); [done|by destruct e|done|]. rewrite serving_runs by done.
  rewrite Heq in Hcalm |- *. apply IH; [done| | |done].
  - eapply (calm_stable _ _ 0); [|exact Hcalm|done]. unfold fits. rewrite (sv_flags _ Hs). done.
  - replace (load (store p1 w)) with p1; [done|]. unfold load. rewrite Ht1.
    destruct (store_quietly p1 w Hposts) as (_ & _ & -> & _). rewrite Nat2N.id. by destruct p1.
Qed.

(** The template waits for a branch that does not run any more. *)
Lemma makes_after w tpid c : serving w → stable w → template w = Some tpid → TemplateLoop.pc (tpl w) = wait_child c →
  c ≠ (-1)%Z → ¬ running_in w c → makes reset_semaphores w.
Proof using Hpid.
  intros Hs Hst Ht Hpc Hc Hr. destruct (TemplateLoop.comes_back multithreaded (load w) c) as (l & p & Hown & Hrun & Hpcp & _);
    [apply in_phase_request, Hst|done|done|exact Hr|].
  apply (makes_catching_up l p); [done..|]. intros w2 Hs2 Hst2 Ht2 Hpc2. apply (makes_request _ tpid); [done..| |]; congruence.
Qed.
(** A branch that runs ends. *)
Lemma ends_serving status c w : serving w → stable w → running_in w c →
  let w' := template_step multithreaded (Ends c status) w in
  serving w' ∧ stable w' ∧ template w' = template w ∧ TemplateLoop.pc (tpl w') = TemplateLoop.pc (tpl w) ∧ ¬ running_in w' c.
Proof using answer.
  intros Hs Hst Hr. cbv zeta.
  assert (calm w (template_step multithreaded (Ends c status) w)) as Hcalm by exact (stable_choice (branch_ends c status) w Hst).
  assert (template_step multithreaded (Ends c status) w =
    store (TemplateLoop.set_pending true (TemplateLoop.set_kids (<[c := zombie status]> (kids (tpl w))) (load w))) w) as Heq.
  { unfold template_step. simpl. by rewrite bool_decide_eq_true_2. }
  assert (stable (template_step multithreaded (Ends c status) w)) as Hst'.
  { eapply (calm_stable _ _ 0); [|exact Hcalm|done]. unfold fits. by rewrite (sv_flags _ Hs). }
  rewrite Heq in Hst' |- *. set (p := TemplateLoop.set_pending true _) in *.
  destruct (serving_store p w eq_refl Hs) as (Hs' & _ & Htp). split_and!; [done|done|done|by rewrite Htp|].
  unfold running_in. rewrite Htp. cbn. by rewrite lookup_insert_eq.
Qed.
End make.

(** A call of [make_new_process] is not stuck either: from a state between two calls
without signals, with a template that lives and whose last fork did not fail, there is a way
to go on in which the source returns a handle of the process [pid]: the branch that was left
ends, the template notices, takes the request and forks. *)
Theorem make_new_process_can_return w pid tpid :
  stable w → template w = Some tpid → template_alive w = true → flags (mach w) = 0%N →
  TemplateLoop.pc (tpl w) ≠ wait_child (-1) → (0 < pid)%Z →
  ∃ l w', make_new_process (set_sched l w) = (Ok (Some (pid : handle system)), w').
Proof using Type.
  intros Hst Ht Ha Hf Hx Hpid.
  assert (∃ l w', run_method multithreaded answer (source_step multithreaded launched) made_result l reset_semaphores w =
    (Ok (Some pid), w')) as (l & w' & Hl);
    [|exists l, w'; cbn [make_new_process world system_World]; unfold call_method; cbn [sched set_sched];
      by rewrite run_method_sched by apply source_step_sched].
  assert (∀ w, returns (source_step multithreaded launched) made_result (Some pid) reset_semaphores w →
    ∃ l w', run_method multithreaded answer (source_step multithreaded launched) made_result l reset_semaphores w =
      (Ok (Some pid), w')) as Hgo by (intros w1 (l & w' & _ & Hl); by exists l, w').
  pose proof Hst as (Hset & Hz & Hi & Hn). assert (serving w) as Hs.
  { split; [done|by intros ?; apply Hn|done|]. destruct Hset as (s & _ & _ & Hle & _). lia. }
  destruct Hn as ([Hp Hpc] & Hlib & _). destruct Hpc as [Hpc|[c Hpc]]; [apply Hgo; by eapply makes_request|].
  assert (c ≠ (-1)%Z) as Hc by congruence.
  destruct (decide (kids (tpl w) !! c = Some running_child)) as [Hr|Hr]; [|apply Hgo; by eapply makes_after].
  destruct (ends_serving (exited 0) c w Hs Hst Hr) as (Hs' & Hst' & Ht' & Hpc' & Hr').
  destruct (Hgo (env_choice (branch_ends c (exited 0)) w)) as (l & w' & Hl).
  { apply (makes_after pid Hpid _ tpid c); [done|done|by rewrite <- Ht|by rewrite <- Hpc|done|done]. }
  by exists (branch_ends c (exited 0) :: l), w'.
Qed.
End frames.
