(* ===== verification/Target.v ===== *)
(** * Launching targets

[target] and [dmtcp_target] ([real_world/target.hpp], [dmtcp_target.hpp],
[target.cpp]): the variables set and unset in the environment of a program, the file
that hands them to a process restarted by DMTCP, and what [launch_dont_wait] and
[launch_and_wait] make of the results of the system calls. *)

From stdpp Require Import strings.
From Stdlib Require Import Ascii.
From stdpp Require Import options.
From S2P Require Import Prelude CondPolicy Objects Coordinator LinuxProcess.

#[local] Open Scope string_scope.

(** ** [target] *)

Record target := Target {
  quiet : bool;
  target_program : string;
  target_program_args : list string;
  setenv_vars : gmap string string;
  unsetenv_vars : gset string;
}.
Definition new_target (target_program : string) (target_program_args : list string) : target :=
  Target false target_program target_program_args ∅ ∅.
Definition set_setenv_vars (m : gmap string string) (t : target) : target :=
  Target (quiet t) (target_program t) (target_program_args t) m (unsetenv_vars t).
Definition set_unsetenv_vars (s : gset string) (t : target) : target :=
  Target (quiet t) (target_program t) (target_program_args t) (setenv_vars t) s.

Definition dont_unset_env (name : string) (t : target) : target :=
  set_unsetenv_vars (unsetenv_vars t ∖ {[name]}) t.
Definition dont_set_env (name : string) (t : target) : target :=
  set_setenv_vars (delete name (setenv_vars t)) t.
Definition unset_env (name : string) (t : target) : target :=
  dont_set_env name (set_unsetenv_vars ({[name]} ∪ unsetenv_vars t) t).
(** [insert] of an [unordered_map] keeps the value of a key it has. *)
Definition set_env (name value : string) (t : target) : target :=
  dont_unset_env name
    (match setenv_vars t !! name with
     | Some _ => t
     | None => set_setenv_vars (<[name := value]> (setenv_vars t)) t
     end).
Definition set_quiet (be_quiet : bool) (t : target) : target :=
  Target be_quiet (target_program t) (target_program_args t) (setenv_vars t) (unsetenv_vars t).
Definition set_is_template : target → target := set_env "MCMINI_TEMPLATE_LOOP" "1".
Definition invocation (t : target) : string :=
  foldl (λ s arg, s +:+ " " +:+ arg) (target_program t) (target_program_args t).

(** The arguments and the environment [execvp] is called with in the child: each
variable is set with [overwrite], then the others are unset. *)
Definition execvp_args (t : target) : list string := target_program t :: target_program_args t.
Definition child_env (t : target) (env : gmap string string) : gmap string string :=
  foldr delete (map_fold (λ name value env, <[name := value]> env) env (setenv_vars t)) (elements (unsetenv_vars t)).

(** ** [launch_dont_wait] and [launch_and_wait] *)

(** What the system calls return: [pipe], [fork], the [read] from the child (positive
when its [execvp] failed), and the [waitpid] for a child that failed. *)
Record launch_results := LaunchResults { pipe_rc : Z; fork_rc : Z; read_rc : Z; waitpid_rc : Z }.
Inductive pipe_end := read_end | write_end.
#[export] Instance pipe_end_eq_dec : EqDecision pipe_end.
Proof. solve_decision. Defined.
(** The ends of the pipe the checker has open. *)
Definition close (fd : pipe_end) : eff (list pipe_end) unit := λ fds, (Ok tt, filter (λ e, e ≠ fd) fds).
Definition launch_dont_wait (r : launch_results) : eff (list pipe_end) Z :=
  if bool_decide (pipe_rc r = (-1)%Z) then throw (RuntimeError PipeFailed)
  else
    do! (λ fds, (Ok tt, (fds ++ [read_end; write_end])%list)) in
    if bool_decide (fork_rc r = (-1)%Z) then throw ProcessCreationError
    else
      do! close write_end in
      if bool_decide (0 < read_rc r)%Z then
        if bool_decide (waitpid_rc r = (-1)%Z) then throw ProcessCreationError   (* the messages differ *)
        else throw ProcessCreationError
      else
        do! close read_end in
        ret (fork_rc r).
(** The child is waited for; [None] when [waitpid] fails. *)
Definition launch_and_wait (r : launch_results) (status : option exit_status) : eff (list pipe_end * machine) unit :=
  do! zoom fst (λ fds s, (fds, s.2)) (launch_dont_wait r) in
  match status with
  | Some (exited _) => λ s, (Ok tt, (s.1, (try_consume_signal s.2).2))
  | Some (signaled _) | Some other_status | None => throw ExecutionError
  end.

(** ** [dmtcp_target] *)

Record dmtcp_target := DmtcpTarget {
  base : target;
  propagate_env_through_dmtcp : bool;
  ckpt_file_path : string;
  setenv_file_vars : gmap string string;
  unsetenv_file_vars : gset string;
}.
(** The constructor hands [ckpt_file_path] to the program; the member of that name is
another, and stays empty. *)
Definition new_dmtcp_target (target_program : string) (args : list string) (ckpt_file_path : string) : dmtcp_target :=
  DmtcpTarget (new_target target_program (args ++ [ckpt_file_path])%list) true EmptyString ∅ ∅.
Definition set_base (t : target) (d : dmtcp_target) : dmtcp_target :=
  DmtcpTarget t (propagate_env_through_dmtcp d) (ckpt_file_path d) (setenv_file_vars d) (unsetenv_file_vars d).
Definition set_file_vars (m : gmap string string) (s : gset string) (d : dmtcp_target) : dmtcp_target :=
  DmtcpTarget (base d) (propagate_env_through_dmtcp d) (ckpt_file_path d) m s.

(** [substr(0, find_last_of("/"))] *)
Fixpoint before_last_slash (s : string) : option string :=
  match s with
  | EmptyString => None
  | String a s =>
      match before_last_slash s with
      | Some p => Some (String a p)
      | None => if decide (a = "/"%char) then Some EmptyString else None
      end
  end.
Definition dmtcp_env_file_path (d : dmtcp_target) : string :=
  default "." (before_last_slash (ckpt_file_path d)) +:+ "/dmtcp_env.txt".
Definition quote : ascii := ascii_of_N 34.
Definition env_lines (setenv_vars : gmap string string) (unsetenv_vars : gset string) : list string :=
  ("# This file was autogenerated by `mcmini`" ::
   ((λ v : string * string, v.1 +:+ "=" +:+ String quote v.2 +:+ String quote EmptyString) <$> map_to_list setenv_vars) ++
   elements unsetenv_vars)%list.

(** The target and the files on disk. *)
Record launcher := Launcher { dt : dmtcp_target; files : gmap string (list string) }.
Definition write_env_file (s : launcher) : launcher :=
  let t := base (dt s) in
  if propagate_env_through_dmtcp (dt s) &&
     (negb (bool_decide (unsetenv_vars t = unsetenv_file_vars (dt s))) ||
      negb (bool_decide (setenv_vars t = setenv_file_vars (dt s))))
  then Launcher (set_file_vars (setenv_vars t) (unsetenv_vars t) (dt s))
         (<[dmtcp_env_file_path (dt s) := env_lines (setenv_vars t) (unsetenv_vars t)]> (files s))
  else s.
Definition dmtcp_launch_dont_wait (r : launch_results) : eff (launcher * list pipe_end) Z :=
  do! (λ s, (Ok tt, (write_env_file s.1, s.2))) in
  zoom snd (λ fds s, (s.1, fds)) (launch_dont_wait r).

(** ** The environment of a launch *)

Inductive env_op :=
  | SetEnv (name value : string)
  | UnsetEnv (name : string)
  | DontSetEnv (name : string)
  | DontUnsetEnv (name : string).
Definition run_env_op (t : target) (op : env_op) : target :=
  match op with
  | SetEnv name value => set_env name value t
  | UnsetEnv name => unset_env name t
  | DontSetEnv name => dont_set_env name t
  | DontUnsetEnv name => dont_unset_env name t
  end.

(** What becomes of one variable, one operation after the other. *)
Inductive fate := inherited | is_set (value : string) | is_unset.
Definition next_fate (name : string) (f : fate) (op : env_op) : fate :=
  match op with
  | SetEnv n v => if decide (n = name) then match f with is_set v0 => is_set v0 | _ => is_set v end else f
  | UnsetEnv n => if decide (n = name) then is_unset else f
  | DontSetEnv n => if decide (n = name) then match f with is_set _ => inherited | f => f end else f
  | DontUnsetEnv n => if decide (n = name) then match f with is_unset => inherited | f => f end else f
  end.
Definition has_fate (t : target) (name : string) (f : fate) : Prop :=
  match f with
  | inherited => setenv_vars t !! name = None ∧ name ∉ unsetenv_vars t
  | is_set v => setenv_vars t !! name = Some v ∧ name ∉ unsetenv_vars t
  | is_unset => setenv_vars t !! name = None ∧ name ∈ unsetenv_vars t
  end.

Lemma has_fate_step t name f op : has_fate t name f → has_fate (run_env_op t op) name (next_fate name f op).
Proof.
  destruct op as [n v|n|n|n]; cbn [run_env_op next_fate];
    unfold set_env, unset_env, dont_set_env, dont_unset_env; case_decide as Hn; subst;
    destruct f; unfold has_fate; intros [Hs Hu]; cbn [setenv_vars unsetenv_vars set_setenv_vars set_unsetenv_vars];
    try (rewrite Hs; cbn [setenv_vars unsetenv_vars set_setenv_vars]); try destruct (setenv_vars t !! n);
    cbn [setenv_vars unsetenv_vars set_setenv_vars set_unsetenv_vars];
    rewrite ?lookup_insert_eq, ?lookup_delete_eq, ?lookup_insert_ne, ?lookup_delete_ne by done;
    split; (done || set_solver).
Qed.
Lemma has_fate_run ops t name f : has_fate t name f → has_fate (foldl run_env_op t ops) name (foldl (next_fate name) f ops).
Proof. revert t f. induction ops as [|op ops IH]; intros t f Hf; [done|]. apply IH. by apply has_fate_step. Qed.

Lemma lookup_set_all (m env : gmap string string) name :
  map_fold (λ name value env, <[name := value]> env) env m !! name =
  match m !! name with Some v => Some v | None => env !! name end.
Proof.
  induction m as [|k v m Hk Hfold IH] using map_first_key_ind; [by rewrite map_fold_empty, lookup_empty|].
  rewrite map_fold_insert_first_key by done. destruct (decide (name = k)) as [-> |Hne].
  - by rewrite !lookup_insert_eq.
  - by rewrite !lookup_insert_ne by done.
Qed.
Lemma lookup_delete_all l (m : gmap string string) name :
  foldr delete m l !! name = if decide (name ∈ l) then None else m !! name.
Proof.
  induction l as [|x l IH]; [done|]. cbn [foldr]. destruct (decide (name = x)) as [-> |Hne].
  - rewrite lookup_delete_eq. by rewrite decide_True by left.
  - rewrite lookup_delete_ne by done. rewrite IH. destruct (decide (name ∈ l)) as [Hin|Hin].
    + by rewrite decide_True by by right.
    + rewrite decide_False; [done|]. by intros [?|?]%elem_of_cons.
Qed.

(** The environment a launched program gets.  After any sequence of the operations
that set and unset variables, each variable is what following it alone through the
sequence gives: a value that was set stays until it is unset, also when it is set
again, an unset variable is absent, and all others are inherited. *)
Theorem launch_environment program args ops env name :
  child_env (foldl run_env_op (new_target program args) ops) env !! name =
  match foldl (next_fate name) inherited ops with
  | is_set v => Some v
  | is_unset => None
  | inherited => env !! name
  end.
Proof.
  assert (has_fate (new_target program args) name inherited) as Hf by done.
  apply (has_fate_run ops) in Hf. unfold child_env. rewrite lookup_delete_all, lookup_set_all.
  destruct (foldl (next_fate name) inherited ops); destruct Hf as [Hs Hu]; rewrite Hs.
  - rewrite decide_False; [done|]. by rewrite elem_of_elements.
  - rewrite decide_False; [done|]. by rewrite elem_of_elements.
  - rewrite decide_True; [done|]. by rewrite elem_of_elements.
Qed.

(** ** The file of a restarted process *)

Inductive launcher_op := ChangeEnv (op : env_op) | Launch.
Definition run_launcher_op (s : launcher) (op : launcher_op) : launcher :=
  match op with
  | ChangeEnv op => Launcher (set_base (run_env_op (base (dt s)) op) (dt s)) (files s)
  | Launch => write_env_file s
  end.

(** What the last write left, if there was one. *)
Definition file_inv (files0 : gmap string (list string)) (s : launcher) : Prop :=
  dmtcp_env_file_path (dt s) = "./dmtcp_env.txt" ∧ propagate_env_through_dmtcp (dt s) = true ∧
  (files s !! "./dmtcp_env.txt" = Some (env_lines (setenv_file_vars (dt s)) (unsetenv_file_vars (dt s))) ∨
   setenv_file_vars (dt s) = ∅ ∧ unsetenv_file_vars (dt s) = ∅ ∧ files s = files0).
Lemma write_env_file_inv files0 s :
  file_inv files0 s → file_inv files0 (write_env_file s) ∧
  setenv_file_vars (dt (write_env_file s)) = setenv_vars (base (dt (write_env_file s))) ∧
  unsetenv_file_vars (dt (write_env_file s)) = unsetenv_vars (base (dt (write_env_file s))).
Proof.
  intros (Hp & Hprop & Hf). unfold write_env_file. rewrite Hprop. cbn [andb].
  destruct (negb _ || negb _) eqn:Hch.
  - split; [|done]. split_and!; [done..|]. left. cbn [files dt]. rewrite Hp. apply lookup_insert_eq.
  - apply orb_false_iff in Hch as [Hu%negb_false_iff%bool_decide_eq_true Hs%negb_false_iff%bool_decide_eq_true]. done.
Qed.
Lemma file_inv_step files0 s op : file_inv files0 s → file_inv files0 (run_launcher_op s op).
Proof. destruct op; [|by intros [? _]%write_env_file_inv]. done. Qed.

Lemma file_inv_run files0 s ops : file_inv files0 s → file_inv files0 (foldl run_launcher_op s ops).
Proof. revert s. induction ops as [|op ops IH]; intros s Hs; [done|]. apply IH. by apply file_inv_step. Qed.

(** A restarted process reads the variables of its launch.  After any sequence of
changes and launches, a launch leaves in the file dmtcp_env.txt of the current
directory the variables that are set and unset at that moment, or has written nothing
since there are none and never were; whatever directory the checkpoint is in. *)
Theorem env_file_current program args ckpt_file files0 ops :
  let s := run_launcher_op (foldl run_launcher_op (Launcher (new_dmtcp_target program args ckpt_file) files0) ops) Launch in
  let t := base (dt s) in
  files s !! "./dmtcp_env.txt" = Some (env_lines (setenv_vars t) (unsetenv_vars t)) ∨
  setenv_vars t = ∅ ∧ unsetenv_vars t = ∅ ∧ files s = files0.
Proof.
  intros s t.
  destruct (write_env_file_inv files0 (foldl run_launcher_op (Launcher (new_dmtcp_target program args ckpt_file) files0) ops))
    as ((_ & _ & Hf) & Hs & Hu); [by apply file_inv_run; split_and!; auto|].
  subst t s. cbn [run_launcher_op]. by rewrite <- Hs, <- Hu.
Qed.

(** ** What a launch returns *)

(** The checker's ends of the pipe are closed only when the program was launched. *)
Theorem failed_launch_leaks r :
  pipe_rc r ≠ (-1)%Z →
  launch_dont_wait r [] =
    if bool_decide (fork_rc r = (-1)%Z) then (Throw ProcessCreationError, [read_end; write_end])
    else if bool_decide (0 < read_rc r)%Z then (Throw ProcessCreationError, [read_end])
    else (Ok (fork_rc r), []).
Proof.
  intros Hp. unfold launch_dont_wait, ebind, throw, ret, close. rewrite bool_decide_eq_false_2 by done. simpl.
  by repeat case_bool_decide.
Qed.
