(* ===== verification/Restore.v ===== *)
(** * Restoring a recorded program

[do_model_checking] and [do_model_checking_from_dmtcp_ckpt_file] of
[src/mcmini/mcmini.cpp] with their translations of recorded objects
([include/mcmini/spy/checkpointing/objects.h]).  What the template process writes
to the FIFO is the argument [recorded], a list of objects that ends where a read
would fail; the mailboxes in shared memory are a function of the runner. *)

From stdpp Require Import options.
From S2P Require Import Prelude InjectiveFunction CondPolicy Objects State Transitions.
From S2P Require Import AbstractState Behaviour StateSequence Program Dependency ClockVector.
From S2P Require Import StackItem Dpor Exploration Coordinator.

(** ** Recorded objects *)

Record recorded_thread := RecordedThread {
  pthread_desc : addr;
  thread_id : runner_id_t;
  recorded_status : thread_status;
}.

(** [visible_object]: its type, its location and the member of the union for the
type.  The enumerations of mutexes and semaphores are those of the model, in the
same order; [UNKNOWN] ends the stream. *)
Inductive visible_object :=
  | UNKNOWN
  | MUTEX (loc : addr) (status : mutex_state) (owner : runner_id_t)
  | SEMAPHORE (loc : addr) (count : N) (status : semaphore_state)
  | CONDITION_VARIABLE (loc : addr) (status : condition_variable_status)
      (interacting_thread : runner_id_t) (associated_mutex : addr) (count : Z)
  | THREAD (t : recorded_thread)
  | CV_WAITERS_QUEUE (cv_location : addr) (waiting_id : runner_id_t) (state : condition_variable_status).

(** [static_cast<condition_variable::state>]: the value at the same position of the
other enumeration. *)
Definition cast_cv_status (s : condition_variable_status) : cv_state :=
  match s with
  | CV_UNINITIALIZED => cv_uninitialized
  | CV_INITIALIZED => cv_initialized
  | CV_WAITING => cv_waiting
  | CV_SIGNALED => cv_signaled
  | CV_PREWAITING => cv_transitional
  | CV_DESTROYED => cv_destroyed
  end.

Abbreviation waiters_map := (gmap addr (list (runner_id_t * condition_variable_status))) (only parsing).

(** [None] is [std::abort()], which the callers' tests of the type exclude. *)
Definition translate_recorded_object_to_model (o : visible_object)
    (cv_waiting_threads : gmap addr (list (runner_id_t * condition_variable_status))) :
    option (addr * visible_object_state) :=
  match o with
  | MUTEX loc status owner => Some (loc, VMutex (Mutex status loc owner))
  | CONDITION_VARIABLE loc status interacting_thread mutex count =>
      Some (loc, VCond (new_condition_variable (cast_cv_status status) interacting_thread mutex count
                          (default [] (cv_waiting_threads !! loc)) None))
  | SEMAPHORE loc count status => Some (loc, VSemaphore (semaphore_of status (s32 count)))
  | _ => None
  end.
Definition translate_recorded_runner_to_model (t : recorded_thread) : thread :=
  thread_of_status (recorded_status t).

Section restore.
Context {W : Type} `{World W}.

(** ** The loop over the recorded objects *)

(** It returns the recorded threads. *)
Fixpoint read_recorded (recorded : list visible_object) (recorded_threads : list recorded_thread)
    (cv_waiting_threads : gmap addr (list (runner_id_t * condition_variable_status))) :
    eff coordinator (list recorded_thread) :=
  match recorded with
  | [] | UNKNOWN :: _ => ret recorded_threads
  | THREAD t :: recorded => read_recorded recorded (recorded_threads ++ [t]) cv_waiting_threads
  | CV_WAITERS_QUEUE loc id st :: recorded =>
      read_recorded recorded recorded_threads
        (<[loc := default [] (cv_waiting_threads !! loc) ++ [(id, st)]]> cv_waiting_threads)
  | o :: recorded =>
      match translate_recorded_object_to_model o cv_waiting_threads with
      | None => throw UB
      | Some (loc, s) =>
          do! observe_object loc s in
          read_recorded recorded recorded_threads cv_waiting_threads
      end
  end.

(** [std::sort] by id (stable here; the ids of threads are distinct). *)
Definition by_id : relation recorded_thread := λ t1 t2, (thread_id t1 ≤ thread_id t2)%N.
#[export] Instance by_id_dec t1 t2 : Decision (by_id t1 t2).
Proof. unfold by_id. apply _. Defined.
Definition sort_threads (l : list recorded_thread) : list recorded_thread := merge_sort by_id l.

(** The next transition of a recorded thread. *)
Definition next_transition_of (tr : gmap N callback_function) (mailboxes : runner_id_t → runner_mailbox)
    (t : recorded_thread) : eff coordinator (option transition) :=
  match recorded_status t with
  | ALIVE =>
      let mb := mailboxes (thread_id t) in
      match get_callback_for tr (type mb) with
      | None => throw (RuntimeError ExpectedCallback)
      | Some f => call_callback f (thread_id t) mb
      end
  | EXITED => ret (Some (Transition (thread_id t) thread_exit))
  end.

Definition count_objects : eff coordinator nat := query (λ c, seq_count (state_seq (current_program_model c))).

(** A null transition is dereferenced. *)
Definition restore_next_transition (tr : gmap N callback_function) (mailboxes : runner_id_t → runner_mailbox)
    (t : recorded_thread) : eff coordinator unit :=
  let! next_transition := next_transition_of tr mailboxes t in
  let! num_objects_before := count_objects in
  let! next := query (λ _, deref next_transition) in
  do! observe_runner_transition next in
  let! num_objects_after := count_objects in
  if bool_decide (num_objects_before ≠ num_objects_after)
  then throw (RuntimeError CallbackInsertedObject) else ret tt.

Definition observe_recorded (t : recorded_thread) : eff coordinator unit :=
  do! observe_runner (pthread_desc t) (translate_recorded_runner_to_model t) in ret tt.
Definition restore_recorded (tr : gmap N callback_function) (mailboxes : runner_id_t → runner_mailbox)
    (recorded : list visible_object) : eff coordinator unit :=
  let! threads := read_recorded recorded [] ∅ in
  let recorded_threads := sort_threads threads in
  do! for_each recorded_threads observe_recorded in
  for_each recorded_threads (restore_next_transition tr mailboxes).

(** ** The two entry points *)

Definition all_callbacks : callbacks := Callbacks true true true true true.

(** [program()] *)
Definition default_program : res program := new_program new_detached_state ∅.

Definition do_model_checking (config : configuration) (fuel : nat) (w : W) :
    res (option unit) * option (dpor_context coordinator) :=
  match starting_from_main with
  | Throw e => (Throw e, None)
  | Ok p =>
      match new_coordinator p default_registry w with
      | (Throw e, _) => (Throw e, None)
      | (Ok _, c) => let '(r, ctx) := verify_using config fuel all_callbacks c in (r, Some ctx)
      end
  end.

Definition do_model_checking_from_dmtcp_ckpt_file (config : configuration) (fuel : nat) (w : W)
    (recorded : list visible_object) (mailboxes : runner_id_t → runner_mailbox) :
    res (option unit) * option (dpor_context coordinator) :=
  match default_program with
  | Throw e => (Throw e, None)
  | Ok p =>
      match new_coordinator p default_registry w with
      | (Throw e, _) => (Throw e, None)
      | (Ok _, c) =>
          match restore_recorded default_registry mailboxes recorded c with
          | (Throw e, _) => (Throw e, None)
          | (Ok _, c) => let '(r, ctx) := verify_using config fuel all_callbacks c in (r, Some ctx)
          end
      end
  end.

(** ** Theorems *)

Lemma seq_count_back ss : states_in_sequence ss ≠ [] → is_ok (seq_count ss) = true.
Proof.
  intros (els & el & Hels)%exists_last.
  unfold seq_count, via_representative, get_representative_state, vec_back. by rewrite Hels, last_snoc.
Qed.

(** The check for inserted objects checks nothing.  Whatever objects the
callback of a recorded thread inserts into the model, it inserts them before the
first of the two counts, and recording the next transition inserts none: the
restoration of the thread succeeds, and sets the runner's next transition. *)
Theorem insertion_check_checks_nothing tr mailboxes t c npo c1 :
  next_transition_of tr mailboxes t c = (Ok (Some npo), c1) →
  states_in_sequence (state_seq (current_program_model c1)) ≠ [] →
  restore_next_transition tr mailboxes t c =
    (Ok tt, set_model (Program (state_seq (current_program_model c1)) (trace (current_program_model c1))
                         (<[get_executor npo := npo]> (next_steps (current_program_model c1)))) c1).
Proof.
  intros Hn Hne%seq_count_back. unfold restore_next_transition, ebind at 1. rewrite Hn.
  unfold count_objects. rewrite ebind_query.
  destruct (seq_count (state_seq (current_program_model c1))) as [n|] eqn:Hcount; [|done].
  rewrite ebind_query. cbn [deref]. unfold observe_runner_transition, on_model, zoom, ebind at 1.
  rewrite ebind_query. cbn [current_program_model set_model state_seq]. rewrite Hcount.
  rewrite bool_decide_eq_false_2; [done|]. intros Hneq. by apply Hneq.
Qed.
 
(** ** Numbering the recorded threads *)

(** The sequence of a program being restored: well-formed, its current state sees
every object, and [n] more threads fit. *)
Record restoring (ss : state_sequence) (el : element) (n : nat) : Prop := Restoring {
  re_wf : wf_seq ss;
  re_last : last (states_in_sequence ss) = Some el;
  re_visible : all_visible ss el;
  re_objects : (N.of_nat (length (visible_objects ss) + n) < invalid_objid)%N;
  re_history : Forall (λ h : list visible_object_state, (N.of_nat (length h) < 2^63)%N) (visible_objects ss);
  re_runners : (N.of_nat (inj_size (runner_to_obj_map ss) + n) < RUNNER_ID_MAX)%N;
}.

Lemma restoring_fits ss el n : restoring ss el n → fits ss.
Proof. intros [? ? ? ? ? ?]. split; [lia|done|lia]. Qed.

Lemma restoring_step ss el n th :
  restoring ss el (S n) →
  ∃ ss' el', seq_add_runner th ss = (Ok (N.of_nat (inj_size (runner_to_obj_map ss))), ss') ∧
    restoring ss' el' n ∧ inj_size (runner_to_obj_map ss') = S (inj_size (runner_to_obj_map ss)) ∧
    abs_element ss' el' = add_runner_of (N.of_nat (inj_size (runner_to_obj_map ss)))
      (N.of_nat (length (visible_objects ss))) th (abs_element ss el) ∧
    visible_objects ss' = visible_objects ss ++ [[VThread th]].
Proof.
  intros Hr. pose proof (restoring_fits _ _ _ Hr) as Hf. destruct Hr as [Hwf Hl Hv Ho Hh Hn].
  destruct (add_runner_ok ss el th Hwf Hf Hl Hv)
    as (ss' & el' & Hadd & Hwf' & Hl' & Hv' & Habs & _ & Hobjs & Hsize).
  exists ss', el'. split_and!; try done. split; try done.
  - rewrite Hobjs, length_app. simpl. lia.
  - rewrite Hobjs. apply Forall_app. split; [done|]. repeat constructor.
  - rewrite Hsize. lia.
Qed.

Lemma observe_runner_step c el n t :
  restoring (state_seq (current_program_model c)) el (S n) →
  ∃ c' el', observe_runner (pthread_desc t) (translate_recorded_runner_to_model t) c =
      (Ok (N.of_nat (inj_size (runner_to_obj_map (state_seq (current_program_model c))))), c') ∧
    restoring (state_seq (current_program_model c')) el' n ∧
    inj_size (runner_to_obj_map (state_seq (current_program_model c'))) =
      S (inj_size (runner_to_obj_map (state_seq (current_program_model c)))) ∧
    abs_element (state_seq (current_program_model c')) el' =
      add_runner_of (N.of_nat (inj_size (runner_to_obj_map (state_seq (current_program_model c)))))
        (N.of_nat (length (visible_objects (state_seq (current_program_model c)))))
        (translate_recorded_runner_to_model t) (abs_element (state_seq (current_program_model c)) el) ∧
    visible_objects (state_seq (current_program_model c')) =
      visible_objects (state_seq (current_program_model c)) ++ [[VThread (translate_recorded_runner_to_model t)]].
Proof.
  intros Hr. destruct (restoring_step _ _ _ (translate_recorded_runner_to_model t) Hr)
    as (ss' & el' & Hadd & Hr' & Hsize & Habs & Hobjs).
  pose proof (sequence_represents _ _ (re_last _ _ _ Hr')) as (_ & _ & Hid).
  unfold observe_runner, ebind at 1, on_model, zoom. rewrite Hadd. rewrite ebind_query.
  cbn [current_program_model set_model state_seq set_state_seq].
  rewrite (Hid (N.of_nat (inj_size (runner_to_obj_map (state_seq (current_program_model c)))))
    : seq_get_objid_for_runner ss' _ = _).
  eexists _, el'. split; [done|]. by split_and!.
Qed.


(** A runner whose object exists keeps its state when another thread is added. *)
Definition has_thread (a : astate) (r : runner_id_t) (th : thread) (bound : N) : Prop :=
  ∃ id, runners a !! r = Some id ∧ objs a !! id = Some (VThread th) ∧ (id < bound)%N.
Lemma has_thread_state a r th bound : has_thread a r th bound → thread_of a r = Ok th.
Proof.
  intros (id & Hr & Ho & _). unfold thread_of, objid_of, obj_of, map_at. rewrite Hr. simpl. by rewrite Ho.
Qed.
Lemma has_thread_add a r th bound r' th' :
  has_thread a r th bound → r ≠ r' → has_thread (add_runner_of r' bound th' a) r th (bound + 1).
Proof.
  intros (id & Hr & Ho & Hlt) Hne. exists id. unfold add_runner_of. simpl.
  rewrite !lookup_insert_ne by lia. split_and!; [done..|lia].
Qed.
Lemma has_thread_new a r th bound : has_thread (add_runner_of r bound th a) r th (bound + 1).
Proof. exists bound. unfold add_runner_of. simpl. rewrite !lookup_insert_eq. split_and!; [done..|lia]. Qed.

(** The threads observed so far. *)
Definition numbered (l : list recorded_thread) (c : coordinator) (el : element) : Prop :=
  let ss := state_seq (current_program_model c) in
  inj_size (runner_to_obj_map ss) = length l ∧
  ∀ i t, l !! i = Some t → has_thread (abs_element ss el) (N.of_nat i)
    (translate_recorded_runner_to_model t) (N.of_nat (length (visible_objects ss))).

Lemma observe_recorded_step l t c el n :
  restoring (state_seq (current_program_model c)) el (S n) → numbered l c el →
  ∃ c' el', observe_recorded t c = (Ok tt, c') ∧
    restoring (state_seq (current_program_model c')) el' n ∧ numbered (l ++ [t]) c' el'.
Proof.
  intros Hr [Hsize Hl].
  destruct (observe_runner_step c el n t Hr) as (c' & el' & Hobs & Hr' & Hsize' & Habs & Hobjs).
  exists c', el'. unfold observe_recorded, ebind. rewrite Hobs. split_and!; [done..|].
  split; [rewrite length_app; simpl; lia|]. intros i t' Hi. rewrite Habs, Hobjs, Hsize.
  rewrite length_app, Nat2N.inj_add. simpl length.
  apply lookup_snoc_Some in Hi as [[Hlt Hi]|[-> <-]].
  - apply has_thread_add; [by apply Hl|lia].
  - apply has_thread_new.
Qed.

Lemma observe_recorded_all l1 l2 c el :
  restoring (state_seq (current_program_model c)) el (length l2) → numbered l1 c el →
  ∃ c' el', for_each l2 observe_recorded c = (Ok tt, c') ∧
    restoring (state_seq (current_program_model c')) el' 0 ∧ numbered (l1 ++ l2) c' el'.
Proof.
  revert l1 c el. induction l2 as [|t l2 IH]; intros l1 c el Hr Hn.
  { exists c, el. by rewrite app_nil_r. }
  destruct (observe_recorded_step l1 t c el _ Hr Hn) as (c1 & el1 & Hobs & Hr1 & Hn1).
  destruct (IH _ c1 el1 Hr1 Hn1) as (c' & el' & Hloop & Hr' & Hn').
  exists c', el'. cbn [for_each]. unfold ebind. rewrite Hobs, Hloop.
  by rewrite <- app_assoc in Hn'.
Qed.

(** The recorded threads are numbered in the order of their ids.  From a
well-formed program without runners that sees all its objects, observing the
sorted threads succeeds and gives the [i]-th one the runner id [i], with the state
it was recorded in.  (So the model agrees with the recorded ids exactly when they
are 0, 1, 2 and so on.) *)
Theorem recorded_threads_numbered l c el :
  restoring (state_seq (current_program_model c)) el (length l) →
  inj_size (runner_to_obj_map (state_seq (current_program_model c))) = 0 →
  ∃ c', for_each (sort_threads l) observe_recorded c = (Ok tt, c') ∧
    ∀ i t, sort_threads l !! i = Some t →
      seq_get_state_of_runner (state_seq (current_program_model c')) (N.of_nat i) =
        Ok (translate_recorded_runner_to_model t).
Proof.
  intros Hr Hz. assert (length (sort_threads l) = length l) as Hlen.
  { apply Permutation_length, merge_sort_Permutation. }
  rewrite <- Hlen in Hr.
  destruct (observe_recorded_all [] (sort_threads l) c el Hr) as (c' & el' & Hloop & Hr' & _ & Hn).
  { split; [done|]. by intros i t. }
  exists c'. split; [done|]. intros i t Hi.
  destruct (sequence_represents _ _ (re_last _ _ _ Hr')) as (_ & Hst & _).
  etrans; [apply Hst|]. by eapply has_thread_state, Hn.
Qed.

End restore.
