(* ===== verification/SharedFiles.v ===== *)
(** * Shared memory and the pipe

The checker's end of what it shares with the target: the shared memory of the mailboxes
([real_world/shm.cpp]) and the named pipe through which the template sends the recorded objects
([real_world/fifo.cpp], with the loop of [mcmini.cpp] that reads it).  The kernel is what it
answers to each call. *)

From stdpp Require Import strings.
From stdpp Require Import options.
From S2P Require Import Prelude Objects Restore.

(** ** Shared memory *)

Inductive kernel_call :=
  | shm_open (name : string) | ftruncate (fd : Z) (size : N) | mmap (fd : Z) (size : N) | fsync (fd : Z) | close (fd : Z)
  | shm_unlink (name : string) | munmap (region : option addr) (size : N)
  | mkfifo (name : string) | open_fifo (name : string) | unlink (name : string).
(** What the three calls of the constructor return; [None] is an error. *)
Record shm_answers := ShmAnswers { opened : option Z; truncated : bool; mapped : option addr }.
(** [shm_mmap_region] has no initialiser: [None] until it is assigned. *)
Record shared_memory_region := SharedMemoryRegion {
  shm_file_name : string;
  region_size : N;
  shm_mmap_region : option addr;
}.

(** The constructor, with the calls it makes. *)
Definition make_shared_memory_region (name : string) (size : N) (k : shm_answers) :
    shared_memory_region * list kernel_call :=
  let failed := SharedMemoryRegion name size None in
  match opened k with
  | None => (failed, [shm_open name])
  | Some fd =>
      if negb (truncated k) then (failed, [shm_open name; ftruncate fd size])
      else match mapped k with
           | None => (failed, [shm_open name; ftruncate fd size; mmap fd size])
           | Some handle => (SharedMemoryRegion name size (Some handle),
                             [shm_open name; ftruncate fd size; mmap fd size; fsync fd; close fd])
           end
  end.
Definition destroy_shared_memory_region (r : shared_memory_region) : list kernel_call :=
  [shm_unlink (shm_file_name r); munmap (shm_mmap_region r) (region_size r)].
(** [get()], [as()]: reading the pointer before it has a value is undefined. *)
Definition get_region (r : shared_memory_region) : res addr := deref (shm_mmap_region r).

(** The region is mapped when all calls succeed, and then the descriptor is closed; when a later
call fails the object exists without a region and the descriptor stays open. *)
Lemma make_shared_memory_region_spec name size k :
  let '(r, calls) := make_shared_memory_region name size k in
  (is_ok (get_region r) = true ↔ is_Some (opened k) ∧ truncated k = true ∧ is_Some (mapped k)) ∧
  (∀ fd, opened k = Some fd → (close fd ∈ calls ↔ is_ok (get_region r) = true)).
Proof.
  unfold make_shared_memory_region, get_region. destruct k as [[fd|] [|] [h|]]; cbn; split; try (intros fd' [= <-]);
    rewrite ?elem_of_cons, ?elem_of_nil; unfold is_Some; naive_solver.
Qed.

(** ** The pipe *)

(** [mkfifo] succeeds, finds the name, or fails; [open] gives a descriptor or fails. *)
Inductive mkfifo_answer := created | exists_already | mkfifo_failed.
Record fifo := Fifo { fifo_name : string; fifo_fd : Z }.
Definition make_fifo (name : string) (m : mkfifo_answer) (o : option Z) : res fifo * list kernel_call :=
  match m with
  | mkfifo_failed => (Throw (ExitCalled 1), [mkfifo name])
  | created | exists_already =>
      match o with
      | None => (Throw (ExitCalled 1), [mkfifo name; open_fifo name])
      | Some fd => (Ok (Fifo name fd), [mkfifo name; open_fifo name])
      end
  end.
Definition destroy_fifo (f : fifo) : list kernel_call :=
  (if bool_decide (fifo_fd f ≠ (-1)%Z) then [close (fifo_fd f)] else []) ++ [unlink (fifo_name f)].

(** What [read(2)] does: it stores a whole object (the writer's writes are atomic), or finds the
end, or fails; [fifo::read] returns the result as a [size_t]. *)
Inductive read_answer := Object (o : visible_object) | EndOfFile | ReadError.
Section read.
Context (sizeof_visible_object : N) (sizeof_positive : (0 < sizeof_visible_object)%N).
Definition fifo_read (r : read_answer) (buf : option visible_object) : N * option visible_object :=
  match r with
  | Object o => (sizeof_visible_object, Some o)
  | EndOfFile => (0%N, buf)
  | ReadError => (u64 (2^64 - 1), buf)
  end.
Definition is_unknown (o : visible_object) : bool := match o with UNKNOWN => true | _ => false end.

(** The loop of [do_model_checking_from_dmtcp_ckpt_file] over the answers of the kernel: the
objects its body is run on.  [current_obj] has no value before the first read. *)
Fixpoint read_objects (answers : list read_answer) (current_obj : option visible_object) : list visible_object * res unit :=
  match answers with
  | [] => ([], Throw Blocked)
  | r :: answers =>
      let '(n, current_obj) := fifo_read r current_obj in
      if bool_decide (n = 0%N) then ([], Ok tt)
      else match current_obj with
           | None => ([], Throw UB)
           | Some o => if is_unknown o then ([], Ok tt)
                       else let '(os, e) := read_objects answers current_obj in (o :: os, e)
           end
  end.

(** Without errors the body is run on the objects that were written, up to the object that ends
the stream or the end of the pipe, whatever follows: they are the argument of [read_recorded]. *)
Theorem pipe_delivers os last rest :
  Forall (λ o, is_unknown o = false) os → last = EndOfFile ∨ last = Object UNKNOWN →
  read_objects ((Object <$> os) ++ last :: rest) None = (os, Ok tt).
Proof using sizeof_positive.
  intros Hos Hlast. generalize (@None visible_object) as cur. induction Hos as [|o os Ho Hos IH]; intros cur; cbn.
  - destruct Hlast as [-> | ->]; cbn; [done|]. by rewrite bool_decide_eq_false_2 by lia.
  - rewrite bool_decide_eq_false_2 by lia. by rewrite Ho, IH.
Qed.
(** A read that fails counts as one that succeeded: the body is run again on the object before,
as often as reads fail. *)
Lemma failed_read_repeats o n rest : is_unknown o = false →
  let '(os, e) := read_objects rest (Some o) in
  read_objects (Object o :: replicate n ReadError ++ rest) None = (o :: replicate n o ++ os, e).
Proof using sizeof_positive.
  intros Ho. destruct (read_objects rest (Some o)) as [os e] eqn:Hr. cbn [read_objects fifo_read].
  rewrite (bool_decide_eq_false_2 (sizeof_visible_object = 0%N)), Ho by lia.
  assert (read_objects (replicate n ReadError ++ rest) (Some o) = (replicate n o ++ os, e)) as ->; [|done].
  induction n as [|n IH]; [done|]. cbn [replicate app read_objects fifo_read]. rewrite bool_decide_eq_false_2, Ho, IH by done. done.
Qed.
End read.
