(* ===== verification/Simulation.v ===== *)
(** * Two worlds that behave alike

The search and the coordinator are written over an interface of processes.  When two
implementations of it are related by a simulation ([Simulation]), the checker over the one
does what the checker over the other does, call for call, until a call blocks: same result,
same reports, same stack and same model ([search_simulates], [checking_simulates]). *)

From stdpp Require Import options.
From S2P Require Import Prelude ClockVector Objects State Transitions StateSequence Program Dependency.
From S2P Require Import StackItem Dpor Coordinator Restore.

(** ** Effects that do the same *)

(** How two states are linked.  The first may be [dead]: it has left what the link is about,
and stays so; when [blocks] holds the first may also block. *)
Record link (S1 S2 : Type) := Link { linked : S1 → S2 → Prop; dead : S1 → Prop; blocks : Prop }.
Arguments Link {_ _} _ _ _.
Arguments linked {_ _} _ _ _.
Arguments dead {_ _} _ _.
Arguments blocks {_ _} _.

(** Both end alike, with equal results in linked states, unless the first is dead or blocked. *)
Definition tracks {A S1 S2} (L : link S1 S2) (o1 : res A * S1) (o2 : res A * S2) : Prop :=
  blocks L ∧ o1.1 = Throw Blocked ∨ dead L o1.2 ∨ o1.1 = o2.1 ∧ linked L o1.2 o2.2.
Definition buries {A S1 S2} (L : link S1 S2) (m : eff S1 A) : Prop := ∀ s, dead L s → dead L (m s).2.
Record simulates {A S1 S2} (L : link S1 S2) (m1 : eff S1 A) (m2 : eff S2 A) : Prop := Simulates {
  sm_dead : buries L m1;
  sm_tracks s1 s2 : linked L s1 s2 → tracks L (m1 s1) (m2 s2);
}.

Lemma buries_bind {A B S1 S2} (L : link S1 S2) (m : eff S1 A) (f : A → eff S1 B) :
  buries L m → (∀ a, buries L (f a)) → buries L (ebind m f).
Proof.
  intros Hm Hf s Hs%Hm. unfold ebind. destruct (m s) as [[a|e] s']; [by apply Hf|done].
Qed.
(** [R] holds in between. *)
Lemma tracks_bind {A B S1 S2} (L : link S1 S2) (R : S1 → S2 → Prop) (m1 : eff S1 A) (m2 : eff S2 A)
    (f1 : A → eff S1 B) (f2 : A → eff S2 B) s1 s2 :
  tracks (Link R (dead L) (blocks L)) (m1 s1) (m2 s2) → (∀ a, buries L (f1 a)) →
  (∀ a s1 s2, R s1 s2 → tracks L (f1 a s1) (f2 a s2)) → (∀ s1 s2, R s1 s2 → linked L s1 s2) →
  tracks L (ebind m1 f1 s1) (ebind m2 f2 s2).
Proof.
  unfold ebind, tracks. destruct (m1 s1) as [[a|e] s1'], (m2 s2) as [[b|e2] s2']; cbn [fst snd linked dead blocks];
    intros [[Hb Hr]|[Hd|[Heq HR]]] Hbu Hf Hw; try discriminate;
    try (right; left; first [by apply Hbu|exact Hd]).
  - injection Heq as <-. by apply Hf.
  - left. by injection Hr as ->.
  - left. by injection Hr as ->.
  - right. right. injection Heq as <-. split; [done|by apply Hw].
Qed.

Section simulates.
Context {S1 S2 : Type} (L : link S1 S2).

Lemma tracks_same {A} (r : res A) s1 s2 : linked L s1 s2 → tracks L (r, s1) (r, s2).
Proof. intros Hs. right. by right. Qed.
Lemma simulates_query {A} (f1 : S1 → res A) (f2 : S2 → res A) :
  (∀ s1 s2, linked L s1 s2 → f1 s1 = f2 s2) → simulates L (query f1) (query f2).
Proof. intros Hf. split; [by intros s|]. intros s1 s2 HR. unfold query. rewrite (Hf s1 s2 HR). by apply tracks_same. Qed.
Lemma simulates_ret {A} (a : A) : simulates L (ret a) (ret a).
Proof. split; [by intros s|]. intros s1 s2. apply tracks_same. Qed.
Lemma simulates_throw {A} e : simulates L (throw (A := A) e) (throw e).
Proof. split; [by intros s|]. intros s1 s2. apply tracks_same. Qed.
Lemma simulates_change f1 f2 : (∀ s, dead L s → dead L (f1 s)) → (∀ s1 s2, linked L s1 s2 → linked L (f1 s1) (f2 s2)) →
  simulates L (λ s, (Ok tt, f1 s)) (λ s, (Ok tt, f2 s)).
Proof. intros Hd Hf. split; [done|]. intros s1 s2 HR. by apply tracks_same, Hf. Qed.
Lemma simulates_bind {A B} (m1 : eff S1 A) (m2 : eff S2 A) (f1 : A → eff S1 B) (f2 : A → eff S2 B) :
  simulates L m1 m2 → (∀ a, simulates L (f1 a) (f2 a)) → simulates L (ebind m1 f1) (ebind m2 f2).
Proof.
  intros Hm Hf. split; [apply buries_bind; [apply Hm|intros a; apply (Hf a)]|].
  intros s1 s2 HR. apply (tracks_bind L (linked L)); [|intros a; apply (Hf a)|intros a; apply (Hf a)|done].
  by apply (sm_tracks _ _ _ Hm) in HR.
Qed.
Lemma simulates_for_each {A} (l : list A) (f1 : A → eff S1 unit) (f2 : A → eff S2 unit) :
  (∀ a, simulates L (f1 a) (f2 a)) → simulates L (for_each l f1) (for_each l f2).
Proof.
  intros Hf. induction l as [|x l IH]; [apply simulates_ret|]. apply simulates_bind; [apply Hf|]. intros _. apply IH.
Qed.
(** The same effect on a component that both share. *)
Lemma simulates_zoom {A T} (get1 : S1 → T) set1 (get2 : S2 → T) set2 (m : eff T A) :
  (∀ s t, dead L s → dead L (set1 t s)) → (∀ s1 s2, linked L s1 s2 → get1 s1 = get2 s2) →
  (∀ s1 s2 t, linked L s1 s2 → linked L (set1 t s1) (set2 t s2)) →
  simulates L (zoom get1 set1 m) (zoom get2 set2 m).
Proof.
  intros Hd Hget Hset. split.
  - intros s Hs. unfold zoom. destruct (m (get1 s)) as [r t]. by apply Hd.
  - intros s1 s2 HR. unfold zoom. rewrite (Hget s1 s2 HR). destruct (m (get2 s2)) as [r t]. by apply tracks_same, Hset.
Qed.
End simulates.

Create HintDb simulates.
#[export] Hint Resolve simulates_ret simulates_throw : simulates.
Ltac simulate :=
  repeat match goal with
  | |- simulates _ (ebind _ _) (ebind _ _) => apply simulates_bind; [|intros ?]
  | |- simulates _ (for_each _ _) (for_each _ _) => apply simulates_for_each; intros ?
  | |- simulates _ (if ?b then _ else _) _ => destruct b
  | |- simulates _ (match ?x with _ => _ end) _ => destruct x
  | |- simulates _ _ _ => solve [eauto with simulates]
  end.

(** ** The search *)

Section search.
Context {C1 C2 : Type} `{Coordinator C1} `{Coordinator C2} (L : link C1 C2).
(** The two coordinators have the same model and do the same. *)
Hypothesis same_model : ∀ c1 c2, linked L c1 c2 → get_current_program_model c1 = get_current_program_model c2.
Hypothesis same_depth : ∀ c1 c2, linked L c1 c2 → get_depth_into_program c1 = get_depth_into_program c2.
Hypothesis executes : ∀ r, simulates L (execute_runner r) (execute_runner r).
Hypothesis returns : ∀ n, simulates L (return_to_depth n) (return_to_depth n).
Context (config : configuration) (cbs : callbacks).

Record same_search (ctx1 : dpor_context C1) (ctx2 : dpor_context C2) : Prop := SameSearch {
  sa_coordinator : linked L (Dpor.coordinator ctx1) (Dpor.coordinator ctx2);
  sa_stack : stack ctx1 = stack ctx2;
  sa_stats : model_checking_stats ctx1 = model_checking_stats ctx2;
  sa_events : events ctx1 = events ctx2;
}.
Definition search_link : link (dpor_context C1) (dpor_context C2) :=
  Link same_search (λ ctx, dead L (Dpor.coordinator ctx)) (blocks L).
Abbreviation same := (simulates search_link).

Lemma sa_model ctx1 ctx2 : same_search ctx1 ctx2 → model_of ctx1 = model_of ctx2.
Proof using same_model. intros [Hc _ _ _]. by apply same_model. Qed.

(** Both look at the same stack and model. *)
Lemma same_look {A} (f : list stack_item → program → N → res A) :
  same (query (λ ctx, f (stack ctx) (model_of ctx) (get_depth_into_program (Dpor.coordinator ctx))))
    (query (λ ctx, f (stack ctx) (model_of ctx) (get_depth_into_program (Dpor.coordinator ctx)))).
Proof using same_model same_depth.
  apply simulates_query. intros ctx1 ctx2 Hs. by rewrite (sa_stack _ _ Hs), (sa_model _ _ Hs), (same_depth _ _ (sa_coordinator _ _ Hs)).
Qed.
Lemma same_set_stack f : same (λ ctx, (Ok tt, set_stack (f (stack ctx)) ctx)) (λ ctx, (Ok tt, set_stack (f (stack ctx)) ctx)).
Proof. apply simulates_change; [done|]. intros ctx1 ctx2 [Hc Hs Ht He]. split; try done. cbn. by rewrite Hs. Qed.
Lemma same_set_stats f :
  same (λ ctx, (Ok tt, set_stats (f (model_checking_stats ctx)) ctx)) (λ ctx, (Ok tt, set_stats (f (model_checking_stats ctx)) ctx)).
Proof. apply simulates_change; [done|]. intros ctx1 ctx2 [Hc Hs Ht He]. split; try done. cbn. by rewrite Ht. Qed.
Lemma same_callback is_set e ctx1 ctx2 : same_search ctx1 ctx2 →
  same_search (callback is_set (e (model_checking_stats ctx1)) ctx1) (callback is_set (e (model_checking_stats ctx2)) ctx2).
Proof. intros [Hc Hs Ht He]. unfold callback. destruct is_set; [|done]. split; try done. cbn. by rewrite Ht, He. Qed.
Lemma buried_callback is_set e ctx : dead search_link ctx → dead search_link (callback is_set e ctx).
Proof. by destruct is_set. Qed.
Lemma same_call is_set e :
  same (λ ctx, (Ok tt, callback is_set (e (model_checking_stats ctx)) ctx)) (λ ctx, (Ok tt, callback is_set (e (model_checking_stats ctx)) ctx)).
Proof. apply simulates_change; [intros s; apply buried_callback|]. intros ctx1 ctx2. apply same_callback. Qed.

#[local] Hint Resolve same_callback : simulates.

Lemma same_assert b : same (assert b) (assert b).
Proof. unfold assert. simulate. Qed.
Lemma same_grow : same (grow_stack_after_running config) (grow_stack_after_running config).
Proof using same_model same_depth.
  unfold grow_stack_after_running.
  apply simulates_bind; [apply (same_look (λ _ _ d, Ok d))|intros depth].
  apply simulates_bind; [apply (same_look (λ stk _ _, Ok (N.of_nat (length stk))))|intros size].
  apply simulates_bind; [apply same_assert|intros _].
  apply simulates_bind; [apply (same_look (λ _ p _, vec_back (trace p) ≫= deref))|intros t_n].
  apply simulates_bind; [apply (same_look (λ stk _ d, Ok (set_clock (get_executor t_n) d (accumulate_max_clock_vector_against config t_n stk))))|intros cv].
  apply simulates_bind; [apply (same_look (λ stk _ _, vec_back stk))|intros s_n].
  apply simulates_bind; [by apply simulates_query|intros r].
  apply simulates_bind; [apply (same_look (λ _ p _, get_enabled_runners p))|intros enabled].
  split; [intros ctx Hd; by destruct (inherit_sleep_set _ _ _ _ _)|].
  intros ctx1 ctx2 Hs. rewrite (sa_model _ _ Hs), (sa_stack _ _ Hs).
  destruct (inherit_sleep_set _ _ _ _ _) as [s|e]; apply tracks_same; destruct Hs as [Hc Hst Ht He]; by split.
Qed.
Lemma same_update_at S_i next_sp i p : same (update_at config S_i next_sp i p) (update_at config S_i next_sp i p).
Proof.
  split; [intros ctx Hd; unfold update_at; by destruct (_ ≫= _) as [[]|]|].
  intros ctx1 ctx2 Hs. unfold update_at. rewrite (sa_stack _ _ Hs).
  destruct (_ ≫= _) as [[s' stop]|e]; apply tracks_same; [destruct Hs as [Hc Hst Ht He]; by split|done].
Qed.
Lemma same_update_other rids S_n top : same (update_other_threads config rids S_n top) (update_other_threads config rids S_n top).
Proof using same_model same_depth.
  induction rids as [|rid rids IH]; cbn [update_other_threads]; [apply simulates_ret|].
  apply simulates_bind; [apply (same_look (λ _ p _, deref (get_transition_for_runner (next_steps p) rid)))|intros next_sp].
  apply simulates_bind; [apply same_update_at|done].
Qed.
Lemma same_update_last n t p : same (update_last_thread config n t p) (update_last_thread config n t p).
Proof using same_model same_depth.
  induction n as [|n IH]; cbn [update_last_thread]; [apply simulates_ret|].
  apply simulates_bind; [apply (same_look (λ _ p _, vec_at (trace p) (N.of_nat n) ≫= deref))|intros S_i].
  apply simulates_bind; [apply same_update_at|intros []; [apply simulates_ret|done]].
Qed.
Lemma same_update : same (dynamically_update_backtrack_sets config) (dynamically_update_backtrack_sets config).
Proof using same_model same_depth.
  unfold dynamically_update_backtrack_sets.
  apply simulates_bind; [apply (same_look (λ _ p _, Ok (get_num_runners p)))|intros num].
  apply simulates_bind; [apply (same_look (λ _ p _, vec_back (trace p) ≫= deref))|intros S_n].
  apply simulates_bind; [apply (same_look (λ stk _ _, Ok (length stk)))|intros size].
  apply simulates_bind; [apply same_update_other|intros _].
  apply simulates_bind; [apply (same_look (λ _ p _, deref (get_transition_for_runner (next_steps p) _)))|intros t].
  apply same_update_last.
Qed.
Lemma same_on_coordinator {A} (m1 : eff C1 A) (m2 : eff C2 A) : simulates L m1 m2 → same (on_coordinator m1) (on_coordinator m2).
Proof.
  intros Hm. unfold on_coordinator, zoom. split.
  - intros ctx Hd%(sm_dead _ _ _ Hm). by destruct (m1 (Dpor.coordinator ctx)).
  - intros ctx1 ctx2 [Hc Hst Ht He]. pose proof (sm_tracks _ _ _ Hm _ _ Hc) as Htr.
    destruct (m1 (Dpor.coordinator ctx1)) as [r1 c1], (m2 (Dpor.coordinator ctx2)) as [r2 c2].
    destruct Htr as [?|[?|[Hr HR]]]; [by left|by right; left|right; right]. split; [exact Hr|]. by split.
Qed.
Lemma same_expand p : same (continue_dpor_by_expanding_trace_with config p) (continue_dpor_by_expanding_trace_with config p).
Proof using same_model same_depth executes.
  unfold continue_dpor_by_expanding_trace_with. apply simulates_bind; [apply same_on_coordinator, executes|intros _].
  apply simulates_bind; [apply same_grow|intros _]. apply same_update.
Qed.

(** A [try] catches the same exceptions; it does not catch that a call blocks. *)
Lemma same_try {A} (m1 : eff (dpor_context C1) A) (m2 : eff (dpor_context C2) A) h1 h2 :
  same m1 m2 → (∀ e, same (h1 e) (h2 e)) → (∀ ctx, (h1 Blocked ctx).1 = Throw Blocked) → same (try m1 h1) (try m2 h2).
Proof.
  intros Hm Hh Hb. unfold try. split.
  - intros ctx Hd%(sm_dead _ _ _ Hm). destruct (m1 ctx) as [[a|e] ctx']; [done|]. by apply (sm_dead _ _ _ (Hh e)).
  - intros ctx1 ctx2 Hs. pose proof (sm_tracks _ _ _ Hm _ _ Hs) as Htr. pose proof (λ e, sm_dead _ _ _ (Hh e)) as Hd.
    destruct (m1 ctx1) as [[a|e] ctx1'], (m2 ctx2) as [[b|e2] ctx2']; destruct Htr as [[Hbl He]|[Hdead|[He HR]]]; try discriminate;
      try (right; left; first [by apply Hd|exact Hdead]).
    + by apply tracks_same.
    + left. injection He as ->. split; [done|apply Hb].
    + left. injection He as ->. split; [done|apply Hb].
    + injection He as <-. by apply (Hh e).
Qed.
Lemma same_catch_errors e : same (catch_program_errors cbs e) (catch_program_errors cbs e).
Proof.
  split.
  - intros ctx Hd. destruct e; try done; by apply buried_callback.
  - intros ctx1 ctx2 Hs. destruct e; cbn; apply tracks_same; try done.
    + by apply (same_callback _ (λ s, abnormal_termination s signo culprit)).
    + by apply (same_callback _ (λ s, nonzero_exit_code s code culprit)).
Qed.
Lemma same_catch_ub e : same (catch_undefined_behavior cbs e) (catch_undefined_behavior cbs e).
Proof.
  split.
  - intros ctx Hd. destruct e; try done; by apply buried_callback.
  - intros ctx1 ctx2 Hs. destruct e; cbn; apply tracks_same; try done. by apply (same_callback _ undefined_behavior).
Qed.

Lemma same_expand_first : same (expand_first_enabled config) (expand_first_enabled config).
Proof using same_model same_depth executes.
  unfold expand_first_enabled. apply simulates_bind; [apply (same_look (λ stk _ _, vec_back stk))|intros s].
  apply simulates_bind; [apply same_expand|intros _].
  apply simulates_bind; [apply (same_set_stats (λ s, Stats (u32 (total_transitions s + 1)) (trace_id s)))|intros _].
  apply simulates_bind; [apply (same_look (λ _ p _, deref (get_pending_transition_for p _)))|intros t].
  simulate.
Qed.
Lemma same_explore : same (explore config cbs) (explore config cbs).
Proof using same_model same_depth executes.
  unfold explore. apply simulates_bind; [apply (same_look (λ stk _ _, vec_back stk))|intros s].
  destruct (has_enabled_runners s); [|apply simulates_ret].
  apply simulates_bind; [apply (same_look (λ stk _ _, Ok (N.of_nat (length stk))))|intros size].
  case_bool_decide; [apply simulates_throw|]. apply simulates_bind; [|intros c; apply simulates_ret].
  apply same_try; [apply same_expand_first| |done]. intros e.
  pose proof (same_catch_errors e) as He. pose proof (same_catch_ub e) as Hu. destruct e; first [exact He|exact Hu].
Qed.
Lemma same_expand_backtrack : same (expand_backtrack config) (expand_backtrack config).
Proof using same_model same_depth executes.
  unfold expand_backtrack. apply simulates_bind; [apply (same_look (λ stk _ _, vec_back stk))|intros s].
  destruct (backtrack_set_pop_first s) as [[p|e] s']; [|apply simulates_throw].
  apply simulates_bind; [apply (same_set_stack (λ stk, removelast stk ++ [s']))|intros _]. apply same_expand.
Qed.
Lemma same_backtrack : same (backtrack config cbs) (backtrack config cbs).
Proof using same_model same_depth executes returns.
  unfold backtrack. apply simulates_bind; [apply (same_call _ trace_completed)|intros _].
  apply simulates_bind; [apply (same_look (λ _ p _, if has_deadlock cbs then is_in_deadlock p else Ok false))|intros dead].
  apply simulates_bind; [apply (same_call _ deadlock)|intros _].
  apply simulates_bind; [apply (same_set_stack (λ stk, reverse (pop_searched (reverse stk))))|intros _].
  apply simulates_bind; [apply (same_look (λ stk _ _, Ok stk))|intros stk].
  case_bool_decide; [apply simulates_ret|]. apply simulates_bind.
  { apply same_try; [apply same_on_coordinator, returns|apply same_catch_errors|done]. }
  intros []; [|apply simulates_ret].
  apply simulates_bind; [apply (same_set_stats (λ s, Stats (total_transitions s) (u32 (trace_id s + 1))))|intros _].
  apply same_try; [apply same_expand_backtrack|apply same_catch_ub|done].
Qed.
Lemma same_loop fuel : same (dpor_loop config fuel cbs) (dpor_loop config fuel cbs).
Proof using same_model same_depth executes returns.
  induction fuel as [|fuel IH]; cbn [dpor_loop]; [apply simulates_ret|].
  assert (same (let! c := explore config cbs in
    match c with Some Return => ret (Some tt) | Some Continue => dpor_loop config fuel cbs
    | None => let! c := backtrack config cbs in match c with Return => ret (Some tt) | Continue => dpor_loop config fuel cbs end end)
    (let! c := explore config cbs in
    match c with Some Return => ret (Some tt) | Some Continue => dpor_loop config fuel cbs
    | None => let! c := backtrack config cbs in match c with Return => ret (Some tt) | Continue => dpor_loop config fuel cbs end end)) as Hbody.
  { apply simulates_bind; [apply same_explore|intros [[]|]; [done|apply simulates_ret|]].
    apply simulates_bind; [apply same_backtrack|intros []]; [done|apply simulates_ret]. }
  split.
  - intros ctx Hd. case_bool_decide; [done|by apply (sm_dead _ _ _ Hbody)].
  - intros ctx1 ctx2 Hs. rewrite (sa_stack _ _ Hs). case_bool_decide; [by apply tracks_same|by apply (sm_tracks _ _ _ Hbody)].
Qed.

(** The search over the one coordinator ends as over the other. *)
Lemma search_simulates fuel c1 c2 :
  linked L c1 c2 → tracks search_link (verify_using config fuel cbs c1) (verify_using config fuel cbs c2).
Proof using same_model same_depth executes returns.
  intros Hc. unfold verify_using. cbv zeta. apply (sm_tracks search_link); [|by split].
  apply simulates_bind; [apply (same_look (λ _ p _, get_enabled_runners p))|intros enabled].
  apply simulates_bind; [apply (same_set_stack (λ _, [new_stack_item empty_clock_vector enabled]))|intros _]. apply same_loop.
Qed.
Lemma search_buries fuel c : dead L c → dead L (Dpor.coordinator (verify_using config fuel cbs c).2).
Proof using same_model same_depth executes returns.
  intros Hc. unfold verify_using. cbv zeta.
  assert (same (let! enabled := query (λ ctx : dpor_context C1, get_enabled_runners (model_of ctx)) in
    do! (λ ctx, (Ok tt, set_stack [new_stack_item empty_clock_vector enabled] ctx)) in dpor_loop config fuel cbs)
    (let! enabled := query (λ ctx : dpor_context C2, get_enabled_runners (model_of ctx)) in
    do! (λ ctx, (Ok tt, set_stack [new_stack_item empty_clock_vector enabled] ctx)) in dpor_loop config fuel cbs)) as Hs.
  { apply simulates_bind; [apply (same_look (λ _ p _, get_enabled_runners p))|intros enabled].
    apply simulates_bind; [apply (same_set_stack (λ _, [new_stack_item empty_clock_vector enabled]))|intros _]. apply same_loop. }
  by apply (sm_dead _ _ _ Hs).
Qed.
End search.

(** ** The coordinator *)

(** The processes of two worlds, with the current one of each, behave alike while the first
has not [gone] astray. *)
Class Simulation (W1 W2 : Type) `{World W1} `{World W2}
    (R : option (handle W1) → W1 → option (handle W2) → W2 → Prop) (gone : W1 → Prop) (may_block : Prop) : Prop := {
  sim_handles h1 w1 h2 w2 : R h1 w1 h2 w2 → (h1 = None ↔ h2 = None);
  sim_make w1 w2 : R None w1 None w2 →
    let o1 := make_new_process w1 in let o2 := make_new_process w2 in
    may_block ∧ o1.1 = Throw Blocked ∨ gone o1.2 ∨
    match o1.1, o2.1 with
    | Ok h1, Ok h2 => R h1 o1.2 h2 o2.2
    | Throw e1, Throw e2 => e1 = e2 ∧ R None o1.2 None o2.2
    | _, _ => False
    end;
  sim_destroy h1 w1 h2 w2 : R (Some h1) w1 (Some h2) w2 → R None (destroy_process h1 w1) None (destroy_process h2 w2);
  sim_execute h1 w1 h2 w2 r : R (Some h1) w1 (Some h2) w2 →
    tracks (Link (λ w1 w2, R (Some h1) w1 (Some h2) w2) gone may_block)
      (process_execute_runner h1 r w1) (process_execute_runner h2 r w2);
  sim_pid h1 w1 h2 w2 : R (Some h1) w1 (Some h2) w2 → (get_pid h1 ≤ 0 ↔ get_pid h2 ≤ 0)%Z;
  sim_memory h1 w1 h2 w2 a n : R (Some h1) w1 (Some h2) w2 → (0 < get_pid h1)%Z →
    process_vm_readv w1 (get_pid h1) a n = process_vm_readv w2 (get_pid h2) a n;
  sim_mutex_initializer : @PTHREAD_MUTEX_INITIALIZER W1 _ = @PTHREAD_MUTEX_INITIALIZER W2 _;
  sim_cond_initializer : @PTHREAD_COND_INITIALIZER W1 _ = @PTHREAD_COND_INITIALIZER W2 _;
  gone_make w : gone w → gone (make_new_process w).2;
  gone_destroy h w : gone w → gone (destroy_process h w);
  gone_execute h r w : gone w → gone (process_execute_runner h r w).2;
}.

Section checker.
Context {W1 W2 : Type} {H1 : World W1} {H2 : World W2} {R : option (handle W1) → W1 → option (handle W2) → W2 → Prop}.
Context {gone : W1 → Prop} {may_block : Prop} `{!Simulation W1 W2 R gone may_block}.

Record alike (c1 : coordinator (W := W1)) (c2 : coordinator (W := W2)) : Prop := Alike {
  al_model : current_program_model c1 = current_program_model c2;
  al_registry : runtime_transition_mapping c1 = runtime_transition_mapping c2;
  al_addresses : system_address_mapping c1 = system_address_mapping c2;
  al_process : R (current_process_handle c1) (process_source c1) (current_process_handle c2) (process_source c2);
}.
Definition alike_link : link (coordinator (W := W1)) (coordinator (W := W2)) :=
  Link alike (λ c, gone (process_source c)) may_block.
Abbreviation same := (simulates alike_link).

(** Both look at the same model and addresses. *)
Lemma alike_query {A} (f : program → gmap addr objid_t → res A) :
  same (query (λ c, f (current_program_model c) (system_address_mapping c))) (query (λ c, f (current_program_model c) (system_address_mapping c))).
Proof. apply simulates_query. intros c1 c2 [Hm _ Ha _]. by rewrite Hm, Ha. Qed.
Lemma alike_on_model {A} (m : eff program A) : same (on_model m) (on_model m).
Proof. apply simulates_zoom; [done|by intros c1 c2 []|]. intros c1 c2 p [Hm Hr Ha Hp]. by split. Qed.
Lemma alike_map_address a id : same (modify_coordinator (map_address a id)) (modify_coordinator (map_address a id)).
Proof. apply simulates_change; [done|]. intros c1 c2 [Hm Hr Ha Hp]. split; try done. cbn. by rewrite Ha. Qed.
Lemma alike_contains a : same (query (λ c, Ok (contains c a))) (query (λ c, Ok (contains c a))).
Proof. apply simulates_query. intros c1 c2 [_ _ Ha _]. unfold contains, get_model_of_object. by rewrite Ha. Qed.
Lemma alike_model_of_object a : same (model_of_object a) (model_of_object a).
Proof. apply (alike_query (λ _ m, Ok (default invalid_objid (m !! a)))). Qed.
Lemma alike_model_of_runner a : same (query (λ c, get_model_of_runner c a)) (query (λ c, get_model_of_runner c a)).
Proof. apply simulates_query. intros c1 c2 [Hm _ Ha _]. unfold get_model_of_runner, get_model_of_object. by rewrite Hm, Ha. Qed.
Lemma alike_contains_runner a : same (query (λ c, contains_runner c a)) (query (λ c, contains_runner c a)).
Proof.
  apply simulates_query. intros c1 c2 [Hm _ Ha _]. unfold contains_runner, get_model_of_runner, get_model_of_object. by rewrite Hm, Ha.
Qed.
Lemma alike_objid r : same (query (λ c, seq_get_objid_for_runner (state_seq (current_program_model c)) r))
  (query (λ c, seq_get_objid_for_runner (state_seq (current_program_model c)) r)).
Proof. apply (alike_query (λ p _, seq_get_objid_for_runner (state_seq p) r)). Qed.
#[local] Hint Resolve alike_on_model alike_map_address alike_contains alike_model_of_object alike_model_of_runner
  alike_contains_runner alike_objid : simulates.

Lemma alike_observe_object a v : same (observe_object a v) (observe_object a v).
Proof. unfold observe_object. simulate. Qed.
Lemma alike_observe_runner_with a th f : same (observe_runner_with a th f) (observe_runner_with a th f).
Proof. unfold observe_runner_with. simulate. Qed.
Lemma alike_observe_runner a th : same (observe_runner a th) (observe_runner a th).
Proof. unfold observe_runner. simulate. Qed.
#[local] Hint Resolve alike_observe_object alike_observe_runner_with alike_observe_runner : simulates.

Lemma handles_agree h1 w1 h2 w2 : R h1 w1 h2 w2 → (∃ a b, h1 = Some a ∧ h2 = Some b) ∨ h1 = None ∧ h2 = None.
Proof using All.
  intros Hn%sim_handles. destruct h1 as [a|], h2 as [b|]; [left; by exists a, b| | |by right].
  - by destruct Hn as [_ Hn]; specialize (Hn eq_refl).
  - by destruct Hn as [Hn _]; specialize (Hn eq_refl).
Qed.

(** Both processes have the same memory. *)
Lemma alike_static i c1 c2 a : alike c1 c2 → remote_is_static_initializer i c1 a = remote_is_static_initializer i c2 a.
Proof using All.
  intros [_ _ _ Hp]. unfold remote_is_static_initializer, get_target_pid.
  destruct (handles_agree _ _ _ _ Hp) as [(h1 & h2 & E1 & E2)|[E1 E2]]; rewrite E1, E2 in *; [|done].
  pose proof (sim_pid _ _ _ _ Hp). destruct (get_pid h1 <=? 0)%Z eqn:L1, (get_pid h2 <=? 0)%Z eqn:L2; [done|lia..|].
  by rewrite (sim_memory _ _ _ _ a (length i) Hp) by lia.
Qed.
Lemma alike_mutex_static a : same (query (λ c, Ok (remote_mutex_is_static_initializer c a))) (query (λ c, Ok (remote_mutex_is_static_initializer c a))).
Proof using All.
  apply simulates_query. intros c1 c2 Hc. unfold remote_mutex_is_static_initializer. by rewrite sim_mutex_initializer, (alike_static _ c1 c2 a Hc).
Qed.
Lemma alike_cond_static a : same (query (λ c, Ok (remote_cond_is_static_initializer c a))) (query (λ c, Ok (remote_cond_is_static_initializer c a))).
Proof using All.
  apply simulates_query. intros c1 c2 Hc. unfold remote_cond_is_static_initializer. by rewrite sim_cond_initializer, (alike_static _ c1 c2 a Hc).
Qed.
#[local] Hint Resolve alike_mutex_static alike_cond_static : simulates.
Lemma alike_unless a (m1 : eff (coordinator (W := W1)) unit) (m2 : eff (coordinator (W := W2)) unit) : same m1 m2 → same (unless_contains a m1) (unless_contains a m2).
Proof. intros Hm. unfold unless_contains. simulate. Qed.
Lemma alike_callback f p mb : same (call_callback f p mb) (call_callback f p mb).
Proof using All.
  destruct f; cbn [call_callback]; unfold mutex_init_callback, mutex_lock_callback, mutex_unlock_callback, thread_create_callback,
    thread_exit_callback, thread_join_callback, process_exit_callback, process_abort_callback, cond_init_callback,
    cond_waiting_thread_enqueue_callback, cond_wait_callback, cond_signal_callback, cond_broadcast_callback,
    cond_destroy_callback, sem_init_callback, sem_destroy_callback, sem_post_callback, sem_wait_callback,
    ensure_cond_initialized, made, ub;
    repeat (simulate; try (apply alike_unless)).
Qed.

(** A new process for each. *)
Lemma buries_source {A} (m : eff W1 A) : (∀ w, gone w → gone (m w).2) → buries alike_link (on_source m).
Proof using Type. intros Hm c Hc%Hm. unfold on_source, zoom. by destruct (m (process_source c)). Qed.
Lemma alike_assign : same assign_new_process_handle assign_new_process_handle.
Proof using All.
  unfold assign_new_process_handle.
  assert (∀ p : option (handle W1), buries alike_link (match p with None => throw ProcessCreationError | Some h => modify_coordinator (set_handle (Some h)) end)) as Hlast
    by (intros [h|] c Hc; done).
  split.
  - apply buries_bind; [|intros _; apply buries_bind; [apply buries_source, gone_make|done]].
    intros c Hc. cbn. destruct (current_process_handle c); [by apply gone_destroy|done].
  - intros c1 c2 Hc.
    apply (tracks_bind _ (λ c1 c2, alike c1 c2 ∧ current_process_handle c1 = None ∧ current_process_handle c2 = None)); [| | |by intros ?? []].
    { right. right. split; [done|]. cbn. pose proof Hc as [Hm Hr Ha Hp].
      destruct (handles_agree _ _ _ _ Hp) as [(h1 & h2 & E1 & E2)|[E1 E2]]; rewrite E1, E2 in *; [|done].
      split; [|done]. split; try done. by apply sim_destroy. }
    { intros _. apply buries_bind; [apply buries_source, gone_make|done]. }
    intros _ d1 d2 ([Hm Hr Ha Hp] & E1 & E2). rewrite E1, E2 in Hp. pose proof (sim_make _ _ Hp) as Hmake. cbv zeta in Hmake.
    unfold ebind, on_source, zoom, tracks.
    destruct (make_new_process (process_source d1)) as [[h1|e1] w1], (make_new_process (process_source d2)) as [[h2|e2] w2];
      destruct Hmake as [[Hb He]|[Hg|Hw]]; cbn [fst snd] in *; try done;
      try (right; left; first [by apply (Hlast h1)|done]); try (left; split; [done|by injection He as ->]).
    + destruct (handles_agree _ _ _ _ Hw) as [(a1 & a2 & -> & ->)|[-> ->]]; right; right; (split; [done|]); split; try done.
      cbn. by rewrite E1, E2.
    + destruct Hw as [-> Hw]. right. right. split; [done|]. split; try done. cbn. by rewrite E1, E2.
Qed.
Lemma alike_execute h1 h2 c1 c2 r : alike c1 c2 → current_process_handle c1 = Some h1 → current_process_handle c2 = Some h2 →
  tracks alike_link (on_source (process_execute_runner h1 r) c1) (on_source (process_execute_runner h2 r) c2).
Proof using All.
  intros [Hm Hr Ha Hp] E1 E2. rewrite E1, E2 in Hp. pose proof (sim_execute _ _ _ _ r Hp) as Hx.
  unfold on_source, zoom. destruct (process_execute_runner h1 r (process_source c1)) as [r1 w1].
  destruct (process_execute_runner h2 r (process_source c2)) as [r2 w2]. destruct Hx as [Hx|[Hx|[Hx Hw]]]; [by left|by right; left|right; right].
  split; [exact Hx|]. split; try done. cbn. by rewrite E1, E2.
Qed.
(** Both execute a runner with their current processes and go on. *)
Lemma alike_executed {B} r (k1 : runner_mailbox → eff (coordinator (W := W1)) B) (k2 : runner_mailbox → eff (coordinator (W := W2)) B) :
  (∀ mb, same (k1 mb) (k2 mb)) →
  (∀ h, buries alike_link (ebind (on_source (process_execute_runner h r)) k1)) ∧
  ∀ h1 h2 c1 c2, alike c1 c2 → current_process_handle c1 = Some h1 → current_process_handle c2 = Some h2 →
    tracks alike_link (ebind (on_source (process_execute_runner h1 r)) k1 c1) (ebind (on_source (process_execute_runner h2 r)) k2 c2).
Proof using All.
  intros Hk. split.
  - intros h. apply buries_bind; [apply buries_source; intros w; apply gone_execute|intros mb; apply (Hk mb)].
  - intros h1 h2 c1 c2 Hc E1 E2. apply (tracks_bind _ alike); [by apply alike_execute|intros mb; apply (Hk mb)|intros mb; apply (Hk mb)|done].
Qed.

(** What [execute_runner] does with the mailbox. *)
Definition after_answer {W} {H : World W} (r : runner_id_t) (mb : runner_mailbox) : eff (coordinator (W := W)) unit :=
  let! callback := query (λ c, Ok (get_callback_for (runtime_transition_mapping c) (type mb))) in
  match callback with
  | None => throw ExecutionError
  | Some f =>
      let! pending_operation := call_callback f r mb in
      match pending_operation with
      | None => throw ExecutionError
      | Some npo => on_model (model_execution_of r npo)
      end
  end.
Lemma alike_after_answer r mb : same (after_answer r mb) (after_answer r mb).
Proof using All.
  unfold after_answer.
  apply simulates_bind; [apply simulates_query; intros d1 d2 Hd; by rewrite (al_registry _ _ Hd)|intros [f|]; [|apply simulates_throw]].
  apply simulates_bind; [apply alike_callback|intros [npo|]; [apply alike_on_model|apply simulates_throw]].
Qed.
Lemma alike_execute_runner r : same (coordinator_execute_runner r) (coordinator_execute_runner r).
Proof using All.
  destruct (alike_executed r (after_answer r) (after_answer r)) as [Hd Ht]; [apply alike_after_answer|].
  unfold coordinator_execute_runner. split.
  - intros c Hc. rewrite ebind_query. destruct (current_process_handle c) as [h|]; [|done]. rewrite ebind_query.
    destruct (deref _); [|done]. by apply (Hd h).
  - intros c1 c2 Hc. rewrite !ebind_query. pose proof Hc as [Hm _ _ Hp].
    destruct (handles_agree _ _ _ _ Hp) as [(h1 & h2 & E1 & E2)|[E1 E2]]; rewrite E1, E2; [|by apply tracks_same].
    rewrite !ebind_query, Hm. destruct (deref _) as [t|e]; [|by apply tracks_same]. by apply Ht.
Qed.
Lemma alike_return_to_depth n : same (coordinator_return_to_depth n) (coordinator_return_to_depth n).
Proof using All.
  unfold coordinator_return_to_depth. apply simulates_bind; [apply alike_assign|intros _].
  apply simulates_bind; [apply alike_on_model|intros _].
  apply simulates_bind; [apply (alike_query (λ p _, Ok (N.of_nat (length (trace p)))))|intros count].
  apply simulates_bind; [unfold assert; destruct (bool_decide _); auto with simulates|intros _].
  apply simulates_bind; [apply (alike_query (λ p _, Ok (trace p)))|intros tr].
  apply simulates_for_each. intros t. apply simulates_bind; [by apply simulates_query|intros t'].
  destruct (alike_executed (get_executor t') (λ _, ret tt) (λ _, ret tt)) as [Hd Ht]; [intros _; apply simulates_ret|]. split.
  - intros c Hc. rewrite ebind_query. destruct (current_process_handle c) as [h|]; [|done]. by apply (Hd h).
  - intros c1 c2 Hc. rewrite !ebind_query.
    destruct (handles_agree _ _ _ _ (al_process _ _ Hc)) as [(h1 & h2 & E1 & E2)|[E1 E2]]; rewrite E1, E2; [|by apply tracks_same].
    by apply Ht.
Qed.
Lemma new_coordinators p registry w1 w2 :
  R None w1 None w2 → tracks alike_link (new_coordinator p registry w1) (new_coordinator p registry w2).
Proof using All. intros Hw. by apply (sm_tracks _ _ _ alike_assign). Qed.

(** ** The restoration of recorded programs *)

Lemma alike_read_recorded recorded threads waiting :
  same (read_recorded recorded threads waiting) (read_recorded recorded threads waiting).
Proof using All.
  revert threads waiting. induction recorded as [|o recorded IH]; intros threads waiting; cbn [read_recorded]; [apply simulates_ret|].
  destruct o; try apply simulates_ret; try apply IH; cbn [translate_recorded_object_to_model];
    (apply simulates_bind; [apply alike_observe_object|intros _; apply IH]).
Qed.
Lemma alike_count : same count_objects count_objects.
Proof. apply (alike_query (λ p _, seq_count (state_seq p))). Qed.
Lemma alike_restore_next tr mailboxes t : same (restore_next_transition tr mailboxes t) (restore_next_transition tr mailboxes t).
Proof using All.
  unfold restore_next_transition. apply simulates_bind.
  { unfold next_transition_of. destruct (recorded_status t); [|apply simulates_ret].
    destruct (get_callback_for _ _); [apply alike_callback|apply simulates_throw]. }
  intros next. apply simulates_bind; [apply alike_count|intros before].
  apply simulates_bind; [by apply simulates_query|intros t'].
  apply simulates_bind; [apply alike_on_model|intros _].
  apply simulates_bind; [apply alike_count|intros after]. simulate.
Qed.
Lemma alike_restore_recorded tr mailboxes recorded : same (restore_recorded tr mailboxes recorded) (restore_recorded tr mailboxes recorded).
Proof using All.
  unfold restore_recorded. apply simulates_bind; [apply alike_read_recorded|intros threads]. cbv zeta.
  apply simulates_bind; apply simulates_for_each || intros _; [intros t|apply simulates_for_each; intros t; apply alike_restore_next].
  unfold observe_recorded. simulate.
Qed.

(** ** The checker *)

(** What a run shows at its end: the reports, the statistics, the stack and the model. *)
Definition shows {W} {H : World W} (o : option (dpor_context (coordinator (W := W)))) :
    option (list event * stats * list stack_item * program) :=
  (λ ctx, (events ctx, model_checking_stats ctx, stack ctx, current_program_model (Dpor.coordinator ctx))) <$> o.
Definition gone_at_end {W} {H : World W} (astray : W → Prop) (o : option (dpor_context (coordinator (W := W)))) : Prop :=
  match o with Some ctx => astray (process_source (Dpor.coordinator ctx)) | None => ∃ w, astray w end.
Definition same_outcome {W W'} {H : World W} {H' : World W'}
    (o1 : res (option unit) * option (dpor_context (coordinator (W := W))))
    (o2 : res (option unit) * option (dpor_context (coordinator (W := W')))) : Prop :=
  o1.1 = o2.1 ∧ shows o1.2 = shows o2.2.
(** The first is blocked, or gone at its end, or both end alike. *)
Definition alike_outcome (o1 : res (option unit) * option (dpor_context (coordinator (W := W1))))
    (o2 : res (option unit) * option (dpor_context (coordinator (W := W2)))) : Prop :=
  may_block ∧ o1.1 = Throw Blocked ∨ gone_at_end gone o1.2 ∨ same_outcome o1 o2.

Lemma verify_alike config fuel cbs c1 c2 : tracks alike_link (Ok tt, c1) (Ok tt, c2) →
  alike_outcome (let '(r, ctx) := verify_using config fuel cbs c1 in (r, Some ctx))
    (let '(r, ctx) := verify_using config fuel cbs c2 in (r, Some ctx)).
Proof using All.
  intros Hc.
  assert (∀ d1 d2, linked alike_link d1 d2 → get_current_program_model d1 = get_current_program_model d2) as Hm by by intros d1 d2 [].
  assert (∀ d1 d2, linked alike_link d1 d2 → get_depth_into_program d1 = get_depth_into_program d2) as Hd.
  { intros d1 d2 Hd%Hm. cbn in *. unfold coordinator_get_depth_into_program. by rewrite Hd. }
  assert (∀ n : N, simulates alike_link (return_to_depth n) (return_to_depth n)) as Hr by (intros n; apply alike_return_to_depth).
  destruct Hc as [[_ ?]|[Hg|[_ Hc]]]; [done|right; left|].
  - pose proof (search_buries alike_link Hm Hd alike_execute_runner Hr config cbs fuel c1 Hg). by destruct (verify_using config fuel cbs c1).
  - pose proof (search_simulates alike_link Hm Hd alike_execute_runner Hr config cbs fuel c1 c2 Hc) as Ht.
    destruct (verify_using config fuel cbs c1) as [r1 ctx1], (verify_using config fuel cbs c2) as [r2 ctx2].
    destruct Ht as [?|[?|[Hres HR]]]; [by left|by right; left|right; right]. split; [exact Hres|].
    destruct HR as [[Hm' _ _ _] Hs Ht He]. cbn in Hs, Ht, He, Hm' |- *. by rewrite Hs, Ht, He, Hm'.
Qed.
(** An effect before that may throw, and the run is over. *)
Lemma then_alike (o1 : res unit * coordinator (W := W1)) (o2 : res unit * coordinator (W := W2)) k1 k2 :
  tracks alike_link o1 o2 →
  (∀ c1 c2, tracks alike_link (Ok tt, c1) (Ok tt, c2) → alike_outcome (k1 c1) (k2 c2)) →
  (∀ c, gone (process_source c) → gone_at_end gone (k1 c).2) →
  alike_outcome (match o1 with (Throw e, _) => (Throw e, None) | (Ok _, c) => k1 c end)
    (match o2 with (Throw e, _) => (Throw e, None) | (Ok _, c) => k2 c end).
Proof using Type.
  intros Ht Hk Hg. destruct o1 as [[[]|e1] c1], o2 as [[[]|e2] c2]; destruct Ht as [[Hb He]|[Hd|[He Hc]]]; cbn in *; try discriminate;
    try (right; left; first [by apply Hg|by eexists]).
  - apply Hk. right. by right.
  - left. by injection He as ->.
  - left. by injection He as ->.
  - right. right. by injection He as ->.
Qed.
Lemma verify_gone config fuel cbs c : gone (process_source c) →
  gone_at_end gone (let '(r, ctx) := verify_using config fuel cbs c in (r, Some ctx)).2.
Proof using All.
  intros Hg. assert (∀ d1 d2, linked alike_link d1 d2 → get_current_program_model d1 = get_current_program_model d2) as Hm by by intros d1 d2 [].
  pose proof (search_buries alike_link Hm) as Hs. destruct (verify_using config fuel cbs c) as [r ctx] eqn:Hv.
  replace ctx with (verify_using config fuel cbs c).2 by by rewrite Hv.
  apply Hs; [|apply alike_execute_runner|intros n; apply alike_return_to_depth|done].
  intros d1 d2 Hd%Hm. cbn in *. unfold coordinator_get_depth_into_program. by rewrite Hd.
Qed.

Lemma checking_simulates config fuel w1 w2 :
  R None w1 None w2 → alike_outcome (do_model_checking config fuel w1) (do_model_checking config fuel w2).
Proof using All.
  intros Hw. unfold do_model_checking. destruct starting_from_main as [p|e]; [|by right; right].
  apply then_alike; [by apply new_coordinators|intros c1 c2; apply verify_alike|intros c; apply verify_gone].
Qed.
Lemma checking_recorded_simulates config fuel w1 w2 recorded mailboxes :
  R None w1 None w2 →
  alike_outcome (do_model_checking_from_dmtcp_ckpt_file config fuel w1 recorded mailboxes)
    (do_model_checking_from_dmtcp_ckpt_file config fuel w2 recorded mailboxes).
Proof using All.
  intros Hw. unfold do_model_checking_from_dmtcp_ckpt_file. destruct default_program as [p|e]; [|by right; right].
  pose proof (alike_restore_recorded default_registry mailboxes recorded) as Hr.
  apply then_alike; [by apply new_coordinators| |].
  - intros c1 c2 Hc. apply then_alike; [|intros d1 d2; apply verify_alike|intros d; apply verify_gone].
    destruct Hc as [[_ ?]|[Hg|[_ Hc]]]; [done|right; left; by apply Hr|by apply Hr].
  - intros c Hg. apply (sm_dead _ _ _ Hr) in Hg. destruct (restore_recorded _ _ _ c) as [[[]|e] d]; [by apply verify_gone|by exists (process_source d)].
Qed.
End checker.
