(* ===== verification/Sequential.v ===== *)
(** * The checker without signals

When no signal arrives at the checker, no process ends but the branches it has killed, and
no fork fails, the processes of [System.v] do what a target does that is run in one piece:
the checker over them comes to the same end as over that target, or the schedule is too short
([system_refines_sequential]). *)

From stdpp Require Import functions gmap.
From stdpp Require Import options.
From S2P Require Import Prelude Signals Transitions StateSequence Program Dependency StackItem Dpor Exploration Mirror.
From S2P Require Import Coordinator Lockstep LinuxProcess ProcessSource TemplateLoop System Restore Simulation.

(** ** The target in one piece *)

(** Its state is what it has executed; a new process has executed nothing. *)
Definition sequential (answer : list runner_id_t → runner_mailbox)
    (memory : list runner_id_t → addr → nat → option (list N)) (mutex_initializer cond_initializer : list N) :
    World (list runner_id_t) := {|
  handle := unit;
  make_new_process _ := (Ok (Some tt), []);
  destroy_process _ w := w;
  process_execute_runner _ r w := (Ok (answer (w ++ [r])), w ++ [r]);
  get_pid _ := 1%Z;
  process_vm_readv w _ a n := memory w a n;
  PTHREAD_MUTEX_INITIALIZER := mutex_initializer;
  PTHREAD_COND_INITIALIZER := cond_initializer;
|}.

(** ** Quiet schedules *)

Section quiet.
Context (multithreaded : bool) (tpid : Z).
Context (answer : list runner_id_t → runner_mailbox) (memory : list runner_id_t → addr → nat → option (list N)).
Context (mutex_initializer cond_initializer : list N).
Abbreviation env_choice := (environment_step multithreaded answer).
Abbreviation launched := (Ok tpid : res Z).
Implicit Types w : system.
Import TemplateLoop(kids, in_phase, wait_request, wait_child, make_process, report, mcmini_process_posts, Loop, Ends, Request).

(** A branch that lives and was not told to die. *)
Record alive (c : Z) w : Prop := Alive {
  av_pid : (0 < c)%Z;
  av_runs : running_in w c;
  av_spared : c ∉ killed w;
}.
(** No signal is at work; the template lives; what it reports is a new branch; its forks
succeeded. *)
Record tame w : Prop := Tame {
  tm_flags : flags (mach w) = 0%N;
  tm_handling : handling (mach w) = 0%N;
  tm_template : ∀ t, template w = Some t → template_alive w = true ∧ template_died t (mach w) = false;
  tm_report : ∀ c, TemplateLoop.pc (tpl w) = report c → alive c w ∧ TemplateLoop.cpid (tpl w) = c;
  tm_child : ∀ c, TemplateLoop.pc (tpl w) = wait_child c → c ≠ (-1)%Z;
}.

Lemma tame_fits w : tame w → fits 1 (mach w).
Proof. intros [Hf _ _ _ _]. unfold fits. by rewrite Hf. Qed.

(** *** What a choice leaves alone *)

Record untouched w w' : Prop := Untouched {
  un_flags : flags (mach w') = flags (mach w);
  un_handling : (handling (mach w') ≤ handling (mach w))%N;
  un_children : children (mach w') = children (mach w);
  un_template : template w' = template w;
  un_alive : template_alive w = true → template_alive w' = true;
  un_killed : killed w' ⊆ killed w;
}.
Lemma untouched_refl w : untouched w w.
Proof. by split. Qed.
Lemma sem_post_children s m : children (sem_post s m).2 = children m.
Proof. apply sem_post_frame. Qed.
Lemma store_untouched p w : untouched w (store p w).
Proof.
  unfold store. split; try done; cbn [mach set_mach]; case_bool_decide; try done; cbn [env_step];
    rewrite ?sem_post_flags, ?sem_post_handling, ?sem_post_children; done.
Qed.
Lemma template_step_untouched e w : untouched w (template_step multithreaded e w).
Proof.
  unfold template_step. destruct (TemplateLoop.step multithreaded e (load w)) as [p|]; [|apply untouched_refl].
  pose proof (store_untouched p w) as [Hf Hh Hc Ht Ha Hk]. destruct e; try by split.
  case_bool_decide; [|by split]. split; try done. cbn. set_solver.
Qed.
Lemma choice_untouched c w : quiet c → untouched w (env_choice c w).
Proof.
  intros Hq. destruct c as [|e| |status|pid r|pid r|pid status|pid| |]; cbn [environment_step]; try done.
  - case_match; [apply template_step_untouched|apply untouched_refl].
  - case_match; [|apply untouched_refl].
    split; try done; cbn [mach set_mach]; rewrite ?sem_post_flags, ?sem_post_handling, ?sem_post_children; done.
  - destruct (branches w !! pid); [|apply untouched_refl]. unfold sem_wait. case_bool_decide; [apply untouched_refl|].
    case_match; [by split|apply untouched_refl].
  - destruct (branches w !! pid); [|apply untouched_refl]. case_match; [|apply untouched_refl].
    split; try done; cbn [mach set_mach set_branch env_step]; rewrite ?sem_post_flags, ?sem_post_handling, ?sem_post_children; done.
  - case_match; [apply template_step_untouched|apply untouched_refl].
  - cbn [env_step]. destruct (handler_step (mach w)) as [-> |[(_ & _ & ->)|(s & _ & _ & ->)]];
      split; try done; cbn [mach set_mach]; rewrite ?sem_post_flags, ?sem_post_handling, ?sem_post_children; cbn; lia || done.
Qed.
Lemma choice_spares c w b : quiet c → b ∉ killed w → env_choice c w = w ∨ harmless b c.
Proof.
  intros Hq Hb. assert (c = branch_dies b ∨ c ≠ branch_dies b) as [-> |Hne].
  { destruct c as [| | | | | | |pid| |]; try by right. destruct (decide (pid = b)) as [-> |]; [by left|right; congruence]. }
  - left. cbn. by rewrite bool_decide_eq_false_2.
  - right. split_and!; [by intros ->|done|]. by intros st ->.
Qed.
Lemma choice_alive c w b : quiet c → alive b w → alive b (env_choice c w).
Proof.
  intros Hq Ha. pose proof Ha as [Hb Hr Hs]. destruct (choice_spares c w b Hq Hs) as [-> |Hh]; [done|].
  split; [done|by apply choice_running|]. intros Hin. by apply Hs, (un_killed _ _ (choice_untouched c w Hq)).
Qed.

(** The template only reports a branch it has just forked. *)
Lemma tpl_store p w : tpl (store p w) = p.
Proof. unfold store. by case_bool_decide. Qed.
Lemma template_step_pc e w :
  e ≠ Request → e ≠ Loop (-1) → let w' := template_step multithreaded e w in
  TemplateLoop.pc (tpl w') = TemplateLoop.pc (tpl w) ∧ TemplateLoop.cpid (tpl w') = TemplateLoop.cpid (tpl w) ∨
  (∃ c, TemplateLoop.pc (tpl w') = report c ∧ alive c w' ∧ TemplateLoop.cpid (tpl w') = c) ∨
  (∃ c, TemplateLoop.pc (tpl w) = report c ∧ TemplateLoop.pc (tpl w') = wait_child c) ∨
  TemplateLoop.pc (tpl w') = wait_request ∨ TemplateLoop.pc (tpl w') = make_process.
Proof.
  intros He Hne. cbv zeta. unfold template_step. destruct (TemplateLoop.step multithreaded e (load w)) as [p|] eqn:Hstep; [|by left].
  destruct e as [|pid status| |pid|pid]; simpl in Hstep; [done|..].
  - case_bool_decide; [|done]. injection Hstep as <-. rewrite !tpl_store. by left.
  - destruct (TemplateLoop.pending (tpl w)); [|done]. case_bool_decide; [|done]. injection Hstep as <-. rewrite !tpl_store. by left.
  - destruct (TemplateLoop.handler (tpl w)) as [[|b|]|]; simpl in Hstep; [| | |done].
    + destruct (kids (tpl w) !! pid) as [[|st]|]; [case_bool_decide; [|done]| |case_bool_decide; [|done]];
        injection Hstep as <-; rewrite !tpl_store; by left.
    + injection Hstep as <-. rewrite !tpl_store. left. by destruct b.
    + injection Hstep as <-. rewrite !tpl_store. by left.
  - right. destruct (TemplateLoop.handler (tpl w)); [done|]. unfold TemplateLoop.loop_step in Hstep. cbn in Hstep.
    destruct (TemplateLoop.pc (tpl w)) as [| |c0|c0].
    + destruct (N.to_nat _); [done|]. injection Hstep as <-. right. right. right. by case_bool_decide; cbn; rewrite ?tpl_store.
    + left. rewrite bool_decide_eq_false_2 in Hstep by congruence. case_match eqn:Hb; [|done].
      apply andb_prop in Hb as [Hpos%bool_decide_eq_true_1 Hk%bool_decide_eq_true_1]. injection Hstep as <-. exists pid.
      rewrite bool_decide_eq_true_2 by (split; [apply lookup_insert_eq|exact Hk]).
      cbn [tpl new_branch set_killed set_branch]. rewrite tpl_store. split; [done|]. split.
      * split; [done| |cbn; by intros [_ Hx%not_elem_of_singleton]%elem_of_difference].
        unfold running_in. cbn [tpl new_branch set_killed set_branch]. rewrite tpl_store. apply lookup_insert_eq.
      * cbn. unfold TemplateLoop.reported_cpid. rewrite bool_decide_eq_false_2; [done|lia].
    + injection Hstep as <-. right. left. exists c0. by case_bool_decide; cbn; rewrite ?tpl_store.
    + destruct (TemplateLoop.sigchld_sem (tpl w)); [done|]. injection Hstep as <-. right. right. left.
      by case_bool_decide; cbn; rewrite ?tpl_store.
Qed.
Lemma tame_choice c w : quiet c → tame w → tame (env_choice c w).
Proof.
  intros Hq Htame. pose proof Htame as [Hf Hh Ht Hr Hc]. pose proof (choice_untouched c w Hq) as [Hf' Hh' Hc' Ht' Ha' Hk'].
  assert ((∀ b, TemplateLoop.pc (tpl (env_choice c w)) = report b → alive b (env_choice c w) ∧ TemplateLoop.cpid (tpl (env_choice c w)) = b) ∧
    ∀ b, TemplateLoop.pc (tpl (env_choice c w)) = wait_child b → b ≠ (-1)%Z) as [Hr' Hch'].
  { assert (∀ b, alive b w → alive b (env_choice c w)) as Hal by (intros b; by apply choice_alive).
    assert (TemplateLoop.pc (tpl (env_choice c w)) = TemplateLoop.pc (tpl w) ∧
        TemplateLoop.cpid (tpl (env_choice c w)) = TemplateLoop.cpid (tpl w) ∨
      ∃ e, e ≠ Request ∧ e ≠ Loop (-1) ∧ env_choice c w = template_step multithreaded e w) as [[Hpc Hcp]|(e & He & Hne & Hs)].
    { clear Hal Hf' Hh' Hc' Ht' Ha' Hk'.
      destruct c as [|e| |status|pid r|pid r|pid status|pid| |]; cbn [environment_step] in *; try done; try by left.
      - case_match eqn:Hg; [|by left]. apply andb_prop in Hg as [_ Hown%bool_decide_eq_true_1].
        right. exists e. split_and!; [by intros ->|by intros -> |done].
      - case_match; by left.
      - destruct (branches w !! pid); [|by left]. destruct (sem_wait _ _); [|by left]. case_match; by left.
      - destruct (branches w !! pid); [|by left]. case_match; by left.
      - case_match; [|by left]. right. by exists (Ends pid (signaled SIGUSR1)). }
    - rewrite Hpc, Hcp. split; [intros b Hb; destruct (Hr b Hb); by split; [apply Hal|]|exact Hc].
    - rewrite Hs in Hal |- *.
      destruct (template_step_pc e w He Hne) as [[-> ->]|[(c0 & -> & Hal0 & Hcp)|[(c0 & Hp0 & ->)|[-> | ->]]]]; try done.
      + split; [intros b Hb; destruct (Hr b Hb); by split; [apply Hal|]|exact Hc].
      + split; [by intros b [= <-]|done].
      + split; [done|]. intros b [= <-]. destruct (Hr c0 Hp0) as [[Hpos _ _] _]. lia. }
  split; [by rewrite Hf'|lia| |done|done].
  intros t. rewrite Ht'. unfold template_died. rewrite Hc'. intros [Ha Hd]%Ht. split; [by apply Ha'|done].
Qed.

(** ** A method in a quiet schedule *)

Lemma run_method_along {P A} (step : P → system → option (P * system)) (result : P → option (res A)) (I : P → system → Prop) :
  (∀ pc w pc' w', I pc w → step pc w = Some (pc', w') → I pc' w') →
  (∀ pc w c, quiet c → I pc w → result pc = None → I pc (env_choice c w)) →
  ∀ l pc w out w', Forall quiet l → I pc w → run_method multithreaded answer step result l pc w = (out, w') →
  ∃ pc' w0 l', I pc' w0 ∧ (result pc' = Some out ∨ out = Throw Blocked) ∧ Forall quiet l' ∧ w' = set_sched l' w0.
Proof using Type.
  intros Hstep Henv l. induction l as [|c l IH]; intros pc w a w' Hl HI; cbn [run_method].
  - destruct (result pc) as [out|] eqn:Hres; intros [= <- <-]; exists pc, w, []; auto.
  - destruct (result pc) as [out|] eqn:Hres; [intros [= <- <-]; exists pc, w, (c :: l); auto|].
    apply Forall_cons in Hl as [Hc Hl].
    assert (run_method multithreaded answer step result l pc (env_choice c w) = (a, w') → ∃ pc' w0 l', I pc' w0 ∧
      (result pc' = Some a ∨ a = Throw Blocked) ∧ Forall quiet l' ∧ w' = set_sched l' w0) as Hgo.
    { apply IH; [done|by apply Henv]. }
    destruct c; try exact Hgo. destruct (step pc w) as [[pc1 w1]|] eqn:Hs; [|exact Hgo]. apply IH; [done|by eapply Hstep].
Qed.

(** A step of the checker that leaves the template and its branches alone. *)
Lemma tame_mach m w : tame w → flags m = 0%N → handling m = 0%N → children m = children (mach w) → tame (set_mach m w).
Proof.
  intros [Hf Hh Ht Hr Hch] Hf' Hh' Hc. split; cbn [mach set_mach]; [done..| | |done].
  - intros t Hpt. unfold template_died. rewrite Hc. by apply Ht.
  - intros c Hpc. destruct (Hr c Hpc) as [[? ? ?] ?]. by split; [split|].
Qed.

Lemma alive_sched c l w : alive c w → alive c (set_sched l w).
Proof. intros [? ? ?]. by split. Qed.
Lemma tame_sched l w : tame w → tame (set_sched l w).
Proof. intros [? ? ? Hr ?]. split; try done. intros c Hc. destruct (Hr c Hc). split; [by apply alive_sched|done]. Qed.

Section execute.
Context (h : Z) (r : runner_id_t) (hist : list runner_id_t).

Definition quietly (pc : execute_pc) w : Prop :=
  executing multithreaded answer h r hist pc w ∧ finishing multithreaded answer h r hist pc w ∧ tame w ∧ alive h w.

Lemma quietly_step pc w pc' w' :
  quietly pc w → on_machine (execute_runner_step h r) pc w = Some (pc', w') → quietly pc' w'.
Proof using Type.
  intros (He & Hf & Ht & Ha) Hs. pose proof (executing_step _ _ h r hist _ _ _ _ He Hs) as [He' Hfl].
  pose proof (finishing_step multithreaded answer h r hist pc w Hf) as Hf'. rewrite Hs in Hf'.
  split; [done|]. split; [done|].
  assert (∃ m, w' = set_mach m w ∧ handling m = handling (mach w) ∧ children m = children (mach w)) as (m & -> & Hh & Hc).
  { unfold on_machine in Hs. destruct pc; simpl in Hs, Hf; try done.
    - injection Hs as <- <-. by eexists.
    - injection Hs as <- <-. by eexists.
    - unfold sem_wait in Hs. case_bool_decide; [done|]. injection Hs as <- <-. by eexists.
    - destruct (try_consume_signal (mach w)) as [b m] eqn:Htry. injection Hs as <- <-. exists m.
      unfold try_consume_signal in Htry. destruct (has_signal (mach w)); injection Htry as <- <-; done. }
  cbn [mach set_mach] in Hfl. pose proof (tm_flags _ Ht) as Hz. rewrite Hz in Hfl. split.
  - apply tame_mach; [done|by apply N.le_0_r|by rewrite Hh, (tm_handling _ Ht)|done].
  - destruct Ha. by split.
Qed.
Lemma quietly_choice pc w c : quiet c → quietly pc w → executed_result pc = None → quietly pc (env_choice c w).
Proof using Type.
  intros Hq (He & Hf & Ht & Ha) Hres. split; [by apply (executing_choice _ _ _ _ _ _ _ _ 0); [|apply tame_fits|]|].
  split; [|by split; [apply tame_choice|apply choice_alive]].
  destruct (choice_spares c w h Hq (av_spared _ _ Ha)) as [-> |Hh]; [done|by apply finishing_choice].
Qed.
(** In a quiet schedule the runner is executed, or the schedule ends. *)
Lemma execute_quietly w l out w' :
  stable multithreaded w → ran w h hist → tame w → alive h w → Forall quiet l →
  run_method multithreaded answer (on_machine (execute_runner_step h r)) executed_result l set_semaphore w = (out, w') →
  out = Throw Blocked ∨ out = Ok (answer (hist ++ [r])) ∧
    stable multithreaded w' ∧ ran w' h (hist ++ [r]) ∧ tame w' ∧ alive h w' ∧ Forall quiet (sched w').
Proof using Type.
  intros (Hs & Hz & Hi & Hn) Hr Ht Ha Hl Hrun.
  assert (quietly set_semaphore w) as Hq.
  { split; [by split_and!|]. split; [|done]. destruct Hs as (s & Hs & Hc & Hle & Hoth).
    pose proof (tm_flags _ Ht) as Hfl. pose proof (tm_handling _ Ht) as Hha.
    split; [|done]. split; try done; [apply Ha|intros s' ->%Hc; done|].
    destruct (decide (model_side_sem r = s)) as [<-|Hne]; [lia|by apply Hoth]. }
  destruct (run_method_along _ _ quietly quietly_step quietly_choice _ _ _ _ _ Hl Hq Hrun)
    as (pc & w0 & l' & (He & Hf & Ht' & Ha') & Hres & Hl' & ->).
  destruct Hres as [Hres|?]; [right|by left]. destruct pc as [| | | | |out']; try done. injection Hres as ->.
  simpl in Hf. rewrite Hf in He. destruct He as (Hn0 & Hs0 & Hz0 & Hb0 & _). split; [done|].
  split; [split; [done|split; [done|split; [by eapply branch_is_idle|done]]]|]. split; [done|].
  split; [by apply tame_sched|]. split; [by apply alive_sched|done].
Qed.
End execute.

(** *** A process is made *)

(** What the template tells the checker is a branch that lives. *)
Lemma store_told p w :
  sems (mach (store p w)) mcmini_process_sem = sems (mach w) mcmini_process_sem ∧ cpid (mach (store p w)) = cpid (mach w) ∨
  mcmini_process_posts p ≠ mcmini_process_posts (tpl w) ∧ cpid (mach (store p w)) = TemplateLoop.cpid p.
Proof.
  unfold store. cbn [mach set_mach]. case_bool_decide; [left|right].
  - split; [|done]. cbn. by rewrite fn_lookup_insert_ne.
  - split; [done|]. cbn [env_step]. by rewrite sem_post_cpid.
Qed.
Lemma template_step_told e w :
  sems (mach (template_step multithreaded e w)) mcmini_process_sem = sems (mach w) mcmini_process_sem ∧
    cpid (mach (template_step multithreaded e w)) = cpid (mach w) ∨
  ∃ c, TemplateLoop.pc (tpl w) = report c ∧ cpid (mach (template_step multithreaded e w)) = TemplateLoop.cpid (tpl w).
Proof.
  unfold template_step. destruct (TemplateLoop.step multithreaded e (load w)) as [p|] eqn:Hstep; [|by left].
  assert (mcmini_process_posts p = mcmini_process_posts (tpl w) ∨
    ∃ c, TemplateLoop.pc (tpl w) = report c ∧ TemplateLoop.cpid p = TemplateLoop.cpid (tpl w)) as Hp.
  { destruct e as [|pid status| |pid|pid]; simpl in Hstep.
    - injection Hstep as <-. by left.
    - case_bool_decide; [|done]. injection Hstep as <-. by left.
    - destruct (TemplateLoop.pending (tpl w)); [|done]. case_bool_decide; [|done]. injection Hstep as <-. by left.
    - destruct (TemplateLoop.handler (tpl w)) as [[|b|]|]; simpl in Hstep; [| | |done].
      + destruct (kids (tpl w) !! pid) as [[|st]|]; [case_bool_decide; [|done]| |case_bool_decide; [|done]];
          injection Hstep as <-; by left.
      + injection Hstep as <-. left. by destruct b.
      + injection Hstep as <-. by left.
    - destruct (TemplateLoop.handler (tpl w)); [done|]. unfold TemplateLoop.loop_step in Hstep. cbn in Hstep.
      destruct (TemplateLoop.pc (tpl w)) as [| |c0|c0].
      + destruct (N.to_nat _); [done|]. injection Hstep as <-. by left.
      + case_bool_decide; [injection Hstep as <-; by left|]. case_match; [|done]. injection Hstep as <-. by left.
      + injection Hstep as <-. right. by exists c0.
      + destruct (TemplateLoop.sigchld_sem (tpl w)); [done|]. injection Hstep as <-. by left. }
  assert (sems (mach (store p w)) mcmini_process_sem = sems (mach w) mcmini_process_sem ∧ cpid (mach (store p w)) = cpid (mach w) ∨
    ∃ c, TemplateLoop.pc (tpl w) = report c ∧ cpid (mach (store p w)) = TemplateLoop.cpid (tpl w)) as Hst.
  { destruct (store_told p w) as [?|[Hne Hc]]; [by left|right]. destruct Hp as [?|(c & Hpc & Hcp)]; [done|].
    exists c. by rewrite Hc. }
  destruct e; try exact Hst. case_bool_decide; exact Hst.
Qed.
Lemma choice_told c w : quiet c → tame w → ready multithreaded w →
  sems (mach (env_choice c w)) mcmini_process_sem = sems (mach w) mcmini_process_sem ∧ cpid (mach (env_choice c w)) = cpid (mach w) ∨
  alive (cpid (mach (env_choice c w))) (env_choice c w).
Proof.
  intros Hq Ht Hr.
  assert (∀ e, env_choice c w = template_step multithreaded e w → sems (mach (env_choice c w)) mcmini_process_sem = sems (mach w) mcmini_process_sem ∧
    cpid (mach (env_choice c w)) = cpid (mach w) ∨ alive (cpid (mach (env_choice c w))) (env_choice c w)) as Htpl.
  { intros e He. destruct (template_step_told e w) as [Hs|(c0 & Hpc & Hs)]; rewrite <- He in Hs; [by left|right].
    destruct (tm_report _ Ht c0 Hpc) as [Ha Hc0]. rewrite Hs, Hc0. by apply choice_alive. }
  destruct c as [|e| |status|pid r|pid r|pid status|pid| |]; try done; try (by left).
  - cbn [environment_step] in *. case_match; [by eapply Htpl|by left].
  - cbn [environment_step]. destruct (template_alive w && multithreaded && negb (announced w)) eqn:Hb; [|by left].
    apply andb_prop in Hb as [[Ha Hm]%andb_prop Hn%negb_true_iff]. specialize (Hr Hm Ha). congruence.
  - left. cbn [environment_step]. destruct (branches w !! pid); [|done]. unfold sem_wait. case_bool_decide; [done|].
    case_match; [|done]. cbn. by rewrite fn_lookup_insert_ne.
  - left. cbn [environment_step]. destruct (branches w !! pid); [|done]. case_match; [|done].
    cbn [mach set_mach set_branch env_step]. by rewrite sem_post_cpid, sem_post_other.
  - cbn [environment_step] in *. case_match; [by eapply Htpl|by left].
  - left. cbn [environment_step mach set_mach env_step]. unfold signal_tracker_sig_handler_post.
    by rewrite bool_decide_eq_true_2 by apply Ht.
Qed.

Definition making (pc : source_pc) w : Prop :=
  sourcing multithreaded pc w ∧ tame w ∧
  match pc with
  | wait_until_ready t | check_template_alive t _ => template w = Some t
  | wait_for_fork => sems (mach w) mcmini_process_sem ≠ 0%N → alive (cpid (mach w)) w
  | check_death_again | read_cpid => alive (cpid (mach w)) w
  | made out => ∃ pid, out = Ok pid ∧ alive pid w
  | _ => True
  end.
Lemma making_choice pc w c : quiet c → making pc w → made_result pc = None → making pc (env_choice c w).
Proof using Type.
  intros Hq (Hs & Ht & Hpc) Hres. split; [by apply (sourcing_choice _ _ _ _ _ 0); [|apply tame_fits|]|].
  split; [by apply tame_choice|]. pose proof (un_template _ _ (choice_untouched c w Hq)) as Htp.
  destruct pc as [| | |t|t acq| | | | | | |out]; try done; try by rewrite Htp.
  - destruct Hs as (a & Ha). intros Hne. destruct (choice_told c w Hq Ht (rq_ready _ _ _ _ Ha)) as [[He ->]|?]; [|done].
    apply choice_alive; [done|]. apply Hpc. by rewrite <- He.
  - destruct Hs as (a & Ha). destruct (choice_told c w Hq Ht (rq_ready _ _ _ _ Ha)) as [[_ ->]|?]; [by apply choice_alive|done].
  - destruct Hs as [(_ & _ & _ & _ & _ & Hrd) _].
    destruct (choice_told c w Hq Ht Hrd) as [[_ ->]|?]; [by apply choice_alive|done].
  - by destruct Hpc as (pid & -> & _).
Qed.
(** A step of the source that only moves its machine. *)
Lemma making_moves t m w : tame w → t = template w → flags m = 0%N → handling m = 0%N → children m = children (mach w) →
  tame (set_mach m (set_template t w)) ∧ ∀ c, alive c w → alive c (set_mach m (set_template t w)).
Proof.
  intros Ht -> Hf Hh Hc. split; [|intros c []; by split].
  apply (tame_mach m (set_template (template w) w)); [|done..]. destruct Ht as [? ? ? Hr ?]. split; try done.
  intros c Hpc. destruct (Hr c Hpc) as [[] ?]. by split; [split|].
Qed.
Lemma making_step pc w pc' w' :
  making pc w → source_step multithreaded launched pc w = Some (pc', w') → making pc' w'.
Proof using Type.
  intros (Hs & Ht & Hpc) Hstep. destruct (sourcing_step _ _ _ _ _ _ Hs Hstep) as [Hs' _]. split; [done|]. clear Hs'.
  pose proof Ht as [Hf Hh Htp _ _]. unfold source_step in Hstep.
  destruct pc as [| | |t|t acq| | | | | | |out]; simpl in Hstep; [..|done].
  - injection Hstep as <- <-. split; [by apply making_moves|]. destruct (template w); [done|]. by destruct multithreaded.
  - injection Hstep as <- <-. split; [by apply making_moves|done].
  - injection Hstep as <- <-. split; [|by destruct multithreaded]. split; [done..| |done|done].
    intros t [= <-]. cbn. unfold template_died. cbn. by rewrite lookup_insert_eq.
  - destruct (sem_wait _ _) as [m|] eqn:Hw; injection Hstep as <- <-.
    + unfold sem_wait in Hw. case_bool_decide; [done|]. injection Hw as <-. split; [by apply making_moves|done].
    + split; [by apply making_moves|done].
  - rewrite (proj2 (Htp t Hpc)) in Hstep. injection Hstep as <- <-. split; [by apply making_moves|by destruct acq].
  - unfold try_consume_signal, has_signal in Hstep. rewrite Hf in Hstep. injection Hstep as <- <-. split; [by apply making_moves|done].
  - injection Hstep as <- <-. split; [by apply making_moves|done].
  - destruct Hs as (Hz & (_ & Hl & _) & Hi & (_ & _ & Hacc)). unfold sem_post in Hstep. rewrite Hl in Hstep. injection Hstep as <- <-.
    split; [by apply making_moves|]. cbn. rewrite fn_lookup_insert_ne by done. intros Hne. lia.
  - destruct (sem_wait _ _) as [m|] eqn:Hw; [|done]. injection Hstep as <- <-. unfold sem_wait in Hw. case_bool_decide as Hz; [done|].
    injection Hw as <-. destruct (making_moves (template w)
      (set_sems (<[mcmini_process_sem := (sems (mach w) mcmini_process_sem - 1)%N]> (sems (mach w))) (mach w)) w Ht) as [Ht' Ha']; [done..|].
    split; [done|]. apply Ha'. by apply Hpc.
  - unfold try_consume_signal, has_signal in Hstep. rewrite Hf in Hstep. injection Hstep as <- <-.
    destruct (making_moves (template w) (mach w) w Ht) as [Ht' Ha']; [done..|]. split; [done|by apply Ha'].
  - injection Hstep as <- <-. destruct (making_moves (template w) (mach w) w Ht) as [Ht' Ha']; [done..|]. split; [done|].
    exists (cpid (mach w)). split; [|by apply Ha']. rewrite bool_decide_eq_false_2; [done|].
    destruct Hpc as [Hpos _ _]. unfold TEMPLATE_FORK_FAILED. lia.
Qed.
(** In a quiet schedule the source gives a branch that lives, or the schedule ends. *)
Lemma make_quietly w l out w' :
  stable multithreaded w → tame w → Forall quiet l →
  run_method multithreaded answer (source_step multithreaded launched) made_result l reset_semaphores w = (out, w') →
  out = Throw Blocked ∨ ∃ pid, out = Ok (Some pid) ∧
    stable multithreaded w' ∧ ran w' pid [] ∧ tame w' ∧ alive pid w' ∧ Forall quiet (sched w').
Proof using Type.
  intros Hst Ht Hl Hrun.
  destruct (run_method_along _ _ making making_step making_choice _ _ _ _ _ Hl
    (conj (Hst : sourcing multithreaded reset_semaphores w) (conj Ht I)) Hrun) as (pc & w0 & l' & (Hs & Ht' & Hpc) & Hres & Hl' & ->).
  destruct Hres as [Hres|?]; [right|by left]. destruct pc as [| | | | | | | | | | |[pid|e]]; try done; [|by destruct Hpc as (? & ? & _)].
  injection Hres as <-. destruct Hpc as (pid' & [= <-] & Ha), Hs as [Hs Hb]. exists pid. split; [done|]. split; [exact Hs|].
  split; [exact Hb|]. split; [by apply tame_sched|]. split; [by apply alive_sched|done].
Qed.

(** ** The simulation *)

#[local] Instance processes : World system := system_World multithreaded launched answer memory mutex_initializer cond_initializer.
#[local] Instance in_one_piece : World (list runner_id_t) := sequential answer memory mutex_initializer cond_initializer.

Record between w : Prop := Between {
  bt_stable : stable multithreaded w;
  bt_tame : tame w;
  bt_quiet : Forall quiet (sched w);
}.
Definition in_step (h : option (handle system)) w (h' : option (handle (list runner_id_t))) (hist : list runner_id_t) : Prop :=
  between w ∧ match h, h' with None, None => True | Some h, Some _ => ran w h hist ∧ alive h w | _, _ => False end.

Lemma between_sched l w : Forall quiet l → between w → between (set_sched l w).
Proof. intros Hl [Hs Ht _]. split; [exact Hs|by apply tame_sched|exact Hl]. Qed.
Lemma destroy_between (h : handle system) w : between w → between (destroy_process h w).
Proof using Type.
  intros Hb. unfold destroy_process. cbn [processes system_World]. unfold call_method.
  destruct (run_method _ _ _ _ _ _ _) as [out w'] eqn:Hrun.
  edestruct (run_method_along (kill_step h) destroyed_result
    (λ pc w, stable multithreaded w ∧ tame w ∧ (pc = kill_process ∨ pc = destroyed))) as (pc & w0 & l & (Hs & Ht & _) & _ & Hl & ->);
    [| |apply Hb|split; [apply Hb|split; [apply Hb|by left]]|exact Hrun|].
  - intros pc w1 pc' w1' (Hs & Ht & [-> | ->]); [|done]. rewrite kill_step_process. intros [= <- <-].
    split; [by case_bool_decide|]. split; [|by right]. case_bool_decide; [|done].
    destruct Ht as [Hf Hh Htp Hr Hch]. split; try done. intros c Hc. destruct Hs as (_ & _ & _ & [_ [Hp|[c' Hp]]] & _); cbn in Hc; congruence.
  - intros pc w1 c Hq (Hs & Ht & Hpc) _. split; [|split; [by apply tame_choice|done]].
    eapply (calm_stable _ _ _ 0); [by apply tame_fits|by apply stable_choice|done].
  - by split; [exact Hs|apply tame_sched|].
Qed.

Lemma quiet_simulation : Simulation system (list runner_id_t) in_step (λ _, False) True.
Proof using Type.
  split; try done.
  - intros [h|] w [h'|] hist [_ Hr]; done.
  - intros w hist [[Hs Ht Hq] _]. cbv zeta. cbn [make_new_process in_one_piece sequential fst snd].
    destruct (make_new_process w) as [out w'] eqn:Hmake.
    destruct (make_quietly w (sched w) out w' Hs Ht Hq Hmake) as [-> |(pid & -> & Hs' & Hr' & Ht' & Ha' & Hq')]; [by left|].
    right. right. split; [by split|by split].
  - intros h w h' hist [Hb _]. split; [by apply destroy_between|done].
  - intros h w h' hist r [[Hs Ht Hq] [Hr Ha]].
    destruct (process_execute_runner h r w) as [out w'] eqn:Hx.
    destruct (execute_quietly h r hist w (sched w) out w' Hs Hr Ht Ha Hq Hx) as [-> |(-> & Hs' & Hr' & Ht' & Ha' & Hq')]; [by left|].
    right. right. split; [done|]. split; [by split|by split].
  - intros h w h' hist [_ [_ Ha]]. cbn. destruct Ha. lia.
  - intros h w h' hist a n [_ [Hr Ha]] _. destruct (Hr h (av_runs _ _ Ha)) as [_ Hb]. cbn. rewrite Hb. simpl.
    unfold branch_running. by rewrite bool_decide_eq_true_2 by apply Ha.
Qed.
Lemma new_system_in_step l : Forall quiet l → in_step None (new_system l) None [].
Proof using Type.
  intros Hl. split; [|done]. split; [|by split|exact Hl].
  split; [by exists mcmini_process_sem|]. split; [done|]. split; [by intros c|]. split; [apply start_at_rest|by split].
Qed.

(** C20: without signals the checker does over the processes what it does over the target run in
one piece.  For every schedule in which no signal arrives, no process ends but the branches
the checker has killed, and no fork fails, whatever the order of the steps: a run of the
checker over the processes is blocked when the schedule ends, or has the result, the reports,
the statistics, the stack and the model that the run over the target in one piece has; the
same for a target that was recorded. *)
Theorem system_refines_sequential config fuel l :
  Forall quiet l →
  (let o1 := do_model_checking config fuel (new_system l) in
   let o2 := do_model_checking config fuel ([] : list runner_id_t) in o1.1 = Throw Blocked ∨ same_outcome o1 o2) ∧
  ∀ recorded mailboxes,
    let o1 := do_model_checking_from_dmtcp_ckpt_file config fuel (new_system l) recorded mailboxes in
    let o2 := do_model_checking_from_dmtcp_ckpt_file config fuel ([] : list runner_id_t) recorded mailboxes in
    o1.1 = Throw Blocked ∨ same_outcome o1 o2.
Proof using Type.
  intros Hl. pose proof (new_system_in_step l Hl) as Hn. pose proof quiet_simulation as Hsim.
  assert (∀ o, gone_at_end (λ _ : system, False) o → False) as Hg by (intros [ctx|]; [done|by intros [? ?]]).
  split; [|intros recorded mailboxes]; cbv zeta.
  - destruct (checking_simulates config fuel _ _ Hn) as [[_ Hb]|[?%Hg|Hs]]; [by left|done|by right].
  - destruct (checking_recorded_simulates config fuel _ _ recorded mailboxes Hn) as [[_ Hb]|[?%Hg|Hs]]; [by left|done|by right].
Qed.

(** ** There is such a schedule *)

(** A method that can return takes a schedule of its own and leaves the rest. *)
Lemma run_method_rest {P A} (step : P → system → option (P * system)) (result : P → option (res A)) l pc w a w' :
  Forall quiet l → run_method multithreaded answer step result l pc w = (Ok a, w') →
  ∃ l1 w1, Forall quiet l1 ∧ ∀ rest, run_method multithreaded answer step result (l1 ++ rest) pc w = (Ok a, set_sched rest w1).
Proof using Type.
  intros Hl. revert pc w. induction Hl as [|c l Hc Hl IH]; intros pc w; cbn [run_method]; destruct (result pc) as [out|] eqn:Hres.
  1,3: intros [= -> _]; exists [], w; split; [done|]; intros rest; destruct rest; cbn [run_method app]; by rewrite Hres.
  - done.
  - intros Hrun.
    assert (∃ pc1 w1, run_method multithreaded answer step result l pc1 w1 = (Ok a, w') ∧
      ∀ l1, run_method multithreaded answer step result (c :: l1) pc w = run_method multithreaded answer step result l1 pc1 w1) as (pc1 & w1 & Hr & Hgo).
    { destruct c; try (eexists _, _; split; [exact Hrun|]; intros l1; cbn [run_method]; by rewrite Hres).
      destruct (step pc w) as [[pc1 w1]|] eqn:Hs; (eexists _, _; split; [exact Hrun|]; intros l1; cbn [run_method]; by rewrite Hres, Hs). }
    destruct (IH pc1 w1 Hr) as (l1 & w2 & Hl1 & Hrest). exists (c :: l1), w2. split; [by constructor|].
    intros rest. cbn [app]. by rewrite Hgo.
Qed.

(** A state between two calls, with the current process and what it has executed; without
one, every branch that still runs was told to die. *)
Definition ready_for (h : option (handle system)) (hist : list runner_id_t) w : Prop :=
  stable multithreaded w ∧ tame w ∧
  match h with Some h => ran w h hist ∧ alive h w | None => ∀ c, running_in w c → c ∈ killed w end.
Lemma ready_for_sched l h hist w : ready_for h hist w → ready_for h hist (set_sched l w).
Proof.
  intros (Hs & Ht & Hh). split; [exact Hs|]. split; [by apply tame_sched|]. destruct h; [|exact Hh].
  destruct Hh. split; [done|by apply alive_sched].
Qed.

Lemma make_can w : ready_for None [] w → returns multithreaded answer (source_step multithreaded launched) made_result (Some 1%Z) reset_semaphores w.
Proof using Type.
  intros (Hst & Ht & Hk). pose proof Ht as [Hf Hh Htp _ Hch]. destruct (template w) as [t|] eqn:Htw.
  - destruct (Htp t eq_refl) as [Ha _]. pose proof Hst as (_ & _ & _ & (Hp & Hpc) & _ & Hrd).
    assert (serving multithreaded w) as Hs by (split; [done|by intros ?; apply Hrd|done|done]).
    destruct Hpc as [Hpc|[c Hpc]]; [by apply (makes_request _ _ _ 1 eq_refl w t)|].
    destruct (decide (kids (tpl w) !! c = Some running_child)) as [Hr|Hr].
    2: { apply (makes_after _ _ _ 1 eq_refl w t c); try done. by apply Hch. }
    destruct (ends_serving multithreaded answer (signaled SIGUSR1) c w Hs Hst Hr) as (Hs' & Hst' & Ht' & Hpc' & Hr').
    apply (returns_env _ _ _ _ _ _ _ (branch_dies c)); [done..|]. cbn [environment_step].
    rewrite bool_decide_eq_true_2 by by apply Hk.
    apply (makes_after _ _ _ 1 eq_refl _ t c); [done|done|by rewrite Ht'|by rewrite Hpc'|by apply Hch|done].
  - by apply (makes_launch _ _ _ 1 eq_refl w tpid).
Qed.
Lemma make_serves w : ready_for None [] w →
  ∃ l w', Forall quiet l ∧ ready_for (Some (1%Z : handle system)) [] w' ∧
    ∀ rest, make_new_process (set_sched (l ++ rest) w) = (Ok (Some (1%Z : handle system)), set_sched rest w').
Proof using Type.
  intros Hr. destruct (make_can w Hr) as (l0 & w0 & Hl0 & Hrun0).
  destruct (run_method_rest _ _ l0 _ _ _ _ Hl0 Hrun0) as (l & w' & Hl & Hrun). exists l, w'. split; [done|].
  assert (∀ rest, make_new_process (set_sched (l ++ rest) w) = (Ok (Some (1%Z : handle system)), set_sched rest w')) as Hmake.
  { intros rest. cbn [make_new_process processes system_World]. unfold call_method. cbn [sched set_sched].
    rewrite run_method_sched by apply source_step_sched. apply Hrun. }
  split; [|exact Hmake]. destruct Hr as (Hst & Ht & _).
  destruct (make_quietly w (l ++ []) _ _ Hst Ht ltac:(by rewrite app_nil_r) (Hrun [])) as [?|(pid & [= <-] & Hs & Hb & Ht' & Ha & _)]; [done|].
  assert (ready_for (Some (1%Z : handle system)) [] (set_sched [] w')) as Hready by by split.
  apply (ready_for_sched (sched w')) in Hready. by destruct w'.
Qed.
Lemma execute_serves (h : handle system) hist r w : ready_for (Some h) hist w →
  ∃ l w', Forall quiet l ∧ ready_for (Some h) (hist ++ [r]) w' ∧
    ∀ rest, process_execute_runner h r (set_sched (l ++ rest) w) = (Ok (answer (hist ++ [r])), set_sched rest w').
Proof using Type.
  intros (Hst & Ht & Hb & Ha). pose proof Hst as ((s & Hs & Hc & Hle & Hoth) & Hz & Hi & Hn).
  assert (finishing multithreaded answer h r hist set_semaphore w) as Hf.
  { pose proof (tm_flags _ Ht) as Hfl. pose proof (tm_handling _ Ht) as Hha.
    split; [|done]. split; try done; [apply Ha|intros s' ->%Hc; done|].
    destruct (decide (model_side_sem r = s)) as [<-|Hne]; [lia|by apply Hoth]. }
  destruct (finish_now _ _ _ _ _ _ _ Hf) as (l0 & w0 & Hl0 & Hrun0).
  destruct (run_method_rest _ _ l0 _ _ _ _ Hl0 Hrun0) as (l & w' & Hl & Hrun). exists l, w'. split; [done|].
  split; [|intros rest; cbn [process_execute_runner processes system_World]; unfold call_method; cbn [sched set_sched];
    rewrite run_method_sched by apply on_machine_sched; apply Hrun].
  destruct (execute_quietly h r hist w (l ++ []) _ _ Hst Hb Ht Ha ltac:(by rewrite app_nil_r) (Hrun [])) as [?|(_ & Hs' & Hb' & Ht' & Ha' & _)]; [done|].
  assert (ready_for (Some h) (hist ++ [r]) (set_sched [] w')) as Hready by by split.
  apply (ready_for_sched (sched w')) in Hready. by destruct w'.
Qed.
Lemma destroy_serves (h : handle system) hist w : ready_for (Some h) hist w →
  ∃ w', ready_for None [] w' ∧ ∀ rest, destroy_process h (set_sched (checker_runs :: rest) w) = set_sched rest w'.
Proof using Type.
  intros (Hst & Ht & Hb & Ha). exists (set_killed ({[h]} ∪ killed w) w). split.
  - split; [exact Hst|]. split; [|intros c Hc; destruct (Hb c Hc) as [-> _]; set_solver].
    destruct Ht as [Hf Hh Htp Hr Hch]. split; try done. intros c Hc. destruct Hst as (_ & _ & _ & [_ [Hp|[c' Hp]]] & _); cbn in Hc; congruence.
  - intros rest. unfold destroy_process. cbn [processes system_World]. unfold call_method. cbn [sched set_sched run_method destroyed_result].
    rewrite kill_step_process, bool_decide_eq_true_2 by apply Ha. by destruct rest.
Qed.

(** The calls a run makes of its processes, latest first. *)
Inductive call := makes_process | executes_runner (r : runner_id_t).
Record noting := Noting { noted_hist : list runner_id_t; noted_calls : list call }.
#[local] Instance noted_in_one_piece : World noting := {|
  handle := unit;
  make_new_process x := (Ok (Some tt), Noting [] (makes_process :: noted_calls x));
  destroy_process _ x := x;
  process_execute_runner _ r x :=
    (Ok (answer (noted_hist x ++ [r])), Noting (noted_hist x ++ [r]) (executes_runner r :: noted_calls x));
  get_pid _ := 1%Z;
  process_vm_readv x _ a n := memory (noted_hist x) a n;
  PTHREAD_MUTEX_INITIALIZER := mutex_initializer;
  PTHREAD_COND_INITIALIZER := cond_initializer;
|}.

(** The schedule lets all of these calls return. *)
Fixpoint serves (cs : list call) (h : option (handle system)) (hist : list runner_id_t) w : Prop :=
  match cs with
  | [] => True
  | makes_process :: cs =>
      ∃ pid w', make_new_process (match h with Some p => destroy_process p w | None => w end) = (Ok (Some pid), w') ∧
        ran w' pid [] ∧ alive pid w' ∧ serves cs (Some pid) [] w'
  | executes_runner r :: cs =>
      match h with
      | Some p => ∃ w', process_execute_runner p r w = (Ok (answer (hist ++ [r])), w') ∧
          ran w' p (hist ++ [r]) ∧ alive p w' ∧ serves cs h (hist ++ [r]) w'
      | None => True
      end
  end.
Lemma serves_exists cs h hist w : ready_for h hist w → ∃ l, Forall quiet l ∧ serves cs h hist (set_sched l w).
Proof using Type.
  revert h hist w. induction cs as [|[|r] cs IH]; intros h hist w Hr; [by exists []| |].
  - assert (∃ l0 w0, Forall quiet l0 ∧ ready_for None [] w0 ∧
      ∀ rest, (match h with Some p => destroy_process p (set_sched (l0 ++ rest) w) | None => set_sched (l0 ++ rest) w end) = set_sched rest w0)
      as (l0 & w0 & Hl0 & Hr0 & He0).
    { destruct h as [p|]; [|by exists [], w]. destruct (destroy_serves p hist w Hr) as (w0 & Hr0 & He0).
      exists [checker_runs], w0. split; [by constructor|]. split; [done|exact He0]. }
    destruct (make_serves w0 Hr0) as (l1 & w1 & Hl1 & Hr1 & He1). destruct (IH (Some 1%Z) [] w1 Hr1) as (l2 & Hl2 & Hs2).
    exists (l0 ++ l1 ++ l2). split; [by rewrite !Forall_app|]. cbn [serves]. exists 1%Z, (set_sched l2 w1).
    rewrite He0, He1. split; [done|]. destruct (ready_for_sched l2 _ _ _ Hr1) as (_ & _ & Hb & Ha). by split_and!.
  - cbn [serves]. destruct h as [p|]; [|by exists []].
    destruct (execute_serves p hist r w Hr) as (l1 & w1 & Hl1 & Hr1 & He1). destruct (IH (Some p) (hist ++ [r]) w1 Hr1) as (l2 & Hl2 & Hs2).
    exists (l1 ++ l2). split; [by rewrite Forall_app|]. exists (set_sched l2 w1).
    rewrite He1. split; [done|]. destruct (ready_for_sched l2 _ _ _ Hr1) as (_ & _ & Hb & Ha). by split_and!.
Qed.

(** The noted run is that of the target in one piece, *)
Definition same_hist (h : option (handle noting)) (w : noting) (h' : option (handle (list runner_id_t))) (hist : list runner_id_t) : Prop :=
  noted_hist w = hist ∧ h = h'.
Lemma noted_simulation : Simulation noting (list runner_id_t) same_hist (λ _, False) False.
Proof using Type.
  split; try done.
  - by intros h w h' hist [_ ->].
  - intros w hist _. right. by right.
  - by intros h w h' hist [? _].
  - intros h w h' hist r [<- Heq]. right. right. split; [done|]. by split.
  - intros h w h' hist a n [<- _] _. done.
Qed.
(** and the processes follow it while it makes the calls that the schedule serves. *)
Definition served (cs : list call) (h : option (handle noting)) (w : noting) (h' : option (handle system)) (w' : system) : Prop :=
  ∃ rest, cs = rev (noted_calls w) ++ rest ∧ serves rest h' (noted_hist w) w' ∧
    match h, h' with None, None => True | Some _, Some p => ran w' p (noted_hist w) ∧ alive p w' | _, _ => False end.
Definition strayed (cs : list call) (w : noting) : Prop := ¬ rev (noted_calls w) `prefix_of` cs.

Lemma stray_next (cs : list call) x calls rest : cs = rev calls ++ rest → (∀ rest', rest ≠ x :: rest') → ¬ rev (x :: calls) `prefix_of` cs.
Proof.
  intros -> Hne [k Hk]. cbn [rev] in Hk. rewrite <- (assoc_L (++)) in Hk. apply (inj (app _)) in Hk. by apply (Hne k).
Qed.
Lemma strays (x : call) calls cs : ¬ rev calls `prefix_of` cs → ¬ rev (x :: calls) `prefix_of` cs.
Proof. intros Hn Hp. apply Hn. etrans; [|exact Hp]. cbn [rev]. by eexists. Qed.
Lemma served_simulation cs : Simulation noting system (served cs) (strayed cs) False.
Proof using Type.
  split; try done.
  - intros [h|] w [h'|] w' (rest & _ & _ & Hm); done.
  - intros w w' (rest & Hcs & Hs & _). right. cbn [make_new_process noted_in_one_piece fst snd noted_calls].
    destruct rest as [|[|r] rest]; [left; by eapply stray_next| |left; by eapply stray_next]. right.
    destruct Hs as (pid & w1 & Hmake & Hb & Ha & Hs). rewrite Hmake. cbn [fst snd]. exists rest. cbn [noted_calls noted_hist rev].
    rewrite <- (assoc_L (++)). by split_and!.
  - intros h w p w' (rest & Hcs & Hs & _). exists rest. split; [done|]. split; [|done].
    destruct rest as [|[|r] rest]; [done|exact Hs|done].
  - intros h w p w' r (rest & Hcs & Hs & _). right. cbn [process_execute_runner noted_in_one_piece fst snd linked dead noted_calls].
    destruct rest as [|[|r'] rest]; [left; by eapply stray_next|left; by eapply stray_next|].
    destruct (decide (r' = r)) as [->|Hne]; [|left; eapply stray_next; [done|congruence]]. right.
    destruct Hs as (w1 & Hx & Hb & Ha & Hs). rewrite Hx. split; [done|]. exists rest. cbn [noted_calls noted_hist rev snd].
    rewrite <- (assoc_L (++)). by split_and!.
  - intros h w p w' (rest & _ & _ & _ & Ha). cbn. destruct Ha. lia.
  - intros h w p w' a n (rest & _ & _ & Hr & Ha) _. destruct (Hr p (av_runs _ _ Ha)) as [_ Hb]. cbn. rewrite Hb. simpl.
    unfold branch_running. by rewrite bool_decide_eq_true_2 by apply Ha.
  - intros w. apply strays.
  - intros h r w. apply strays.
Qed.

Lemma noted_new p registry : new_coordinator p registry (Noting [] []) =
  (Ok tt, mk_coordinator p registry (Some tt : option (handle noting)) (Noting [] [makes_process]) ∅).
Proof. reflexivity. Qed.
(** The run over the noted target ends in a search, or there is no program. *)
Lemma noted_end config fuel :
  (∃ r ctx, do_model_checking config fuel (Noting [] []) = (r, Some ctx)) ∨ ∃ e, starting_from_main = Throw e.
Proof using Type.
  unfold do_model_checking. destruct starting_from_main as [p|e]; [left|by right; exists e]. rewrite noted_new.
  destruct (verify_using _ _ _ _) as [r ctx]. by exists r, ctx.
Qed.

(** C21: there is a schedule for every run.  Whatever the target and however long the search, the
processes can take their steps, without signals, deaths or failed forks, in an order in
which the run of the checker over them comes to the end of the run over the target in one
piece, with the same reports. *)
Theorem some_schedule_completes config fuel :
  ∃ l, Forall quiet l ∧
    same_outcome (do_model_checking config fuel (new_system l)) (do_model_checking config fuel ([] : list runner_id_t)).
Proof using Type.
  destruct (noted_end config fuel) as [(r & ctx & Hend)|[e He]].
  2: { exists []. split; [done|]. unfold do_model_checking. rewrite He. by split. }
  assert (same_outcome (do_model_checking config fuel (Noting [] [])) (do_model_checking config fuel ([] : list runner_id_t))) as [Hr Hshow].
  { pose proof noted_simulation as Hsim.
    destruct (checking_simulates config fuel (Noting [] []) ([] : list runner_id_t)) as [[? _]|[Hg|?]]; [done|done|by rewrite Hend in Hg|done]. }
  set (cs := rev (noted_calls (process_source (Dpor.coordinator ctx)))).
  destruct (serves_exists cs None [] (new_system [])) as (l & Hl & Hs).
  { split; [|split; [by split|by intros c]].
    split; [by exists mcmini_process_sem|]. split; [done|]. split; [by intros c|]. split; [apply start_at_rest|by split]. }
  exists l. split; [done|]. pose proof (served_simulation cs) as Hsim.
  destruct (checking_simulates config fuel (Noting [] []) (new_system l)) as [[? _]|[Hg|[Hr' Hshow']]]; [by exists cs|done| |split; congruence].
  rewrite Hend in Hg. by destruct Hg.
Qed.
End quiet.
