(* ===== verification/Recorder.v ===== *)
(** * The recorder of libmcmini

What the interposition library keeps in the target process ([src/lib/record.c],
[record.h], [objects.h]): its mode, the list of recorded objects, the numbers of the
threads, and the mailbox through which a thread talks to the checker.  A wrapper of
the library is an effect on the state of the thread that runs it ([lib]).

Every call that leaves the library is a [libcall].  Its reply, taken from the state,
gives what it returned and what the other threads of the process did to the shared
state until then ([meanwhile]); a call without a reply blocks the thread.  The log
holds the calls made, in order.  [malloc] is taken to succeed; the annotations for
ThreadSanitizer and log messages are left out. *)

From stdpp Require Import options.
From S2P Require Import Prelude CondPolicy Objects Coordinator ThreadQueue Restore.

(** ** Modes *)

Inductive libmcmini_mode :=
  | PRE_DMTCP_INIT
  | PRE_CHECKPOINT_THREAD
  | EXTERNAL_THREAD
  | RECORD
  | PRE_CHECKPOINT
  | DMTCP_RESTART_INTO_BRANCH
  | DMTCP_RESTART_INTO_TEMPLATE
  | TARGET_TEMPLATE_AFTER_RESTART
  | TARGET_BRANCH_AFTER_RESTART
  | TARGET_TEMPLATE
  | TARGET_BRANCH.
#[export] Instance libmcmini_mode_eq_dec : EqDecision libmcmini_mode.
Proof. solve_decision. Defined.

(** ** Recorded objects *)

Record condition_variable_state := ConditionVariableState {
  status : condition_variable_status;
  interacting_thread : runner_id_t;
  associated_mutex : addr;
  count : Z;
  waiting_threads : option (list entry);  (* NULL before a queue is created *)
  prev_waiting_count : Z;
  lost_wakeups : Z;
}.

(** The union of [visible_object] with its type. *)
Inductive object_state :=
  | mut_state (st : mutex_state) (owner : runner_id_t)
  | sem_state (count : N) (st : semaphore_state)
  | cond_state (c : condition_variable_state)
  | thrd_state (t : recorded_thread).
(** A node of the list; nodes are never removed, so a pointer to one is its position. *)
Record rec_list := RecList { location : addr; vo : object_state }.

(** ** The map of threads *)

(** The semaphores of an entry are named by its thread in the calls. *)
Record pthread_map_t := PthreadMap {
  map_thread : addr;
  map_value : runner_id_t;
  registered_post_restart : bool;
}.

(** ** The state *)

(** What the threads of the process share. *)
Record shared := Shared {
  raw_mode : libmcmini_mode;
  head_record_mode : list rec_list;
  pthread_map : list pthread_map_t;       (* from [head] *)
  tid_next : runner_id_t;
  main_thread_once : bool;
  ckpt_pthread_descriptor : option addr;  (* None before it is recorded *)
}.

(** What leaves the library. *)
Inductive libcall :=
  | lock_rec_list | unlock_rec_list | lock_pthread_map | unlock_pthread_map
  | libpthread_mutex_init (m : addr) | libpthread_mutex_lock (m : addr)
  | libpthread_mutex_timedlock (m : addr) | libpthread_mutex_unlock (m : addr)
  | libpthread_cond_init (c : addr) | libpthread_cond_wait (c m : addr)
  | libpthread_cond_timedwait (c m : addr) | libpthread_cond_signal (c : addr)
  | libpthread_cond_broadcast (c : addr) | libpthread_cond_destroy (c : addr)
  | libpthread_sem_init (s : addr) (pshared : Z) (value : N) | libpthread_sem_destroy (s : addr)
  | libpthread_sem_post (s : addr) | libpthread_sem_wait (s : addr)
  | libpthread_sem_timedwait (s : addr) | sem_getvalue (s : addr)
  | libpthread_pthread_create (attr routine arg : addr)  (* [tsan_or_real_pthread_create] *)
  | libdmtcp_pthread_create (attr routine arg : addr)
  | libpthread_pthread_join (t : addr) | libdmtcp_pthread_join (t : addr) | libpthread_timedjoin_np (t : addr)
  | post_created (arg : addr) | wait_created
  | post_exit_permission (t : addr) | wait_exit_permission (t : addr)
  | post_really_exited (t : addr) | wait_really_exited (t : addr)
  | mc_wake_scheduler (mb : runner_mailbox) | mc_wait_for_scheduler
  | getcontext | notify_template_thread | wait_for_template
  | dmtcp_tsan_background_thread_virtual_tid | libc_sleep (duration : N) | pause
  | run_routine (routine arg : addr) | libpthread_pthread_exit (retval : addr)
  | mc_pthread_is_recreated_thread (t : addr)
  | wait_template_thread_sem | post_template_thread_sem | wait_dmtcp_restart_sem
  | atexit_exit_main_thread | atexit_deallocate | post_mcmini_process (* with [cpid] *)
  | template_thread_loop | template_process_loop                     (* these return in the child *)
  | lock_template_thread | broadcast_template_thread | unlock_template_thread
  | getenv_needs_state | getenv_template_loop | mkfifo | open_fifo | write_fifo (o : visible_object) | close_fifo
  | skip_post_restart_checkpoint_loop | shm_open | ftruncate | mmap | default_sigsegv | block_sigchld
  | dmtcp_is_enabled | prevent_addr_randomization.

Record reply := Reply {
  rc : Z;
  errno : Z;                       (* or the value the call stores *)
  meanwhile : shared → shared;
}.

(** The state of one thread inside the library. *)
Record lib := Lib {
  sh : shared;
  self : addr;                                  (* pthread_self() *)
  tid_self : runner_id_t;
  tsan_internal : bool;                         (* mc_is_current_thread_tsan_internal() *)
  ckpt_window_candidate : option Z;             (* the virtual tid of a candidate *)
  creating_internal_thread : bool;
  mailbox : runner_mailbox;
  log : list libcall;
  replies : list reply;
}.

Definition set_shared (x : shared) (s : lib) : lib :=
  Lib x (self s) (tid_self s) (tsan_internal s) (ckpt_window_candidate s) (creating_internal_thread s)
    (mailbox s) (log s) (replies s).
Definition set_tid_self (r : runner_id_t) (s : lib) : lib :=
  Lib (sh s) (self s) r (tsan_internal s) (ckpt_window_candidate s) (creating_internal_thread s)
    (mailbox s) (log s) (replies s).
Definition set_candidate (c : option Z) (s : lib) : lib :=
  Lib (sh s) (self s) (tid_self s) (tsan_internal s) c (creating_internal_thread s) (mailbox s) (log s) (replies s).
Definition set_mailbox (mb : runner_mailbox) (s : lib) : lib :=
  Lib (sh s) (self s) (tid_self s) (tsan_internal s) (ckpt_window_candidate s) (creating_internal_thread s)
    mb (log s) (replies s).
Definition set_log (l : list libcall) (s : lib) : lib :=
  Lib (sh s) (self s) (tid_self s) (tsan_internal s) (ckpt_window_candidate s) (creating_internal_thread s)
    (mailbox s) l (replies s).
Definition set_replies (l : list reply) (s : lib) : lib :=
  Lib (sh s) (self s) (tid_self s) (tsan_internal s) (ckpt_window_candidate s) (creating_internal_thread s)
    (mailbox s) (log s) l.

Definition set_raw_mode (m : libmcmini_mode) (x : shared) : shared :=
  Shared m (head_record_mode x) (pthread_map x) (tid_next x) (main_thread_once x) (ckpt_pthread_descriptor x).
Definition set_records (l : list rec_list) (x : shared) : shared :=
  Shared (raw_mode x) l (pthread_map x) (tid_next x) (main_thread_once x) (ckpt_pthread_descriptor x).
Definition set_pthread_map (l : list pthread_map_t) (x : shared) : shared :=
  Shared (raw_mode x) (head_record_mode x) l (tid_next x) (main_thread_once x) (ckpt_pthread_descriptor x).
Definition set_tid_next (r : runner_id_t) (x : shared) : shared :=
  Shared (raw_mode x) (head_record_mode x) (pthread_map x) r (main_thread_once x) (ckpt_pthread_descriptor x).
Definition set_ckpt_descriptor (t : option addr) (x : shared) : shared :=
  Shared (raw_mode x) (head_record_mode x) (pthread_map x) (tid_next x) (main_thread_once x) t.
Definition set_main_once (x : shared) : shared :=
  Shared (raw_mode x) (head_record_mode x) (pthread_map x) (tid_next x) true (ckpt_pthread_descriptor x).

Definition modify_lib (f : lib → lib) : eff lib unit := λ s, (Ok tt, f s).
Definition modify_shared (f : shared → shared) : eff lib unit := modify_lib (λ s, set_shared (f (sh s)) s).
Definition assert_ (b : bool) : eff lib unit := if b then ret tt else throw AssertionFailed.
Definition libc_abort {A} : eff lib A := throw AbortCalled.

Definition call_full (c : libcall) : eff lib (Z * Z) := λ s,
  let s := set_log (log s ++ [c]) s in
  match replies s with
  | [] => (Throw Blocked, s)
  | r :: rs => (Ok (rc r, errno r), set_replies rs (set_shared (meanwhile r (sh s)) s))
  end.
Definition call (c : libcall) : eff lib Z := let! r := call_full c in ret r.1.
(** A call whose result is not looked at. *)
Definition call_ (c : libcall) : eff lib unit := do! call_full c in ret tt.

(** A loop that makes a call in each turn: it cannot turn more often than there are
replies, and is blocked when they are used up. *)
Fixpoint loop {A} (fuel : nat) (body : eff lib (option A)) : eff lib A :=
  match fuel with
  | O => throw LoopBound
  | S fuel => let! r := body in match r with Some a => ret a | None => loop fuel body end
  end.
Definition while_true {A} (body : eff lib (option A)) : eff lib A := λ s, loop (S (length (replies s))) body s.

(** ** The list of records *)

Definition find_object (a : addr) (l : list rec_list) : option nat := fst <$> list_find (λ e, location e = a) l.
Definition is_thread_record (t : addr) (e : rec_list) : Prop :=
  match vo e with thrd_state d => pthread_desc d = t | _ => False end.
#[export] Instance is_thread_record_dec t e : Decision (is_thread_record t e).
Proof. unfold is_thread_record. destruct (vo e); apply _. Defined.
Definition find_thread (t : addr) (l : list rec_list) : option nat := fst <$> list_find (is_thread_record t) l.

Definition find_object_record_mode (a : addr) : eff lib (option nat) :=
  query (λ s, Ok (find_object a (head_record_mode (sh s)))).
Definition find_thread_record_mode (t : addr) : eff lib (option nat) :=
  query (λ s, Ok (find_thread t (head_record_mode (sh s)))).
Definition add_rec_entry_record_mode (e : rec_list) : eff lib nat :=
  let! s := get in
  do! modify_shared (set_records (head_record_mode (sh s) ++ [e])) in
  ret (length (head_record_mode (sh s))).
(** [mc_ts_alloc] instead of [malloc]. *)
Definition add_rec_entry_record_mode_ts : rec_list → eff lib nat := add_rec_entry_record_mode.

(** [record->vo]. *)
Definition read_record (i : nat) : eff lib object_state :=
  query (λ s, match head_record_mode (sh s) !! i with Some e => Ok (vo e) | None => Throw UB end).
Definition write_record (i : nat) (o : object_state) : eff lib unit :=
  modify_shared (λ x, set_records (alter (λ e, RecList (location e) o) i (head_record_mode x)) x).

(** The record of an object, added first when there is none. *)
Definition find_or_add (a : addr) (fresh : eff lib object_state) : eff lib nat :=
  let! found := find_object_record_mode a in
  match found with
  | Some i => ret i
  | None => let! o := fresh in add_rec_entry_record_mode (RecList a o)
  end.

(** ** Modes and threads *)

Definition set_current_mode (m : libmcmini_mode) : eff lib unit := modify_shared (set_raw_mode m).
Definition record_checkpoint_thread : eff lib unit :=
  do! modify_lib (set_tid_self 65534) in                 (* RID_CHECKPOINT_THREAD *)
  do! modify_lib (λ s, set_shared (set_ckpt_descriptor (Some (self s)) (sh s)) s) in
  set_current_mode RECORD.

Definition resolve_ckpt_window_candidate_if_pending : eff lib unit :=
  let! s := get in
  match ckpt_window_candidate s with
  | None => ret tt
  | Some virtual_tid =>
      do! modify_lib (set_candidate None) in
      let! tsan_bg_virtual_tid := while_true (let! tid := call dmtcp_tsan_background_thread_virtual_tid in
                                              ret (if bool_decide (tid = (-1)%Z) then None else Some tid)) in
      if bool_decide (tsan_bg_virtual_tid ≠ virtual_tid) then record_checkpoint_thread else ret tt
  end.

Definition is_checkpoint_thread (s : lib) : bool := bool_decide (ckpt_pthread_descriptor (sh s) = Some (self s)).
(** What [get_current_mode] returns once the candidate is resolved. *)
Definition current_mode (s : lib) : libmcmini_mode :=
  if is_checkpoint_thread s then EXTERNAL_THREAD
  else match raw_mode (sh s) with
       | (TARGET_BRANCH | TARGET_BRANCH_AFTER_RESTART | DMTCP_RESTART_INTO_BRANCH | DMTCP_RESTART_INTO_TEMPLATE) as m =>
           if tsan_internal s then EXTERNAL_THREAD else m
       | m => m
       end.
Definition get_current_mode : eff lib libmcmini_mode :=
  do! resolve_ckpt_window_candidate_if_pending in query (λ s, Ok (current_mode s)).
Definition is_restart_mode (m : libmcmini_mode) : bool :=
  match m with DMTCP_RESTART_INTO_BRANCH | DMTCP_RESTART_INTO_TEMPLATE => true | _ => false end.
Definition is_in_restart_mode : eff lib bool := let! m := get_current_mode in ret (is_restart_mode m).

Definition find_pthread_map_entry (t : addr) : eff lib (option pthread_map_t) :=
  do! call_ lock_pthread_map in
  let! found := query (λ s, Ok (snd <$> list_find (λ e, map_thread e = t) (pthread_map (sh s)))) in
  do! call_ unlock_pthread_map in
  ret found.
Definition search_pthread_map (t : addr) : eff lib runner_id_t :=
  let! e := find_pthread_map_entry t in
  ret (match e with None => RID_INVALID | Some e => map_value e end).
Definition insert_pthread_map (t : addr) (v : runner_id_t) : eff lib unit :=
  do! call_ lock_pthread_map in
  let! m := get_current_mode in
  do! modify_shared (λ x, set_pthread_map
        (PthreadMap t v (bool_decide (m = TARGET_BRANCH_AFTER_RESTART)) :: pthread_map x) x) in
  call_ unlock_pthread_map.
(** [tid_next] is a [uint16_t], read and incremented under a lock of its own. *)
Definition mc_register_this_thread : eff lib runner_id_t :=
  let! s := get in
  do! modify_lib (set_tid_self (tid_next (sh s))) in
  do! modify_shared (set_tid_next (u16 (tid_next (sh s) + 1))) in
  do! insert_pthread_map (self s) (tid_next (sh s)) in
  query (λ s, Ok (tid_self s)).

(** ** The mailbox *)

Definition thread_get_mailbox : eff lib unit :=
  let! s := get in
  do! assert_ (negb (is_checkpoint_thread s)) in
  do! assert_ (bool_decide (tid_self s ≠ RID_INVALID)) in
  assert_ (bool_decide (tid_self s ≠ 65534%N)).
Definition set_type (ty : N) : eff lib unit :=
  modify_lib (λ s, set_mailbox (RunnerMailbox ty (cnts (mailbox s))) s).
(** [memcpy_v] into the payload. *)
Definition write_cnts (off : nat) (bytes : list N) : eff lib unit :=
  modify_lib (λ s, set_mailbox (RunnerMailbox (type (mailbox s))
    (take off (cnts (mailbox s)) ++ bytes ++ drop (off + length bytes) (cnts (mailbox s)))) s).

Definition EINTR : Z := 4.
Definition EINVAL : Z := 22.
Definition ETIMEDOUT : Z := 110.

Definition wait_for_scheduler : eff lib unit :=
  let! err := while_true (let! r := call_full mc_wait_for_scheduler in
                          ret (if bool_decide (r.1 ≠ 0%Z ∧ r.2 = EINTR) then None else Some r.2)) in
  assert_ (bool_decide (err ≠ EINVAL)).
Definition wake_scheduler : eff lib (Z * Z) := λ s, call_full (mc_wake_scheduler (mailbox s)) s.

Definition thread_wake_scheduler_and_wait : eff lib unit :=
  do! thread_get_mailbox in
  let! wake := wake_scheduler in
  do! assert_ (bool_decide (wake.1 = 0%Z)) in
  do! assert_ (bool_decide (wake.2 = 0%Z)) in
  wait_for_scheduler.
Definition thread_await_scheduler : eff lib unit := do! thread_get_mailbox in wait_for_scheduler.
Definition thread_awake_scheduler_for_thread_finish_transition : eff lib unit :=
  do! thread_get_mailbox in do! wake_scheduler in ret tt.
Definition thread_block_indefinitely {A} : eff lib A := while_true (do! call_ pause in ret None).

(** [thread_handle_after_dmtcp_restart] of [dmtcp-callback.c].  The process may be
forked at [getcontext]: its reply is 0 in the process that made the call.
[wait_for_template] is the wait on [template_thread_cond] with its lock. *)
Definition thread_handle_after_dmtcp_restart : eff lib unit :=
  let! mode_on_entry := get_current_mode in
  let! forked := call getcontext in
  do! (if bool_decide (forked = 0%Z) then call_ notify_template_thread else ret tt) in
  do! match mode_on_entry with
      | DMTCP_RESTART_INTO_TEMPLATE =>
          while_true (let! m := get_current_mode in
                      if bool_decide (m = TARGET_BRANCH_AFTER_RESTART) then ret (Some tt)
                      else do! call_ wait_for_template in ret None)
      | DMTCP_RESTART_INTO_BRANCH => ret tt
      | _ => libc_abort
      end in
  thread_await_scheduler.

(** The thread asks the checker to let it run the operation in its mailbox. *)
Definition handle_restart_or_wait : eff lib unit :=
  let! b := is_in_restart_mode in
  if b then thread_handle_after_dmtcp_restart else thread_wake_scheduler_and_wait.

Definition bytes_of (a : addr) : list N := le_bytes 8 a.
