(* ===== verification/Wrappers.v ===== *)
(** * Wrappers of synchronisation operations

The functions of [src/lib/wrappers.c] and [src/lib/sem-wrappers.c] that stand in for
operations on mutexes, semaphores and condition variables.  Each dispatches on the
mode: it forwards the call, records it, or hands it to the checker, as an effect on
the state of [Recorder.v].  The queues of condition variables are the lists of
[ThreadQueue.v], whose refinement covers the operations used here. *)

From stdpp Require Import options.
From S2P Require Import Prelude CondPolicy Objects Coordinator ThreadQueue Restore Recorder.

(** ** Handing an operation to the checker *)

(** The mailbox is filled, then the thread waits to be run. *)
Definition fill_mailbox (ty : N) (payload : list N) : eff lib unit :=
  do! thread_get_mailbox in do! set_type ty in write_cnts 0 payload.

(** ** Mutexes *)

Definition update_mutex (i : nat) (f : mutex_state → runner_id_t → object_state) : eff lib unit :=
  do! call_ lock_rec_list in
  let! o := read_record i in
  do! match o with mut_state st owner => write_record i (f st owner) | _ => throw UB end in
  call_ unlock_rec_list.
Definition find_mutex_record (mutex : addr) : eff lib nat :=
  do! call_ lock_rec_list in
  let! i := find_or_add mutex (ret (mut_state mutex_uninitialized RID_INVALID)) in
  do! call_ unlock_rec_list in
  ret i.

(** [normal] is the assertion on the attribute's type. *)
Definition mc_pthread_mutex_init (mutex : addr) (normal : bool) : eff lib Z :=
  do! assert_ normal in
  let! mode := get_current_mode in
  match mode with
  | PRE_DMTCP_INIT | PRE_CHECKPOINT_THREAD | EXTERNAL_THREAD => call (libpthread_mutex_init mutex)
  | RECORD | PRE_CHECKPOINT =>
      let! mutex_record := find_mutex_record mutex in
      let! rc := call (libpthread_mutex_init mutex) in
      do! (if bool_decide (rc = 0%Z)
           then update_mutex mutex_record (λ _ owner, mut_state mutex_unlocked owner) else ret tt) in
      ret rc
  | DMTCP_RESTART_INTO_BRANCH | DMTCP_RESTART_INTO_TEMPLATE =>
      do! fill_mailbox MUTEX_INIT_TYPE (bytes_of mutex) in
      do! thread_handle_after_dmtcp_restart in
      call (libpthread_mutex_init mutex)
  | TARGET_BRANCH | TARGET_BRANCH_AFTER_RESTART =>
      do! fill_mailbox MUTEX_INIT_TYPE (bytes_of mutex) in
      do! thread_wake_scheduler_and_wait in
      call (libpthread_mutex_init mutex)
  | TARGET_TEMPLATE | TARGET_TEMPLATE_AFTER_RESTART => libc_abort
  end.

(** The case [DMTCP_RESTART_INTO_BRANCH], into which the loop of RECORD falls. *)
Definition lock_after_restart (mutex : addr) : eff lib Z :=
  do! fill_mailbox MUTEX_LOCK_TYPE (bytes_of mutex) in
  do! thread_handle_after_dmtcp_restart in
  call (libpthread_mutex_lock mutex).

(** One turn of a loop that retries a timed call: [None] to go round again, [Some None]
to leave the loop, [Some (Some rc)] to return. *)
Definition retry (timed : libcall) (succeeded : eff lib unit) : eff lib (option (option Z)) :=
  let! rc := call timed in
  if bool_decide (rc = 0%Z) then do! succeeded in ret (Some (Some rc))
  else if bool_decide (rc = ETIMEDOUT) then
    let! restarted := is_in_restart_mode in
    ret (if restarted then Some None else None)
  else ret (Some (Some rc)).

Definition mc_pthread_mutex_lock (mutex : addr) : eff lib Z :=
  let! mode := get_current_mode in
  match mode with
  | PRE_DMTCP_INIT | PRE_CHECKPOINT_THREAD | EXTERNAL_THREAD => call (libpthread_mutex_lock mutex)
  | RECORD | PRE_CHECKPOINT =>
      let! mutex_record := find_mutex_record mutex in
      let! left := while_true (retry (libpthread_mutex_timedlock mutex)
        (let! s := get in update_mutex mutex_record (λ _ _, mut_state mutex_locked (tid_self s)))) in
      match left with
      | Some rc => ret rc
      | None => lock_after_restart mutex
      end
  | DMTCP_RESTART_INTO_BRANCH | DMTCP_RESTART_INTO_TEMPLATE => lock_after_restart mutex
  | TARGET_BRANCH | TARGET_BRANCH_AFTER_RESTART =>
      do! fill_mailbox MUTEX_LOCK_TYPE (bytes_of mutex) in
      do! thread_wake_scheduler_and_wait in
      call (libpthread_mutex_lock mutex)
  | TARGET_TEMPLATE | TARGET_TEMPLATE_AFTER_RESTART => libc_abort
  end.

Definition mc_pthread_mutex_unlock (mutex : addr) : eff lib Z :=
  let! mode := get_current_mode in
  match mode with
  | PRE_DMTCP_INIT | PRE_CHECKPOINT_THREAD | EXTERNAL_THREAD => call (libpthread_mutex_unlock mutex)
  | RECORD | PRE_CHECKPOINT =>
      do! call_ lock_rec_list in
      let! mutex_record := find_object_record_mode mutex in
      match mutex_record with
      | None => libc_abort
      | Some mutex_record =>
          do! call_ unlock_rec_list in
          let! rc := call (libpthread_mutex_unlock mutex) in
          do! (if bool_decide (rc = 0%Z)
               then update_mutex mutex_record (λ _ _, mut_state mutex_unlocked RID_INVALID) else ret tt) in
          ret rc
      end
  | DMTCP_RESTART_INTO_BRANCH | DMTCP_RESTART_INTO_TEMPLATE =>
      do! fill_mailbox MUTEX_UNLOCK_TYPE (bytes_of mutex) in
      do! thread_handle_after_dmtcp_restart in
      call (libpthread_mutex_unlock mutex)
  | TARGET_BRANCH | TARGET_BRANCH_AFTER_RESTART =>
      do! fill_mailbox MUTEX_UNLOCK_TYPE (bytes_of mutex) in
      do! thread_wake_scheduler_and_wait in
      call (libpthread_mutex_unlock mutex)
  | TARGET_TEMPLATE | TARGET_TEMPLATE_AFTER_RESTART => libc_abort
  end.

(** ** Semaphores *)

(** A semaphore met for the first time: its record, and for [sem_post] and [sem_wait]
its current value ([sem_getvalue] is asked). *)
Definition fresh_semaphore : eff lib object_state := ret (sem_state 0 sem_uninitialized).
Definition current_semaphore (sem : addr) : eff lib object_state :=
  let! count := call (sem_getvalue sem) in ret (sem_state (u32_of_int count) sem_initialized).
Definition find_semaphore_record (sem : addr) (fresh : eff lib object_state) : eff lib nat :=
  do! call_ lock_rec_list in
  let! i := find_or_add sem fresh in
  do! call_ unlock_rec_list in
  ret i.
(** The whole object is replaced; the record is looked up again. *)
Definition replace_semaphore (sem : addr) (o : object_state) : eff lib unit :=
  do! call_ lock_rec_list in
  let! found := find_object_record_mode sem in
  do! match found with Some i => write_record i o | None => throw AssertionFailed end in
  call_ unlock_rec_list.
(** [count] is [unsigned]. *)
Definition add_to_count (i : nat) (d : Z) : eff lib unit :=
  do! call_ lock_rec_list in
  let! o := read_record i in
  do! match o with
      | sem_state count st => write_record i (sem_state (u32_of_int (Z.of_N count + d)) st)
      | _ => throw UB
      end in
  call_ unlock_rec_list.

Definition mc_sem_init (sem : addr) (p : Z) (count : N) : eff lib Z :=
  do! assert_ (bool_decide (p = 0%Z)) in
  let! mode := get_current_mode in
  match mode with
  | PRE_DMTCP_INIT | PRE_CHECKPOINT_THREAD | EXTERNAL_THREAD => call (libpthread_sem_init sem p count)
  | RECORD | PRE_CHECKPOINT =>
      do! find_semaphore_record sem fresh_semaphore in
      let! rc := call (libpthread_sem_init sem p count) in
      do! (if bool_decide (rc = 0%Z) then replace_semaphore sem (sem_state count sem_initialized) else ret tt) in
      ret rc
  | TARGET_BRANCH | TARGET_BRANCH_AFTER_RESTART | DMTCP_RESTART_INTO_BRANCH | DMTCP_RESTART_INTO_TEMPLATE =>
      do! fill_mailbox SEM_INIT_TYPE (bytes_of sem ++ le_bytes 4 count) in
      do! handle_restart_or_wait in
      call (libpthread_sem_init sem p count)
  | TARGET_TEMPLATE | TARGET_TEMPLATE_AFTER_RESTART => libc_abort
  end.

Definition mc_sem_destroy (sem : addr) : eff lib Z :=
  let! mode := get_current_mode in
  match mode with
  | PRE_DMTCP_INIT | PRE_CHECKPOINT_THREAD | EXTERNAL_THREAD => call (libpthread_sem_destroy sem)
  | RECORD | PRE_CHECKPOINT =>
      do! find_semaphore_record sem fresh_semaphore in
      let! rc := call (libpthread_sem_destroy sem) in
      do! (if bool_decide (rc = 0%Z) then replace_semaphore sem (sem_state 0 sem_destroyed) else ret tt) in
      ret rc
  | TARGET_BRANCH | TARGET_BRANCH_AFTER_RESTART | DMTCP_RESTART_INTO_BRANCH | DMTCP_RESTART_INTO_TEMPLATE =>
      do! fill_mailbox SEM_DESTROY_TYPE (bytes_of sem) in
      do! handle_restart_or_wait in
      call (libpthread_sem_destroy sem)
  | TARGET_TEMPLATE | TARGET_TEMPLATE_AFTER_RESTART => libc_abort
  end.

Definition mc_sem_post (sem : addr) : eff lib Z :=
  let! mode := get_current_mode in
  match mode with
  | PRE_DMTCP_INIT | PRE_CHECKPOINT_THREAD | EXTERNAL_THREAD => call (libpthread_sem_post sem)
  | RECORD | PRE_CHECKPOINT =>
      let! sem_record := find_semaphore_record sem (current_semaphore sem) in
      let! rc := call (libpthread_sem_post sem) in
      do! (if bool_decide (rc = 0%Z) then add_to_count sem_record 1 else ret tt) in
      ret rc
  | TARGET_BRANCH | TARGET_BRANCH_AFTER_RESTART | DMTCP_RESTART_INTO_BRANCH | DMTCP_RESTART_INTO_TEMPLATE =>
      do! fill_mailbox SEM_POST_TYPE (bytes_of sem) in
      do! handle_restart_or_wait in
      call (libpthread_sem_post sem)
  | TARGET_TEMPLATE | TARGET_TEMPLATE_AFTER_RESTART => libc_abort
  end.

(** Once the checker lets the wait proceed, the code posts the semaphore. *)
Definition sem_wait_under_checker (sem : addr) : eff lib Z :=
  do! fill_mailbox SEM_WAIT_TYPE (bytes_of sem) in
  do! handle_restart_or_wait in
  call (libpthread_sem_post sem).
Definition mc_sem_wait (sem : addr) : eff lib Z :=
  let! mode := get_current_mode in
  match mode with
  | PRE_DMTCP_INIT | PRE_CHECKPOINT_THREAD | EXTERNAL_THREAD => call (libpthread_sem_wait sem)
  | RECORD | PRE_CHECKPOINT =>
      let! sem_record := find_semaphore_record sem (current_semaphore sem) in
      let! left := while_true (retry (libpthread_sem_timedwait sem) (add_to_count sem_record (-1))) in
      match left with
      | Some rc => ret rc
      | None => sem_wait_under_checker sem
      end
  | TARGET_BRANCH | TARGET_BRANCH_AFTER_RESTART | DMTCP_RESTART_INTO_BRANCH | DMTCP_RESTART_INTO_TEMPLATE =>
      sem_wait_under_checker sem
  | TARGET_TEMPLATE | TARGET_TEMPLATE_AFTER_RESTART => libc_abort
  end.

(** ** Condition variables *)

Definition read_cond (i : nat) : eff lib condition_variable_state :=
  let! o := read_record i in match o with cond_state c => ret c | _ => throw UB end.
Definition update_cond (i : nat) (f : condition_variable_state → condition_variable_state) : eff lib unit :=
  let! c := read_cond i in write_record i (cond_state (f c)).

Definition set_status (st : condition_variable_status) (c : condition_variable_state) : condition_variable_state :=
  ConditionVariableState st (interacting_thread c) (associated_mutex c) (count c) (waiting_threads c)
    (prev_waiting_count c) (lost_wakeups c).
Definition set_interacting_thread (r : runner_id_t) (c : condition_variable_state) : condition_variable_state :=
  ConditionVariableState (status c) r (associated_mutex c) (count c) (waiting_threads c)
    (prev_waiting_count c) (lost_wakeups c).
Definition set_associated_mutex (m : addr) (c : condition_variable_state) : condition_variable_state :=
  ConditionVariableState (status c) (interacting_thread c) m (count c) (waiting_threads c)
    (prev_waiting_count c) (lost_wakeups c).
Definition set_count (z : Z) (c : condition_variable_state) : condition_variable_state :=
  ConditionVariableState (status c) (interacting_thread c) (associated_mutex c) z (waiting_threads c)
    (prev_waiting_count c) (lost_wakeups c).
Definition set_waiting_threads (l : list entry) (c : condition_variable_state) : condition_variable_state :=
  ConditionVariableState (status c) (interacting_thread c) (associated_mutex c) (count c) (Some l)
    (prev_waiting_count c) (lost_wakeups c).
Definition set_prev_waiting_count (z : Z) (c : condition_variable_state) : condition_variable_state :=
  ConditionVariableState (status c) (interacting_thread c) (associated_mutex c) (count c) (waiting_threads c)
    z (lost_wakeups c).
Definition add_lost_wakeup (c : condition_variable_state) : condition_variable_state :=
  ConditionVariableState (status c) (interacting_thread c) (associated_mutex c) (count c) (waiting_threads c)
    (prev_waiting_count c) (lost_wakeups c + 1).

(** An operation on the queue of a record; a missing queue is a null pointer. *)
Definition queue_of (i : nat) : eff lib (list entry) :=
  let! c := read_cond i in query (λ _, deref (waiting_threads c)).
Definition on_queue (i : nat) (op : queue_op) : eff lib value :=
  let! l := queue_of i in
  let '(r, l', _) := spec_op op l in
  do! update_cond i (set_waiting_threads l') in
  query (λ _, r).

(** The record of the calling thread, dereferenced. *)
Definition this_thread_id : eff lib runner_id_t :=
  let! s := get in
  let! found := find_thread_record_mode (self s) in
  match found with
  | None => throw UB
  | Some i =>
      let! o := read_record i in
      match o with thrd_state t => ret (thread_id t) | _ => throw UB end
  end.
Definition fresh_cond (id : runner_id_t) (m : addr) : object_state :=
  cond_state (ConditionVariableState CV_INITIALIZED id m 0 (Some []) 0 0).

Definition mc_pthread_cond_init (cond : addr) : eff lib Z :=
  let! mode := get_current_mode in
  match mode with
  | PRE_DMTCP_INIT | PRE_CHECKPOINT_THREAD => call (libpthread_cond_init cond)
  | RECORD | PRE_CHECKPOINT =>
      do! call_ lock_rec_list in
      let! cond_record := find_or_add cond
        (ret (cond_state (ConditionVariableState CV_UNINITIALIZED 0 0 0 None 0 0))) in
      do! call_ unlock_rec_list in
      let! rc := call (libpthread_cond_init cond) in
      do! (if bool_decide (rc = 0%Z) then
             do! call_ lock_rec_list in
             do! update_cond cond_record (λ c, set_count 0 (set_waiting_threads []
                   (set_associated_mutex 0 (set_interacting_thread 0 (set_status CV_INITIALIZED c))))) in
             call_ unlock_rec_list
           else ret tt) in
      ret rc
  | DMTCP_RESTART_INTO_BRANCH | DMTCP_RESTART_INTO_TEMPLATE =>
      do! fill_mailbox COND_INIT_TYPE (bytes_of cond) in
      do! thread_handle_after_dmtcp_restart in ret 0%Z
  | TARGET_BRANCH | TARGET_BRANCH_AFTER_RESTART =>
      do! fill_mailbox COND_INIT_TYPE (bytes_of cond) in
      do! thread_wake_scheduler_and_wait in ret 0%Z
  | EXTERNAL_THREAD | TARGET_TEMPLATE | TARGET_TEMPLATE_AFTER_RESTART => libc_abort
  end.

(** Before the wait: the thread enters the queue as [CV_PREWAITING], once. *)
Definition record_prewaiting (cond mutex : addr) : eff lib nat :=
  do! call_ lock_rec_list in
  let! tmp := this_thread_id in
  let! cond_record := find_or_add cond (ret (fresh_cond tmp mutex)) in
  do! update_cond cond_record (set_interacting_thread tmp) in
  let! present := on_queue cond_record (IsIn tmp) in
  do! match present with
      | VBool false => do! on_queue cond_record (Enqueue tmp CV_PREWAITING) in ret tt
      | _ => ret tt
      end in
  do! update_cond cond_record (set_associated_mutex mutex) in
  do! update_cond cond_record (λ c, set_count (count c + 1) c) in
  do! call_ unlock_rec_list in
  ret cond_record.
(** After a wait that returned. *)
Definition record_waited (cond_record : nat) : eff lib unit :=
  do! call_ lock_rec_list in
  let! id := this_thread_id in
  let! cv_state := on_queue cond_record (GetState id) in
  do! match cv_state with
      | VState CV_SIGNALED =>
          do! on_queue cond_record (Remove id) in
          update_cond cond_record (λ c, set_count (count c - 1) c)
      | _ => do! on_queue cond_record (UpdateState id CV_WAITING) in ret tt
      end in
  call_ unlock_rec_list.

(** The two rounds with the checker: leaving the mutex, and waking up. *)
Definition cond_wait_under_checker (cond mutex : addr) (first_round : eff lib unit) : eff lib Z :=
  do! fill_mailbox COND_ENQUEUE_TYPE (bytes_of cond ++ bytes_of mutex) in
  do! first_round in
  do! call_ (libpthread_mutex_unlock mutex) in
  do! set_type COND_WAIT_TYPE in
  do! write_cnts 0 (bytes_of cond ++ bytes_of mutex) in
  do! thread_wake_scheduler_and_wait in
  do! call_ (libpthread_mutex_lock mutex) in
  ret 0%Z.

Definition mc_pthread_cond_wait (cond mutex : addr) : eff lib Z :=
  let! mode := get_current_mode in
  match mode with
  | PRE_DMTCP_INIT | PRE_CHECKPOINT_THREAD => call (libpthread_cond_wait cond mutex)
  | RECORD | PRE_CHECKPOINT =>
      let! cond_record := record_prewaiting cond mutex in
      let! left := while_true (retry (libpthread_cond_timedwait cond mutex) (record_waited cond_record)) in
      match left with
      | Some rc => ret rc
      | None => cond_wait_under_checker cond mutex thread_handle_after_dmtcp_restart
      end
  | DMTCP_RESTART_INTO_BRANCH | DMTCP_RESTART_INTO_TEMPLATE =>
      cond_wait_under_checker cond mutex thread_handle_after_dmtcp_restart
  | TARGET_BRANCH | TARGET_BRANCH_AFTER_RESTART =>
      cond_wait_under_checker cond mutex thread_wake_scheduler_and_wait
  | EXTERNAL_THREAD | TARGET_TEMPLATE | TARGET_TEMPLATE_AFTER_RESTART => libc_abort
  end.

(** A signal or a broadcast makes a record for a condition variable it does not know. *)
Definition find_or_init_cond (cond : addr) : eff lib nat :=
  find_or_add cond (let! id := this_thread_id in ret (fresh_cond id 0)).
Definition count_in (st : condition_variable_status) (l : list entry) : Z :=
  Z.of_nat (length (filter (λ e, e.2 = st) l)).

Definition record_signaled (cond_record : nat) : eff lib unit :=
  do! call_ lock_rec_list in
  let! waiting_thread := on_queue cond_record GetWaiting in
  let! is_empty := on_queue cond_record IsEmpty in
  do! match is_empty, waiting_thread with
      | VBool false, VRid t =>
          if bool_decide (t ≠ RID_INVALID)
          then do! on_queue cond_record (UpdateState t CV_SIGNALED) in ret tt else ret tt
      | _, _ => ret tt
      end in
  let! l := queue_of cond_record in
  let! c := read_cond cond_record in
  do! (if bool_decide (count_in CV_SIGNALED l = 0%Z ∧ (0 < prev_waiting_count c)%Z)
       then update_cond cond_record add_lost_wakeup else ret tt) in
  call_ unlock_rec_list.

Definition mc_pthread_cond_signal (cond : addr) : eff lib Z :=
  let! mode := get_current_mode in
  match mode with
  | PRE_DMTCP_INIT | PRE_CHECKPOINT_THREAD => call (libpthread_cond_signal cond)
  | RECORD | PRE_CHECKPOINT =>
      do! call_ lock_rec_list in
      let! cond_record := find_or_init_cond cond in
      let! l := queue_of cond_record in
      do! update_cond cond_record (set_prev_waiting_count (count_in CV_WAITING l)) in
      do! call_ unlock_rec_list in
      let! rc := call (libpthread_cond_signal cond) in
      do! (if bool_decide (rc = 0%Z) then record_signaled cond_record else ret tt) in
      ret rc
  | DMTCP_RESTART_INTO_BRANCH | DMTCP_RESTART_INTO_TEMPLATE =>
      do! fill_mailbox COND_SIGNAL_TYPE (bytes_of cond) in
      do! thread_handle_after_dmtcp_restart in ret 0%Z
  | TARGET_BRANCH | TARGET_BRANCH_AFTER_RESTART =>
      do! fill_mailbox COND_SIGNAL_TYPE (bytes_of cond) in
      do! thread_wake_scheduler_and_wait in ret 0%Z
  | EXTERNAL_THREAD | TARGET_TEMPLATE | TARGET_TEMPLATE_AFTER_RESTART => libc_abort
  end.

(** The loop over the nodes: the state of each is read when it is reached. *)
Definition mark_signaled (cond_record : nat) (i : nat) : eff lib unit :=
  let! l := queue_of cond_record in
  match l !! i with
  | Some (t, CV_WAITING) => do! on_queue cond_record (UpdateState t CV_SIGNALED) in ret tt
  | _ => ret tt
  end.
Definition mc_pthread_cond_broadcast (cond : addr) : eff lib Z :=
  let! mode := get_current_mode in
  match mode with
  | PRE_DMTCP_INIT | PRE_CHECKPOINT_THREAD => call (libpthread_cond_broadcast cond)
  | RECORD | PRE_CHECKPOINT =>
      do! call_ lock_rec_list in
      let! cond_record := find_or_init_cond cond in
      do! call_ unlock_rec_list in
      let! rc := call (libpthread_cond_broadcast cond) in
      do! (if bool_decide (rc = 0%Z) then
             do! call_ lock_rec_list in
             let! l := queue_of cond_record in
             do! for_each (seq 0 (length l)) (mark_signaled cond_record) in
             call_ unlock_rec_list
           else ret tt) in
      ret rc
  | DMTCP_RESTART_INTO_BRANCH | DMTCP_RESTART_INTO_TEMPLATE =>
      do! fill_mailbox COND_BROADCAST_TYPE (bytes_of cond) in
      do! thread_handle_after_dmtcp_restart in ret 0%Z
  | TARGET_BRANCH | TARGET_BRANCH_AFTER_RESTART =>
      do! fill_mailbox COND_BROADCAST_TYPE (bytes_of cond) in
      do! thread_wake_scheduler_and_wait in ret 0%Z
  | EXTERNAL_THREAD | TARGET_TEMPLATE | TARGET_TEMPLATE_AFTER_RESTART => libc_abort
  end.

Definition mc_pthread_cond_destroy (cond : addr) : eff lib Z :=
  let! mode := get_current_mode in
  match mode with
  | PRE_DMTCP_INIT | PRE_CHECKPOINT_THREAD => call (libpthread_cond_destroy cond)
  | RECORD | PRE_CHECKPOINT =>
      do! call_ lock_rec_list in
      let! cond_record := find_object_record_mode cond in
      match cond_record with
      | None => libc_abort
      | Some cond_record =>
          let! l := queue_of cond_record in
          do! (if bool_decide (l ≠ []) then libc_abort else ret tt) in
          do! call_ unlock_rec_list in
          let! rc := call (libpthread_cond_destroy cond) in
          do! (if bool_decide (rc = 0%Z) then
                 do! call_ lock_rec_list in
                 do! update_cond cond_record (set_status CV_DESTROYED) in
                 call_ unlock_rec_list
               else ret tt) in
          ret rc
      end
  | DMTCP_RESTART_INTO_BRANCH | DMTCP_RESTART_INTO_TEMPLATE =>
      do! fill_mailbox COND_DESTROY_TYPE (bytes_of cond) in
      do! thread_handle_after_dmtcp_restart in ret 0%Z
  | TARGET_BRANCH | TARGET_BRANCH_AFTER_RESTART =>
      do! fill_mailbox COND_DESTROY_TYPE (bytes_of cond) in
      do! thread_wake_scheduler_and_wait in ret 0%Z
  | EXTERNAL_THREAD | TARGET_TEMPLATE | TARGET_TEMPLATE_AFTER_RESTART => libc_abort
  end.
