(* ===== verification/ThreadWrappers.v ===== *)
(** * Wrappers of thread operations

The functions of [src/lib/wrappers.c] that create, join and end threads and end the
process, over the state of [Recorder.v].  What runs in a new thread is
[mc_thread_routine_wrapper], whose call of the routine is a [libcall] like the
others: the routine's own operations are calls of the wrappers. *)

From stdpp Require Import options.
From S2P Require Import Prelude CondPolicy Objects Coordinator ThreadQueue Restore Recorder Wrappers.

(** ** Ending a thread *)

Definition find_exit_permission_sem (t : addr) : eff lib unit :=
  let! e := find_pthread_map_entry t in assert_ (bool_decide (is_Some e)).
Definition find_really_exited_sem : addr → eff lib unit := find_exit_permission_sem.

Definition mc_exit_thread_in_child : eff lib unit :=
  do! thread_get_mailbox in
  do! set_type THREAD_EXIT_TYPE in
  do! thread_wake_scheduler_and_wait in
  do! thread_awake_scheduler_for_thread_finish_transition in
  let! s := get in
  do! find_exit_permission_sem (self s) in
  do! call_ (wait_exit_permission (self s)) in
  do! find_really_exited_sem (self s) in
  call_ (post_really_exited (self s)).

Definition mc_exit_main_thread_in_child {A} : eff lib A :=
  let! s := get in
  if bool_decide (tid_self s ≠ RID_MAIN_THREAD) then libc_abort else
  do! thread_get_mailbox in
  do! set_type THREAD_EXIT_TYPE in
  do! thread_wake_scheduler_and_wait in
  do! thread_get_mailbox in
  do! set_type THREAD_EXIT_TYPE in
  do! thread_awake_scheduler_for_thread_finish_transition in
  thread_block_indefinitely.

(** The thread is over; a resurrected thread ends by a system call of its own. *)
Definition pthread_exit_really {A} (retval : addr) : eff lib A :=
  do! call_ (libpthread_pthread_exit retval) in throw ThreadExited.

Definition exit_under_checker {A} (retval : addr) : eff lib A :=
  let! s := get in
  do! (if bool_decide (tid_self s = RID_MAIN_THREAD) then mc_exit_main_thread_in_child
       else mc_exit_thread_in_child) in
  let! recreated := call (mc_pthread_is_recreated_thread (self s)) in
  if bool_decide (recreated ≠ 0%Z) then throw ThreadExited else pthread_exit_really retval.
Definition mc_pthread_exit {A} (retval : addr) : eff lib A :=
  let! mode := get_current_mode in
  match mode with
  | PRE_DMTCP_INIT | PRE_CHECKPOINT_THREAD | EXTERNAL_THREAD | RECORD | PRE_CHECKPOINT =>
      pthread_exit_really retval
  | DMTCP_RESTART_INTO_BRANCH | DMTCP_RESTART_INTO_TEMPLATE =>
      do! thread_get_mailbox in
      do! set_type THREAD_EXIT_TYPE in
      do! thread_handle_after_dmtcp_restart in
      exit_under_checker retval
  | TARGET_BRANCH | TARGET_BRANCH_AFTER_RESTART => exit_under_checker retval
  | TARGET_TEMPLATE | TARGET_TEMPLATE_AFTER_RESTART => libc_abort
  end.

(** ** Ending the process *)

Definition libc_exit {A} (status : Z) : eff lib A := throw (ExitCalled status).

(** Twice: running the first request makes the model exit, the second never runs. *)
Definition exit_process_under_checker {A} (status : Z) : eff lib A :=
  do! fill_mailbox PROCESS_EXIT_TYPE (le_bytes 4 (u32_of_int status)) in
  do! thread_wake_scheduler_and_wait in
  do! set_type PROCESS_EXIT_TYPE in
  do! write_cnts 0 (le_bytes 4 (u32_of_int status)) in
  do! thread_wake_scheduler_and_wait in
  libc_exit status.
Definition mc_transparent_exit {A} (status : Z) : eff lib A :=
  let! mode := get_current_mode in
  match mode with
  | DMTCP_RESTART_INTO_BRANCH | DMTCP_RESTART_INTO_TEMPLATE =>
      do! fill_mailbox PROCESS_EXIT_TYPE (le_bytes 4 (u32_of_int status)) in
      do! thread_handle_after_dmtcp_restart in
      exit_process_under_checker status
  | TARGET_BRANCH | TARGET_BRANCH_AFTER_RESTART => exit_process_under_checker status
  | _ => libc_exit status
  end.

Definition abort_process_under_checker {A} : eff lib A :=
  do! thread_get_mailbox in
  do! set_type PROCESS_ABORT_TYPE in
  do! thread_wake_scheduler_and_wait in
  do! set_type PROCESS_ABORT_TYPE in
  do! thread_wake_scheduler_and_wait in
  libc_abort.
Definition mc_transparent_abort {A} : eff lib A :=
  let! mode := get_current_mode in
  match mode with
  | DMTCP_RESTART_INTO_BRANCH | DMTCP_RESTART_INTO_TEMPLATE =>
      do! thread_get_mailbox in
      do! set_type PROCESS_ABORT_TYPE in
      do! thread_handle_after_dmtcp_restart in
      abort_process_under_checker
  | TARGET_BRANCH | TARGET_BRANCH_AFTER_RESTART => abort_process_under_checker
  | _ => libc_abort
  end.

(** ** Starting threads *)

Definition record_thread (add : rec_list → eff lib nat) (t : addr) (rid : runner_id_t) : eff lib unit :=
  do! call_ lock_rec_list in
  let! thread_record := find_thread_record_mode t in
  do! assert_ (bool_decide (thread_record = None)) in
  do! add (RecList 0 (thrd_state (RecordedThread t rid ALIVE))) in
  call_ unlock_rec_list.
Definition set_thread_status (i : nat) (st : thread_status) : eff lib unit :=
  let! o := read_record i in
  match o with
  | thrd_state t => write_record i (thrd_state (RecordedThread (pthread_desc t) (thread_id t) st))
  | _ => throw UB
  end.

Definition record_main_thread : eff lib unit :=
  let! main_tid := mc_register_this_thread in
  do! assert_ (bool_decide (main_tid = 0%N)) in
  let! s := get in
  record_thread add_rec_entry_record_mode (self s) main_tid.
(** [pthread_once]. *)
Definition record_main_thread_once : eff lib unit :=
  let! s := get in
  if main_thread_once (sh s) then ret tt
  else do! modify_shared set_main_once in record_main_thread.

(** The end of a routine in the modes after a restart: the second wait is the one
without a post. *)
Definition exit_routine_after_restart : eff lib unit :=
  do! thread_get_mailbox in
  do! set_type THREAD_EXIT_TYPE in
  do! thread_handle_after_dmtcp_restart in
  do! thread_get_mailbox in
  do! set_type THREAD_EXIT_TYPE in
  thread_await_scheduler.

(** The routine of a thread of the target; [arg] names the argument block. *)
Definition mc_thread_routine_wrapper (routine arg : addr) : eff lib unit :=
  let! rid := mc_register_this_thread in
  let! mode := get_current_mode in
  do! match mode with
      | RECORD | PRE_CHECKPOINT | DMTCP_RESTART_INTO_BRANCH | DMTCP_RESTART_INTO_TEMPLATE =>
          let! s := get in
          do! record_thread add_rec_entry_record_mode_ts (self s) rid in
          call_ (post_created arg)
      | TARGET_BRANCH | TARGET_BRANCH_AFTER_RESTART => do! call_ (post_created arg) in thread_await_scheduler
      | _ => libc_abort
      end in
  do! call_ (run_routine routine arg) in
  let! mode := get_current_mode in
  match mode with
  | RECORD | PRE_CHECKPOINT =>
      do! call_ lock_rec_list in
      let! s := get in
      let! thread_record := find_thread_record_mode (self s) in
      match thread_record with
      | None => throw AssertionFailed
      | Some i => do! set_thread_status i EXITED in call_ unlock_rec_list
      end
  | DMTCP_RESTART_INTO_BRANCH | DMTCP_RESTART_INTO_TEMPLATE =>
      exit_routine_after_restart
  | TARGET_BRANCH | TARGET_BRANCH_AFTER_RESTART => mc_exit_thread_in_child
  | _ => libc_abort
  end.

(** [dmtcp_create_checkpoint_thread_wrapper], with its [gettid]. *)
Definition mark_ckpt_window_candidate (virtual_tid : Z) : eff lib unit :=
  modify_lib (set_candidate (Some virtual_tid)).
Definition dmtcp_create_checkpoint_thread_wrapper (virtual_tid : Z) (routine arg : addr) : eff lib unit :=
  do! call_ (post_created arg) in
  do! mark_ckpt_window_candidate virtual_tid in
  call_ (run_routine routine arg).

(** [arg] is the argument block, with its semaphore; [*thread] is what the call stores. *)
Definition mc_pthread_create (attr routine arg : addr) : eff lib Z :=
  let! s := get in
  if creating_internal_thread s then call (libdmtcp_pthread_create attr routine arg) else
  let! mode := get_current_mode in
  match mode with
  | PRE_DMTCP_INIT => throw AssertionFailed
  | PRE_CHECKPOINT_THREAD =>
      do! record_main_thread_once in
      let! rc := call (libdmtcp_pthread_create attr routine arg) in
      do! call_ wait_created in ret rc
  | EXTERNAL_THREAD => call (libdmtcp_pthread_create attr routine arg)
  | RECORD | PRE_CHECKPOINT | DMTCP_RESTART_INTO_BRANCH | DMTCP_RESTART_INTO_TEMPLATE =>
      let! rc := call (libdmtcp_pthread_create attr routine arg) in
      do! call_ wait_created in ret rc
  | TARGET_BRANCH | TARGET_BRANCH_AFTER_RESTART =>
      let! r := call_full (libpthread_pthread_create attr routine arg) in
      do! call_ wait_created in
      do! thread_get_mailbox in
      do! write_cnts 0 (bytes_of (Z.to_N r.2)) in
      do! set_type THREAD_CREATE_TYPE in
      do! thread_wake_scheduler_and_wait in
      ret r.1
  | TARGET_TEMPLATE | TARGET_TEMPLATE_AFTER_RESTART => libc_abort
  end.

(** ** Joining *)

Definition fill_join (t : addr) : eff lib unit :=
  let! rid := search_pthread_map t in
  do! thread_get_mailbox in
  do! write_cnts 0 (le_bytes 2 rid) in
  set_type THREAD_JOIN_TYPE.
Definition join_after_restart (t : addr) : eff lib (Z * bool) :=
  do! fill_join t in
  do! thread_handle_after_dmtcp_restart in
  ret (0%Z, false).
Definition really_join (t : addr) (defer_real_join : bool) : eff lib (Z * bool) :=
  if defer_real_join then ret (0%Z, true)
  else let! rc := call (libpthread_pthread_join t) in ret (rc, false).
Definition grant_exit (t : addr) : eff lib unit :=
  do! find_exit_permission_sem t in call_ (post_exit_permission t).

(** The result and [*deferred]. *)
Definition mc_pthread_join_impl (t : addr) (defer_real_join : bool) : eff lib (Z * bool) :=
  let! mode := get_current_mode in
  match mode with
  | PRE_DMTCP_INIT => throw AssertionFailed
  | PRE_CHECKPOINT_THREAD | EXTERNAL_THREAD => let! rc := call (libdmtcp_pthread_join t) in ret (rc, false)
  | RECORD | PRE_CHECKPOINT =>
      do! call_ lock_rec_list in
      let! thread_record := find_thread_record_mode t in
      match thread_record with
      | None => throw AssertionFailed
      | Some i =>
          do! call_ unlock_rec_list in
          let! left := while_true (retry (libpthread_timedjoin_np t)
            (do! call_ lock_rec_list in do! set_thread_status i EXITED in call_ unlock_rec_list)) in
          match left with
          | Some rc => ret (rc, false)
          | None => join_after_restart t
          end
      end
  | DMTCP_RESTART_INTO_BRANCH | DMTCP_RESTART_INTO_TEMPLATE => join_after_restart t
  | TARGET_BRANCH =>
      do! fill_join t in
      do! thread_wake_scheduler_and_wait in
      do! grant_exit t in
      really_join t defer_real_join
  | TARGET_BRANCH_AFTER_RESTART =>
      do! fill_join t in
      do! thread_wake_scheduler_and_wait in
      do! grant_exit t in
      let! target := find_pthread_map_entry t in
      match target with
      | None => throw AssertionFailed
      | Some target =>
          if registered_post_restart target then really_join t defer_real_join else
          let! recreated := call (mc_pthread_is_recreated_thread t) in
          if bool_decide (recreated = 0%Z) then ret (0%Z, false)
          else do! call_ (wait_really_exited t) in ret (0%Z, false)
      end
  | TARGET_TEMPLATE | TARGET_TEMPLATE_AFTER_RESTART => libc_abort
  end.
Definition mc_pthread_join (t : addr) : eff lib Z := let! r := mc_pthread_join_impl t false in ret r.1.
Definition mc_pthread_join_maybe_defer (t : addr) : eff lib (Z * bool) := mc_pthread_join_impl t true.

Definition mc_sleep (duration : N) : eff lib Z :=
  let! mode := get_current_mode in
  match mode with
  | TARGET_BRANCH | DMTCP_RESTART_INTO_BRANCH | DMTCP_RESTART_INTO_TEMPLATE | TARGET_BRANCH_AFTER_RESTART => ret 0%Z
  | _ => call (libc_sleep duration)
  end.
