(* ===== verification/StateTransfer.v ===== *)
(** * Transfer of the recorded state

The third phase of [template_thread] ([src/lib/dmtcp-callback.c]): the recorded
objects are written to a pipe, each condition variable after the threads of its
queue, and the checker reads them ([read_recorded] of [Restore.v]).  The pipe
carries whole objects in order; opening and closing it is left out.  The count of
the threads that the template waits for in its second phase is here too. *)

From stdpp Require Import options.
From S2P Require Import Prelude CondPolicy Objects State Coordinator ThreadQueue Restore Recorder.

(** ** Writing *)

(** [entry->vo]. *)
Definition write_object (e : rec_list) : visible_object :=
  match vo e with
  | mut_state st owner => MUTEX (location e) st owner
  | sem_state count st => SEMAPHORE (location e) count st
  | cond_state c =>
      CONDITION_VARIABLE (location e) (status c) (interacting_thread c) (associated_mutex c) (Recorder.count c)
  | thrd_state t => THREAD t
  end.
Definition write_waiter (cv_location : addr) (e : entry) : visible_object := CV_WAITERS_QUEUE cv_location e.1 e.2.

(** A condition variable without a queue is a null pointer. *)
Definition write_entry (e : rec_list) : res (list visible_object) :=
  match vo e with
  | cond_state c => l ← deref (waiting_threads c); mret ((write_waiter (location e) <$> l) ++ [write_object e])
  | _ => mret [write_object e]
  end.
Fixpoint transfer_state (records : list rec_list) : res (list visible_object) :=
  match records with
  | [] => mret [UNKNOWN]                                   (* empty_visible_obj *)
  | e :: records => objects ← write_entry e; rest ← transfer_state records; mret (objects ++ rest)
  end.

(** How many threads the template waits for before it proceeds. *)
Definition is_alive (e : rec_list) : bool :=
  match vo e with thrd_state t => match recorded_status t with ALIVE => true | EXITED => false end | _ => false end.
Definition thread_count (records : list rec_list) : nat := length (filter (λ e, is_alive e = true) records).

(** ** Reading back *)

(** What the checker makes of a record. *)
Definition model_of_record (e : rec_list) : option visible_object_state :=
  match vo e with
  | mut_state st owner => Some (VMutex (Mutex st (location e) owner))
  | sem_state count st => Some (VSemaphore (semaphore_of st (s32 count)))
  | cond_state c =>
      Some (VCond (new_condition_variable (cast_cv_status (status c)) (interacting_thread c) (associated_mutex c)
                     (Recorder.count c) (default [] (waiting_threads c)) None))
  | thrd_state _ => None
  end.
Definition recorded_threads (records : list rec_list) : list recorded_thread :=
  omap (λ e, match vo e with thrd_state t => Some t | _ => None end) records.

Definition is_cond (e : rec_list) : Prop := match vo e with cond_state _ => True | _ => False end.
#[export] Instance is_cond_dec e : Decision (is_cond e).
Proof. unfold is_cond. destruct (vo e); apply _. Defined.
Definition cond_locations (records : list rec_list) : list addr := location <$> filter is_cond records.

Section reading.
Context {W : Type} `{World W}.

(** The objects are observed in the order they were recorded. *)
Definition observe_records (records : list rec_list) : eff coordinator unit :=
  for_each records (λ e, match model_of_record e with
                         | Some v => do! observe_object (location e) v in ret tt
                         | None => ret tt
                         end).

Lemma read_waiters loc l rest ths m c :
  read_recorded ((write_waiter loc <$> l) ++ rest) ths m c =
  read_recorded rest ths (if l is [] then m else <[loc := default [] (m !! loc) ++ l]> m) c.
Proof.
  revert m. induction l as [|[id st] l IH]; intros m; [done|].
  simpl. rewrite IH. destruct l as [|e l]; [done|]. rewrite lookup_insert_eq. simpl.
  by rewrite insert_insert_eq, <- app_assoc.
Qed.

(** The map of waiters after those of one queue were read. *)
Definition with_waiters (loc : addr) (l : list entry) (m : gmap addr (list entry)) : gmap addr (list entry) :=
  if l is [] then m else <[loc := default [] (m !! loc) ++ l]> m.
Lemma with_waiters_eq loc l m : m !! loc = None → default [] (with_waiters loc l m !! loc) = l.
Proof. intros Hm. destruct l; simpl; rewrite ?lookup_insert_eq, Hm; done. Qed.
Lemma with_waiters_ne loc l m a : a ≠ loc → with_waiters loc l m !! a = m !! a.
Proof. intros Ha. destruct l; simpl; [done|]. by rewrite lookup_insert_ne. Qed.

Lemma observe_records_cons e records c :
  observe_records (e :: records) c =
  match model_of_record e with
  | Some v => (do! observe_object (location e) v in observe_records records) c
  | None => observe_records records c
  end.
Proof.
  unfold observe_records. cbn [for_each]. unfold ebind, ret. destruct (model_of_record e) as [v|]; [|done].
  by destruct (observe_object (location e) v c) as [[]].
Qed.

Lemma read_transfer records stream ths m c :
  transfer_state records = Ok stream → NoDup (cond_locations records) →
  (∀ a, a ∈ cond_locations records → m !! a = None) →
  read_recorded stream ths m c =
    (do! observe_records records in ret (ths ++ recorded_threads records)) c.
Proof.
  revert stream ths m c. induction records as [|e records IH]; intros stream ths m c Ht Hnd Hm.
  { injection Ht as <-. cbn. by rewrite app_nil_r. }
  cbn [transfer_state] in Ht. apply bind_ok in Ht as (objects & He & Ht).
  apply bind_ok in Ht as (rest & Hr & Ht). injection Ht as <-. specialize (IH rest).
  unfold ebind at 1. rewrite observe_records_cons.
  destruct e as [loc [st owner|n st|v|t]]; unfold write_entry, write_object in He; simpl in He.
  1, 2: injection He as <-; cbn; unfold ebind; destruct (observe_object _ _ c) as [[id|ex] c1]; [|done]; by apply IH.
  - apply bind_ok in He as (l & Hl & He). injection He as <-. apply deref_ok in Hl.
    change (cond_locations (RecList loc (cond_state v) :: records)) with (loc :: cond_locations records) in *.
    apply NoDup_cons in Hnd as [Hnot Hnd]. rewrite <- app_assoc, read_waiters. fold (with_waiters loc l m).
    cbn [app read_recorded translate_recorded_object_to_model].
    rewrite with_waiters_eq by (apply Hm; left). cbn. rewrite Hl. cbn [default].
    unfold ebind. destruct (observe_object _ _ c) as [[id|ex] c1]; [|done]. apply IH; [done|done|].
    intros a Ha. rewrite with_waiters_ne by congruence. apply Hm. by right.
  - injection He as <-. cbn. rewrite IH by done. unfold ebind.
    destruct (observe_records records c) as [[]]; [|done]. unfold ret. by rewrite <- app_assoc.
Qed.

(** C25: the checker reads back what was recorded.  When every condition variable has its
queue and no two records of condition variables share an address, reading the
objects that the template writes observes each recorded mutex, semaphore and
condition variable in the order they were recorded, a condition variable with the
threads of its queue in order, and gives the recorded threads. *)
Theorem transfer_roundtrip records stream c :
  transfer_state records = Ok stream → NoDup (cond_locations records) →
  read_recorded stream [] ∅ c = (do! observe_records records in ret (recorded_threads records)) c.
Proof. intros Ht Hnd. apply (read_transfer records stream [] ∅ c Ht Hnd). intros a _. apply lookup_empty. Qed.
End reading.
