(* ===== verification/TemplateThread.v ===== *)
(** * The template thread and the start of libmcmini

[template_thread] and the handler of DMTCP's events ([src/lib/dmtcp-callback.c]), and
the constructor of the library without DMTCP ([src/lib/main.c]): who changes the mode,
and what the checker is told when a checkpoint was restarted.  The template thread
sends the records only after as many threads have stopped as are recorded alive
([template_thread_sends_records]). *)

From stdpp Require Import options.
From S2P Require Import Prelude CondPolicy Objects Coordinator ThreadQueue Restore.
From S2P Require Import Recorder Wrappers ThreadWrappers StateTransfer.

(** ** The template thread *)

(** One [write] of a whole object; the reply is 0 when all of it was written.  The
records do not change any more, so they are read once. *)
Definition send_object (o : visible_object) : eff lib unit :=
  let! rc := call (write_fifo o) in assert_ (bool_decide (rc = 0%Z)).
Definition send_entry (e : rec_list) : eff lib unit :=
  let! objects := query (λ _, write_entry e) in for_each objects send_object.
Definition send_records : eff lib unit :=
  let! s := get in
  do! for_each (head_record_mode (sh s)) send_entry in
  do! send_object UNKNOWN in
  call_ close_fifo.

(** Phases 1 and 2: nothing until a restart, then a stable state. *)
Definition await_threads : eff lib unit :=
  do! call_ wait_template_thread_sem in
  let! s := get in
  for_each (seq 0 (thread_count (head_record_mode (sh s)))) (λ _, call_ wait_dmtcp_restart_sem).
(** The checker is told, and in a template the loop of forks starts; it returns in a branch. *)
Definition enter_branch : eff lib unit :=
  let! mode := get_current_mode in
  do! (if bool_decide (mode = DMTCP_RESTART_INTO_BRANCH)
       then do! call_ atexit_exit_main_thread in set_current_mode TARGET_BRANCH_AFTER_RESTART else ret tt) in
  do! call_ post_mcmini_process in
  let! mode := get_current_mode in
  if bool_decide (mode = DMTCP_RESTART_INTO_TEMPLATE) then
    do! call_ template_thread_loop in
    do! set_current_mode TARGET_BRANCH_AFTER_RESTART in
    do! call_ lock_template_thread in
    do! call_ broadcast_template_thread in
    call_ unlock_template_thread
  else ret tt.
(** [mc_exit] is [_Exit]. *)
Definition template_thread : eff lib unit :=
  do! await_threads in
  do! enter_branch in
  let! needs_state := call getenv_needs_state in
  if bool_decide (needs_state = 0%Z) then ret tt else
  do! call_ mkfifo in
  let! fd := call open_fifo in
  if bool_decide (fd = (-1)%Z) then throw (ExitCalled EXIT_FAILURE) else send_records.

(** ** Events of DMTCP *)

Inductive DmtcpEvent_t :=
  | DMTCP_EVENT_INIT | DMTCP_EVENT_PRESUSPEND | DMTCP_EVENT_PRECHECKPOINT
  | DMTCP_EVENT_RESUME | DMTCP_EVENT_RESTART | DMTCP_EVENT_OTHER.

(** A system call whose failure ends the process. *)
Definition or_exit (c : libcall) : eff lib unit :=
  let! rc := call c in
  if bool_decide (rc = (-1)%Z) then throw (ExitCalled EXIT_FAILURE) else ret tt.
Definition mc_allocate_shared_memory_region : eff lib unit :=
  do! or_exit shm_open in
  do! or_exit ftruncate in
  or_exit mmap.
Definition presuspend_eventHook (event : DmtcpEvent_t) : eff lib unit :=
  match event with
  | DMTCP_EVENT_INIT => set_current_mode PRE_CHECKPOINT_THREAD
  | DMTCP_EVENT_PRECHECKPOINT => set_current_mode PRE_CHECKPOINT
  | DMTCP_EVENT_RESTART =>
      let! template_loop := call getenv_template_loop in
      do! (if bool_decide (template_loop ≠ 0%Z) then set_current_mode DMTCP_RESTART_INTO_TEMPLATE
           else do! set_current_mode DMTCP_RESTART_INTO_BRANCH in call_ skip_post_restart_checkpoint_loop) in
      do! mc_allocate_shared_memory_region in
      do! call_ default_sigsegv in
      do! call_ block_sigchld in
      call_ post_template_thread_sem
  | DMTCP_EVENT_PRESUSPEND | DMTCP_EVENT_RESUME | DMTCP_EVENT_OTHER => ret tt
  end.

(** ** Without DMTCP *)

Definition mc_prevent_addr_randomization : eff lib unit := or_exit prevent_addr_randomization.
Definition libmcmini_main : eff lib unit :=
  let! enabled := call dmtcp_is_enabled in
  if bool_decide (enabled ≠ 0%Z) then ret tt else
  do! mc_prevent_addr_randomization in
  do! mc_register_this_thread in
  do! mc_allocate_shared_memory_region in
  do! call_ atexit_deallocate in
  let! template_loop := call getenv_template_loop in
  do! (if bool_decide (template_loop ≠ 0%Z)
       then do! set_current_mode TARGET_TEMPLATE in call_ template_process_loop else ret tt) in
  do! set_current_mode TARGET_BRANCH in
  thread_await_scheduler.

(** ** What the template thread does *)

(** The others do not touch the records, as every thread of the target has stopped. *)
Definition keeps_records (r : reply) : Prop := ∀ x, head_record_mode (meanwhile r x) = head_record_mode x.

(** From [s] to [s'] exactly the calls [l] were made. *)
Record calls (l : list libcall) (s s' : lib) : Prop := Calls {
  cl_log : log s' = log s ++ l;
  cl_records : head_record_mode (sh s') = head_record_mode (sh s);
  cl_replies : Forall keeps_records (replies s');
  cl_candidate : ckpt_window_candidate s' = None;
}.
(** A state before any call. *)
Definition quietly (s : lib) : Prop := Forall keeps_records (replies s) ∧ ckpt_window_candidate s = None.
Lemma calls_nil s : quietly s → calls [] s s.
Proof. intros [Hr Hc]. split; [by rewrite app_nil_r|done..]. Qed.
Lemma calls_trans l1 l2 s s1 s2 : calls l1 s s1 → calls l2 s1 s2 → calls (l1 ++ l2) s s2.
Proof. intros [Hl Hr ? ?] [Hl' Hr' ? ?]. split; [by rewrite Hl', Hl, app_assoc|by rewrite Hr'|done..]. Qed.
Lemma calls_quietly l s s' : calls l s s' → quietly s'.
Proof. by intros [_ _ ? ?]. Qed.

Lemma call_full_calls c s r s' : quietly s → call_full c s = (r, s') → calls [c] s s'.
Proof.
  intros [Hr Hc]. unfold call_full. cbn [replies set_log]. destruct (replies s) as [|x rs] eqn:Hx; intros [= <- <-].
  - split; [done|done|simpl; by rewrite Hx|done].
  - apply Forall_cons in Hr as [Hx' Hr]. split; [done|apply Hx'|done..].
Qed.
Lemma call_calls c s r s' : quietly s → call c s = (r, s') → calls [c] s s'.
Proof.
  intros Hq. unfold call, ebind, ret. destruct (call_full c s) as [[x|e] s1] eqn:Hc; intros [= <- <-];
    by eapply call_full_calls.
Qed.
Lemma call__calls c s r s' : quietly s → call_ c s = (r, s') → calls [c] s s'.
Proof.
  intros Hq. unfold call_, ebind, ret. destruct (call_full c s) as [[x|e] s1] eqn:Hc; intros [= <- <-];
    by eapply call_full_calls.
Qed.

(** An effect in which the first calls are those of [l], all of them when it returns. *)
Definition follows_calls {A} (m : eff lib A) (l : list libcall) : Prop := ∀ s r s',
  quietly s → m s = (r, s') → ∃ k, calls (take k l) s s' ∧ match r with Ok _ => take k l = l | Throw _ => True end.
Lemma follows_call_ c : follows_calls (call_ c) [c].
Proof. intros s r s' Hq Hr. exists 1. split; [by eapply call__calls|]. by destruct r. Qed.
Lemma follows_bind {A B} (m : eff lib A) (f : A → eff lib B) l1 l2 :
  follows_calls m l1 → (∀ a, follows_calls (f a) l2) → follows_calls (ebind m f) (l1 ++ l2).
Proof.
  intros Hm Hf s r s' Hq. unfold ebind. destruct (m s) as [[a|e] s1] eqn:Hs; destruct (Hm _ _ _ Hq Hs) as (k & Hc & Hk).
  - intros Hr. destruct (Hf a _ _ _ (calls_quietly _ _ _ Hc) Hr) as (k2 & Hc2 & Hk2). exists (length l1 + k2).
    rewrite take_app_add. split; [rewrite Hk in Hc; by eapply calls_trans|]. destruct r; [by rewrite Hk2|done].
  - intros [= <- <-]. exists (k `min` length l1). split; [|done]. rewrite take_app_le by lia.
    by rewrite <- take_take, firstn_all.
Qed.
Lemma follows_ret {A} (a : A) : follows_calls (ret a) [].
Proof. intros s r s' Hq [= <- <-]. exists 0. split; [by apply calls_nil|done]. Qed.
Lemma follows_throw {A} e l : follows_calls (throw (A := A) e) l.
Proof. intros s r s' Hq [= <- <-]. exists 0. split; [by apply calls_nil|done]. Qed.
Lemma follows_for_each {X} (l : list X) (f : X → eff lib unit) c :
  (∀ x, follows_calls (f x) (c x)) → follows_calls (for_each l f) (l ≫= c).
Proof.
  intros Hf. induction l as [|x l IH]; [apply follows_ret|]. apply follows_bind; [apply Hf|by intros _].
Qed.
Lemma follows_send_object o : follows_calls (send_object o) [write_fifo o].
Proof.
  rewrite <- (app_nil_r [_]). apply follows_bind.
  - intros s r s' Hq Hr. exists 1. split; [by eapply call_calls|by destruct r].
  - intros rc. unfold assert_. case_bool_decide; [apply follows_ret|apply follows_throw].
Qed.

Lemma await_threads_calls s r s' n :
  quietly s → n = thread_count (head_record_mode (sh s)) → await_threads s = (r, s') →
  ∃ k, let l := wait_template_thread_sem :: replicate n wait_dmtcp_restart_sem in
    calls (take k l) s s' ∧ match r with Ok _ => take k l = l | Throw _ => True end.
Proof.
  intros Hq Hn. unfold await_threads. unfold ebind at 1.
  destruct (call_ wait_template_thread_sem s) as [[x|e] s1] eqn:Hc; pose proof (call__calls _ _ _ _ Hq Hc) as Hcl.
  - unfold ebind at 1, get at 1. rewrite (cl_records _ _ _ Hcl), <- Hn. intros Hr.
    destruct (follows_for_each (seq 0 n) (λ _, call_ wait_dmtcp_restart_sem) (λ _, [wait_dmtcp_restart_sem])
      (λ _, follows_call_ _) _ _ _ (calls_quietly _ _ _ Hcl) Hr) as (k & Hk & Hr').
    assert (seq 0 n ≫= (λ _, [wait_dmtcp_restart_sem]) = replicate n wait_dmtcp_restart_sem) as Hrep.
    { clear. generalize 0. induction n as [|n IH]; intros i; [done|]. simpl. by rewrite IH. }
    rewrite Hrep in *. exists (S k). split; [by apply (calls_trans [_] (take k _) s s1)|].
    destruct r; [simpl; by rewrite Hr'|done].
  - intros [= <- <-]. exists 1. split; [done|done].
Qed.

(** Calls that neither wait for the threads nor send an object. *)
Definition neutral (c : libcall) : Prop := c ≠ wait_dmtcp_restart_sem ∧ ∀ o, c ≠ write_fifo o.
Definition makes_neutral_calls {A} (m : eff lib A) : Prop := ∀ s r s',
  quietly s → m s = (r, s') → ∃ l, calls l s s' ∧ Forall neutral l.
Lemma neutral_bind {A B} (m : eff lib A) (f : A → eff lib B) :
  makes_neutral_calls m → (∀ a, makes_neutral_calls (f a)) → makes_neutral_calls (ebind m f).
Proof.
  intros Hm Hf s r s' Hq. unfold ebind. destruct (m s) as [[a|e] s1] eqn:Hs; destruct (Hm _ _ _ Hq Hs) as (l & Hc & Hl).
  - intros Hr. destruct (Hf a _ _ _ (calls_quietly _ _ _ Hc) Hr) as (l2 & Hc2 & Hl2).
    exists (l ++ l2). split; [by eapply calls_trans|by apply Forall_app].
  - intros [= <- <-]. by exists l.
Qed.
Lemma neutral_silent {A} (m : eff lib A) : (∀ s r s', quietly s → m s = (r, s') → calls [] s s') → makes_neutral_calls m.
Proof. intros Hm s r s' Hq Hr. exists []. split; [by eapply Hm|done]. Qed.
Lemma neutral_ret {A} (a : A) : makes_neutral_calls (ret a).
Proof. apply neutral_silent. intros s r s' Hq [= <- <-]. by apply calls_nil. Qed.
Lemma neutral_throw {A} e : makes_neutral_calls (throw (A := A) e).
Proof. apply neutral_silent. intros s r s' Hq [= <- <-]. by apply calls_nil. Qed.
Lemma neutral_call_ c : neutral c → makes_neutral_calls (call_ c).
Proof. intros Hn s r s' Hq Hr. exists [c]. split; [by eapply call__calls|by repeat constructor; apply Hn]. Qed.
Lemma neutral_set_current_mode m : makes_neutral_calls (set_current_mode m).
Proof.
  apply neutral_silent. intros s r s' [Hq Hc] [= <- <-]. split; [by rewrite app_nil_r|done..].
Qed.
Lemma neutral_get_current_mode : makes_neutral_calls get_current_mode.
Proof.
  apply neutral_silent. intros s r s' Hq. pose proof Hq as [_ Hc]. unfold get_current_mode,
    resolve_ckpt_window_candidate_if_pending. unfold ebind at 1 2, get at 1. rewrite Hc. intros [= <- <-]. by apply calls_nil.
Qed.
Lemma enter_branch_neutral : makes_neutral_calls enter_branch.
Proof.
  unfold enter_branch. repeat first
    [apply neutral_get_current_mode|apply neutral_set_current_mode|apply neutral_ret
    |apply neutral_call_; split; [discriminate|intros ?; discriminate]
    |apply neutral_bind; [|intros ?]|case_bool_decide].
Qed.

Lemma send_entries records s r s' :
  quietly s → for_each records send_entry s = (r, s') →
  ∃ l, calls l s s' ∧ match r with
                      | Ok _ => ∃ objects, transfer_state records = Ok (objects ++ [UNKNOWN]) ∧ l = write_fifo <$> objects
                      | Throw _ => True
                      end.
Proof.
  revert s. induction records as [|e records IH]; intros s Hq.
  { intros [= <- <-]. exists []. split; [by apply calls_nil|]. by exists []. }
  cbn [for_each transfer_state]. unfold ebind, send_entry, query, ebind.
  destruct (write_entry e) as [objects|ex].
  2:{ intros [= <- <-]. exists []. split; [by apply calls_nil|done]. }
  destruct (for_each objects send_object s) as [[u|ex] s1] eqn:Hs;
    destruct (follows_for_each objects send_object (λ o, [write_fifo o]) follows_send_object _ _ _ Hq Hs) as (k & Hc & Hk).
  - intros Hr. destruct (IH s1 (calls_quietly _ _ _ Hc) Hr) as (l & Hc2 & Hl). rewrite Hk in Hc.
    exists ((objects ≫= (λ o, [write_fifo o])) ++ l). split; [by eapply calls_trans|]. destruct r; [|done].
    destruct Hl as (os & Ht & ->). exists (objects ++ os). rewrite Ht. cbn. split; [by rewrite <- app_assoc|].
    rewrite fmap_app. f_equal.
  - intros [= <- <-]. by eexists.
Qed.
Lemma send_records_calls s r s' :
  quietly s → send_records s = (r, s') →
  ∃ l, calls l s s' ∧ match r with
                      | Ok _ => ∃ stream, transfer_state (head_record_mode (sh s)) = Ok stream ∧
                                  l = (write_fifo <$> stream) ++ [close_fifo]
                      | Throw _ => True
                      end.
Proof.
  intros Hq. unfold send_records. unfold ebind at 1, get at 1. unfold ebind at 1.
  destruct (for_each _ send_entry s) as [[u|ex] s1] eqn:Hs; destruct (send_entries _ _ _ _ Hq Hs) as (l & Hc & Hl).
  - intros Hr. destruct (follows_bind (send_object UNKNOWN) (λ _, call_ close_fifo) _ _ (follows_send_object _)
      (λ _, follows_call_ _) _ _ _ (calls_quietly _ _ _ Hc) Hr) as (k & Hc2 & Hk).
    exists (l ++ take k ([write_fifo UNKNOWN] ++ [close_fifo])). split; [by eapply calls_trans|].
    destruct r; [|done]. destruct Hl as (objects & Ht & ->). exists (objects ++ [UNKNOWN]). split; [done|].
    by rewrite Hk, fmap_app, <- app_assoc.
  - intros [= <- <-]. by exists l.
Qed.

(** Phase 3, after the others have stopped. *)
Lemma after_threads_stopped s r s' :
  quietly s →
  (do! enter_branch in
   let! needs_state := call getenv_needs_state in
   if bool_decide (needs_state = 0%Z) then ret tt else
   do! call_ mkfifo in
   let! fd := call open_fifo in
   if bool_decide (fd = (-1)%Z) then throw (ExitCalled EXIT_FAILURE) else send_records) s = (r, s') →
  ∃ l1 l2, calls (l1 ++ l2) s s' ∧ (r = Ok tt → Forall neutral l1 ∧
    (l2 = [] ∨ ∃ stream, transfer_state (head_record_mode (sh s)) = Ok stream ∧
                 l2 = (write_fifo <$> stream) ++ [close_fifo])).
Proof.
  intros Hq Hrun.
  (* the calls before the records are neutral *)
  set (before := do! enter_branch in let! needs_state := call getenv_needs_state in
        if bool_decide (needs_state = 0%Z) then ret false else
        do! call_ mkfifo in let! fd := call open_fifo in
        if bool_decide (fd = (-1)%Z) then throw (ExitCalled EXIT_FAILURE) else ret true).
  assert (makes_neutral_calls before) as Hb.
  { assert (∀ c, neutral c → makes_neutral_calls (call c)) as Hcall.
    { intros c Hc t x t' Ht Hx. exists [c]. split; [by eapply call_calls|by repeat constructor; apply Hc]. }
    unfold before. repeat first [apply enter_branch_neutral|apply neutral_ret|apply neutral_throw
      |apply Hcall; split; [discriminate|intros ?; discriminate]
      |apply neutral_call_; split; [discriminate|intros ?; discriminate]|apply neutral_bind; [|intros ?]|case_bool_decide]. }
  assert ((let! send := before in if send : bool then send_records else ret tt) s = (r, s')) as Hrun'.
  { rewrite <- Hrun. unfold before, ebind, ret, throw. repeat case_match; simplify_eq; done. }
  clear Hrun. unfold ebind in Hrun'. destruct (before s) as [[send|e] s1] eqn:Hs; destruct (Hb _ _ _ Hq Hs) as (l1 & Hc & Hl1).
  - destruct send.
    + destruct (send_records_calls _ _ _ (calls_quietly _ _ _ Hc) Hrun') as (l2 & Hc2 & Hl2). exists l1, l2.
      split; [by eapply calls_trans|]. intros ->. split; [done|]. right. by rewrite <- (cl_records _ _ _ Hc).
    + injection Hrun' as <- <-. exists l1, []. rewrite app_nil_r. split; [done|]. intros _. split; [done|by left].
  - injection Hrun' as <- <-. exists l1, []. rewrite app_nil_r. done.
Qed.

(** C36: the template thread sends the records of stopped threads.  While the other
threads leave the records alone, the first calls it makes, whatever happens later,
are to wait for the restart and then once for each thread that is recorded alive;
and when it returns, it has written nothing, or exactly the stream of the records it
found at the start. *)
Theorem template_thread_sends_records s r s' :
  quietly s → template_thread s = (r, s') →
  let waits := wait_template_thread_sem :: replicate (thread_count (head_record_mode (sh s))) wait_dmtcp_restart_sem in
  ∃ l, log s' = log s ++ l ∧ (l `prefix_of` waits ∨ waits `prefix_of` l) ∧
    (r = Ok tt → ∃ l1 l2, l = waits ++ l1 ++ l2 ∧ Forall neutral l1 ∧
      (l2 = [] ∨ ∃ stream, transfer_state (head_record_mode (sh s)) = Ok stream ∧
                   l2 = (write_fifo <$> stream) ++ [close_fifo])).
Proof.
  intros Hq Hrun waits. unfold template_thread in Hrun. unfold ebind at 1 in Hrun.
  destruct (await_threads s) as [[u|ex] s1] eqn:Ha; destruct (await_threads_calls _ _ _ _ Hq eq_refl Ha) as (k & Hc & Hk).
  2:{ injection Hrun as <- <-. eexists. split; [apply Hc|]. split; [left; apply prefix_take|done]. }
  rewrite Hk in Hc. fold waits in Hc.
  assert (∀ l, calls l s1 s' → ∃ l', log s' = log s ++ l' ∧ l' = waits ++ l) as Hext.
  { intros l Hl. exists (waits ++ l). split; [|done]. by apply (calls_trans _ _ _ _ _ Hc Hl). }
  destruct (after_threads_stopped _ _ _ (calls_quietly _ _ _ Hc) Hrun) as (l1 & l2 & Hl & Hok).
  rewrite (cl_records _ _ _ Hc) in Hok.
  destruct (Hext _ Hl) as (l & Hlog & ->). eexists. split; [exact Hlog|]. split; [right; by eexists|].
  intros Hr. destruct (Hok Hr). by exists l1, l2.
Qed.
