(* ===== verification/Protocol.v ===== *)
(** * The wrappers under the checker

Under the checker's control a thread asks before it acts: a wrapper posts a mailbox
that holds the operation, waits until the checker lets it run, and only then makes
the real call ([controlled_operation]).  What it posts is what the checker's
callbacks of [Coordinator.v] make the transition from ([wrapper_understood]). *)

From stdpp Require Import options.
From S2P Require Import Prelude InjectiveFunction Objects State Transitions Coordinator Recorder Wrappers ThreadWrappers.

(** ** Operations and their scripts *)

Inductive visible_op :=
  | MutexInit (m : addr) | MutexLock (m : addr) | MutexUnlock (m : addr)
  | SemInit (s : addr) (count : N) | SemDestroy (s : addr) | SemPost (s : addr) | SemWait (s : addr)
  | CondInit (c : addr) | CondWait (c m : addr) | CondSignal (c : addr)
  | CondBroadcast (c : addr) | CondDestroy (c : addr).

Definition wrapper (op : visible_op) : eff lib Z :=
  match op with
  | MutexInit m => mc_pthread_mutex_init m true
  | MutexLock m => mc_pthread_mutex_lock m
  | MutexUnlock m => mc_pthread_mutex_unlock m
  | SemInit s count => mc_sem_init s 0 count
  | SemDestroy s => mc_sem_destroy s
  | SemPost s => mc_sem_post s
  | SemWait s => mc_sem_wait s
  | CondInit c => mc_pthread_cond_init c
  | CondWait c m => mc_pthread_cond_wait c m
  | CondSignal c => mc_pthread_cond_signal c
  | CondBroadcast c => mc_pthread_cond_broadcast c
  | CondDestroy c => mc_pthread_cond_destroy c
  end.

(** A round with the checker, or a call of the real library. *)
Inductive script_step := Ask (ty : N) (payload : list N) | Do (c : libcall).

Definition script (op : visible_op) : list script_step :=
  match op with
  | MutexInit m => [Ask MUTEX_INIT_TYPE (bytes_of m); Do (libpthread_mutex_init m)]
  | MutexLock m => [Ask MUTEX_LOCK_TYPE (bytes_of m); Do (libpthread_mutex_lock m)]
  | MutexUnlock m => [Ask MUTEX_UNLOCK_TYPE (bytes_of m); Do (libpthread_mutex_unlock m)]
  | SemInit s count => [Ask SEM_INIT_TYPE (bytes_of s ++ le_bytes 4 count); Do (libpthread_sem_init s 0 count)]
  | SemDestroy s => [Ask SEM_DESTROY_TYPE (bytes_of s); Do (libpthread_sem_destroy s)]
  | SemPost s => [Ask SEM_POST_TYPE (bytes_of s); Do (libpthread_sem_post s)]
  | SemWait s => [Ask SEM_WAIT_TYPE (bytes_of s); Do (libpthread_sem_post s)]
  | CondInit c => [Ask COND_INIT_TYPE (bytes_of c)]
  | CondWait c m =>
      [Ask COND_ENQUEUE_TYPE (bytes_of c ++ bytes_of m); Do (libpthread_mutex_unlock m);
       Ask COND_WAIT_TYPE (bytes_of c ++ bytes_of m); Do (libpthread_mutex_lock m)]
  | CondSignal c => [Ask COND_SIGNAL_TYPE (bytes_of c)]
  | CondBroadcast c => [Ask COND_BROADCAST_TYPE (bytes_of c)]
  | CondDestroy c => [Ask COND_DESTROY_TYPE (bytes_of c)]
  end.

(** A mailbox with that type whose payload starts with those bytes. *)
Definition carries (mb : runner_mailbox) (ty : N) (payload : list N) : Prop :=
  type mb = ty ∧ take (length payload) (cnts mb) = payload.

(** [follows sc l complete]: the calls [l] are those of the script, up to some point;
a round is a post of the mailbox and one or more calls of the wait. *)
Inductive follows : list script_step → list libcall → bool → Prop :=
  | follows_done : follows [] [] true
  | follows_stopped sc : follows sc [] false
  | follows_do c sc l b : follows sc l b → follows (Do c :: sc) (c :: l) b
  | follows_posted ty payload mb sc :
      carries mb ty payload → follows (Ask ty payload :: sc) [mc_wake_scheduler mb] false
  | follows_ask ty payload mb k sc l b :
      carries mb ty payload → follows sc l b →
      follows (Ask ty payload :: sc) (mc_wake_scheduler mb :: replicate (S k) mc_wait_for_scheduler ++ l) b.

(** ** Control *)

(** Other threads do not change the mode, nor make this thread the checkpoint thread. *)
Definition steady (r : reply) : Prop := ∀ x,
  raw_mode (meanwhile r x) = raw_mode x ∧ ckpt_pthread_descriptor (meanwhile r x) = ckpt_pthread_descriptor x.

Record controlled (s : lib) : Prop := Controlled {
  ct_mode : raw_mode (sh s) = TARGET_BRANCH ∨ raw_mode (sh s) = TARGET_BRANCH_AFTER_RESTART;
  ct_thread : ckpt_pthread_descriptor (sh s) ≠ Some (self s);
  ct_own : tsan_internal s = false ∧ ckpt_window_candidate s = None;
  ct_tid : tid_self s ≠ RID_INVALID ∧ tid_self s ≠ 65534%N;
  ct_steady : Forall steady (replies s);
}.

(** How an operation can end short of its result. *)
Definition interrupted (e : exn) : Prop := e = Blocked ∨ e = AssertionFailed.

Definition performs {A} (m : eff lib A) (sc : list script_step) : Prop := ∀ s r s',
  controlled s → m s = (r, s') →
  controlled s' ∧ ∃ l b, log s' = log s ++ l ∧ follows sc l b ∧
    match r with Ok _ => b = true | Throw e => interrupted e end.

Lemma controlled_mode s : controlled s → current_mode s = raw_mode (sh s).
Proof.
  intros [Hm Ht [Hi _] _ _]. unfold current_mode, is_checkpoint_thread.
  rewrite bool_decide_eq_false_2 by done. rewrite Hi. by destruct Hm as [-> | ->].
Qed.
Lemma get_current_mode_controlled s : controlled s → get_current_mode s = (Ok (raw_mode (sh s)), s).
Proof.
  intros Hc. pose proof (controlled_mode _ Hc) as Hm. destruct Hc as [_ _ [_ Hn] _ _].
  unfold get_current_mode, resolve_ckpt_window_candidate_if_pending, ebind, get. rewrite Hn. unfold ret, query. by rewrite Hm.
Qed.
Lemma thread_get_mailbox_controlled s : controlled s → thread_get_mailbox s = (Ok tt, s).
Proof.
  intros [_ Ht _ [Hr Hr'] _]. unfold thread_get_mailbox, ebind, get, assert_, is_checkpoint_thread, query.
  rewrite (bool_decide_eq_false_2 (ckpt_pthread_descriptor _ = _)) by done. cbn [negb].
  by rewrite !bool_decide_eq_true_2 by done.
Qed.

Lemma controlled_frame s s' :
  sh s' = sh s → self s' = self s → tid_self s' = tid_self s → tsan_internal s' = tsan_internal s →
  ckpt_window_candidate s' = ckpt_window_candidate s → replies s' = replies s → controlled s → controlled s'.
Proof. intros H1 H2 H3 H4 H5 H6 [? ? ? ? ?]. split; by rewrite ?H1, ?H2, ?H3, ?H4, ?H5, ?H6. Qed.

(** One call: the reply, or blocked. *)
Lemma call_full_controlled c s r s' :
  controlled s → call_full c s = (r, s') →
  controlled s' ∧ log s' = log s ++ [c] ∧
  match r with
  | Ok _ => length (replies s) = S (length (replies s'))
  | Throw e => e = Blocked
  end.
Proof.
  intros Hc. unfold call_full. cbn [replies set_log]. destruct (replies s) as [|x rs] eqn:Hr; intros [= <- <-].
  - split_and!; [|done|done]. by apply (controlled_frame s).
  - split_and!; [|done|done]. destruct Hc as [Hm Ht Ho Hid Hs]. rewrite Hr in Hs.
    apply Forall_cons in Hs as [Hx Hs]. destruct (Hx (sh s)) as [H1 H2].
    split; simpl; rewrite ?H1, ?H2; done.
Qed.

Lemma performs_ret {A} (a : A) : performs (ret a) [].
Proof.
  intros s r s' Hc [= <- <-]. split; [done|]. exists [], true. rewrite app_nil_r. split_and!; [done|constructor|done].
Qed.
Lemma performs_call c : performs (call c) [Do c].
Proof.
  intros s r s' Hc. unfold call, ebind. destruct (call_full c s) as [[x|e] s1] eqn:Hf; intros [= <- <-];
    destruct (call_full_controlled _ _ _ _ Hc Hf) as (Hc' & Hl & Hx);
    (split; [done|]); exists [c], true; split_and!; try done; [by repeat constructor| |by left].
  by repeat constructor.
Qed.
Lemma performs_do {A} c (m : eff lib A) sc : performs m sc → performs (do! call_ c in m) (Do c :: sc).
Proof.
  intros Hm s r s' Hc. unfold call_, ebind, ret. destruct (call_full c s) as [[x|e] s1] eqn:Hf.
  - destruct (call_full_controlled _ _ _ _ Hc Hf) as (Hc1 & Hl1 & _).
    intros Hr. destruct (Hm _ _ _ Hc1 Hr) as (Hc' & l & b & Hl & Hfo & Hb). split; [done|].
    exists (c :: l), b. split_and!; [|by constructor|done]. by rewrite Hl, Hl1, <- app_assoc.
  - intros [= <- <-]. destruct (call_full_controlled _ _ _ _ Hc Hf) as (Hc1 & Hl1 & ->). split; [done|].
    exists [c], false. split_and!; [done|constructor; constructor|by left].
Qed.

(** The wait: calls until one is not interrupted. *)
Lemma wait_loop_controlled fuel s r s' :
  controlled s → length (replies s) < fuel →
  loop fuel (let! r := call_full mc_wait_for_scheduler in
             ret (if bool_decide (r.1 ≠ 0%Z ∧ r.2 = EINTR) then None else Some r.2)) s = (r, s') →
  controlled s' ∧ ∃ k, log s' = log s ++ replicate (S k) mc_wait_for_scheduler ∧
    match r with Ok _ => True | Throw e => e = Blocked end.
Proof.
  revert s. induction fuel as [|fuel IH]; intros s Hc Hf; [lia|]. cbn [loop]. unfold ebind, ret.
  destruct (call_full mc_wait_for_scheduler s) as [[x|e] s1] eqn:Hcall;
    destruct (call_full_controlled _ _ _ _ Hc Hcall) as (Hc1 & Hl1 & Hx).
  - case_bool_decide; intros Hrun.
    + destruct (IH s1 Hc1 ltac:(lia) Hrun) as (Hc' & k & Hl & Hr). split; [done|]. exists (S k).
      split; [|done]. by rewrite Hl, Hl1, <- app_assoc.
    + injection Hrun as <- <-. split; [done|]. by exists 0.
  - intros [= <- <-]. split; [done|]. by exists 0.
Qed.

Lemma wait_for_scheduler_controlled s r s' :
  controlled s → wait_for_scheduler s = (r, s') →
  controlled s' ∧ ∃ k, log s' = log s ++ replicate (S k) mc_wait_for_scheduler ∧
    match r with Ok _ => True | Throw e => interrupted e end.
Proof.
  intros Hc. unfold wait_for_scheduler, ebind at 1, while_true.
  destruct (loop _ _ s) as [[err|e] s1] eqn:Hl; apply wait_loop_controlled in Hl as (Hc' & k & Hlog & He); try done; try lia.
  - unfold assert_. case_bool_decide; intros [= <- <-]; (split; [done|]); exists k; (split; [done|]); [done|by right].
  - intros [= <- <-]. split; [done|]. exists k. split; [done|by left].
Qed.

(** A round with the checker, with the message in the mailbox. *)
Lemma performs_ask {A} ty payload (m : eff lib A) sc s r s' :
  performs m sc → controlled s → carries (mailbox s) ty payload →
  (do! thread_wake_scheduler_and_wait in m) s = (r, s') →
  controlled s' ∧ ∃ l b, log s' = log s ++ l ∧ follows (Ask ty payload :: sc) l b ∧
    match r with Ok _ => b = true | Throw e => interrupted e end.
Proof.
  intros Hm Hc Hmb. unfold thread_wake_scheduler_and_wait, ebind.
  rewrite (thread_get_mailbox_controlled _ Hc). unfold wake_scheduler.
  destruct (call_full (mc_wake_scheduler (mailbox s)) s) as [[x|e] s1] eqn:Hcall;
    destruct (call_full_controlled _ _ _ _ Hc Hcall) as (Hc1 & Hl1 & Hx).
  2:{ intros [= <- <-]. split; [done|]. exists [mc_wake_scheduler (mailbox s)], false. subst e.
      split_and!; [done|by constructor|by left]. }
  assert (∀ e, controlled s1 → interrupted e → (Throw e : res A, s1) = (r, s') →
    controlled s' ∧ ∃ l b, log s' = log s ++ l ∧ follows (Ask ty payload :: sc) l b ∧
      match r with Ok _ => b = true | Throw e => interrupted e end) as Hfail.
  { intros e _ He [= <- <-]. split; [done|]. exists [mc_wake_scheduler (mailbox s)], false.
    split_and!; [done|by constructor|done]. }
  unfold assert_. case_bool_decide; [|apply Hfail; [done|by right]]. cbn [ret].
  case_bool_decide; [|apply Hfail; [done|by right]]. cbn [ret].
  destruct (wait_for_scheduler s1) as [[[]|e] s2] eqn:Hw;
    destruct (wait_for_scheduler_controlled _ _ _ Hc1 Hw) as (Hc2 & k & Hl2 & He).
  - intros Hrun. destruct (Hm _ _ _ Hc2 Hrun) as (Hc' & l & b & Hl & Hfo & Hb). split; [done|].
    exists (mc_wake_scheduler (mailbox s) :: replicate (S k) mc_wait_for_scheduler ++ l), b.
    split_and!; [|by constructor|done]. rewrite Hl, Hl2, Hl1. by rewrite <- !app_assoc.
  - intros [= <- <-]. split; [done|].
    exists (mc_wake_scheduler (mailbox s) :: replicate (S k) mc_wait_for_scheduler ++ []), false.
    split_and!; [|by constructor; [|constructor]|done]. rewrite Hl2, Hl1, app_nil_r. by rewrite <- app_assoc.
Qed.

Lemma performs_message {A} ty payload (m : eff lib A) sc :
  performs m sc →
  performs (do! set_type ty in do! write_cnts 0 payload in do! thread_wake_scheduler_and_wait in m)
    (Ask ty payload :: sc).
Proof.
  intros Hm s r s' Hc Hrun. set (s1 := set_mailbox (RunnerMailbox ty
    (payload ++ drop (length payload) (cnts (mailbox s)))) s).
  assert ((do! thread_wake_scheduler_and_wait in m) s1 = (r, s')) as Hrun1 by exact Hrun.
  apply (performs_ask ty payload m sc s1); [done|by apply (controlled_frame s)| |done].
  split; [done|]. simpl. rewrite take_app_length. done.
Qed.
Lemma performs_round {A} ty payload (m : eff lib A) sc :
  performs m sc →
  performs (do! fill_mailbox ty payload in do! thread_wake_scheduler_and_wait in m) (Ask ty payload :: sc).
Proof.
  intros Hm s r s' Hc Hrun. apply (performs_message ty payload m sc Hm s r s' Hc). rewrite <- Hrun.
  unfold fill_mailbox, ebind. by rewrite (thread_get_mailbox_controlled _ Hc).
Qed.
Lemma handle_restart_or_wait_controlled s :
  controlled s → handle_restart_or_wait s = thread_wake_scheduler_and_wait s.
Proof.
  intros Hc. unfold handle_restart_or_wait, is_in_restart_mode, ebind at 1 2.
  rewrite (get_current_mode_controlled _ Hc). destruct Hc as [[-> | ->] _ _ _ _]; done.
Qed.
Lemma performs_round_or_restart {A} ty payload (m : eff lib A) sc :
  performs m sc →
  performs (do! fill_mailbox ty payload in do! handle_restart_or_wait in m) (Ask ty payload :: sc).
Proof.
  intros Hm s r s' Hc Hrun. apply (performs_round ty payload m sc Hm s r s' Hc). rewrite <- Hrun.
  unfold fill_mailbox, ebind. rewrite (thread_get_mailbox_controlled _ Hc). unfold set_type, write_cnts, modify_lib.
  by rewrite handle_restart_or_wait_controlled by by apply (controlled_frame s).
Qed.
Lemma performs_dispatch {A} (f : libmcmini_mode → eff lib A) sc :
  performs (f TARGET_BRANCH) sc → performs (f TARGET_BRANCH_AFTER_RESTART) sc →
  performs (let! mode := get_current_mode in f mode) sc.
Proof.
  intros H1 H2 s r s' Hc. unfold ebind. rewrite (get_current_mode_controlled _ Hc).
  pose proof Hc as [[-> | ->] _ _ _ _]; [by apply H1|by apply H2].
Qed.
Lemma performs_assert {A} (m : eff lib A) sc : performs m sc → performs (do! assert_ true in m) sc.
Proof. done. Qed.

Create HintDb performs.
#[export] Hint Resolve performs_ret performs_call performs_do performs_message performs_round : performs.
#[export] Hint Resolve performs_round_or_restart : performs.

(** C22: an operation waits for the checker.  In a branch that the checker controls,
whatever the other threads and the calls do, every wrapper makes exactly the calls
of its script, in order: it posts the message for its operation, waits until it is
let run, and only then makes the real call, if any; a wait on a condition variable
does so twice, giving the mutex up between.  It returns only when the script is
done, and stops before that only blocked in a call or at a failed assertion. *)
Theorem controlled_operation op s r s' :
  controlled s → wrapper op s = (r, s') →
  ∃ l complete, log s' = log s ++ l ∧ follows (script op) l complete ∧
    match r with Ok _ => complete = true | Throw e => interrupted e end.
Proof.
  intros Hc Hrun. assert (performs (wrapper op) (script op)) as Hp.
  { destruct op; cbn [wrapper script]; try apply performs_assert; apply performs_dispatch;
      unfold lock_after_restart, sem_wait_under_checker, cond_wait_under_checker; eauto 10 with performs. }
  by destruct (Hp s r s' Hc Hrun).
Qed.

(** ** What the checker makes of the messages *)

Section understood.
Context {W : Type} `{World W}.

Definition asks (sc : list script_step) : list (N * list N) :=
  omap (λ st, match st with Ask ty payload => Some (ty, payload) | Do _ => None end) sc.

(** The operations of the model that the rounds of a wrapper stand for: one for each,
on the objects at those addresses.  The callback for the destruction of a semaphore
gives none. *)
Definition meanings (c : coordinator) (op : visible_op) : list (option operation) :=
  let id := get_model_of_object c in
  match op with
  | MutexInit m => [Some (mutex_init (id m))]
  | MutexLock m => [Some (mutex_lock (id m))]
  | MutexUnlock m => [Some (mutex_unlock (id m))]
  | SemInit s count => [Some (sem_init (id s) count)]
  | SemDestroy _ => [None]
  | SemPost s => [Some (sem_post (id s))]
  | SemWait s => [Some (sem_wait (id s))]
  | CondInit v => [Some (condition_variable_init (id v))]
  | CondWait v m => [Some (condition_variable_enqueue_thread (id v) (id m)); Some (condition_variable_wait (id v) (id m))]
  | CondSignal v => [Some (condition_variable_signal (id v))]
  | CondBroadcast v => [Some (condition_variable_broadcast (id v))]
  | CondDestroy v => [Some (condition_variable_destroy (id v))]
  end.

(** The arguments fit their C types, and the objects are known to the checker. *)
Definition objects_of (op : visible_op) : list addr :=
  match op with
  | MutexInit a | MutexLock a | MutexUnlock a | SemInit a _ | SemDestroy a | SemPost a | SemWait a
  | CondInit a | CondSignal a | CondBroadcast a | CondDestroy a => [a]
  | CondWait c m => [c; m]
  end.
Definition fits_C_types (op : visible_op) : Prop :=
  Forall (λ a, (a < 2^64)%N) (objects_of op) ∧ match op with SemInit _ count => (count < 2^32)%N | _ => True end.

Definition understood (p : runner_id_t) (c : coordinator) (message : N * list N) (op : option operation) : Prop :=
  ∀ mb, carries mb message.1 message.2 →
    ∃ f, get_callback_for default_registry (type mb) = Some f ∧
      call_callback f p mb c = (Ok (Transition p <$> op), c).

Lemma carries_app mb ty p1 p2 : carries mb ty (p1 ++ p2) →
  ∃ rest, cnts mb = p1 ++ p2 ++ rest.
Proof.
  intros [_ Hp]. exists (drop (length (p1 ++ p2)) (cnts mb)).
  rewrite app_assoc. rewrite <- Hp at 1. by rewrite take_drop.
Qed.
Lemma memcpy_at before n v rest mb :
  cnts mb = before ++ le_bytes n v ++ rest → (v < 2^(8 * N.of_nat n))%N → memcpy_v (length before) n mb = v.
Proof.
  intros Hm Hv. unfold memcpy_v. rewrite Hm, drop_app_length.
  rewrite take_app_le by (by rewrite length_le_bytes).
  rewrite take_ge by (by rewrite length_le_bytes). by apply le_value_bytes.
Qed.
Lemma read_first mb ty a rest : carries mb ty (bytes_of a ++ rest) → (a < 2^64)%N → read_pointer 0 mb = a.
Proof. intros Hc Ha. destruct (carries_app _ _ _ _ Hc) as [r Hr]. by apply (memcpy_at [] 8 a (rest ++ r)). Qed.
Lemma read_second mb ty a b : carries mb ty (bytes_of a ++ bytes_of b) → (b < 2^64)%N → read_pointer 8 mb = b.
Proof.
  intros Hc Hb. destruct (carries_app _ _ _ _ Hc) as [r Hr].
  change 8%nat with (length (bytes_of a)) at 1. by apply (memcpy_at (bytes_of a) 8 b r).
Qed.
Lemma read_count mb ty a n :
  carries mb ty (bytes_of a ++ le_bytes 4 n) → (n < 2^32)%N → u32_of_int (read_int 8 mb) = n.
Proof.
  intros Hc Hn. destruct (carries_app _ _ _ _ Hc) as [r Hr]. unfold read_int.
  change 8%nat with (length (bytes_of a)) at 1.
  rewrite (memcpy_at (bytes_of a) 4 n r) by done.
  unfold u32_of_int, s32, u32. rewrite N.mod_small by done. cbv zeta.
  destruct (Z.ltb_spec (Z.of_N n) (2^31)).
  - rewrite Z.mod_small by lia. apply N2Z.id.
  - replace (Z.of_N n - 2^32)%Z with (Z.of_N n + (-1) * 2^32)%Z by lia.
    rewrite Z.mod_add, Z.mod_small by lia. apply N2Z.id.
Qed.

Lemma understood_known p c ty a rest f o :
  get_callback_for default_registry ty = Some f → (a < 2^64)%N → contains c a = true →
  (∀ mb, carries mb ty (bytes_of a ++ rest) →
    known_operation f mb (get_model_of_object c a) (get_model_of_object c (read_pointer 8 mb)) = Some o ∧
    (reads_two f = true → contains c (read_pointer 8 mb) = true)) →
  understood p c (ty, bytes_of a ++ rest) (Some o).
Proof.
  intros Hf Ha Hk Ho mb Hc. cbn [fst snd] in Hc. exists f. destruct (Ho mb Hc) as [Hop H2].
  pose proof (read_first _ _ _ _ Hc Ha) as Hread. split; [by destruct Hc as [-> _]|].
  by apply callback_of_known_objects; rewrite ?Hread.
Qed.
Lemma understood_single p c ty a f o :
  get_callback_for default_registry ty = Some f → (a < 2^64)%N → contains c a = true →
  reads_two f = false → (∀ mb id2, known_operation f mb (get_model_of_object c a) id2 = Some o) →
  understood p c (ty, bytes_of a) (Some o).
Proof.
  intros Hf Ha Hk H2 Ho. rewrite <- (app_nil_r (bytes_of a)).
  apply (understood_known _ _ _ _ _ f _ Hf Ha Hk). intros mb _. rewrite H2. split; [apply Ho|discriminate].
Qed.
Lemma understood_pair p c ty a b f o :
  get_callback_for default_registry ty = Some f → (a < 2^64)%N → contains c a = true →
  (b < 2^64)%N → contains c b = true →
  (∀ mb, known_operation f mb (get_model_of_object c a) (get_model_of_object c b) = Some o) →
  understood p c (ty, bytes_of a ++ bytes_of b) (Some o).
Proof.
  intros Hf Ha Hk Hb Hkb Ho. apply (understood_known _ _ _ _ _ f _ Hf Ha Hk).
  intros mb Hc. rewrite (read_second _ _ _ _ Hc Hb). split; [apply Ho|intros _; exact Hkb].
Qed.
Lemma understood_sem_init p c s n :
  (s < 2^64)%N → contains c s = true → (n < 2^32)%N →
  understood p c (SEM_INIT_TYPE, bytes_of s ++ le_bytes 4 n) (Some (sem_init (get_model_of_object c s) n)).
Proof.
  intros Hs Hk Hn. apply (understood_known _ _ _ _ _ sem_init_callback_f); [done..|].
  intros mb Hc. cbn [known_operation]. by rewrite (read_count _ _ _ _ Hc Hn).
Qed.
Lemma understood_sem_destroy p c s :
  (s < 2^64)%N → contains c s = true → understood p c (SEM_DESTROY_TYPE, bytes_of s) None.
Proof.
  intros Hs Hk mb Hc. cbn [fst snd] in Hc. exists sem_destroy_callback_f.
  split; [by destruct Hc as [-> _]|]. rewrite <- (app_nil_r (bytes_of s)) in Hc.
  cbn [call_callback]. unfold sem_destroy_callback. rewrite (read_first _ _ _ _ Hc Hs).
  unfold ebind. by rewrite unless_contains_known.
Qed.

(** C24: the checker understands the wrappers.  When the model knows the objects of the
operation and its arguments fit the C types, each message of a wrapper, whatever else is in
the mailbox, has a callback registered for its type, and that callback makes the transition
of the same operation on the objects at the same addresses, with the same count, and changes
nothing.  The one exception is [sem_destroy], whose callback makes no transition. *)
Theorem wrapper_understood op p c :
  fits_C_types op → Forall (λ a, contains c a = true) (objects_of op) →
  Forall2 (understood p c) (asks (script op)) (meanings c op).
Proof.
  intros [Hfit Hn] Hknown.
  destruct op; cbn [script asks omap list_omap meanings objects_of] in *; rewrite ?Forall_cons, ?Forall_singleton in Hfit, Hknown;
    destruct_and?; repeat first [apply Forall2_nil_2|apply Forall2_cons_2];
    match goal with
    | |- understood _ _ (SEM_INIT_TYPE, _) _ => apply understood_sem_init; trivial
    | |- understood _ _ (SEM_DESTROY_TYPE, _) _ => apply understood_sem_destroy; trivial
    | |- understood _ _ (_, _ ++ _) _ => eapply understood_pair; [vm_compute; reflexivity|trivial..|reflexivity]
    | _ => eapply understood_single; [vm_compute; reflexivity|trivial..|reflexivity|reflexivity]
    end.
Qed.
End understood.
