(* ===== verification/Interception.v ===== *)
(** * The functions behind the wrappers

[lib/interception.c].  Every intercepted function of the program calls its wrapper
([Intercepted]); a wrapper that wants the real function calls a [libpthread_] or [libc_]
forwarder, which calls the pointer that [mc_load_intercepted_pthread_functions] has loaded.
The first forwarder any thread calls loads all pointers, once ([libmcmini_init]).  The
dynamic linker is a parameter: which libraries [dlopen] finds and which symbols [dlsym]
finds in them.  Threads that are initialised at the same time are interleaved, one statement
of the loading routine at a time ([init_step]). *)

From stdpp Require Import functions strings.
From stdpp Require Import options.
From S2P Require Import Prelude Recorder Wrappers ThreadWrappers Protocol.

(** ** The pointers *)

Inductive pointer :=
  | libpthread_pthread_create_ptr | libdmtcp_pthread_create_ptr | tsan_or_real_pthread_create_ptr
  | libpthread_pthread_join_ptr | libdmtcp_pthread_join_ptr | libpthread_timedjoin_np_ptr | libpthread_pthread_exit_ptr
  | pthread_mutex_init_ptr | pthread_mutex_lock_ptr | pthread_mutex_trylock_ptr | pthread_mutex_timedlock_ptr
  | pthread_mutex_unlock_ptr | pthread_mutex_destroy_ptr
  | sem_wait_ptr | sem_timedwait_ptr | sem_post_ptr | sem_init_ptr | sem_destroy_ptr
  | pthread_cond_init_ptr | pthread_cond_wait_ptr | pthread_cond_timedwait_ptr | pthread_cond_signal_ptr
  | pthread_cond_broadcast_ptr | pthread_cond_destroy_ptr
  | sleep_ptr | exit_ptr | abort_ptr | fork_ptr | clone_ptr.
#[export] Instance pointer_eq_dec : EqDecision pointer.
Proof. solve_decision. Defined.

(** [pthread_once_t]: nobody came, a thread runs the routine, the routine has returned. *)
Inductive once := PTHREAD_ONCE_INIT | once_running | once_done.
#[export] Instance once_eq_dec : EqDecision once.
Proof. solve_decision. Defined.

Section linker.
Context {handle : Type}.
(** [dlopen(3)] and [dlsym(3)]; [None] is a null pointer. *)
Context (dlopen : string → option handle) (dlsym : handle → string → option addr) (dlsym_next : string → option addr).
Context (dmtcp_is_enabled : bool).

(** The static variables of the file, and the local variables of the loading routine. *)
Record image := Image {
  pointers : pointer → option addr;
  libpthread_handle : option handle;
  libc_handle : option handle;
  libdmtcp_handle : option handle;
  libmcini_init : once;
  libmcmini_init_done : bool;
}.
Definition start_image : image := Image (λ _, None) None None None PTHREAD_ONCE_INIT false.

Definition set_pointer (p : pointer) (f : option addr) (s : image) : image :=
  Image (<[p := f]> (pointers s)) (libpthread_handle s) (libc_handle s) (libdmtcp_handle s) (libmcini_init s) (libmcmini_init_done s).
Definition set_libpthread (h : option handle) (s : image) : image :=
  Image (pointers s) h (libc_handle s) (libdmtcp_handle s) (libmcini_init s) (libmcmini_init_done s).
Definition set_libc (h : option handle) (s : image) : image :=
  Image (pointers s) (libpthread_handle s) h (libdmtcp_handle s) (libmcini_init s) (libmcmini_init_done s).
Definition set_libdmtcp (h : option handle) (s : image) : image :=
  Image (pointers s) (libpthread_handle s) (libc_handle s) h (libmcini_init s) (libmcmini_init_done s).
Definition set_once (o : once) (s : image) : image :=
  Image (pointers s) (libpthread_handle s) (libc_handle s) (libdmtcp_handle s) o (libmcmini_init_done s).
Definition set_done (s : image) : image :=
  Image (pointers s) (libpthread_handle s) (libc_handle s) (libdmtcp_handle s) (libmcini_init s) true.

Definition modify_image (f : image → image) : eff image unit := λ s, (Ok tt, f s).

(** ** The loading routine *)

Definition first_found (names : list string) : option handle := head (omap dlopen names).

Section load.
(** [libc_abort()], which does not return. *)
Context (libc_abort : eff image Empty_set).

(** [dlopen] of one name after the other. *)
Definition open (names : list string) : eff image handle :=
  match first_found names with
  | Some h => ret h
  | None => let! x := libc_abort in match x with end
  end.
(** [p = dlsym(h, symbol)]: the handle is open. *)
Definition load (p : pointer) (h : image → option handle) (symbol : string) : eff image unit :=
  let! s := get in
  match h s with
  | Some h => modify_image (set_pointer p (dlsym h symbol))
  | None => throw UB
  end.
Definition load_next (p : pointer) (symbol : string) : eff image unit := modify_image (set_pointer p (dlsym_next symbol)).

Definition load_pthread_create : eff image unit :=
  if dmtcp_is_enabled then load libpthread_pthread_create_ptr libpthread_handle "pthread_create"
  else
    do! load_next libpthread_pthread_create_ptr "pthread_create" in
    let! s := get in
    match pointers s libpthread_pthread_create_ptr with
    | Some _ => ret tt
    | None => load libpthread_pthread_create_ptr libpthread_handle "pthread_create"
    end.

(** The statements of [mc_load_intercepted_pthread_functions], in order. *)
Definition load_libraries : list (eff image unit) := [
  (let! h := open ["libpthread.so"; "libpthread.so.0"] in modify_image (set_libpthread (Some h)));
  (let! h := open ["libc.so"; "libc.so.6"] in modify_image (set_libc (Some h)));
  load libpthread_pthread_create_ptr libpthread_handle "pthread_create";
  load_next tsan_or_real_pthread_create_ptr "pthread_create";
  load libpthread_pthread_join_ptr libpthread_handle "pthread_join";
  load libpthread_timedjoin_np_ptr libpthread_handle "pthread_timedjoin_np";
  load_pthread_create;
  load libpthread_pthread_exit_ptr libpthread_handle "pthread_exit";
  load pthread_mutex_init_ptr libpthread_handle "pthread_mutex_init";
  load pthread_mutex_lock_ptr libpthread_handle "pthread_mutex_lock";
  load pthread_mutex_trylock_ptr libpthread_handle "pthread_mutex_trylock";
  load pthread_mutex_timedlock_ptr libpthread_handle "pthread_mutex_timedlock";
  load pthread_mutex_unlock_ptr libpthread_handle "pthread_mutex_unlock";
  load pthread_mutex_destroy_ptr libpthread_handle "pthread_mutex_destroy";
  load sem_timedwait_ptr libpthread_handle "sem_timedwait";
  load sem_wait_ptr libpthread_handle "sem_wait";
  load sem_timedwait_ptr libpthread_handle "sem_timedwait";
  load sem_post_ptr libpthread_handle "sem_post";
  load sem_init_ptr libpthread_handle "sem_init";
  load sem_destroy_ptr libpthread_handle "sem_destroy";
  load pthread_cond_init_ptr libpthread_handle "pthread_cond_init";
  load pthread_cond_wait_ptr libpthread_handle "pthread_cond_wait";
  load pthread_cond_timedwait_ptr libpthread_handle "pthread_cond_timedwait";
  load pthread_cond_signal_ptr libpthread_handle "pthread_cond_signal";
  load pthread_cond_broadcast_ptr libpthread_handle "pthread_cond_broadcast";
  load pthread_cond_destroy_ptr libpthread_handle "pthread_cond_destroy";
  load sleep_ptr libc_handle "sleep";
  load exit_ptr libc_handle "exit";
  load abort_ptr libc_handle "abort";
  load fork_ptr libc_handle "fork";
  load clone_ptr libc_handle "__clone";
  modify_image (set_libpthread None);                       (* dlclose *)
  modify_image (set_libc None)].
Definition load_dmtcp : list (eff image unit) :=
  if dmtcp_is_enabled then [
    (let! h := open ["libdmtcp.so"] in modify_image (set_libdmtcp (Some h)));
    load libdmtcp_pthread_create_ptr libdmtcp_handle "pthread_create";
    load libdmtcp_pthread_join_ptr libdmtcp_handle "pthread_join";
    modify_image (set_libdmtcp None)]
  else [].
Definition statements : list (eff image unit) := load_libraries ++ load_dmtcp.
Definition mc_load_intercepted_pthread_functions : eff image unit := for_each statements id.

(** [pthread_once(3)]: a call while the routine runs returns when the routine has; when the
routine itself makes it, that is never. *)
Definition pthread_once (init_routine : eff image unit) : eff image unit :=
  let! s := get in
  match libmcini_init s with
  | once_done => ret tt
  | once_running => throw Blocked
  | PTHREAD_ONCE_INIT => do! modify_image (set_once once_running) in do! init_routine in modify_image (set_once once_done)
  end.
Definition libmcmini_init_with : eff image unit :=
  let! s := get in
  if libmcmini_init_done s then ret tt
  else do! pthread_once mc_load_intercepted_pthread_functions in modify_image set_done.
End load.

Definition call_abort : eff image Empty_set :=
  let! s := get in match pointers s abort_ptr with Some _ => throw AbortCalled | None => throw UB end.
(** [libc_abort] is initialised like every forwarder, and the routine calls it: the nesting
of the two is bounded, see [libc_abort_depth]. *)
Fixpoint libc_abort_at (depth : nat) : eff image Empty_set :=
  match depth with
  | O => throw LoopBound
  | S depth =>
      do! libmcmini_init_with (libc_abort_at depth) in call_abort
  end.
Definition libc_abort : eff image Empty_set := libc_abort_at 2.
Definition libmcmini_init : eff image unit := libmcmini_init_with libc_abort.

(** A forwarder: which function it calls, with its own arguments. *)
Definition forward (p : pointer) : eff image addr :=
  do! libmcmini_init in
  let! s := get in
  match pointers s p with Some f => ret f | None => throw UB end.

(** ** What the pointers mean *)

(** The library each forwarder is named after. *)
Definition in_library (names : list string) (symbol : string) : option addr :=
  h ← first_found names; dlsym h symbol.
Definition in_libpthread : string → option addr := in_library ["libpthread.so"; "libpthread.so.0"].
Definition in_libc : string → option addr := in_library ["libc.so"; "libc.so.6"].
Definition in_libdmtcp (symbol : string) : option addr :=
  if dmtcp_is_enabled then in_library ["libdmtcp.so"] symbol else None.
Definition real_function (p : pointer) : option addr :=
  match p with
  | libpthread_pthread_create_ptr =>
      if dmtcp_is_enabled then in_libpthread "pthread_create"
      else match dlsym_next "pthread_create" with Some f => Some f | None => in_libpthread "pthread_create" end
  | libdmtcp_pthread_create_ptr => in_libdmtcp "pthread_create"
  | libdmtcp_pthread_join_ptr => in_libdmtcp "pthread_join"
  | tsan_or_real_pthread_create_ptr => dlsym_next "pthread_create"
  | libpthread_pthread_join_ptr => in_libpthread "pthread_join"
  | libpthread_timedjoin_np_ptr => in_libpthread "pthread_timedjoin_np"
  | libpthread_pthread_exit_ptr => in_libpthread "pthread_exit"
  | pthread_mutex_init_ptr => in_libpthread "pthread_mutex_init"
  | pthread_mutex_lock_ptr => in_libpthread "pthread_mutex_lock"
  | pthread_mutex_trylock_ptr => in_libpthread "pthread_mutex_trylock"
  | pthread_mutex_timedlock_ptr => in_libpthread "pthread_mutex_timedlock"
  | pthread_mutex_unlock_ptr => in_libpthread "pthread_mutex_unlock"
  | pthread_mutex_destroy_ptr => in_libpthread "pthread_mutex_destroy"
  | sem_wait_ptr => in_libpthread "sem_wait"
  | sem_timedwait_ptr => in_libpthread "sem_timedwait"
  | sem_post_ptr => in_libpthread "sem_post"
  | sem_init_ptr => in_libpthread "sem_init"
  | sem_destroy_ptr => in_libpthread "sem_destroy"
  | pthread_cond_init_ptr => in_libpthread "pthread_cond_init"
  | pthread_cond_wait_ptr => in_libpthread "pthread_cond_wait"
  | pthread_cond_timedwait_ptr => in_libpthread "pthread_cond_timedwait"
  | pthread_cond_signal_ptr => in_libpthread "pthread_cond_signal"
  | pthread_cond_broadcast_ptr => in_libpthread "pthread_cond_broadcast"
  | pthread_cond_destroy_ptr => in_libpthread "pthread_cond_destroy"
  | sleep_ptr => in_libc "sleep"
  | exit_ptr => in_libc "exit"
  | abort_ptr => in_libc "abort"
  | fork_ptr => in_libc "fork"
  | clone_ptr => in_libc "__clone"
  end.
(** The libraries can be opened. *)
Definition libraries_found : Prop :=
  is_Some (first_found ["libpthread.so"; "libpthread.so.0"]) ∧
  is_Some (first_found ["libc.so"; "libc.so.6"]) ∧
  (dmtcp_is_enabled = true → is_Some (first_found ["libdmtcp.so"])).

(** ** Threads that are initialised at the same time *)

Inductive init_pc :=
  | check_done               (* at the start of libmcmini_init *)
  | enter_once
  | loading (k : nat)        (* in the routine, [k] statements done *)
  | store_done
  | initialized              (* libmcmini_init has returned *)
  | called (f : option addr)
  | failed (e : exn).
(** A thread in the forwarder of the pointer [target]. *)
Record caller := Caller { target : pointer; pc : init_pc }.
Record process := Process { globals : image; callers : list caller }.

Definition forwarder_step (t : caller) (s : image) : option (init_pc * image) :=
  match pc t with
  | check_done => Some (if libmcmini_init_done s then initialized else enter_once, s)
  | enter_once =>
      match libmcini_init s with
      | PTHREAD_ONCE_INIT => Some (loading 0, set_once once_running s)
      | once_running => None
      | once_done => Some (store_done, s)
      end
  | loading k =>
      match statements libc_abort !! k with
      | Some st => match st s with
                   | (Ok _, s') => Some (loading (S k), s')
                   | (Throw Blocked, _) => None
                   | (Throw e, s') => Some (failed e, s')
                   end
      | None => Some (store_done, set_once once_done s)
      end
  | store_done => Some (initialized, set_done s)
  | initialized => Some (called (pointers s (target t)), s)
  | called _ | failed _ => None
  end.
Definition init_step (i : nat) (s : process) : option process :=
  t ← callers s !! i;
  '(pc', g) ← forwarder_step t (globals s);
  Some (Process g (<[i := Caller (target t) pc']> (callers s))).
Fixpoint run_threads (l : list nat) (s : process) : option process :=
  match l with [] => Some s | i :: l => s' ← init_step i s; run_threads l s' end.
Definition start_process (targets : list pointer) : process :=
  Process start_image ((λ p, Caller p check_done) <$> targets).

(** ** The routine *)

Lemma load_ok p get symbol s h :
  get s = Some h → load p get symbol s = (Ok tt, set_pointer p (dlsym h symbol) s).
Proof using Type. unfold load, ebind, Prelude.get. by intros ->. Qed.
Lemma open_ok abort names s h : first_found names = Some h → open abort names s = (Ok h, s).
Proof using Type. unfold open. by intros ->. Qed.

Lemma for_each_cons_ok (st : eff image unit) l s s' r :
  st s = (Ok tt, s') → for_each l id s' = r → for_each (st :: l) id s = r.
Proof using Type. intros Hs Hl. cbn [for_each]. unfold ebind. change (id st s) with (st s). by rewrite Hs. Qed.
Lemma open_into_ok abort names (set : option handle → image → image) s h : first_found names = Some h →
  (let! h := open abort names in modify_image (set (Some h))) s = (Ok tt, set (Some h) s).
Proof using Type. unfold ebind. intros Hh. by rewrite (open_ok _ _ _ _ Hh). Qed.
Lemma for_each_app_ok {A} (l1 l2 : list A) (f : A → eff image unit) s s' :
  for_each (l1 ++ l2) f s = (Ok tt, s') → ∃ s1, for_each l1 f s = (Ok tt, s1) ∧ for_each l2 f s1 = (Ok tt, s').
Proof using Type.
  revert s. induction l1 as [|x l1 IH]; intros s; cbn [for_each app]; [by exists s|]. unfold ebind.
  destruct (f x s) as [[[]|e] s1]; [apply IH|done].
Qed.

(** ** The nesting of the routine and [libc_abort] *)

(** While the routine runs. *)
Definition in_routine (s : image) : Prop := libmcini_init s = once_running ∧ libmcmini_init_done s = false.
Definition same_in_routine (st1 st2 : eff image unit) : Prop :=
  ∀ s, in_routine s → st1 s = st2 s ∧ ∀ s', st1 s = (Ok tt, s') → in_routine s'.
Section nested.
Context (abort1 abort2 : eff image Empty_set) (Hsame : ∀ s, in_routine s → abort1 s = abort2 s).
Lemma open_same names set : (∀ h s, in_routine s → in_routine (set (Some h) s)) →
  same_in_routine (let! h := open abort1 names in modify_image (set (Some h))) (let! h := open abort2 names in modify_image (set (Some h))).
Proof using Hsame.
  intros Hset s Hs. unfold open, ebind. destruct (first_found names) as [h|]; cbn; [|rewrite Hsame by done].
  - split; [done|]. intros s' [= <-]. by apply Hset.
  - split; [done|]. by destruct (abort2 s) as [[[]|] ?].
Qed.
Lemma set_same f : (∀ s, in_routine s → in_routine (f s)) → same_in_routine (modify_image f) (modify_image f).
Proof using Type. intros Hf s Hs. split; [done|]. intros s' [= <-]. auto. Qed.
Lemma load_same p get symbol : same_in_routine (load p get symbol) (load p get symbol).
Proof using Type.
  intros s Hs. split; [done|]. intros s'. unfold load, ebind, Prelude.get. destruct (get s); [|done]. by intros [= <-].
Qed.
Lemma load_create_same : same_in_routine load_pthread_create load_pthread_create.
Proof using Type.
  intros s Hs. split; [done|]. intros s' Hl. unfold load_pthread_create in Hl. destruct dmtcp_is_enabled; [by eapply load_same|].
  unfold ebind, load_next, modify_image, Prelude.get in Hl. destruct (pointers _ _); [by injection Hl as <-|].
  by eapply (load_same _ _ _ (set_pointer _ _ s)).
Qed.
Lemma statements_same : Forall2 same_in_routine (statements abort1) (statements abort2).
Proof using Hsame.
  unfold statements, load_libraries, load_dmtcp. destruct dmtcp_is_enabled; cbn [app];
  repeat (constructor; [first [apply load_same|apply set_same; by intros ?|apply load_create_same|apply open_same; by intros ?]|]); constructor.
Qed.
Lemma routine_same l1 l2 s : Forall2 same_in_routine l1 l2 → in_routine s →
  for_each l1 id s = for_each l2 id s ∧ ∀ s', for_each l1 id s = (Ok tt, s') → in_routine s'.
Proof using Type.
  intros Hl. revert s. induction Hl as [|st1 st2 l1 l2 Hst Hl IH]; intros s Hs; cbn [for_each].
  - split; [done|]. by intros s' [= <-].
  - destruct (Hst s Hs) as [He Hok]. unfold ebind. change (id st1 s) with (st1 s). change (id st2 s) with (st2 s).
    rewrite <- He. destruct (st1 s) as [[[]|e] s1]; [|done]. apply IH. by apply Hok.
Qed.
Lemma init_same s : libmcmini_init_with abort1 s = libmcmini_init_with abort2 s.
Proof using Hsame.
  unfold libmcmini_init_with, ebind, Prelude.get. destruct (libmcmini_init_done s) eqn:Hd; [done|].
  unfold pthread_once, ebind, Prelude.get. destruct (libmcini_init s); [|reflexivity..].
  change ((modify_image (set_once once_running)) s) with (Ok tt : res unit, set_once once_running s). cbv beta iota.
  unfold mc_load_intercepted_pthread_functions.
  rewrite (proj1 (routine_same _ _ (set_once once_running s) statements_same (conj eq_refl Hd))). reflexivity.
Qed.
End nested.
Lemma abort_in_routine d s : in_routine s → libc_abort_at (S d) s = (Throw Blocked, s).
Proof using Type.
  intros [Ho Hd]. cbn [libc_abort_at]. unfold libmcmini_init_with, pthread_once, ebind, Prelude.get. by rewrite Hd, Ho.
Qed.
(** Two levels are enough: the inner call waits for the routine that makes it. *)
Lemma libc_abort_depth d s : libc_abort_at (S (S d)) s = libc_abort s.
Proof using Type.
  unfold libc_abort. change (libc_abort_at (S (S d)) s) with ((do! libmcmini_init_with (libc_abort_at (S d)) in call_abort) s).
  change (libc_abort_at 2 s) with ((do! libmcmini_init_with (libc_abort_at 1) in call_abort) s). unfold ebind.
  rewrite (init_same (libc_abort_at (S d)) (libc_abort_at 1)); [done|].
  intros s' Hs. by rewrite !abort_in_routine.
Qed.

(** ** The routine *)

(** One statement after the other. *)
Ltac run_loads H1 H2 H3 :=
  cbn [app];
  repeat (eapply for_each_cons_ok;
    [first [eapply (open_into_ok _ _ set_libpthread), H1 | eapply (open_into_ok _ _ set_libc), H2
           |eapply (open_into_ok _ _ set_libdmtcp), H3 | eapply load_ok; reflexivity | reflexivity
           |unfold load_next, modify_image, ebind; cbn; rewrite ?H3; cbn; reflexivity
           |unfold load_next, modify_image, ebind; cbn; rewrite ?H3; cbn; eapply load_ok; reflexivity]|]);
  reflexivity.
Lemma routine_runs abort : libraries_found →
  ∃ s, for_each (statements abort) id (set_once once_running start_image) = (Ok tt, s) ∧
  ∀ p, pointers s p = real_function p.
Proof using Type.
  intros ([h1 H1] & [h2 H2] & H3).
  unfold real_function, in_libpthread, in_libc, in_libdmtcp, in_library.
  unfold statements, load_dmtcp, load_libraries, load_pthread_create. destruct dmtcp_is_enabled.
  - destruct H3 as [h3 H3]; [done|]. rewrite H1, H2, H3. eexists. split; [run_loads H1 H2 H3|]. by intros [].
  - rewrite H1, H2. destruct (dlsym_next "pthread_create") as [f|] eqn:Hf; eexists; (split; [run_loads H1 H2 Hf|]; by intros []).
Qed.

(** A forwarder that the routine itself enters does not return: [libc_abort], or a wrapper
that [dlopen] comes through. *)
Lemma forward_in_routine p s : in_routine s → forward p s = (Throw Blocked, s).
Proof using Type.
  intros [Ho Hd]. unfold forward, libmcmini_init, libmcmini_init_with, pthread_once, ebind, Prelude.get. by rewrite Hd, Ho.
Qed.

(** Without one of them [libc_abort] is called in the routine. *)
Ltac one_load H1 H2 H3 :=
  eapply for_each_cons_ok;
    [first [eapply (open_into_ok _ _ set_libpthread), H1 | eapply (open_into_ok _ _ set_libc), H2
           |eapply load_ok; reflexivity | reflexivity]|].
Lemma open_fails abort names (set : option handle → image → image) l s e s' :
  first_found names = None → abort s = (Throw e, s') →
  for_each ((let! h := open abort names in modify_image (set (Some h))) :: l) id s = (Throw e, s').
Proof using Type. intros Hn Ha. cbn [for_each]. unfold ebind, open, id at 1. rewrite Hn. unfold ebind. by rewrite Ha. Qed.
Lemma routine_fails : ¬ libraries_found → ∃ s, for_each (statements libc_abort) id (set_once once_running start_image) = (Throw Blocked, s).
Proof using Type.
  intros Hno. unfold libraries_found in Hno. unfold statements, load_dmtcp, load_libraries, load_pthread_create. cbn [app].
  destruct (first_found ["libpthread.so"; _]) as [h1|] eqn:H1.
  2: { eexists. eapply (open_fails _ _ set_libpthread); [exact H1|by apply (abort_in_routine 1)]. }
  destruct (first_found ["libc.so"; _]) as [h2|] eqn:H2.
  2: { eexists. one_load H1 H2 H1. eapply (open_fails _ _ set_libc); [exact H2|by apply (abort_in_routine 1)]. }
  destruct dmtcp_is_enabled; [|exfalso; apply Hno; split_and!; by eauto].
  destruct (first_found ["libdmtcp.so"]) as [h3|] eqn:H3; [exfalso; apply Hno; split_and!; by eauto|].
  eexists. do 33 one_load H1 H2 H3. eapply (open_fails _ _ set_libdmtcp); [exact H3|by apply (abort_in_routine 1)].
Qed.

(** The first call of any forwarder, where a library is missing: [libc_abort] waits for the
routine that calls it, so the process neither aborts nor goes on. *)
Theorem missing_library_hangs p : ¬ libraries_found → (forward p start_image).1 = Throw Blocked.
Proof using Type.
  intros [s Hs]%routine_fails. unfold forward, libmcmini_init, libmcmini_init_with, pthread_once, ebind, Prelude.get.
  cbn [libmcmini_init_done start_image libmcini_init]. unfold mc_load_intercepted_pthread_functions, modify_image.
  by rewrite Hs.
Qed.

Section found.
Hypothesis found : libraries_found.
Definition n_statements : nat := length (statements libc_abort).
(** The image after the first [k] statements. *)
Definition after (k : nat) : image := (for_each (take k (statements libc_abort)) id (set_once once_running start_image)).2.
Lemma after_runs k : for_each (take k (statements libc_abort)) id (set_once once_running start_image) = (Ok tt, after k).
Proof using found.
  destruct (routine_runs libc_abort found) as (s & Hs & _). rewrite <- (take_drop k (statements libc_abort)) in Hs.
  apply for_each_app_ok in Hs as (s1 & Hs1 & _). unfold after. by rewrite Hs1.
Qed.
Lemma after_step k st : statements libc_abort !! k = Some st → st (after k) = (Ok tt, after (S k)).
Proof using found.
  intros Hst. pose proof (after_runs (S k)) as Hs. erewrite take_S_r in Hs by exact Hst.
  apply for_each_app_ok in Hs as (s1 & Hs1 & Hs2). rewrite after_runs in Hs1. injection Hs1 as <-.
  cbn [for_each] in Hs2. unfold ebind, id in Hs2. destruct (st (after k)) as [[[]|e] s2]; [|done]. by injection Hs2 as ->.
Qed.
Lemma after_in_routine k : in_routine (after k).
Proof using found.
  assert (Forall2 same_in_routine (take k (statements libc_abort)) (take k (statements libc_abort))) as Hl
    by (apply Forall2_take, statements_same; done).
  exact (proj2 (routine_same _ _ (set_once once_running start_image) Hl (conj eq_refl eq_refl)) _ (after_runs k)).
Qed.
Definition loaded : image := set_once once_done (after n_statements).
Lemma loaded_pointers p : pointers loaded p = real_function p.
Proof using found.
  destruct (routine_runs libc_abort found) as (s & Hs & Hp). unfold loaded, after, n_statements. rewrite firstn_all, Hs. apply Hp.
Qed.

Lemma init_loads : libmcmini_init start_image = (Ok tt, set_done loaded).
Proof using found.
  unfold libmcmini_init, libmcmini_init_with, pthread_once, ebind, Prelude.get, mc_load_intercepted_pthread_functions, modify_image.
  cbn [libmcmini_init_done start_image libmcini_init]. pose proof (after_runs n_statements) as Hr.
  unfold n_statements in Hr. rewrite firstn_all in Hr. by rewrite Hr.
Qed.

(** How far the process is. *)
Inductive phase := fresh | running (i k : nat) | ready | flagged.
#[export] Instance phase_eq_dec : EqDecision phase.
Proof using Type. solve_decision. Defined.
Definition image_of (ph : phase) : image :=
  match ph with fresh => start_image | running _ k => after k | ready => loaded | flagged => set_done loaded end.
Definition allowed (ph : phase) (i : nat) (t : caller) : Prop :=
  match pc t with
  | check_done | enter_once => True
  | loading k => ph = running i k
  | store_done => ph = ready ∨ ph = flagged
  | initialized => ph = flagged
  | called f => ph = flagged ∧ f = real_function (target t)
  | failed _ => False
  end.
Record coherent (ph : phase) (s : process) : Prop := Coherent {
  co_image : globals s = image_of ph;
  co_pcs : ∀ i t, callers s !! i = Some t → allowed ph i t;
  co_runs : ∀ i k, ph = running i k → k ≤ n_statements ∧ ∃ t, callers s !! i = Some t ∧ pc t = loading k;
}.

Definition rank (t : caller) : nat :=
  match pc t with
  | check_done => 5 | enter_once => 4 | loading k => (n_statements - k) + 3 | store_done => 2 | initialized => 1
  | called _ | failed _ => 0
  end.
Definition to_load (ph : phase) : nat := match ph with fresh => S n_statements | _ => 0 end.
Definition remaining (ph : phase) (s : process) : nat :=
  sum_list (rank <$> callers s) + to_load ph.
Lemma callers_sum_insert (l : list caller) i t t' : l !! i = Some t →
  sum_list (rank <$> <[i := t']> l) + rank t = sum_list (rank <$> l) + rank t'.
Proof using Type.
  revert i. induction l as [|x l IH]; intros [|i] Hi; simpl in *; [done|done|injection Hi as ->; lia|].
  specialize (IH i Hi). unfold fmap in IH. lia.
Qed.

(** One step of a thread: the next phase, and less to do. *)
Definition goes_on (ph : phase) (s : process) (i : nat) (t : caller) (ph' : phase) (pc' : init_pc) : Prop :=
  coherent ph' (Process (image_of ph') (<[i := Caller (target t) pc']> (callers s))) ∧
  remaining ph' (Process (image_of ph') (<[i := Caller (target t) pc']> (callers s))) < remaining ph s.
Lemma goes_on_intro ph s i t ph' pc' :
  coherent ph s → callers s !! i = Some t → allowed ph' i (Caller (target t) pc') →
  (∀ j u, callers s !! j = Some u → j ≠ i → allowed ph j u → allowed ph' j u) →
  (∀ j k, ph' = running j k → k ≤ n_statements ∧
    if bool_decide (j = i) then pc' = loading k else ∃ u, callers s !! j = Some u ∧ pc u = loading k) →
  rank (Caller (target t) pc') + to_load ph' < rank t + to_load ph →
  goes_on ph s i t ph' pc'.
Proof using Type.
  intros [Hg Hp Hr] Hi Hself Hother Hrun Hrank. assert (i < length (callers s)) as Hlt by (by apply lookup_lt_is_Some; eauto).
  split; [split|].
  - done.
  - intros j u. cbn. destruct (decide (j = i)) as [->|Hne].
    + rewrite list_lookup_insert_eq by done. by intros [= <-].
    + rewrite list_lookup_insert_ne by done. eauto.
  - intros j k Hk. destruct (Hrun j k Hk) as [Hle Hj]. split; [done|]. cbn. case_bool_decide as Hji.
    + subst j. exists (Caller (target t) pc'). by rewrite list_lookup_insert_eq.
    + by rewrite list_lookup_insert_ne.
  - pose proof (callers_sum_insert (callers s) i t (Caller (target t) pc') Hi) as Hs. unfold remaining. cbn [callers]. lia.
Qed.
(** A thread that is not in the routine goes on without changing the phase. *)
Lemma goes_on_same ph s i t pc' :
  coherent ph s → callers s !! i = Some t → allowed ph i (Caller (target t) pc') →
  (∀ k, pc t ≠ loading k) → rank (Caller (target t) pc') < rank t → goes_on ph s i t ph pc'.
Proof using Type.
  intros Hc Hi Ha Hno Hrank. apply goes_on_intro; [done..| |unfold remaining; lia].
  intros j k ->. destruct (co_runs _ _ Hc j k eq_refl) as (Hk & u & Hj & Hu). split; [done|]. case_bool_decide as Hji.
  - subst j. rewrite Hi in Hj. injection Hj as <-. by destruct (Hno k).
  - by exists u.
Qed.
Lemma thread_goes_on ph s i t pc' g : coherent ph s → callers s !! i = Some t → forwarder_step t (globals s) = Some (pc', g) →
  ∃ ph', g = image_of ph' ∧ goes_on ph s i t ph' pc'.
Proof using found.
  intros Hc Hi Hstep. pose proof (co_pcs _ _ Hc i t Hi) as Ha. rewrite (co_image _ _ Hc) in Hstep.
  unfold forwarder_step in Hstep. unfold allowed in Ha. destruct (pc t) as [| |k| | |f|e] eqn:Hpc.
  - injection Hstep as <- <-. exists ph. split; [done|].
    assert (libmcmini_init_done (image_of ph) = bool_decide (ph = flagged)) as ->.
    { destruct ph as [|j k| |]; cbn; [done| | |done]; apply after_in_routine. }
    apply goes_on_same; [done|done| |by rewrite Hpc|unfold rank; rewrite Hpc; cbn; case_bool_decide; lia].
    case_bool_decide; done.
  - destruct ph as [|j k| |]; cbn in Hstep.
    + injection Hstep as <- <-. exists (running i 0). split; [unfold image_of, after; by rewrite take_0|].
      apply goes_on_intro; [done|done|done| | |unfold rank; rewrite Hpc; cbn [pc to_load]; lia].
      * intros j u _ Hne. unfold allowed. destruct (pc u); naive_solver.
      * intros j k [= <- <-]. split; [lia|]. by rewrite bool_decide_eq_true_2.
    + by rewrite (proj1 (after_in_routine k)) in Hstep.
    + injection Hstep as <- <-. exists ready. split; [done|]. apply goes_on_same; [done|done|by left|by rewrite Hpc|unfold rank; rewrite Hpc; cbn [pc to_load]; lia].
    + injection Hstep as <- <-. exists flagged. split; [done|]. apply goes_on_same; [done|done|by right|by rewrite Hpc|unfold rank; rewrite Hpc; cbn [pc to_load]; lia].
  - subst ph. destruct (co_runs _ _ Hc i k eq_refl) as [Hk _]. cbn [image_of] in Hstep.
    destruct (statements libc_abort !! k) as [st|] eqn:Hst.
    + rewrite (after_step _ _ Hst) in Hstep. injection Hstep as <- <-. exists (running i (S k)). split; [done|].
      apply lookup_lt_Some in Hst. change (k < n_statements) in Hst.
      apply goes_on_intro; [done|done|done| | |unfold rank; rewrite Hpc; cbn [pc to_load]; lia].
      * intros j u _ Hne. unfold allowed. destruct (pc u); naive_solver.
      * intros j k' [= <- <-]. split; [lia|]. by rewrite bool_decide_eq_true_2.
    + injection Hstep as <- <-. apply lookup_ge_None in Hst. change (n_statements ≤ k) in Hst.
      assert (k = n_statements) as -> by lia. exists ready. split; [done|].
      apply goes_on_intro; [done|done|by left| |done|unfold rank; rewrite Hpc; cbn [pc to_load]; lia].
      intros j u _ Hne. unfold allowed. destruct (pc u); naive_solver.
  - injection Hstep as <- <-. exists flagged. split; [by destruct Ha as [-> | ->]|].
    apply goes_on_intro; [done|done|done| |done|unfold rank; rewrite Hpc; cbn [pc to_load]; lia].
    intros j u _ Hne. unfold allowed. destruct Ha as [-> | ->]; destruct (pc u); naive_solver.
  - subst ph. injection Hstep as <- <-. exists flagged. split; [done|].
    apply goes_on_same; [done|done| |by rewrite Hpc|unfold rank; rewrite Hpc; cbn [pc to_load]; lia].
    split; [done|]. apply loaded_pointers.
  - done.
  - done.
Qed.
Lemma init_step_coherent ph s i s' : coherent ph s → init_step i s = Some s' →
  ∃ ph', coherent ph' s' ∧ remaining ph' s' < remaining ph s.
Proof using found.
  intros Hc. unfold init_step. destruct (callers s !! i) as [t|] eqn:Hi; [|done]. cbn.
  destruct (forwarder_step t (globals s)) as [[pc' g]|] eqn:Hs; [|done]. intros [= <-].
  destruct (thread_goes_on ph s i t pc' g Hc Hi Hs) as (ph' & -> & Hco & Hlt). by exists ph'.
Qed.
Lemma run_threads_coherent l ph s s' : coherent ph s → run_threads l s = Some s' →
  ∃ ph', coherent ph' s' ∧ remaining ph' s' + length l ≤ remaining ph s.
Proof using found.
  revert ph s. induction l as [|i l IH]; intros ph s Hc; cbn [run_threads].
  - intros [= <-]. exists ph. split; [done|]. simpl. lia.
  - destruct (init_step i s) as [s1|] eqn:Hi; [|done]. intros Hrun.
    destruct (init_step_coherent _ _ _ _ Hc Hi) as (ph1 & Hc1 & Hlt).
    destruct (IH _ _ Hc1 Hrun) as (ph' & Hc' & Hle). exists ph'. split; [done|]. simpl. lia.
Qed.
Lemma start_coherent targets : coherent fresh (start_process targets).
Proof using Type.
  split; [done| |done]. intros i t. cbn. rewrite list_lookup_fmap. destruct (targets !! i); [|done]. by intros [= <-].
Qed.
(** Some thread can go on until all have made their calls. *)
Lemma someone_goes_on ph s i t : coherent ph s → callers s !! i = Some t → (∀ f, pc t ≠ called f) → ∃ j s', init_step j s = Some s'.
Proof using found.
  intros Hc Hi Hno. pose proof (co_pcs _ _ Hc i t Hi) as Ha. unfold allowed in Ha.
  assert (∀ j u, callers s !! j = Some u → is_Some (forwarder_step u (globals s)) → ∃ j s', init_step j s = Some s') as Hgo.
  { intros j u Hj [[pc' g] Hs]. exists j. unfold init_step. rewrite Hj. cbn. rewrite Hs. cbn. eauto. }
  assert (∀ j k u, callers s !! j = Some u → ph = running j k → pc u = loading k → is_Some (forwarder_step u (globals s))) as Hload.
  { intros j k u Hj -> Hu. unfold forwarder_step. rewrite Hu, (co_image _ _ Hc). cbn [image_of].
    destruct (statements libc_abort !! k) as [st|] eqn:Hst; [|done]. by rewrite (after_step _ _ Hst). }
  destruct (pc t) as [| |k| | |f|e] eqn:Hpc; [| | | | |by destruct (Hno f)|done].
  2: { destruct ph as [|j k| |] eqn:Hph.
       2: { destruct (co_runs _ _ Hc j k eq_refl) as (_ & u & Hj & Hu). eauto. }
       all: apply (Hgo i t Hi); unfold forwarder_step; by rewrite Hpc, (co_image _ _ Hc). }
  2: by eauto.
  all: apply (Hgo i t Hi); unfold forwarder_step; by rewrite Hpc.
Qed.

Lemma init_step_targets i s s' : init_step i s = Some s' → target <$> callers s' = target <$> callers s.
Proof using Type.
  unfold init_step. destruct (callers s !! i) as [t|] eqn:Hi; [|done]. cbn.
  destruct (forwarder_step t (globals s)) as [[pc' g]|]; [|done]. intros [= <-]. cbn.
  rewrite list_fmap_insert. cbn. by rewrite list_insert_id by (by rewrite list_lookup_fmap, Hi).
Qed.
Lemma run_targets l s s' : run_threads l s = Some s' → target <$> callers s' = target <$> callers s.
Proof using Type.
  revert s. induction l as [|i l IH]; intros s; cbn [run_threads]; [by intros [= <-]|].
  destruct (init_step i s) as [s1|] eqn:Hi; [|done]. intros Hrun. rewrite (IH s1 Hrun). by eapply init_step_targets.
Qed.

(** C35: any number of threads call forwarders for the first time, each the forwarder of the pointer
[targets] gives it, and the libraries can be opened.  In every interleaving the routine runs
once, and every function that is called is the one of the library the forwarder is named
after, for no thread sees a pointer that is not loaded yet.  The threads have made their calls
after a number of steps that is bounded, and until then some thread can take a step. *)
Theorem forwarders_reach targets l s : run_threads l (start_process targets) = Some s →
  (∀ i t f, callers s !! i = Some t → pc t = called f → targets !! i = Some (target t) ∧ f = real_function (target t)) ∧
  ((∀ j, init_step j s = None) → pc <$> callers s = (λ p, called (real_function p)) <$> targets) ∧
  length l ≤ 5 * length targets + 38.
Proof using found.
  intros Hrun. destruct (run_threads_coherent _ _ _ _ (start_coherent targets) Hrun) as (ph & Hc & Hle).
  assert (target <$> callers s = targets) as Ht.
  { rewrite (run_targets _ _ _ Hrun). cbn. rewrite <- list_fmap_compose. by apply list_fmap_id. }
  split_and!.
  - intros i t f Hi Hf. split; [by rewrite <- Ht, list_lookup_fmap, Hi|].
    pose proof (co_pcs _ _ Hc i t Hi) as Ha. unfold allowed in Ha. rewrite Hf in Ha. by destruct Ha.
  - intros Hstuck. rewrite <- Ht, <- list_fmap_compose. apply list_fmap_ext. intros i t Hi. cbn.
    assert (∃ f, pc t = called f) as [f Hf].
    { destruct (pc t) eqn:Hpc; [..|by eexists|]; exfalso;
        destruct (someone_goes_on ph s i t Hc Hi) as (j & s' & Hj); by rewrite ?Hpc, ?Hstuck in *. }
    pose proof (co_pcs _ _ Hc i t Hi) as Ha. unfold allowed in Ha. rewrite Hf in Ha. destruct Ha as [_ ->]. done.
  - unfold remaining, start_process in Hle. cbn [callers] in Hle.
    assert (sum_list (rank <$> ((λ p, Caller p check_done) <$> targets)) = 5 * length targets) as He.
    { clear. induction targets as [|p targets IH]; [done|]. rewrite !fmap_cons. cbn [sum_list length]. rewrite IH. cbn. lia. }
    assert (n_statements ≤ 37) as Hn by (unfold n_statements, statements, load_libraries, load_dmtcp; destruct dmtcp_is_enabled; cbn; lia).
    cbn [to_load] in Hle. lia.
Qed.
End found.
End linker.

(** ** The intercepted functions *)

Module Intercepted.
Definition pthread_mutex_init (mutex : addr) (normal : bool) : eff lib Z := mc_pthread_mutex_init mutex normal.
Definition pthread_mutex_lock (mutex : addr) : eff lib Z := mc_pthread_mutex_lock mutex.
Definition pthread_mutex_unlock (mutex : addr) : eff lib Z := mc_pthread_mutex_unlock mutex.
Definition pthread_cond_init (cond : addr) : eff lib Z := mc_pthread_cond_init cond.
Definition pthread_cond_wait (cond mutex : addr) : eff lib Z := mc_pthread_cond_wait cond mutex.
Definition pthread_cond_signal (cond : addr) : eff lib Z := mc_pthread_cond_signal cond.
Definition pthread_cond_broadcast (cond : addr) : eff lib Z := mc_pthread_cond_broadcast cond.
Definition pthread_cond_destroy (cond : addr) : eff lib Z := mc_pthread_cond_destroy cond.
Definition pthread_create (attr routine arg : addr) : eff lib Z := mc_pthread_create attr routine arg.
Definition pthread_join (thread : addr) : eff lib Z := mc_pthread_join thread.
Definition pthread_exit {A} (retval : addr) : eff lib A := mc_pthread_exit retval.
Definition exit {A} (status : Z) : eff lib A := mc_transparent_exit status.
Definition abort {A} : eff lib A := mc_transparent_abort.
Definition sleep (duration : N) : eff lib Z := mc_sleep duration.
Definition sem_init (sem : addr) (p : Z) (count : N) : eff lib Z := mc_sem_init sem p count.
Definition sem_destroy (sem : addr) : eff lib Z := mc_sem_destroy sem.
Definition sem_post (sem : addr) : eff lib Z := mc_sem_post sem.
Definition sem_wait (sem : addr) : eff lib Z := mc_sem_wait sem.
End Intercepted.

(** The pointer behind each call of a wrapper that is a forwarder; the calls of [Recorder.v]
for thread creation under the checker are those of [tsan_or_real_pthread_create]. *)
Definition pointer_of (c : libcall) : option pointer :=
  match c with
  | libpthread_mutex_init _ => Some pthread_mutex_init_ptr
  | libpthread_mutex_lock _ => Some pthread_mutex_lock_ptr
  | libpthread_mutex_timedlock _ => Some pthread_mutex_timedlock_ptr
  | libpthread_mutex_unlock _ => Some pthread_mutex_unlock_ptr
  | libpthread_cond_init _ => Some pthread_cond_init_ptr
  | libpthread_cond_wait _ _ => Some pthread_cond_wait_ptr
  | libpthread_cond_timedwait _ _ => Some pthread_cond_timedwait_ptr
  | libpthread_cond_signal _ => Some pthread_cond_signal_ptr
  | libpthread_cond_broadcast _ => Some pthread_cond_broadcast_ptr
  | libpthread_cond_destroy _ => Some pthread_cond_destroy_ptr
  | libpthread_sem_init _ _ _ => Some sem_init_ptr
  | libpthread_sem_destroy _ => Some sem_destroy_ptr
  | libpthread_sem_post _ => Some sem_post_ptr
  | libpthread_sem_wait _ => Some sem_wait_ptr
  | libpthread_sem_timedwait _ => Some sem_timedwait_ptr
  | libpthread_pthread_create _ _ _ => Some tsan_or_real_pthread_create_ptr
  | libdmtcp_pthread_create _ _ _ => Some libdmtcp_pthread_create_ptr
  | libpthread_pthread_join _ => Some libpthread_pthread_join_ptr
  | libdmtcp_pthread_join _ => Some libdmtcp_pthread_join_ptr
  | libpthread_timedjoin_np _ => Some libpthread_timedjoin_np_ptr
  | libpthread_pthread_exit _ => Some libpthread_pthread_exit_ptr
  | libc_sleep _ => Some sleep_ptr
  | _ => None
  end.

(** [libpthread_sem_wait_loop]: again after a signal. *)
Definition libpthread_sem_wait_loop (sem : addr) : eff lib Z :=
  while_true (let! r := call_full (libpthread_sem_wait sem) in
              ret (if bool_decide (r.1 = (-1)%Z ∧ r.2 = EINTR) then None else Some r.1)).
Definition interrupted_wait (r : reply) : Prop := rc r = (-1)%Z ∧ errno r = EINTR.

Lemma sem_wait_loop_at sem n l1 r l2 s :
  replies s = l1 ++ r :: l2 → Forall interrupted_wait l1 → ¬ interrupted_wait r → length l1 < n →
  ∃ s', loop n (let! r := call_full (libpthread_sem_wait sem) in
                ret (if bool_decide (r.1 = (-1)%Z ∧ r.2 = EINTR) then None else Some r.1)) s = (Ok (rc r), s') ∧
    log s' = log s ++ replicate (S (length l1)) (libpthread_sem_wait sem) ∧ replies s' = l2.
Proof.
  intros Hs Hl Hr. revert n s Hs. induction Hl as [|x l1 Hx Hl IH]; intros [|n] s Hs Hn; simpl in Hn; [lia| |lia|].
  - cbn [loop]. unfold ebind, call_full. cbn [replies set_log]. rewrite Hs. cbn [app fst snd]. unfold ret.
    rewrite bool_decide_eq_false_2 by done. eexists. split; [done|]. by cbn.
  - cbn [loop]. unfold ebind at 1 2, call_full. cbn [replies set_log]. rewrite Hs. cbn [app fst snd]. unfold ret at 1.
    rewrite bool_decide_eq_true_2 by done.
    edestruct (IH n) as (s' & Hloop & Hlog & Hrep); [|lia|].
    2: { exists s'. split; [exact Hloop|]. split; [|done]. rewrite Hlog. cbn. by rewrite <- app_assoc. }
    done.
Qed.
(** A wait that signals interrupt returns what the first call returns that none interrupts. *)
Lemma sem_wait_loop_spec sem l1 r l2 s :
  replies s = l1 ++ r :: l2 → Forall interrupted_wait l1 → ¬ interrupted_wait r →
  ∃ s', libpthread_sem_wait_loop sem s = (Ok (rc r), s') ∧
    log s' = log s ++ replicate (S (length l1)) (libpthread_sem_wait sem) ∧ replies s' = l2.
Proof. intros Hs Hl Hr. apply sem_wait_loop_at; [done..|]. rewrite Hs, length_app. lia. Qed.

(** The name of the operation, the function the program calls and the call it stands for. *)
Definition symbol (op : visible_op) : string :=
  match op with
  | MutexInit _ => "pthread_mutex_init" | MutexLock _ => "pthread_mutex_lock" | MutexUnlock _ => "pthread_mutex_unlock"
  | SemInit _ _ => "sem_init" | SemDestroy _ => "sem_destroy" | SemPost _ => "sem_post" | SemWait _ => "sem_wait"
  | CondInit _ => "pthread_cond_init" | CondWait _ _ => "pthread_cond_wait" | CondSignal _ => "pthread_cond_signal"
  | CondBroadcast _ => "pthread_cond_broadcast" | CondDestroy _ => "pthread_cond_destroy"
  end.
Definition entry (op : visible_op) : eff lib Z :=
  match op with
  | MutexInit m => Intercepted.pthread_mutex_init m true
  | MutexLock m => Intercepted.pthread_mutex_lock m
  | MutexUnlock m => Intercepted.pthread_mutex_unlock m
  | SemInit s count => Intercepted.sem_init s 0 count
  | SemDestroy s => Intercepted.sem_destroy s
  | SemPost s => Intercepted.sem_post s
  | SemWait s => Intercepted.sem_wait s
  | CondInit c => Intercepted.pthread_cond_init c
  | CondWait c m => Intercepted.pthread_cond_wait c m
  | CondSignal c => Intercepted.pthread_cond_signal c
  | CondBroadcast c => Intercepted.pthread_cond_broadcast c
  | CondDestroy c => Intercepted.pthread_cond_destroy c
  end.
Definition real_call (op : visible_op) : libcall :=
  match op with
  | MutexInit m => libpthread_mutex_init m
  | MutexLock m => libpthread_mutex_lock m
  | MutexUnlock m => libpthread_mutex_unlock m
  | SemInit s count => libpthread_sem_init s 0 count
  | SemDestroy s => libpthread_sem_destroy s
  | SemPost s => libpthread_sem_post s
  | SemWait s => libpthread_sem_wait s
  | CondInit c => libpthread_cond_init c
  | CondWait c m => libpthread_cond_wait c m
  | CondSignal c => libpthread_cond_signal c
  | CondBroadcast c => libpthread_cond_broadcast c
  | CondDestroy c => libpthread_cond_destroy c
  end.
Definition on_condition (op : visible_op) : bool :=
  match op with CondInit _ | CondWait _ _ | CondSignal _ | CondBroadcast _ | CondDestroy _ => true | _ => false end.
(** Modes in which the library stands aside. *)
Definition stands_aside (op : visible_op) (m : libmcmini_mode) : Prop :=
  m = PRE_DMTCP_INIT ∨ m = PRE_CHECKPOINT_THREAD ∨ m = EXTERNAL_THREAD ∧ on_condition op = false.

Section program.
Context {handle : Type}.
Context (dlopen : string → option handle) (dlsym : handle → string → option addr) (dlsym_next : string → option addr).
Context (dmtcp_is_enabled : bool).

(** A thread outside the control of the library calls an intercepted function: it makes the one
call of the real function of that name in libpthread, and no other. *)
Theorem intercepted_transparent op s :
  ckpt_window_candidate s = None → stands_aside op (current_mode s) →
  entry op s = call (real_call op) s ∧
  ∃ p, pointer_of (real_call op) = Some p ∧
    real_function dlopen dlsym dlsym_next dmtcp_is_enabled p = in_libpthread dlopen dlsym (symbol op).
Proof.
  intros Hn Hm.
  assert (get_current_mode s = (Ok (current_mode s), s)) as Hg.
  { unfold get_current_mode, resolve_ckpt_window_candidate_if_pending, ebind, get. by rewrite Hn. }
  assert (∀ f : libmcmini_mode → eff lib Z, (let! m := get_current_mode in f m) s = f (current_mode s) s) as Hf
    by (intros f; unfold ebind at 1; by rewrite Hg).
  split.
  - destruct op; cbn [entry real_call]; etransitivity; try apply Hf;
      destruct Hm as [-> |[-> |[-> ?]]]; done.
  - destruct op; by eexists.
Qed.

(** ** The start of the program *)

Definition on_image {A} (m : eff (@image handle) A) : eff (@image handle * lib) A :=
  λ '(g, t), let '(r, g') := m g in (r, (g', t)).
Definition on_thread {A} (m : eff lib A) : eff (@image handle * lib) A :=
  λ '(g, t), let '(r, t') := m t in (r, (g, t')).
Definition wrapped_main {A} (real_main : eff lib Z) : eff (@image handle * lib) A :=
  let! rc := on_thread real_main in
  do! on_image (libmcmini_init dlopen dlsym dlsym_next dmtcp_is_enabled) in
  on_thread (mc_transparent_exit rc).
(** [real_start_main] is what [dlsym] finds after this library. *)
Definition libc_start_main {A} (real_start_main : option (eff (@image handle * lib) A → eff (@image handle * lib) A))
    (main : eff lib Z) : eff (@image handle * lib) A :=
  match real_start_main with Some start => start (wrapped_main main) | None => throw UB end.

(** The constructor of the library under DMTCP: the template thread is created through the
public [pthread_create], with the flag that tells its wrapper. *)
Definition set_creating (b : bool) (t : lib) : lib :=
  Lib (sh t) (self t) (tid_self t) (tsan_internal t) (ckpt_window_candidate t) b (mailbox t) (log t) (replies t).
Definition libmcmini_event_late_init (dmtcp_restart_sem template_thread_sem attr template_thread : addr) :
    eff (@image handle * lib) unit :=
  if dmtcp_is_enabled then
    do! on_image (libmcmini_init dlopen dlsym dlsym_next dmtcp_is_enabled) in
    do! on_thread (call_ (libpthread_sem_init dmtcp_restart_sem 0 0)) in
    do! on_thread (call_ (libpthread_sem_init template_thread_sem 0 0)) in
    do! on_thread (modify_lib (set_creating true)) in
    do! on_thread (do! Intercepted.pthread_create attr template_thread 0 in ret tt) in
    on_thread (modify_lib (set_creating false))
  else ret tt.

(** It initialises the semaphores before there is a template thread, and creates that thread
with the function of DMTCP, in any mode. *)
Lemma late_init_creates sem1 sem2 attr routine t r1 r2 r3 rs :
  libraries_found dlopen dmtcp_is_enabled → dmtcp_is_enabled = true → replies t = r1 :: r2 :: r3 :: rs →
  ∃ t', libmcmini_event_late_init sem1 sem2 attr routine (start_image, t) =
      (Ok tt, (set_done (loaded dlopen dlsym dlsym_next dmtcp_is_enabled), t')) ∧
    log t' = log t ++ [libpthread_sem_init sem1 0 0; libpthread_sem_init sem2 0 0; libdmtcp_pthread_create attr routine 0] ∧
    creating_internal_thread t' = false.
Proof.
  intros Hf Hd Hr. unfold libmcmini_event_late_init. destruct dmtcp_is_enabled; [|done]. unfold ebind at 1, on_image.
  cbv beta iota. rewrite init_loads by done. destruct t as [x me tid tsan candidate creating mb l rs0]. cbn in Hr. subst rs0.
  eexists. split; [reflexivity|]. split; [|done]. cbn. by rewrite <- !app_assoc.
Qed.

(** A return from [main] is a call of [exit], once the library is initialised. *)
Lemma main_returns_as_exit {A} (start : eff (@image handle * lib) A → eff (@image handle * lib) A) main t rc t1 :
  libraries_found dlopen dmtcp_is_enabled → (∀ m s, start m s = m s) → main t = (Ok rc, t1) →
  libc_start_main (Some start) main (start_image, t) =
    (let '(r, t2) := Intercepted.exit rc t1 in (r, (set_done (loaded dlopen dlsym dlsym_next dmtcp_is_enabled), t2))).
Proof.
  intros Hf Hs Hm. cbn [libc_start_main]. rewrite Hs. unfold wrapped_main, ebind, on_thread at 1. rewrite Hm.
  unfold on_image. rewrite init_loads by done. done.
Qed.
End program.
