(* ===== verification/Recording.v ===== *)
(** * What the wrappers record

The list of records only grows, so a pointer to a record stays valid between the two
locks a wrapper takes ([records_only_grow]).  A mutex locked while recording is
recorded as locked by that thread ([recorded_lock]), provided that the other threads
leave alone the record of a mutex this thread is recorded to hold; an unlock of
theirs, recorded late, does not ([late_unlock_hides_lock]).  Two other places where
the recorder or the restart go wrong: [sem_wait_gives_up] and
[restarted_exit_never_answers]. *)

From stdpp Require Import options.
From S2P Require Import Prelude CondPolicy Objects Coordinator ThreadQueue Restore.
From S2P Require Import Recorder Wrappers ThreadWrappers StateTransfer Protocol.

(** ** The functions of the library *)

(** Every function the library puts in the place of another one. *)
Inductive intercepted :=
  | Operation (op : visible_op)
  | PthreadCreate (attr routine arg : addr)
  | PthreadJoin (t : addr)
  | PthreadExit (retval : addr)
  | ThreadRoutine (routine arg : addr)
  | Exit (status : Z)
  | Abort
  | Sleep (duration : N).
Definition run_intercepted (f : intercepted) : eff lib unit :=
  match f with
  | Operation op => do! wrapper op in ret tt
  | PthreadCreate attr routine arg => do! mc_pthread_create attr routine arg in ret tt
  | PthreadJoin t => do! mc_pthread_join t in ret tt
  | PthreadExit retval => mc_pthread_exit retval
  | ThreadRoutine routine arg => mc_thread_routine_wrapper routine arg
  | Exit status => mc_transparent_exit status
  | Abort => mc_transparent_abort
  | Sleep duration => do! mc_sleep duration in ret tt
  end.

(** ** Relations that wrappers preserve *)

(** [R] holds of what the library does to the state shared, if it holds of what others
do; calls outside [allowed] are not made. *)
Section steps.
Context (R : relation shared) `{!PreOrder R} (allowed : libcall → Prop).
Context (R_tid : ∀ r x, R x (set_tid_next r x)) (R_map : ∀ l x, R x (set_pthread_map l x)).
Context (R_mode : ∀ m x, R x (set_raw_mode m x)) (R_ckpt : ∀ t x, R x (set_ckpt_descriptor t x)).
Context (R_once : ∀ x, R x (set_main_once x)).
Context (R_add : ∀ e x, R x (set_records (head_record_mode x ++ [e]) x)).
Context (R_write : ∀ i o x, R x (set_records (alter (λ e, RecList (location e) o) i (head_record_mode x)) x)).

Definition steps (s s' : lib) : Prop :=
  Forall (λ r, ∀ x, R x (meanwhile r x)) (replies s) →
  Forall (λ r, ∀ x, R x (meanwhile r x)) (replies s') ∧ R (sh s) (sh s') ∧
  ∃ l, log s' = log s ++ l ∧ Forall allowed l.

#[export] Instance steps_preorder : PreOrder steps.
Proof using PreOrder0.
  split.
  - intros s Hs. split_and!; [done|done|]. exists []. by rewrite app_nil_r.
  - intros s1 s2 s3 H1 H2 Hs. destruct (H1 Hs) as (Hs2 & HR1 & l1 & Hl1 & Ha1).
    destruct (H2 Hs2) as (Hs3 & HR2 & l2 & Hl2 & Ha2). split_and!; [done|by etrans|].
    exists (l1 ++ l2). split; [by rewrite Hl2, Hl1, app_assoc|by apply Forall_app].
Qed.

Abbreviation keeps := (preserves steps).

Lemma keeps_call_full c : allowed c → keeps (call_full c).
Proof using PreOrder0.
  intros Hc s r s' Hrun Hs. unfold call_full in Hrun. cbn [replies set_log] in Hrun.
  destruct (replies s) as [|x rs] eqn:Hr; injection Hrun as <- <-; simpl.
  - rewrite Hr. split_and!; [done|done|]. exists [c]. split; [done|by constructor].
  - apply Forall_cons in Hs as [Hx Hs]. split_and!; [done|apply Hx|]. exists [c]. split; [done|by constructor].
Qed.
Lemma keeps_call c : allowed c → keeps (call c).
Proof using PreOrder0. intros Hc. apply preserves_bind; [apply _|by apply keeps_call_full|]. intros. apply preserves_ret, _. Qed.
Lemma keeps_call_ c : allowed c → keeps (call_ c).
Proof using PreOrder0. intros Hc. apply preserves_bind; [apply _|by apply keeps_call_full|]. intros. apply preserves_ret, _. Qed.
Lemma keeps_modify_shared f : (∀ x, R x (f x)) → keeps (modify_shared f).
Proof using Type.
  intros Hf s r s' [= <- <-] Hs. split_and!; [done|apply Hf|]. exists []. by rewrite app_nil_r.
Qed.
Lemma keeps_modify_lib f :
  (∀ s, sh (f s) = sh s ∧ replies (f s) = replies s ∧ log (f s) = log s) → keeps (modify_lib f).
Proof using PreOrder0.
  intros Hf s r s' [= <- <-] Hs. destruct (Hf s) as (-> & -> & ->). split_and!; [done|done|].
  exists []. by rewrite app_nil_r.
Qed.
Lemma keeps_modify_sh f : (∀ s, R (sh s) (f s)) → keeps (modify_lib (λ s, set_shared (f s) s)).
Proof using Type.
  intros Hf s r s' [= <- <-] Hs. split_and!; [done|apply Hf|]. exists []. by rewrite app_nil_r.
Qed.
Lemma keeps_get : keeps get.
Proof using PreOrder0. intros s r s' [= <- <-]. reflexivity. Qed.
Lemma keeps_query {A} (f : lib → res A) : keeps (query f).
Proof using PreOrder0. apply preserves_query, _. Qed.
Lemma keeps_loop {A} fuel (body : eff lib (option A)) : keeps body → keeps (loop fuel body).
Proof using PreOrder0.
  intros Hb. induction fuel as [|fuel IH]; [apply preserves_throw, _|]. cbn [loop].
  apply preserves_bind; [apply _|done|]. intros [a|]; [apply preserves_ret, _|done].
Qed.
Lemma keeps_while_true {A} (body : eff lib (option A)) : keeps body → keeps (while_true body).
Proof using PreOrder0. intros Hb s. by apply keeps_loop. Qed.
Lemma keeps_assert b : keeps (assert_ b).
Proof using PreOrder0. destruct b; [apply preserves_ret, _|apply preserves_throw, _]. Qed.
Lemma keeps_abort {A} : keeps (libc_abort (A := A)).
Proof using PreOrder0. apply preserves_throw, _. Qed.

Local Hint Resolve keeps_get keeps_query keeps_assert keeps_abort : preserves.
Local Hint Extern 0 (preserves _ (ret _)) => apply preserves_ret, _ : preserves.
Local Hint Extern 0 (preserves _ (throw _)) => apply preserves_throw, _ : preserves.

(** The functions of the recorder, for calls that are allowed. *)
Context (any : ∀ c, (∀ mb, c ≠ mc_wake_scheduler mb) → allowed c).
Local Hint Extern 0 (preserves _ (call_full _)) => apply keeps_call_full, any; done : preserves.
Local Hint Extern 0 (preserves _ (call _)) => apply keeps_call, any; done : preserves.
Local Hint Extern 0 (preserves _ (call_ _)) => apply keeps_call_, any; done : preserves.
Local Hint Extern 0 (preserves _ (modify_shared _)) => apply keeps_modify_shared; done : preserves.
Local Hint Extern 0 (preserves _ (modify_lib (λ s, set_shared _ s))) => apply keeps_modify_sh; done : preserves.
Local Hint Extern 1 (preserves _ (modify_lib _)) => apply keeps_modify_lib; done : preserves.

Ltac keep :=
  repeat match goal with
  | |- preserves _ (ebind _ _) => apply preserves_bind; [apply _| |intros ?]
  | |- preserves _ (while_true _) => apply keeps_while_true
  | |- preserves _ (if ?b then _ else _) => destruct b
  | |- preserves _ (match ?x with _ => _ end) => destruct x
  | |- preserves _ _ => solve [eauto with preserves]
  end.

Lemma keeps_get_current_mode : keeps get_current_mode.
Proof using All.
  unfold get_current_mode, resolve_ckpt_window_candidate_if_pending, record_checkpoint_thread, set_current_mode. keep.
Qed.
Local Hint Resolve keeps_get_current_mode : preserves.
Lemma keeps_is_in_restart_mode : keeps is_in_restart_mode.
Proof using All. unfold is_in_restart_mode. keep. Qed.
Local Hint Resolve keeps_is_in_restart_mode : preserves.
Lemma keeps_wait_for_scheduler : keeps wait_for_scheduler.
Proof using All. unfold wait_for_scheduler. keep. Qed.
Lemma keeps_thread_get_mailbox : keeps thread_get_mailbox.
Proof using All. unfold thread_get_mailbox. keep. Qed.
Lemma keeps_set_type ty : keeps (set_type ty).
Proof using All. unfold set_type. keep. Qed.
Lemma keeps_write_cnts off bytes : keeps (write_cnts off bytes).
Proof using All. unfold write_cnts. keep. Qed.
Local Hint Resolve keeps_wait_for_scheduler keeps_thread_get_mailbox keeps_set_type keeps_write_cnts : preserves.
Lemma keeps_thread_await_scheduler : keeps thread_await_scheduler.
Proof using All. unfold thread_await_scheduler. keep. Qed.
Local Hint Resolve keeps_thread_await_scheduler : preserves.
Lemma keeps_thread_handle_after_dmtcp_restart : keeps thread_handle_after_dmtcp_restart.
Proof using All. unfold thread_handle_after_dmtcp_restart. keep. Qed.
Local Hint Resolve keeps_thread_handle_after_dmtcp_restart : preserves.
Lemma keeps_exit_routine_after_restart : keeps exit_routine_after_restart.
Proof using All. unfold exit_routine_after_restart. keep. Qed.
Lemma keeps_read_record i : keeps (read_record i).
Proof using All. unfold read_record. keep. Qed.
Lemma keeps_write_record i o : keeps (write_record i o).
Proof using All. unfold write_record. keep. Qed.
Lemma keeps_add e : keeps (add_rec_entry_record_mode e).
Proof using All.
  unfold add_rec_entry_record_mode. intros s r s' Hrun. unfold ebind, get in Hrun.
  injection Hrun as <- <-. intros Hs. split_and!; [done|apply R_add|]. exists []. by rewrite app_nil_r.
Qed.
Lemma keeps_find_or_add a fresh : keeps fresh → keeps (find_or_add a fresh).
Proof using All.
  intros Hf. unfold find_or_add, find_object_record_mode. keep. apply keeps_add.
Qed.

(** The wrappers, when every call is allowed. *)
Context (all : ∀ c, allowed c).
Local Hint Resolve keeps_exit_routine_after_restart keeps_read_record keeps_write_record keeps_add : preserves.
Local Hint Resolve keeps_find_or_add : preserves.

Lemma keeps_wake_scheduler : keeps wake_scheduler.
Proof using All. intros s. apply keeps_call_full, all. Qed.
Local Hint Resolve keeps_wake_scheduler : preserves.
Lemma keeps_thread_wake_scheduler_and_wait : keeps thread_wake_scheduler_and_wait.
Proof using All. unfold thread_wake_scheduler_and_wait. keep. Qed.
Local Hint Resolve keeps_thread_wake_scheduler_and_wait : preserves.
Lemma keeps_handle_restart_or_wait : keeps handle_restart_or_wait.
Proof using All. unfold handle_restart_or_wait. keep. Qed.
Lemma keeps_fill_mailbox ty payload : keeps (fill_mailbox ty payload).
Proof using All. unfold fill_mailbox. keep. Qed.
Lemma keeps_update_mutex i f : keeps (update_mutex i f).
Proof using All. unfold update_mutex. keep. Qed.
Lemma keeps_find_mutex_record a : keeps (find_mutex_record a).
Proof using All. unfold find_mutex_record. keep. Qed.
Lemma keeps_current_semaphore a : keeps (current_semaphore a).
Proof using All. unfold current_semaphore. keep. Qed.
Lemma keeps_fresh_semaphore : keeps fresh_semaphore.
Proof using All. unfold fresh_semaphore. keep. Qed.
Lemma keeps_find_semaphore_record a fresh : keeps fresh → keeps (find_semaphore_record a fresh).
Proof using All. intros Hf. unfold find_semaphore_record. keep. Qed.
Lemma keeps_replace_semaphore a o : keeps (replace_semaphore a o).
Proof using All. unfold replace_semaphore, find_object_record_mode. keep. Qed.
Lemma keeps_add_to_count i d : keeps (add_to_count i d).
Proof using All. unfold add_to_count. keep. Qed.
Lemma keeps_retry timed body : keeps (call timed) → keeps body → keeps (retry timed body).
Proof using All. intros Hc Hb. unfold retry. keep. Qed.
Local Hint Resolve keeps_handle_restart_or_wait keeps_fill_mailbox keeps_update_mutex : preserves.
Local Hint Resolve keeps_find_mutex_record keeps_current_semaphore keeps_fresh_semaphore : preserves.
Local Hint Resolve keeps_find_semaphore_record keeps_replace_semaphore keeps_add_to_count : preserves.
Ltac keep ::=
  repeat match goal with
  | |- preserves _ (ebind _ _) => apply preserves_bind; [apply _| |intros ?]
  | |- preserves _ (while_true _) => apply keeps_while_true
  | |- preserves _ (retry _ _) => apply keeps_retry
  | |- preserves _ (if ?b then _ else _) => destruct b
  | |- preserves _ (match ?x with _ => _ end) => destruct x
  | |- preserves _ _ => solve [eauto with preserves]
  end.

Lemma keeps_read_cond i : keeps (read_cond i).
Proof using All. unfold read_cond. keep. Qed.
Local Hint Resolve keeps_read_cond : preserves.
Lemma keeps_update_cond i f : keeps (update_cond i f).
Proof using All. unfold update_cond. keep. Qed.
Lemma keeps_queue_of i : keeps (queue_of i).
Proof using All. unfold queue_of. keep. Qed.
Local Hint Resolve keeps_update_cond keeps_queue_of : preserves.
Lemma keeps_on_queue i op : keeps (on_queue i op).
Proof using All. unfold on_queue. keep. Qed.
Lemma keeps_this_thread_id : keeps this_thread_id.
Proof using All. unfold this_thread_id, find_thread_record_mode. keep. Qed.
Local Hint Resolve keeps_on_queue keeps_this_thread_id : preserves.
Lemma keeps_record_prewaiting c m : keeps (record_prewaiting c m).
Proof using All. unfold record_prewaiting. keep. Qed.
Lemma keeps_record_waited i : keeps (record_waited i).
Proof using All. unfold record_waited. keep. Qed.
Lemma keeps_record_signaled i : keeps (record_signaled i).
Proof using All. unfold record_signaled. keep. Qed.
Lemma keeps_mark_signaled i j : keeps (mark_signaled i j).
Proof using All. unfold mark_signaled. keep. Qed.
Lemma keeps_find_or_init_cond c : keeps (find_or_init_cond c).
Proof using All. unfold find_or_init_cond. apply keeps_find_or_add. keep. Qed.
Lemma keeps_cond_wait_under_checker c m first : keeps first → keeps (cond_wait_under_checker c m first).
Proof using All. intros Hf. unfold cond_wait_under_checker. keep. Qed.
Local Hint Resolve keeps_record_prewaiting keeps_record_waited keeps_record_signaled : preserves.
Local Hint Resolve keeps_mark_signaled keeps_find_or_init_cond keeps_cond_wait_under_checker : preserves.
Local Hint Extern 1 (preserves _ (for_each _ _)) => apply preserves_for_each; [apply _|intros ?] : preserves.

Lemma keeps_wrapper op : keeps (wrapper op).
Proof using All.
  destruct op; cbn [wrapper];
    unfold mc_pthread_mutex_init, mc_pthread_mutex_lock, mc_pthread_mutex_unlock, lock_after_restart,
      mc_sem_init, mc_sem_destroy, mc_sem_post, mc_sem_wait, sem_wait_under_checker,
      mc_pthread_cond_init, mc_pthread_cond_wait, mc_pthread_cond_signal, mc_pthread_cond_broadcast,
      mc_pthread_cond_destroy, find_object_record_mode; keep.
Qed.

Lemma keeps_find_pthread_map_entry t : keeps (find_pthread_map_entry t).
Proof using All. unfold find_pthread_map_entry. keep. Qed.
Lemma keeps_insert_pthread_map t v : keeps (insert_pthread_map t v).
Proof using All. unfold insert_pthread_map. keep. Qed.
Local Hint Resolve keeps_find_pthread_map_entry keeps_insert_pthread_map : preserves.
Lemma keeps_mc_register_this_thread : keeps mc_register_this_thread.
Proof using All. unfold mc_register_this_thread. keep. Qed.
Lemma keeps_record_thread add t rid : (∀ e, keeps (add e)) → keeps (record_thread add t rid).
Proof using All. intros Ha. unfold record_thread, find_thread_record_mode. keep. Qed.
Lemma keeps_set_thread_status i st : keeps (set_thread_status i st).
Proof using All. unfold set_thread_status. keep. Qed.
Local Hint Resolve keeps_mc_register_this_thread keeps_record_thread keeps_set_thread_status : preserves.
Lemma keeps_record_main_thread_once : keeps record_main_thread_once.
Proof using All. unfold record_main_thread_once, record_main_thread. keep. Qed.
Lemma keeps_mc_exit_thread_in_child : keeps mc_exit_thread_in_child.
Proof using All.
  unfold mc_exit_thread_in_child, find_really_exited_sem, find_exit_permission_sem,
    thread_awake_scheduler_for_thread_finish_transition. keep.
Qed.
Lemma keeps_mc_exit_main_thread_in_child {A} : keeps (mc_exit_main_thread_in_child (A := A)).
Proof using All.
  unfold mc_exit_main_thread_in_child, thread_awake_scheduler_for_thread_finish_transition,
    thread_block_indefinitely. keep.
Qed.
Local Hint Resolve keeps_record_main_thread_once keeps_mc_exit_thread_in_child : preserves.
Local Hint Resolve keeps_mc_exit_main_thread_in_child : preserves.
Lemma keeps_mc_pthread_exit {A} retval : keeps (mc_pthread_exit (A := A) retval).
Proof using All. unfold mc_pthread_exit, exit_under_checker, pthread_exit_really. keep. Qed.
Lemma keeps_mc_transparent_exit {A} status : keeps (mc_transparent_exit (A := A) status).
Proof using All. unfold mc_transparent_exit, exit_process_under_checker, libc_exit. keep. Qed.
Lemma keeps_mc_transparent_abort {A} : keeps (mc_transparent_abort (A := A)).
Proof using All. unfold mc_transparent_abort, abort_process_under_checker. keep. Qed.
Lemma keeps_mc_thread_routine_wrapper routine arg : keeps (mc_thread_routine_wrapper routine arg).
Proof using All.
  unfold mc_thread_routine_wrapper, find_thread_record_mode, add_rec_entry_record_mode_ts. keep.
Qed.
Lemma keeps_mc_pthread_create attr routine arg : keeps (mc_pthread_create attr routine arg).
Proof using All. unfold mc_pthread_create. keep. Qed.
Lemma keeps_mc_pthread_join_impl t defer : keeps (mc_pthread_join_impl t defer).
Proof using All.
  unfold mc_pthread_join_impl, join_after_restart, fill_join, grant_exit, really_join, find_exit_permission_sem,
    search_pthread_map, find_thread_record_mode. keep.
Qed.
Lemma keeps_mc_sleep duration : keeps (mc_sleep duration).
Proof using All. unfold mc_sleep. keep. Qed.

Local Hint Resolve keeps_wrapper keeps_mc_pthread_create keeps_mc_pthread_join_impl keeps_mc_pthread_exit : preserves.
Local Hint Resolve keeps_mc_thread_routine_wrapper keeps_mc_transparent_exit keeps_mc_transparent_abort : preserves.
Local Hint Resolve keeps_mc_sleep : preserves.
Lemma keeps_intercepted f : keeps (run_intercepted f).
Proof using All. destruct f; cbn [run_intercepted]; unfold mc_pthread_join; keep. Qed.
End steps.

(** ** Records are never removed *)

(** The locations recorded stay, in their places. *)
Definition records_grow (x x' : shared) : Prop :=
  (location <$> head_record_mode x) `prefix_of` (location <$> head_record_mode x').
#[export] Instance records_grow_preorder : PreOrder records_grow.
Proof.
  split; [intros x; unfold records_grow; done|]. intros x y z. unfold records_grow. by etrans.
Qed.
Definition others_add_records (r : reply) : Prop := ∀ x, records_grow x (meanwhile r x).

Lemma records_grow_same x x' : head_record_mode x' = head_record_mode x → records_grow x x'.
Proof. unfold records_grow. by intros ->. Qed.
Lemma location_alter i o (l : list rec_list) : location <$> alter (λ e, RecList (location e) o) i l = location <$> l.
Proof.
  revert i; induction l as [|e l IH]; intros [|i]; simpl; [done..|]. f_equal. apply IH.
Qed.
Lemma records_grow_write i o x :
  records_grow x (set_records (alter (λ e, RecList (location e) o) i (head_record_mode x)) x).
Proof. unfold records_grow. simpl. by rewrite location_alter. Qed.
Lemma records_grow_add e x : records_grow x (set_records (head_record_mode x ++ [e]) x).
Proof. unfold records_grow. simpl. rewrite fmap_app. by eexists. Qed.


(** C33: records are never removed.  Whatever function of the library a thread runs, in
any mode and with any replies of the calls, if the other threads only add records
then so does it: the record a pointer was taken to before stays at its place, for
the same object. *)
Theorem records_only_grow f s r s' i e :
  Forall others_add_records (replies s) → run_intercepted f s = (r, s') →
  head_record_mode (sh s) !! i = Some e →
  ∃ e', head_record_mode (sh s') !! i = Some e' ∧ location e' = location e.
Proof.
  intros Hs Hrun Hi. assert (preserves (steps records_grow (λ _, True)) (run_intercepted f)) as Hk.
  { apply keeps_intercepted; try apply _; intros;
      first [done|apply records_grow_add|apply records_grow_write|by apply records_grow_same]. }
  destruct (Hk _ _ _ Hrun Hs) as (_ & [l Hg] & _).
  assert ((location <$> head_record_mode (sh s')) !! i = Some (location e)) as Hl.
  { rewrite Hg. apply lookup_app_l_Some. by rewrite list_lookup_fmap, Hi. }
  rewrite list_lookup_fmap in Hl. destruct (head_record_mode (sh s') !! i) as [e'|]; [|done].
  exists e'. split; [done|]. by injection Hl.
Qed.

(** ** A thread that returns after a restart *)

(** A routine that returns after a restart leaves the checker waiting.  At the end
of its routine, in a mode after a restart, a thread waits for the checker twice and
posts nothing: whatever the replies, once the checker has let the exit run, no
answer to it ever comes. *)
Theorem restarted_exit_never_answers s r s' :
  exit_routine_after_restart s = (r, s') →
  ∃ l, log s' = log s ++ l ∧ ∀ mb, mc_wake_scheduler mb ∉ l.
Proof.
  intros Hrun.
  assert (preserves (steps (λ _ _, True) (λ c, ∀ mb, c ≠ mc_wake_scheduler mb)) exit_routine_after_restart) as Hk.
  { apply keeps_exit_routine_after_restart; [by split|done..|]. by intros c Hc mb. }
  destruct (Hk _ _ _ Hrun) as (_ & _ & l & Hl & Hno); [by apply Forall_true|].
  exists l. split; [done|]. intros mb Hin. rewrite Forall_forall in Hno. by apply (Hno _ Hin mb).
Qed.

(** ** Mutexes locked while recording *)

(** What a thread relies on: the others keep the objects of the records, and do not
change the record of a mutex that is recorded as locked by this thread. *)
Definition keeps_mutexes_of (me : runner_id_t) (x x' : shared) : Prop :=
  records_grow x x' ∧ ∀ i a, head_record_mode x !! i = Some (RecList a (mut_state mutex_locked me)) →
    head_record_mode x' !! i = Some (RecList a (mut_state mutex_locked me)).
Definition others_keep_mutexes_of (me : runner_id_t) (r : reply) : Prop :=
  ∀ x, keeps_mutexes_of me x (meanwhile r x).

Lemma find_object_prefix a (l l' : list rec_list) i :
  (location <$> l) `prefix_of` (location <$> l') → find_object a l = Some i → find_object a l' = Some i.
Proof.
  assert (∀ l, find_object a l = fst <$> list_find (λ b, b = a) (location <$> l)) as Heq.
  { intros k. unfold find_object. rewrite list_find_fmap. by destruct (list_find _ k) as [[]|]. }
  rewrite !Heq. intros [k ->]. destruct (list_find _ (location <$> l)) as [[j b]|] eqn:Hf; [|done].
  intros [= <-]. by rewrite (list_find_app_l _ _ _ _ _ Hf).
Qed.

(** The state while a mutex is being locked: its record is the [i]-th. *)
Record locking (m : addr) (me : runner_id_t) (i : nat) (s : lib) : Prop := Locking {
  lk_record : find_object m (head_record_mode (sh s)) = Some i;
  lk_me : tid_self s = me;
  lk_candidate : ckpt_window_candidate s = None;
  lk_others : Forall (others_keep_mutexes_of me) (replies s);
}.
Lemma locking_call m me i c s r s' :
  locking m me i s → call_full c s = (Ok r, s') → locking m me i s' ∧ keeps_mutexes_of me (sh s) (sh s').
Proof.
  intros [Hi Hme Hc Ho]. unfold call_full. cbn [replies set_log]. destruct (replies s) as [|x rs]; [done|].
  intros [= <- <-]. apply Forall_cons in Ho as [Hx Ho]. split; [|apply Hx].
  split; simpl; [|done..]. eapply find_object_prefix; [apply (Hx (sh s))|done].
Qed.
Lemma locking_mode m me i s : locking m me i s → get_current_mode s = (Ok (current_mode s), s).
Proof.
  intros [_ _ Hc _]. unfold get_current_mode, resolve_ckpt_window_candidate_if_pending, ebind, get. by rewrite Hc.
Qed.

(** Recording that the mutex is locked. *)
Lemma locking_update m me i s u s' :
  locking m me i s → update_mutex i (λ _ _, mut_state mutex_locked me) s = (Ok u, s') →
  find_object m (head_record_mode (sh s')) = Some i ∧
  head_record_mode (sh s') !! i = Some (RecList m (mut_state mutex_locked me)).
Proof.
  intros Hl. unfold update_mutex, call_, ebind.
  destruct (call_full lock_rec_list s) as [[r1|] s1] eqn:H1; [|done].
  destruct (locking_call _ _ _ _ _ _ _ Hl H1) as [Hl1 _]. unfold ret, read_record, query.
  destruct (head_record_mode (sh s1) !! i) as [[a o]|] eqn:Hi; [|done]. cbn [vo].
  destruct o as [st ow| | |]; try done. cbv zeta.
  set (x2 := set_records (alter (λ e, RecList (location e) (mut_state mutex_locked me)) i (head_record_mode (sh s1))) (sh s1)).
  change (write_record i (mut_state mutex_locked me) s1) with (Ok tt, set_shared x2 s1).
  assert (location <$> head_record_mode x2 = location <$> head_record_mode (sh s1)) as Hloc by apply location_alter.
  assert (head_record_mode x2 !! i = Some (RecList a (mut_state mutex_locked me))) as Hw.
  { unfold x2. simpl. by rewrite list_lookup_alter_eq, Hi. }
  assert (locking m me i (set_shared x2 s1)) as Hl2.
  { destruct Hl1 as [Hf ? ? ?]. split; [|done..].
    apply (find_object_prefix _ (head_record_mode (sh s1))); [|exact Hf]. change (sh (set_shared x2 s1)) with x2. by rewrite Hloc. }
  cbn iota. destruct (call_full unlock_rec_list (set_shared x2 s1)) as [[r3|] s3] eqn:H3; [|done]. intros [= <- <-].
  destruct (locking_call _ _ _ _ _ _ _ Hl2 H3) as [[Hf3 _ _ _] [_ Hk]]. split; [done|].
  assert (a = m) as ->; [|by apply Hk].
  destruct Hl1 as [Hf _ _ _]. unfold find_object in Hf. destruct (list_find _ _) as [[j e]|] eqn:Hfind; [|done].
  injection Hf as ->. apply list_find_Some in Hfind as (Hj & Ha & _). rewrite Hi in Hj. by injection Hj as <-.
Qed.

(** The record is there before the loop. *)
Lemma locking_find m me s i s' :
  tid_self s = me → ckpt_window_candidate s = None → Forall (others_keep_mutexes_of me) (replies s) →
  find_mutex_record m s = (Ok i, s') → locking m me i s'.
Proof.
  intros Hme Hc Ho. unfold find_mutex_record, call_, ebind.
  unfold call_full at 1. cbn [replies set_log]. destruct (replies s) as [|x rs] eqn:Hr; [done|]. cbn [ret].
  set (s1 := set_replies rs _). apply Forall_cons in Ho as [Hx Ho].
  destruct (find_or_add m (ret (mut_state mutex_uninitialized RID_INVALID)) s1) as [[j|] s2] eqn:Hf; [|done].
  assert (locking m me j s2) as Hl.
  { unfold find_or_add, find_object_record_mode, query, ebind in Hf.
    destruct (find_object m (head_record_mode (sh s1))) as [k|] eqn:Hk.
    - injection Hf as <- <-. by split.
    - injection Hf as <- <-. split; simpl; [|done..]. unfold find_object in *.
      destruct (list_find _ _) as [|] eqn:Hn in Hk; [done|].
      rewrite list_find_app_r by done. simpl. by rewrite decide_True. }
  destruct (call_full unlock_rec_list s2) as [[r3|] s3] eqn:H3; [|done]. intros [= <- <-].
  by destruct (locking_call _ _ _ _ _ _ _ Hl H3).
Qed.

(** Turns of the loop. *)
Lemma locking_loop m me i fuel s left s' :
  locking m me i s →
  loop fuel (retry (libpthread_mutex_timedlock m)
    (let! s := get in update_mutex i (λ _ _, mut_state mutex_locked (tid_self s)))) s = (Ok left, s') →
  match left with
  | Some rc => rc ≠ ETIMEDOUT ∧ (rc = 0%Z → find_object m (head_record_mode (sh s')) = Some i ∧
      head_record_mode (sh s') !! i = Some (RecList m (mut_state mutex_locked me)))
  | None => locking m me i s' ∧ is_restart_mode (current_mode s') = true
  end.
Proof.
  revert s. induction fuel as [|fuel IH]; intros s Hl; [done|]. cbn [loop]. unfold retry, call, ebind, get.
  destruct (call_full _ s) as [[x|] s1] eqn:H1; [|done]. cbn [ret].
  destruct (locking_call _ _ _ _ _ _ _ Hl H1) as [Hl1 _].
  case_bool_decide as H0; [|case_bool_decide as Ht].
  - rewrite (lk_me _ _ _ _ Hl1). destruct (update_mutex i _ s1) as [[u|] s2] eqn:Hu; [|done]. cbn [ret].
    intros [= <- <-]. rewrite H0. split; [done|]. intros _. by apply (locking_update _ _ _ _ _ _ Hl1 Hu).
  - unfold is_in_restart_mode, ebind. rewrite (locking_mode _ _ _ _ Hl1). cbn [ret].
    destruct (is_restart_mode (current_mode s1)) eqn:Hm; cbn [ret].
    + intros [= <- <-]. done.
    + by apply IH.
  - intros [= <- <-]. done.
Qed.

(** The path through a restart ends with the real lock. *)
Lemma last_call_after {A} (c : libcall) (m : eff lib A) s r s' :
  (do! m in call c) s = (Ok r, s') → last (log s') = Some c.
Proof.
  unfold call, call_full, ebind, ret. destruct (m s) as [[x|] s1]; [|done]. cbn [replies set_log].
  destruct (replies s1) as [|y ys]; [done|]. intros [= <- <-]. simpl. apply last_snoc.
Qed.
Lemma lock_after_restart_last m s r s' :
  lock_after_restart m s = (Ok r, s') → last (log s') = Some (libpthread_mutex_lock m).
Proof.
  unfold lock_after_restart. unfold ebind at 1. destruct (fill_mailbox _ _ s) as [[x|] s1]; [|done].
  apply last_call_after.
Qed.
Lemma lock_recording m s :
  current_mode s = RECORD ∨ current_mode s = PRE_CHECKPOINT → ckpt_window_candidate s = None →
  mc_pthread_mutex_lock m s =
    (let! i := find_mutex_record m in
     let! left := while_true (retry (libpthread_mutex_timedlock m)
        (let! s := get in update_mutex i (λ _ _, mut_state mutex_locked (tid_self s)))) in
     match left with Some rc => ret rc | None => lock_after_restart m end) s.
Proof.
  intros Hmode Hc. unfold mc_pthread_mutex_lock. unfold ebind at 1.
  unfold get_current_mode, resolve_ckpt_window_candidate_if_pending. unfold ebind at 1 2, get at 1. rewrite Hc.
  cbn [ret query]. by destruct Hmode as [-> | ->].
Qed.

(** C28: a lock taken while recording is restored.  When [mc_pthread_mutex_lock] returns
in a recording mode, outside of the window of a checkpoint, whatever it waited for and however
the mode changed, and provided that the other threads meanwhile keep the records and leave
alone those of mutexes this thread is recorded to hold ([others_keep_mutexes_of], which an
unlock of theirs that is recorded late does not: [late_unlock_hides_lock]), either the
last call was the lock made with the checker's permission after a restart; or it
does not return [ETIMEDOUT], and if it returns 0 the record of the mutex says that
this thread locks it, so that the checker restores a mutex locked by this runner. *)
Theorem recorded_lock m s rc s' :
  current_mode s = RECORD ∨ current_mode s = PRE_CHECKPOINT → ckpt_window_candidate s = None →
  Forall (others_keep_mutexes_of (tid_self s)) (replies s) →
  mc_pthread_mutex_lock m s = (Ok rc, s') →
  last (log s') = Some (libpthread_mutex_lock m) ∨
  rc ≠ ETIMEDOUT ∧ (rc = 0%Z → ∃ i e mut,
    find_object m (head_record_mode (sh s')) = Some i ∧ head_record_mode (sh s') !! i = Some e ∧
    model_of_record e = Some (VMutex mut) ∧ is_locked_by mut (tid_self s) = true).
Proof.
  intros Hmode Hcand Ho. rewrite lock_recording by done. unfold ebind at 1.
  destruct (find_mutex_record m s) as [[i|] s1] eqn:Hf; [|done].
  pose proof (locking_find _ _ _ _ _ eq_refl Hcand Ho Hf) as Hl. unfold ebind at 1, while_true.
  destruct (loop _ _ s1) as [[left|] s2] eqn:Hloop; [|done]. apply (locking_loop _ _ _ _ _ _ _ Hl) in Hloop.
  destruct left as [rc'|]; [|intros Hrun; left; by apply lock_after_restart_last in Hrun].
  intros [= <- <-]. destruct Hloop as [Ht H0]. right. split; [done|]. intros Hz. destruct (H0 Hz) as [Hi He].
  eexists i, _, _. split_and!; [done|done|reflexivity|]. unfold is_locked_by. simpl. by rewrite !bool_decide_eq_true_2.
Qed.

(** ** Waiting on a semaphore while recording *)

(** A semaphore wait gives up after a second while recording.  [sem_timedwait]
returns -1 when its time is over, and the code compares the result with
[ETIMEDOUT]: the first -1, whatever [errno] is, is returned to the program as the
result of [sem_wait], without another attempt and without looking for a restart. *)
Theorem sem_wait_gives_up sem s i s1 r rs :
  current_mode s = RECORD ∨ current_mode s = PRE_CHECKPOINT → ckpt_window_candidate s = None →
  find_semaphore_record sem (current_semaphore sem) s = (Ok i, s1) → replies s1 = r :: rs → rc r = (-1)%Z →
  ∃ s', mc_sem_wait sem s = (Ok (-1)%Z, s') ∧ log s' = log s1 ++ [libpthread_sem_timedwait sem] ∧ replies s' = rs.
Proof.
  intros Hmode Hcand Hf Hr Hrc.
  exists (set_replies rs (set_shared (meanwhile r (sh s1)) (set_log (log s1 ++ [libpthread_sem_timedwait sem]) s1))).
  split; [|done]. unfold mc_sem_wait. unfold ebind at 1.
  unfold get_current_mode, resolve_ckpt_window_candidate_if_pending. unfold ebind at 1 2, get at 1. rewrite Hcand.
  cbn [ret query]. destruct Hmode as [-> | ->]; unfold ebind at 1; rewrite Hf; unfold ebind at 1, while_true;
    cbn [loop]; unfold retry, call, call_full, ebind; cbn [replies set_log sh set_shared]; rewrite Hr; cbn [ret fst];
    by rewrite Hrc.
Qed.

(** ** Recording an unlock too late *)

(** A call that succeeds while nobody else acts, and the calls of another thread. *)
Definition succeeds : reply := Reply 0 0 (λ x, x).
Definition runs (t : lib) (m : eff lib Z) (x : shared) : shared := sh (m (set_shared x t)).2.

Lemma get_current_mode_own s : ckpt_window_candidate s = None → get_current_mode s = (Ok (current_mode s), s).
Proof.
  intros Hc. unfold get_current_mode, resolve_ckpt_window_candidate_if_pending. unfold ebind at 1 2, get at 1.
  by rewrite Hc.
Qed.
(** [s'] is [s] after calls that succeeded undisturbed, with records [l]. *)
Definition alone (s s' : lib) (l : list rec_list) (rs : list reply) : Prop :=
  sh s' = set_records l (sh s) ∧ tid_self s' = tid_self s ∧ replies s' = rs.
Lemma set_records_same x : set_records (head_record_mode x) x = x.
Proof. by destruct x. Qed.
Lemma call_alone c s rs :
  replies s = succeeds :: rs → ∃ s', call_full c s = (Ok (0, 0)%Z, s') ∧ alone s s' (head_record_mode (sh s)) rs.
Proof.
  intros Hr. unfold call_full. cbn [replies set_log]. rewrite Hr. eexists. split; [done|].
  split_and!; simpl; [by rewrite set_records_same|done..].
Qed.
Lemma update_mutex_alone m i f s rs st ow :
  replies s = succeeds :: succeeds :: rs → head_record_mode (sh s) !! i = Some (RecList m (mut_state st ow)) →
  ∃ s', update_mutex i f s = (Ok tt, s') ∧
    alone s s' (alter (λ e, RecList (location e) (f st ow)) i (head_record_mode (sh s))) rs.
Proof.
  intros Hr Hi. unfold update_mutex, call_, call_full, ebind, ret, read_record, query, write_record, modify_shared, modify_lib.
  cbn [replies set_log]. rewrite Hr. cbn. rewrite Hi. cbn. eexists. by split.
Qed.
Lemma find_mutex_alone m i s rs :
  replies s = succeeds :: succeeds :: rs → find_object m (head_record_mode (sh s)) = Some i →
  ∃ s', find_mutex_record m s = (Ok i, s') ∧ alone s s' (head_record_mode (sh s)) rs.
Proof.
  intros Hr Hf. unfold find_mutex_record, call_, call_full, ebind, ret, find_or_add, find_object_record_mode, query.
  cbn [replies set_log]. rewrite Hr. cbn. rewrite Hf. cbn. eexists. split; [done|].
  split_and!; simpl; [by rewrite set_records_same|done..].
Qed.
Lemma lock_alone m i s st ow :
  current_mode s = RECORD → ckpt_window_candidate s = None →
  find_object m (head_record_mode (sh s)) = Some i →
  head_record_mode (sh s) !! i = Some (RecList m (mut_state st ow)) → replies s = replicate 5 succeeds →
  ∃ s', mc_pthread_mutex_lock m s = (Ok 0%Z, s') ∧
    alone s s' (alter (λ e, RecList (location e) (mut_state mutex_locked (tid_self s))) i (head_record_mode (sh s))) [].
Proof.
  intros Hm Hc Hf Hi Hr. rewrite lock_recording by auto.
  destruct (find_mutex_alone m i s _ Hr Hf) as (s1 & H1 & Hx1 & Ht1 & Hr1).
  rewrite (ebind_run _ _ _ _ _ H1). rewrite set_records_same in Hx1.
  destruct (call_alone (libpthread_mutex_timedlock m) s1 _ Hr1) as (s2 & H2 & Hx2 & Ht2 & Hr2).
  rewrite set_records_same in Hx2. rewrite Hx1 in Hx2. rewrite Ht1 in Ht2.
  destruct (update_mutex_alone m i (λ _ _, mut_state mutex_locked (tid_self s2)) s2 _ st ow Hr2)
    as (s3 & H3 & Hal & Ht3 & Hr3); [by rewrite Hx2|].
  exists s3. split.
  - unfold while_true. unfold ebind at 1. cbn [loop]. unfold retry, call, get, ebind. rewrite H2. cbn [ret fst].
    rewrite bool_decide_eq_true_2 by done. by rewrite H3.
  - rewrite Hx2, Ht2 in *. by split_and!.
Qed.

(** The record of an unlock can hide a lock.  When another thread locks the mutex,
and records that it did, between the unlock made by [mc_pthread_mutex_unlock] and
the record of that unlock, both operations succeed and the record ends as unlocked
although the other thread holds the mutex. *)
Theorem late_unlock_hides_lock m i s t :
  current_mode s = RECORD → ckpt_window_candidate s = None →
  current_mode (set_shared (sh s) t) = RECORD → ckpt_window_candidate t = None →
  find_object m (head_record_mode (sh s)) = Some i →
  head_record_mode (sh s) !! i = Some (RecList m (mut_state mutex_locked (tid_self s))) →
  replies s = [succeeds; succeeds; Reply 0 0 (runs t (mc_pthread_mutex_lock m)); succeeds; succeeds] →
  replies t = replicate 5 succeeds →
  (mc_pthread_mutex_lock m (set_shared (sh s) t)).1 = Ok 0%Z ∧
  head_record_mode (runs t (mc_pthread_mutex_lock m) (sh s)) !! i =
    Some (RecList m (mut_state mutex_locked (tid_self t))) ∧
  ∃ s', mc_pthread_mutex_unlock m s = (Ok 0%Z, s') ∧
    head_record_mode (sh s') !! i = Some (RecList m (mut_state mutex_unlocked RID_INVALID)).
Proof.
  intros Hs Hcs Ht Hct Hf Hi Hrs Hrt.
  destruct (lock_alone m i (set_shared (sh s) t) _ _ Ht Hct Hf Hi Hrt) as (t' & Hlock & Hsh & _).
  assert (runs t (mc_pthread_mutex_lock m) (sh s) = sh t') as Hruns by (unfold runs; by rewrite Hlock).
  assert (head_record_mode (sh t') !! i = Some (RecList m (mut_state mutex_locked (tid_self t)))) as Ht'.
  { rewrite Hsh. simpl. by rewrite list_lookup_alter_eq, Hi. }
  rewrite Hlock, Hruns. split_and!; [done|done|]. unfold mc_pthread_mutex_unlock, call_.
  rewrite (ebind_run _ _ _ _ _ (get_current_mode_own _ Hcs)), Hs.
  destruct (call_alone lock_rec_list s _ Hrs) as (s1 & H1 & Hx1 & Ht1 & Hr1). rewrite set_records_same in Hx1.
  destruct (call_alone unlock_rec_list s1 _ Hr1) as (s2 & H2 & Hx2 & Ht2 & Hr2). rewrite set_records_same in Hx2.
  set (s3 := set_replies [succeeds; succeeds] (set_shared (runs t (mc_pthread_mutex_lock m) (sh s2))
    (set_log (log s2 ++ [libpthread_mutex_unlock m]) s2))).
  assert (call_full (libpthread_mutex_unlock m) s2 = (Ok (0, 0)%Z, s3)) as H3.
  { unfold call_full. cbn [replies set_log]. by rewrite Hr2. }
  destruct (update_mutex_alone m i (λ _ _, mut_state mutex_unlocked RID_INVALID) s3 [] mutex_locked (tid_self t) eq_refl)
    as (s4 & H4 & Hx4 & _); [unfold s3; simpl; by rewrite Hx2, Hx1, Hruns|].
  exists s4. split.
  - unfold ebind at 1 2. rewrite H1. cbn [ret]. unfold find_object_record_mode, query, ebind at 1.
    rewrite Hx1, Hf. unfold ebind at 1 2. rewrite H2. cbn [ret]. unfold call, ebind at 1 2. rewrite H3. cbn [ret fst].
    rewrite bool_decide_eq_true_2 by done. by rewrite (ebind_run _ _ _ _ _ H4).
  - rewrite Hx4. unfold s3. simpl. rewrite Hx2, Hx1, Hruns. by rewrite list_lookup_alter_eq, Ht'.
Qed.
