(* ===== verification/Totality.v ===== *)
(** * The fuel of the loops of the library is enough

A loop that goes round again has made a call, and the call is [Blocked] once there is no
reply.  So the fuel that [while_true] takes, one more than the replies, never runs out
([library_total]).  This is about the model: that a loop ends is not said, only that the
result [LoopBound] stands for nothing. *)

From stdpp Require Import options.
From S2P Require Import Prelude CondPolicy Objects Coordinator ThreadQueue Restore.
From S2P Require Import Recorder Wrappers ThreadWrappers Protocol Recording.

(** ** Effects that do not run out of fuel *)

(** No reply comes back, and the result is not that of a loop without fuel. *)
Definition within {A} (m : eff lib A) : Prop :=
  ∀ s r s', m s = (r, s') → length (replies s') ≤ length (replies s) ∧ r ≠ Throw LoopBound.
(** The body of a loop: to go round again takes a reply. *)
Definition turns {A} (body : eff lib (option A)) : Prop :=
  within body ∧ ∀ s s', body s = (Ok None, s') → length (replies s') < length (replies s).

Lemma within_bind {A B} (m : eff lib A) (f : A → eff lib B) : within m → (∀ a, within (f a)) → within (ebind m f).
Proof.
  intros Hm Hf s r s'. unfold ebind. destruct (m s) as [[a|e] s1] eqn:Hs; destruct (Hm _ _ _ Hs) as [Hl He].
  - intros Hr. destruct (Hf _ _ _ _ Hr). split; [lia|done].
  - intros [= <- <-]. split; [done|]. intros [= ->]. done.
Qed.
Lemma within_ret {A} (a : A) : within (ret a).
Proof. by intros s r s' [= <- <-]. Qed.
Lemma within_throw {A} e : e ≠ LoopBound → within (throw (A := A) e).
Proof. intros He s r s' [= <- <-]. split; [done|]. by intros [= ->]. Qed.
Lemma within_get : within get.
Proof. by intros s r s' [= <- <-]. Qed.
Lemma within_query {A} (f : lib → res A) : (∀ s, f s ≠ Throw LoopBound) → within (query f).
Proof. intros Hf s r s' [= <- <-]. split; [done|apply Hf]. Qed.
Lemma within_modify f : (∀ s, replies (f s) = replies s) → within (modify_lib f).
Proof. intros Hf s r s' [= <- <-]. by rewrite Hf. Qed.
Lemma within_modify_shared f : within (modify_shared f).
Proof. by apply within_modify. Qed.
Lemma call_full_consumes c s x s' : call_full c s = (Ok x, s') → length (replies s') < length (replies s).
Proof. unfold call_full. cbn [replies set_log]. destruct (replies s); [done|]. intros [= <- <-]. simpl. lia. Qed.
Lemma within_call_full c : within (call_full c).
Proof.
  intros s r s'. unfold call_full. cbn [replies set_log]. destruct (replies s) as [|x l] eqn:Hl; intros [= <- <-]; simpl.
  - by rewrite Hl.
  - split; [lia|done].
Qed.
Lemma within_call c : within (call c).
Proof. apply within_bind; [apply within_call_full|intros; apply within_ret]. Qed.
Lemma within_call_ c : within (call_ c).
Proof. apply within_bind; [apply within_call_full|intros; apply within_ret]. Qed.
Lemma within_assert b : within (assert_ b).
Proof. destruct b; [apply within_ret|by apply within_throw]. Qed.
Lemma within_abort {A} : within (libc_abort (A := A)).
Proof. by apply within_throw. Qed.
Lemma within_for_each {X} (l : list X) (f : X → eff lib unit) : (∀ x, within (f x)) → within (for_each l f).
Proof.
  intros Hf. induction l as [|x l IH]; [apply within_ret|]. apply within_bind; [apply Hf|]. intros _. apply IH.
Qed.

Lemma within_loop {A} fuel (body : eff lib (option A)) s r s' :
  turns body → length (replies s) < fuel → loop fuel body s = (r, s') →
  length (replies s') ≤ length (replies s) ∧ r ≠ Throw LoopBound.
Proof.
  intros [Hb Ht]. revert s. induction fuel as [|fuel IH]; intros s Hf; [lia|]. cbn [loop]. unfold ebind.
  destruct (body s) as [[[a|]|e] s1] eqn:Hs; destruct (Hb _ _ _ Hs) as [Hl He].
  - intros [= <- <-]. done.
  - specialize (Ht _ _ Hs). intros Hr. destruct (IH s1 ltac:(lia) Hr). split; [lia|done].
  - intros [= <- <-]. split; [done|]. intros [= ->]. done.
Qed.
Lemma within_while_true {A} (body : eff lib (option A)) : turns body → within (while_true body).
Proof. intros Hb s r s' Hr. apply (within_loop _ _ _ _ _ Hb (Nat.lt_succ_diag_r _) Hr). Qed.

Lemma turns_call_full {A} c (f : Z * Z → eff lib (option A)) :
  (∀ x, within (f x)) → turns (let! x := call_full c in f x).
Proof.
  intros Hf. split; [by apply within_bind; [apply within_call_full|]|]. intros s s'. unfold ebind.
  destruct (call_full c s) as [[x|] s1] eqn:Hc; [|done]. intros Hr. apply call_full_consumes in Hc.
  destruct (Hf _ _ _ _ Hr). lia.
Qed.
Lemma turns_call {A} c (f : Z → eff lib (option A)) : (∀ x, within (f x)) → turns (let! x := call c in f x).
Proof.
  intros Hf. destruct (turns_call_full c (λ x, f x.1)) as [Hw Ht]; [intros; apply Hf|]. split.
  - apply within_bind; [apply within_call|done].
  - intros s s' Hr. apply Ht. revert Hr. unfold call, ebind, ret. by destruct (call_full c s) as [[]].
Qed.
Lemma turns_call_ {A} c (m : eff lib (option A)) : within m → turns (do! call_ c in m).
Proof.
  intros Hm. destruct (turns_call_full c (λ _, m)) as [Hw Ht]; [done|]. split.
  - apply within_bind; [apply within_call_|done].
  - intros s s' Hr. apply Ht. revert Hr. unfold call_, ebind, ret. by destruct (call_full c s) as [[]].
Qed.
(** A loop that looks before it calls. *)
Lemma turns_unless {A B} (m : eff lib A) (b : A → bool) (x : B) (body : eff lib (option B)) :
  within m → turns body → turns (let! a := m in if b a then ret (Some x) else body).
Proof.
  intros Hm [Hb Ht]. split.
  - apply within_bind; [done|]. intros a. destruct (b a); [apply within_ret|done].
  - intros s s'. unfold ebind. destruct (m s) as [[a|] s1] eqn:Hs; [|done]. destruct (Hm _ _ _ Hs) as [Hl _].
    destruct (b a); [done|]. intros Hr. apply Ht in Hr. lia.
Qed.

Create HintDb within.
#[export] Hint Resolve within_ret within_get within_call_full within_call within_call_ : within.
#[export] Hint Resolve within_assert within_abort within_modify_shared : within.
#[export] Hint Extern 1 (within (throw _)) => apply within_throw; discriminate : within.
#[export] Hint Extern 1 (within (modify_lib _)) => apply within_modify; done : within.

(** Split an effect into its parts. *)
Ltac total :=
  repeat match goal with
  | |- within (ebind _ _) => apply within_bind; [|intros ?]
  | |- within (while_true _) => apply within_while_true
  | |- within (for_each _ _) => apply within_for_each; intros ?
  | |- turns (ebind (call _) _) => apply turns_call; intros ?
  | |- turns (ebind (call_ _) _) => apply turns_call_
  | |- turns (ebind (call_full _) _) => apply turns_call_full; intros ?
  | |- within (if ?b then _ else _) => destruct b
  | |- within (match ?x with _ => _ end) => destruct x
  | |- within (query _) => apply within_query; intros ?; repeat case_match; discriminate
  | |- within _ => solve [eauto with within]
  end.

(** ** The recorder *)

Lemma within_get_current_mode : within get_current_mode.
Proof.
  unfold get_current_mode, resolve_ckpt_window_candidate_if_pending, record_checkpoint_thread, set_current_mode. total.
Qed.
#[export] Hint Resolve within_get_current_mode : within.
Lemma within_is_in_restart_mode : within is_in_restart_mode.
Proof. unfold is_in_restart_mode. total. Qed.
Lemma within_wait_for_scheduler : within wait_for_scheduler.
Proof. unfold wait_for_scheduler. total. Qed.
Lemma within_thread_get_mailbox : within thread_get_mailbox.
Proof. unfold thread_get_mailbox. total. Qed.
#[export] Hint Resolve within_is_in_restart_mode within_wait_for_scheduler within_thread_get_mailbox : within.
Lemma within_wake_scheduler : within wake_scheduler.
Proof. intros s r s'. apply within_call_full. Qed.
#[export] Hint Resolve within_wake_scheduler : within.
Lemma within_thread_wake_scheduler_and_wait : within thread_wake_scheduler_and_wait.
Proof. unfold thread_wake_scheduler_and_wait. total. Qed.
Lemma within_thread_await_scheduler : within thread_await_scheduler.
Proof. unfold thread_await_scheduler. total. Qed.
#[export] Hint Resolve within_thread_wake_scheduler_and_wait within_thread_await_scheduler : within.
Lemma within_thread_handle_after_dmtcp_restart : within thread_handle_after_dmtcp_restart.
Proof.
  unfold thread_handle_after_dmtcp_restart. total. apply turns_unless; [apply within_get_current_mode|]. total.
Qed.
#[export] Hint Resolve within_thread_handle_after_dmtcp_restart : within.
Lemma within_find_or_add a fresh : within fresh → within (find_or_add a fresh).
Proof. intros Hf. unfold find_or_add, find_object_record_mode, add_rec_entry_record_mode. total. Qed.
#[export] Hint Resolve within_find_or_add : within.

(** ** The wrappers *)

Lemma turns_retry timed succeeded : within succeeded → turns (retry timed succeeded).
Proof. intros Hs. unfold retry. total. Qed.
Lemma within_spec_op op l : (spec_op op l).1.1 ≠ Throw LoopBound.
Proof. unfold spec_op. repeat case_match; discriminate. Qed.
Lemma within_read_cond i : within (read_cond i).
Proof. unfold read_cond, read_record. total. Qed.
#[export] Hint Resolve turns_retry within_read_cond : within.
Lemma within_update_cond i f : within (update_cond i f).
Proof. unfold update_cond, write_record. total. Qed.
#[export] Hint Resolve within_update_cond : within.
Lemma within_queue_of i : within (queue_of i).
Proof. unfold queue_of, deref. total. Qed.
#[export] Hint Resolve within_queue_of : within.
Lemma within_on_queue i op : within (on_queue i op).
Proof.
  unfold on_queue. apply within_bind; [apply within_queue_of|]. intros l.
  pose proof (within_spec_op op l) as Ho. destruct (spec_op op l) as [[r l'] z].
  apply within_bind; [apply within_update_cond|]. intros _. by apply within_query.
Qed.
#[export] Hint Resolve within_on_queue : within.
Lemma within_this_thread_id : within this_thread_id.
Proof. unfold this_thread_id, find_thread_record_mode, read_record. total. Qed.
#[export] Hint Resolve within_this_thread_id : within.
Ltac total ::=
  repeat match goal with
  | |- within (ebind _ _) => apply within_bind; [|intros ?]
  | |- within (while_true (retry _ _)) => apply within_while_true, turns_retry
  | |- within (while_true _) => apply within_while_true
  | |- within (for_each _ _) => apply within_for_each; intros ?
  | |- within (find_or_add _ _) => apply within_find_or_add
  | |- turns (ebind (call_ _) _) => apply turns_call_
  | |- within (if ?b then _ else _) => destruct b
  | |- within (match ?x with _ => _ end) => destruct x
  | |- within (query _) => apply within_query; intros ?; repeat case_match; discriminate
  | |- within _ => solve [eauto with within]
  end.

Lemma within_wrapper op : within (wrapper op).
Proof.
  destruct op; cbn [wrapper];
    unfold mc_pthread_mutex_init, mc_pthread_mutex_lock, mc_pthread_mutex_unlock, lock_after_restart,
      mc_sem_init, mc_sem_destroy, mc_sem_post, mc_sem_wait, sem_wait_under_checker, handle_restart_or_wait,
      mc_pthread_cond_init, mc_pthread_cond_wait, mc_pthread_cond_signal, mc_pthread_cond_broadcast,
      mc_pthread_cond_destroy, cond_wait_under_checker, fill_mailbox, set_type, write_cnts,
      find_mutex_record, update_mutex, find_semaphore_record, current_semaphore, fresh_semaphore, replace_semaphore,
      add_to_count, record_prewaiting, record_waited, record_signaled, mark_signaled, find_or_init_cond,
      find_object_record_mode, read_record, write_record; total.
Qed.

(** ** The rest of the library *)

Lemma within_find_pthread_map_entry t : within (find_pthread_map_entry t).
Proof. unfold find_pthread_map_entry. total. Qed.
#[export] Hint Resolve within_wrapper within_find_pthread_map_entry : within.
Lemma within_mc_register_this_thread : within mc_register_this_thread.
Proof. unfold mc_register_this_thread, insert_pthread_map. total. Qed.
Lemma within_record_thread add t rid : (∀ e, within (add e)) → within (record_thread add t rid).
Proof. intros Ha. unfold record_thread, find_thread_record_mode. total. Qed.
Lemma within_add e : within (add_rec_entry_record_mode e).
Proof. unfold add_rec_entry_record_mode. total. Qed.
Lemma within_set_thread_status i st : within (set_thread_status i st).
Proof. unfold set_thread_status, read_record, write_record. total. Qed.
#[export] Hint Resolve within_mc_register_this_thread within_record_thread within_add within_set_thread_status : within.
Lemma within_mc_exit_thread_in_child : within mc_exit_thread_in_child.
Proof.
  unfold mc_exit_thread_in_child, find_really_exited_sem, find_exit_permission_sem,
    thread_awake_scheduler_for_thread_finish_transition, set_type. total.
Qed.
Lemma within_mc_exit_main_thread_in_child {A} : within (mc_exit_main_thread_in_child (A := A)).
Proof.
  unfold mc_exit_main_thread_in_child, thread_awake_scheduler_for_thread_finish_transition,
    thread_block_indefinitely, set_type. total.
Qed.
#[export] Hint Resolve within_mc_exit_thread_in_child within_mc_exit_main_thread_in_child : within.

(** In any state, with any replies, no function that libmcmini puts in the place of another
uses up the turns its loops are given. *)
Theorem library_total f s : (run_intercepted f s).1 ≠ Throw LoopBound.
Proof.
  assert (within (run_intercepted f)) as Hw.
  { destruct f; cbn [run_intercepted];
      unfold mc_pthread_create, record_main_thread_once, record_main_thread, mc_pthread_join, mc_pthread_join_impl,
        join_after_restart, fill_join, grant_exit, really_join, find_exit_permission_sem, search_pthread_map,
        mc_pthread_exit, exit_under_checker, pthread_exit_really, mc_thread_routine_wrapper,
        exit_routine_after_restart, add_rec_entry_record_mode_ts, mc_transparent_exit, exit_process_under_checker,
        mc_transparent_abort, abort_process_under_checker, mc_sleep,
        find_thread_record_mode, libc_exit, fill_mailbox, set_type, write_cnts; total. }
  destruct (run_intercepted f s) as [r s'] eqn:Hr. apply (Hw _ _ _ Hr).
Qed.
