(* ===== verification/Examples.v ===== *)
(** * Scripted targets

A [World] whose processes follow a script: for each runner, the mailboxes it writes
one execution after the other.  With it the whole checker ([do_model_checking] of
[Restore.v]) runs inside the logic on concrete programs: two threads that take two
locks in opposite orders, the same with the locks in one order, one that aborts,
and one on which the search fails. *)

From stdpp Require Import options.
From S2P Require Import Prelude InjectiveFunction DoubleDispatch CondPolicy Objects State.
From S2P Require Import Transitions AbstractState Behaviour Dependency StateSequence Program.
From S2P Require Import ClockVector StackItem Dpor Backtracking Exploration Coordinator Lockstep Restore.

(** ** The world *)

(** [None] is a step in which the process is killed by signal 11. *)
Record target := Target {
  script : list (list (option runner_mailbox));
  executed : gmap runner_id_t nat;
}.

(** A thread with nothing left in its script keeps exiting. *)
Definition next_message (w : target) (r : runner_id_t) : option runner_mailbox :=
  default (Some (RunnerMailbox THREAD_EXIT_TYPE []))
    (l ← script w !! N.to_nat r; l !! default 0 (executed w !! r)).

#[export] Instance target_World : World target := {
  handle := unit;
  make_new_process w := (Ok (Some tt), Target (script w) ∅);
  destroy_process _ w := w;
  process_execute_runner _ r w :=
    match next_message w r with
    | Some mb => (Ok mb, Target (script w) (<[r := S (default 0 (executed w !! r))]> (executed w)))
    | None => (Throw (TerminationError 11 r), w)
    end;
  get_pid _ := 1000%Z;
  process_vm_readv _ _ _ n := Some (replicate n 0%N);
  PTHREAD_MUTEX_INITIALIZER := replicate 40 0%N;
  PTHREAD_COND_INITIALIZER := replicate 48 0%N;
}.

(** The target does the same whenever it is run again. *)
Definition turns (r : runner_id_t) (hist : list runner_id_t) : nat := length (filter (λ q, q = r) hist).
Definition scripted_answer (s : list (list (option runner_mailbox))) (hist : list runner_id_t) : runner_mailbox :=
  match last hist with
  | Some r => default (RunnerMailbox 0 []) (next_message (Target s {[r := pred (turns r hist)]}) r)
  | None => RunnerMailbox 0 []
  end.
Definition scripted_ran (w : target) (_ : handle target) (hist : list runner_id_t) : Prop :=
  ∀ r, default 0 (executed w !! r) = turns r hist.
#[export] Instance target_deterministic s :
  Deterministic target (λ w, script w = s) scripted_ran (scripted_answer s).
Proof.
  split.
  - by intros w [] w' <- [= <-].
  - done.
  - intros w [] hist r mb w' <- Hr Hx. unfold process_execute_runner, target_World in Hx.
    destruct (next_message w r) as [mb'|] eqn:Hm; [|done]. injection Hx as -> <-.
    assert (∀ q, turns q (hist ++ [r]) = if decide (r = q) then S (turns q hist) else turns q hist) as Ht.
    { intros q. unfold turns. rewrite filter_app, length_app, filter_cons, filter_nil. case_decide; simpl; lia. }
    split_and!; [done| |].
    + intros q. rewrite Ht. cbn [executed]. rewrite lookup_insert. case_decide; [subst; simpl; by rewrite Hr|apply Hr].
    + unfold scripted_answer. rewrite last_snoc, Ht, decide_True by done. unfold next_message in *. cbn [executed script].
      rewrite lookup_singleton_eq. simpl. rewrite Hr in Hm. by rewrite Hm.
Qed.

Definition message (ty : N) (payload : list N) : option runner_mailbox := Some (RunnerMailbox ty payload).
Definition on (ty a : N) : option runner_mailbox := message ty (le_bytes 8 a).
Definition create (thread : addr) := on THREAD_CREATE_TYPE thread.
Definition join (r : runner_id_t) := message THREAD_JOIN_TYPE (le_bytes 2 r).
Definition init (a : addr) := on MUTEX_INIT_TYPE a.
Definition lock (a : addr) := on MUTEX_LOCK_TYPE a.
Definition unlock (a : addr) := on MUTEX_UNLOCK_TYPE a.
Definition exit_with (code : Z) := message PROCESS_EXIT_TYPE (le_bytes 4 (u32_of_int code)).
Definition abort := message PROCESS_ABORT_TYPE [].

(** The configuration of the program; the default case is not reached. *)
Definition config : configuration :=
  match default_configuration with
  | Ok c => c
  | Throw _ => Configuration ddt_empty ddt_empty 0 false
  end.

Definition new_target (s : list (list (option runner_mailbox))) : target := Target s ∅.

(** The result of the checker on a script, and the calls it made. *)
Definition run (fuel : nat) (s : list (list (option runner_mailbox))) : res (option unit) * list event :=
  match do_model_checking config fuel (new_target s) with
  | (r, Some ctx) => (r, events ctx)
  | (r, None) => (r, [])
  end.

Definition is_deadlock (e : event) : bool := match e with deadlock _ => true | _ => false end.

(** ** Programs *)

Definition two_locks (second first : addr) : list (list (option runner_mailbox)) :=
  [[init 200; init 201; create 100; lock 200; lock 201; unlock 201; unlock 200; join 1; exit_with 0];
   [lock first; lock second; unlock second; unlock first]].

Definition aborting : list (list (option runner_mailbox)) :=
  [[init 200; create 100; lock 200; unlock 200; join 1; exit_with 0]; [lock 200; abort]].

Definition spawning : list (list (option runner_mailbox)) :=
  [[init 200; message SEM_INIT_TYPE (le_bytes 8 300 ++ le_bytes 4 0); create 100; create 101; join 1; join 2;
    exit_with 0];
   [on SEM_WAIT_TYPE 300; lock 200; unlock 200];
   [on SEM_POST_TYPE 300; lock 200; create 102; unlock 200];
   []].

(** The checker on whole programs.  Two threads that lock two mutexes in
opposite orders: the search ends and reports a deadlock.  With one order it ends
and reports none.  A thread about to abort is reported with its id, and a process
killed by a signal with the signal. *)
Theorem checker_verdicts :
  (let '(r, evs) := run 400 (two_locks 200 201) in
   r = Ok (Some tt) ∧ existsb is_deadlock evs = true) ∧
  (let '(r, evs) := run 400 (two_locks 201 200) in
   r = Ok (Some tt) ∧ existsb is_deadlock evs = false) ∧
  run 400 aborting = (Ok (Some tt), [abnormal_termination (Stats 7 1) SIGABRT 1]) ∧
  run 400 [[init 200; lock 200; None]] = (Ok (Some tt), [abnormal_termination (Stats 2 1) 11 0]).
Proof. split_and!; vm_compute; split_and?; reflexivity. Qed.

(** A thread discovered again aborts the search.  The threads of [spawning] are
correct, but when the search goes back before the creation of the last one and
another schedule leads to it, the address of the new thread is still bound to an
object the restored state does not contain: [observe_runner] throws, and with it
[verify_using]. *)
Theorem rediscovered_thread_aborts_search :
  fst (run 400 spawning) = Throw (RuntimeError RebindRemoteAddress).
Proof. by vm_compute. Qed.

(** ** A recorded program *)

(** Two threads are about to wait for a semaphore of count 1; the first one posts it again and
joins the second one. *)
Definition recorded_waiters : list visible_object :=
  [SEMAPHORE 302 1 sem_initialized; THREAD (RecordedThread 1000 0 ALIVE); THREAD (RecordedThread 1001 1 ALIVE)].
Definition about_to_wait (_ : runner_id_t) : runner_mailbox := RunnerMailbox SEM_WAIT_TYPE (le_bytes 8 302).
Definition waiters : list (list (option runner_mailbox)) := [[on SEM_POST_TYPE 302; join 1; exit_with 0]; []].
(** The runners of a schedule one after the other, from the restored state on. *)
Definition after_schedule (l : list runner_id_t) : res bool :=
  match default_program ≫= (λ p, let '(r, c) := new_coordinator p default_registry (new_target waiters) in r ≫= (λ _, Ok c)) with
  | Throw e => Throw e
  | Ok c =>
      fst ((do! restore_recorded default_registry about_to_wait recorded_waiters in
            do! for_each l coordinator_execute_runner in
            query (λ c, is_in_deadlock (current_program_model c))) c)
  end.

(** A deadlock the search does not find.  When the second thread waits first and exits, the
first one is blocked for ever; the search completes one trace, adds no backtrack point to the
state it started in, and ends without a report. *)
Theorem recorded_deadlock_missed :
  (let '(r, ctx) := do_model_checking_from_dmtcp_ckpt_file config 400 (new_target waiters) recorded_waiters about_to_wait in
   r = Ok (Some tt) ∧ (existsb is_deadlock ∘ events <$> ctx) = Some false ∧ (length ∘ events <$> ctx) = Some 1) ∧
  after_schedule [1; 1]%N = Ok true.
Proof. split; vm_compute; split_and?; reflexivity. Qed.
