(* ===== verification/Witnesses.v ===== *)
(** * The theorems at concrete inputs

For each theorem with hypotheses, an instance: a concrete state, trace, stack or
coordinator where the hypotheses hold, evaluated, with the conclusion the theorem
gives there. *)

From stdpp Require Import options.
From S2P Require Import Prelude InjectiveFunction DoubleDispatch CondPolicy Objects State.
From S2P Require Import Transitions AbstractState Behaviour Dependency StateSequence Program Runners.
From S2P Require Import ClockVector StackItem Dpor Backtracking Exploration Mirror ClockOrder Reports Coordinator Trajectory Soundness Lockstep Restore.
From S2P Require Import Examples.

(** ** Abstract states *)

Ltac wf_eval := apply wf_check_ok; vm_compute; reflexivity.
Ltac typed_eval := apply (bool_decide_eq_true_1 _); vm_compute; reflexivity.

(** A run, evaluated. *)
Fixpoint run_all (ts : list transition) (a : astate) : option astate :=
  match ts with
  | [] => Some a
  | t :: ts =>
      if bool_decide (typed t a) then
        match astep t a with
        | Ok (a1, exists_) => run_all ts a1
        | _ => None
        end
      else None
  end.
Lemma run_all_arun ts a a' : run_all ts a = Some a' → arun a ts a'.
Proof.
  revert a. induction ts as [|t ts IH]; intros a Hr; cbn [run_all] in Hr.
  { injection Hr as <-. constructor. }
  case_bool_decide as Ht; [|done]. destruct (astep t a) as [[a1 []]|] eqn:Hs; try done.
  by eapply arun_cons; [..|apply IH].
Qed.

(** Two running threads (runners 0 and 1, objects 0 and 1), and objects 2 and 3. *)
Definition pair_state (o2 o3 : visible_object_state) : astate :=
  AState (list_to_map [(0, VThread (Thread running)); (1, VThread (Thread running)); (2, o2); (3, o3)]%N)
    (list_to_map [(0, 0); (1, 1)]%N).

Definition held : mutex := Mutex mutex_locked 512 1.
Definition free_mutex : mutex := new_mutex mutex_unlocked 512.
Definition cond_with (p : policy) : condition_variable := CondVar cv_initialized 0 RID_INVALID 512 0 0 p.
Definition sem_of (n : Z) : semaphore := semaphore_of sem_initialized n.
(** Runner 1 is in the queue of the condition variable. *)
Definition queued : policy := Policy ∅ [] [1%N] {[1%N := CV_WAITING]}.

Definition lock_run : list transition :=
  [Transition 0 thread_start; Transition 0 (sem_post 3); Transition 1 (sem_wait 3)].

Lemma mutual_exclusion_witness :
  ∃ a', arun (pair_state (VMutex held) (VSemaphore (sem_of 0))) lock_run a' ∧
    objs a' !! 2%N = Some (VMutex held) ∧ Forall (λ t, acquires 2 t = false) lock_run.
Proof.
  eexists. split.
  - apply run_all_arun. vm_compute. reflexivity.
  - eapply (mutual_exclusion (pair_state (VMutex held) (VSemaphore (sem_of 0))) lock_run _ 2 held 1).
    + wf_eval.
    + apply run_all_arun. vm_compute. reflexivity.
    + vm_compute. reflexivity.
    + vm_compute. reflexivity.
    + repeat constructor.
Defined.

Lemma semaphore_conservation_witness :
  ∃ a' s', arun (pair_state (VMutex held) (VSemaphore (sem_of 0))) lock_run a' ∧
    objs a' !! 3%N = Some (VSemaphore s') ∧ (0 ≤ sem_count s')%Z ∧ sem_count s' = 0%Z.
Proof.
  destruct (semaphore_conservation (pair_state (VMutex held) (VSemaphore (sem_of 0))) lock_run
    (default (AState ∅ ∅) (run_all lock_run (pair_state (VMutex held) (VSemaphore (sem_of 0))))) 3 (sem_of 0))
    as (s' & Hs' & Hpos & Hcount).
  - wf_eval.
  - apply run_all_arun. vm_compute. reflexivity.
  - vm_compute. reflexivity.
  - vm_compute. discriminate.
  - vm_compute. reflexivity.
  - vm_compute. reflexivity.
  - eexists _, s'. split; [|split; [exact Hs'|split; [exact Hpos|]]].
    + apply run_all_arun. vm_compute. reflexivity.
    + rewrite Hcount. vm_compute. reflexivity.
Defined.

Lemma semaphore_overflow_witness :
  let a := pair_state (VMutex held) (VSemaphore (sem_of (2^31 - 1))) in
  ∃ a', astep (Transition 0 (sem_post 3)) a = Ok (a', exists_) ∧
    objs a' !! 3%N = Some (VSemaphore (sem_of (- 2^31))) ∧
    astep (Transition 1 (sem_wait 3)) a' = Ok (a', disabled).
Proof.
  apply (semaphore_overflow (pair_state (VMutex held) (VSemaphore (sem_of (2^31 - 1)))) 3 0 1).
  - wf_eval.
  - vm_compute. reflexivity.
  - vm_compute. reflexivity.
  - vm_compute. reflexivity.
Defined.

Definition wait_run : list transition :=
  [Transition 0 (condition_variable_signal 3); Transition 1 (condition_variable_wait 3 2)].
Lemma no_spurious_wakeups_witness :
  let a := pair_state (VMutex free_mutex) (VCond (cond_with queued)) in
  ∃ a' cv', arun a wait_run a' ∧ objs a' !! 3%N = Some (VCond cv') ∧
    (1 + Z.of_nat (pending_wakeups (cv_policy cv')) ≤ 1)%Z.
Proof.
  destruct (no_spurious_wakeups (pair_state (VMutex free_mutex) (VCond (cond_with queued))) wait_run
    (default (AState ∅ ∅) (run_all wait_run (pair_state (VMutex free_mutex) (VCond (cond_with queued)))))
    3 (cond_with queued)) as (cv' & Hcv' & Hle).
  - wf_eval.
  - apply run_all_arun. vm_compute. reflexivity.
  - vm_compute. reflexivity.
  - vm_compute. reflexivity.
  - eexists _, cv'. split; [|split; [exact Hcv'|exact Hle]].
    apply run_all_arun. vm_compute. reflexivity.
Defined.

Lemma signalled_waiter_proceeds_witness :
  let a := pair_state (VMutex free_mutex) (VCond (cond_with queued)) in
  ∃ a1 a2 cv2,
    astep (Transition 0 (condition_variable_signal 3)) a = Ok (a1, exists_) ∧
    astep (Transition 1 (condition_variable_wait 3 2)) a1 = Ok (a2, exists_) ∧
    objs a2 !! 2%N = Some (VMutex (Mutex mutex_locked 512 1)) ∧
    objs a2 !! 3%N = Some (VCond cv2) ∧ thread_can_exit (cv_policy cv2) 1 = false.
Proof.
  apply (signalled_waiter_proceeds (pair_state (VMutex free_mutex) (VCond (cond_with queued)))
    0 1 3 2 (cond_with queued) free_mutex); first wf_eval; try (vm_compute; reflexivity).
  apply (bool_decide_eq_true_1 _). vm_compute. reflexivity.
Defined.

Lemma signal_not_remembered_witness :
  let a := pair_state (VMutex held) (VCond (cond_with new_policy)) in
  astep (Transition 0 (condition_variable_signal 3)) a = Ok (a, exists_) ∧
  ∃ a1, astep (Transition 1 (condition_variable_enqueue_thread 3 2)) a = Ok (a1, exists_) ∧
    ∀ m1, astep (Transition 1 (condition_variable_wait 3 2)) (set_obj 2 (VMutex m1) a1) =
      Ok (set_obj 2 (VMutex m1) a1, disabled).
Proof.
  apply (signal_not_remembered (pair_state (VMutex held) (VCond (cond_with new_policy)))
    0 1 3 2 (cond_with new_policy) held); first wf_eval; try (vm_compute; reflexivity).
  vm_compute. eauto.
Defined.

Lemma apply_to_safe_witness :
  let a := pair_state (VMutex free_mutex) (VCond (cond_with queued)) in
  ∃ d st a', apply_to (Transition 0 (mutex_lock 2)) a = Ok (d, st) ∧ (st = exists_ ∨ st = disabled) ∧
    astep (Transition 0 (mutex_lock 2)) a = Ok (a', st) ∧ diff_written a d a' ∧ wf a' ∧
    ∀ t', typed t' a ↔ typed t' a'.
Proof.
  apply (apply_to_safe (pair_state (VMutex free_mutex) (VCond (cond_with queued)))
    (pair_state (VMutex free_mutex) (VCond (cond_with queued)))).
  - by split_and!.
  - wf_eval.
  - typed_eval.
Defined.

(** ** Dependency *)

Lemma config_default : default_configuration = Ok config.
Proof. destruct default_configuration_ok as [c Hc]. unfold config. by rewrite Hc. Qed.

Definition two_mutexes : astate :=
  pair_state (VMutex free_mutex) (VMutex (new_mutex mutex_unlocked 1024)).
Lemma default_tables_compute_witness :
  are_dependent config (Transition 0 (mutex_lock 2)) (Transition 1 (mutex_lock 2)) = true ∧
  are_coenabled config (Transition 0 (mutex_lock 2)) (Transition 1 (mutex_unlock 2)) = false.
Proof.
  split.
  - apply (default_tables_compute config (Transition 0 (mutex_lock 2)) (Transition 1 (mutex_lock 2))).
    vm_compute. reflexivity.
  - apply (default_tables_compute config (Transition 0 (mutex_lock 2)) (Transition 1 (mutex_unlock 2))).
    vm_compute. reflexivity.
Defined.

Lemma independent_commute_witness :
  let t1 := Transition 0 (mutex_lock 2) in let t2 := Transition 1 (mutex_lock 3) in
  ∃ a1 a2 a12, astep t1 two_mutexes = Ok (a1, exists_) ∧ astep t2 two_mutexes = Ok (a2, exists_) ∧
    astep t2 a1 = Ok (a12, exists_) ∧ (exists_ = exists_ → astep t1 a2 = Ok (a12, exists_)).
Proof.
  destruct (independent_commute config (Transition 0 (mutex_lock 2)) (Transition 1 (mutex_lock 3)) two_mutexes
    (set_obj 2 (VMutex (Mutex mutex_locked 512 0)) two_mutexes)
    (set_obj 3 (VMutex (Mutex mutex_locked 1024 1)) two_mutexes) exists_)
    as (a12 & H12 & H21).
  - exact config_default.
  - vm_compute. reflexivity.
  - wf_eval.
  - typed_eval.
  - typed_eval.
  - exact I.
  - exact I.
  - vm_compute. reflexivity.
  - vm_compute. reflexivity.
  - eexists _, _, a12. split; [|split; [|split; [exact H12|exact H21]]]; vm_compute; reflexivity.
Defined.

(** The holder of a mutex may unlock it, so another thread may not lock it. *)
Lemma not_coenabled_sound_witness :
  let a := pair_state (VMutex held) (VSemaphore (sem_of 0)) in
  are_coenabled config (Transition 1 (mutex_unlock 2)) (Transition 0 (mutex_lock 2)) = false ∧
  ∀ a2, astep (Transition 0 (mutex_lock 2)) a ≠ Ok (a2, exists_).
Proof.
  split; [vm_compute; reflexivity|].
  apply (not_coenabled_sound config (Transition 1 (mutex_unlock 2)) (Transition 0 (mutex_lock 2))
    (pair_state (VMutex held) (VSemaphore (sem_of 0)))
    (set_obj 2 (VMutex free_mutex) (pair_state (VMutex held) (VSemaphore (sem_of 0))))).
  - exact config_default.
  - vm_compute. reflexivity.
  - discriminate.
  - exact I.
  - exact I.
  - reflexivity.
  - reflexivity.
  - vm_compute. reflexivity.
Defined.

(** ** Sequences and programs *)

Lemma inj_insert_mirrored_witness :
  mirrored (InjectiveFunction {[1%N := 10%N]} {[10%N := 1%N]}) ∧
  match inj_insert (2%N, 20%N) (InjectiveFunction {[1%N := 10%N]} {[10%N := 1%N]}) with
  | (Ok _, f') => mirrored f'
  | (Throw e, f') => e = InvalidInsertion ∧ ¬ mirrored f'
  end.
Proof.
  assert (mirrored (InjectiveFunction {[1%N := 10%N]} {[10%N := 1%N]})) as Hm.
  { intros k v. simpl. rewrite !lookup_singleton_Some. naive_solver. }
  split; [exact Hm|]. exact (inj_insert_mirrored _ 2%N 20%N Hm).
Defined.

Lemma wakeups_bounded_witness :
  let p := receive_broadcast_message (add_waiter 2 (add_waiter 1 new_policy)) in
  ∃ p', wake_all [1; 2]%N p = Ok p' ∧ NoDup [1; 2]%N ∧ 2 + pending_wakeups p' = pending_wakeups p ∧
    ∀ tid, tid ∈ [1; 2]%N → thread_can_exit p tid = true.
Proof.
  eexists. split.
  - vm_compute. reflexivity.
  - eapply (wakeups_bounded _ [1; 2]%N). vm_compute. reflexivity.
Defined.

Definition main_states : state_sequence := state_seq main_program.
Definition main_element : element := new_element main_objects.
Lemma main_states_wf : wf_seq main_states.
Proof. apply main_program_ok. Qed.
Lemma main_states_room : room main_states.
Proof. split; [by apply (bool_decide_eq_true_1 _); vm_compute|]. by repeat constructor. Qed.
Definition main_state : astate := AState {[0%N := VThread (Thread running)]} {[0%N := 0%N]}.
Lemma main_element_state : abs_element main_states main_element = main_state.
Proof. vm_compute. reflexivity. Qed.

Lemma follow_refines_witness :
  let t := Transition 0 thread_start in
  ∃ a' st ss', astep t main_state = Ok (a', st) ∧ follow t main_states = (Ok st, ss') ∧ wf_seq ss' ∧
    abs_states ss' = abs_states main_states ++ (if decide (st = exists_) then [with_hidden main_states a'] else []).
Proof.
  rewrite <- main_element_state.
  apply (follow_refines main_states main_element (Transition 0 thread_start)).
  - exact main_states_wf.
  - exact main_states_room.
  - reflexivity.
  - wf_eval.
  - typed_eval.
Defined.

Lemma consume_refines_witness :
  ∃ ss', seq_consume_into_subsequence 1 (follow (Transition 0 thread_start) main_states).2 = (Ok tt, ss') ∧
    wf_seq ss' ∧ abs_states ss' = take 1 (abs_states (follow (Transition 0 thread_start) main_states).2).
Proof.
  apply (consume_refines (follow (Transition 0 thread_start) main_states).2 1).
  - destruct (follow_astep main_states main_element (Transition 0 thread_start) main_state exists_)
      as (ss' & -> & Hwf & _); try done.
    + exact main_states_wf.
    + exact main_states_room.
  - apply (bool_decide_eq_true_1 _). vm_compute. reflexivity.
  - discriminate.
Defined.

Lemma add_runner_refines_witness :
  ∃ ss', seq_add_runner (Thread embryo) main_states = (Ok 1%N, ss') ∧ wf_seq ss' ∧
    abs_states ss' = [add_runner_of 1 1 (Thread embryo) (abs_element main_states main_element)].
Proof.
  apply (add_runner_refines main_states main_element (Thread embryo)).
  - exact main_states_wf.
  - exact (proj1 main_states_room).
  - reflexivity.
  - split; vm_compute; reflexivity.
Defined.

Lemma main_current : current main_program main_state.
Proof. vm_compute. reflexivity. Qed.

Lemma main_ready : ready main_program main_state.
Proof.
  split; [apply main_program_ok|exact main_current|wf_eval|].
  intros r t. cbn [main_program next_steps]. intros [<- <-]%lookup_singleton_Some. typed_eval.
Qed.

Lemma get_enabled_runners_spec_witness :
  ∃ en, get_enabled_runners main_program = Ok en ∧
    ∀ r, r ∈ en ↔ ∃ t, next_steps main_program !! r = Some t ∧ enabled_at main_state t.
Proof. exact (get_enabled_runners_spec main_program main_state main_ready). Defined.

(** The main thread about to lock a mutex it already holds. *)
Definition stuck_objects : state_sequence :=
  with_visible_objects [[VThread (Thread running)]; [VMutex (Mutex mutex_locked 512 0)]] main_objects.
Definition stuck_program : program :=
  Program (push_state_snapshot stuck_objects).2 [] {[0%N := Transition 0 (mutex_lock 1)]}.
Definition stuck_state : astate :=
  AState (list_to_map [(0, VThread (Thread running)); (1, VMutex (Mutex mutex_locked 512 0))]%N)
    (list_to_map [(0, 0)]%N).

Lemma stuck_ready : ready stuck_program stuck_state.
Proof.
  assert (wf_base stuck_objects) as Hb.
  { destruct main_objects_base as [Hm Hd Hr _]. split; [done|done| |by repeat constructor].
    intros r id Hid%Hr. simpl in *. lia. }
  destruct (first_snapshot_wf stuck_objects Hb) as [Hwf Habs];
    [by apply (bool_decide_eq_true_1 _); vm_compute|done|].
  split.
  - split; [exact Hwf|done|by exists []|]. intros r t. cbn [stuck_program next_steps].
    by intros [<- <-]%lookup_singleton_Some.
  - vm_compute. reflexivity.
  - wf_eval.
  - intros r t. cbn [stuck_program next_steps]. intros [<- <-]%lookup_singleton_Some. typed_eval.
Qed.

Lemma is_in_deadlock_spec_witness :
  is_in_deadlock stuck_program = Ok true ∧
  ∃ b, is_in_deadlock stuck_program = Ok b ∧
    (b = true ↔
     (∃ r t th, next_steps stuck_program !! r = Some t ∧ thread_of stuck_state r = Ok th ∧ has_exited th = false) ∧
     ∀ r t, next_steps stuck_program !! r = Some t → ¬ enabled_at stuck_state t).
Proof. split; [by vm_compute|exact (is_in_deadlock_spec stuck_program stuck_state stuck_ready)]. Defined.

Definition second_step : transition := Transition 0 (process_exit 0).
Lemma model_execution_of_spec_witness :
  ∃ a' st prog', astep (Transition 0 thread_start) main_state = Ok (a', st) ∧ prog_ok prog' ∧
    model_execution_of 0 second_step main_program =
      (if decide (st = exists_) then Ok tt else Throw (RuntimeError DisabledTransition), prog') ∧
    if decide (st = exists_) then
      trace prog' = trace main_program ++ [Some (Transition 0 thread_start)] ∧
      next_steps prog' = <[0%N := second_step]> (next_steps main_program) ∧
      abs_states (state_seq prog') =
        abs_states (state_seq main_program) ++ [with_hidden (state_seq main_program) a']
    else trace prog' = trace main_program ∧ next_steps prog' = next_steps main_program ∧
      abs_states (state_seq prog') = abs_states (state_seq main_program).
Proof.
  apply (model_execution_of_spec main_program 0 second_step main_state).
  - apply main_program_ok.
  - exact main_states_room.
  - exact main_current.
  - wf_eval.
  - intros t Ht. injection Ht as <-. typed_eval.
  - reflexivity.
  - reflexivity.
Defined.

Definition main_started_program : program := (model_execution_of 0 second_step main_program).2.
Lemma main_started_ok : prog_ok main_started_program.
Proof.
  destruct (model_execution_step main_program 0 second_step (Transition 0 thread_start) main_state)
    as (a' & st & prog' & _ & Hok & Hex & _).
  - apply main_program_ok.
  - exact main_states_room.
  - exact main_current.
  - wf_eval.
  - reflexivity.
  - typed_eval.
  - reflexivity.
  - unfold main_started_program. by rewrite Hex.
Qed.

Lemma restore_undoes_executions_witness :
  ∃ prog' prog'', executes main_started_program [(0%N, second_step)] prog' ∧
    restore_model_at_depth 1 prog' = Ok prog'' ∧
    prog_ok prog'' ∧ trace prog'' = trace main_started_program ∧
    next_steps prog'' = next_steps main_started_program ∧
    abs_states (state_seq prog'') = abs_states (state_seq main_started_program).
Proof.
  exists (model_execution_of 0 second_step main_started_program).2.
  assert (executes main_started_program [(0%N, second_step)]
    (model_execution_of 0 second_step main_started_program).2) as Hex.
  { eapply (executes_cons _ main_state 0 second_step second_step); [..|constructor].
    - vm_compute. reflexivity.
    - wf_eval.
    - typed_eval.
    - split; [by apply (bool_decide_eq_true_1 _); vm_compute|]. by repeat constructor.
    - reflexivity.
    - vm_compute. reflexivity. }
  destruct (restore_undoes_executions main_started_program [(0%N, second_step)]
    (model_execution_of 0 second_step main_started_program).2) as (prog'' & H1 & H2 & H3 & H4 & H5).
  - exact main_started_ok.
  - exact Hex.
  - apply (bool_decide_eq_true_1 _). vm_compute. reflexivity.
  - discriminate.
  - vm_compute. reflexivity.
  - exists prog''. split; [exact Hex|]. split; [exact H1|]. split; [exact H2|]. split; [exact H3|].
    split; [exact H4|exact H5].
Defined.

(** ** The items of the stack *)

Definition two_enabled : gset runner_id_t := {[0%N; 1%N]}.
Definition to_backtrack : stack_item :=
  StackItem empty_clock_vector no_clocks None {[1%N]} {[0%N]} ∅ two_enabled.

Lemma pop_first_moves_smallest_witness :
  ∃ r s', backtrack_set_pop_first to_backtrack = (Ok r, s') ∧ item_ok s' ∧
    r ∈ enabled_runners to_backtrack ∧ (r ∉ done_set to_backtrack) ∧
    (∀ r', r' ∈ backtrack_set to_backtrack → (r ≤ r')%N) ∧
    backtrack_set s' = backtrack_set to_backtrack ∖ {[r]} ∧ done_set s' = ({[r]} ∪ done_set to_backtrack).
Proof.
  apply (pop_first_moves_smallest to_backtrack).
  - split; apply (bool_decide_eq_true_1 _); vm_compute; reflexivity.
  - vm_compute. reflexivity.
Defined.

(** A race: runner 1 took the mutex, and runner 0 wants to. *)
Definition item_before (out : option transition) : stack_item :=
  StackItem empty_clock_vector no_clocks out ∅ ∅ ∅ two_enabled.
Definition race_stack : list stack_item :=
  [item_before (Some (Transition 0 thread_start)); item_before (Some (Transition 1 (mutex_lock 2)));
   item_before None].

Lemma backtrack_points_witness :
  ∃ s', dynamically_update_backtrack_sets_at_index config race_stack (Transition 1 (mutex_lock 2))
      (Transition 0 (mutex_lock 2)) (item_before (Some (Transition 1 (mutex_lock 2)))) 1 0 = (Ok (s', true)) ∧
    item_ok s' ∧ backtrack_set s' = {[0%N]}.
Proof.
  eexists. split; [vm_compute; reflexivity|]. split; [|vm_compute; reflexivity].
  eapply (backtrack_points config race_stack (Transition 1 (mutex_lock 2)) (Transition 0 (mutex_lock 2))
    (item_before (Some (Transition 1 (mutex_lock 2)))) 1 0 _ true).
  - vm_compute. reflexivity.
  - split; apply (bool_decide_eq_true_1 _); vm_compute; reflexivity.
Defined.

(** ** The exploration of a scripted target *)

Definition small : list (list (option runner_mailbox)) :=
  [[init 200; create 100; lock 200; unlock 200; join 1; exit_with 0]; [lock 200; unlock 200]].
Definition initial_coordinator (s : list (list (option runner_mailbox))) : coordinator :=
  (new_coordinator main_program default_registry (new_target s)).2.
Definition first_head (s : list (list (option runner_mailbox))) : dpor_context coordinator :=
  DporContext (initial_coordinator s) [new_stack_item empty_clock_vector {[0%N]}] (Stats 0 1) [].
Lemma first_head_ok s : loop_head config all_callbacks (initial_coordinator s) (first_head s).
Proof. apply head_initial. vm_compute. reflexivity. Qed.

Lemma search_invariant_witness :
  length (stack (first_head small)) ≤ max_depth config ∧
  Forall (λ s, (backtrack_set s ## done_set s) ∧ backtrack_set s ⊆ enabled_runners s)
    (stack (first_head small)) ∧
  (∀ s, last (stack (first_head small)) = Some s → done_set s = ∅) ∧
  (∀ s, stack (first_head small) !! 0 = Some s → backtrack_set s = ∅).
Proof.
  apply (search_invariant config all_callbacks (initial_coordinator small) (first_head small)).
  apply first_head_ok.
Defined.

Lemma stack_matches_depth_witness :
  N.of_nat (length (stack (first_head small))) =
    (get_depth_into_program (Dpor.coordinator (first_head small)) + 1)%N ∧
  (∀ p c', execute_runner p (Dpor.coordinator (first_head small)) = (Ok tt, c') →
    get_depth_into_program c' = N.of_nat (length (stack (first_head small)))) ∧
  (∀ p n c' c'', n < length (stack (first_head small)) →
    return_to_depth (N.of_nat n) (Dpor.coordinator (first_head small)) = (Ok tt, c') →
    execute_runner p c' = (Ok tt, c'') → get_depth_into_program c'' = N.of_nat (S n)).
Proof.
  apply (stack_matches_depth config all_callbacks (initial_coordinator small) (first_head small)).
  - vm_compute. reflexivity.
  - vm_compute. reflexivity.
  - apply first_head_ok.
  - discriminate.
Defined.

(** The head after [n] steps of exploration. *)
Fixpoint explore_n {W} {H : World W} (n : nat) (ctx : dpor_context (@coordinator W H)) : option (dpor_context (@coordinator W H)) :=
  match n with
  | O => Some ctx
  | S n =>
      match explore config all_callbacks ctx with
      | (Ok (Some Continue), ctx') => explore_n n ctx'
      | _ => None
      end
  end.
Lemma explore_n_head {W} {H : World W} n (c : @coordinator W H) ctx ctx' :
  loop_head config all_callbacks c ctx → stack ctx ≠ [] → explore_n n ctx = Some ctx' →
  loop_head config all_callbacks c ctx'.
Proof.
  revert ctx. induction n as [|n IH]; intros ctx Hh Hne Hn; cbn [explore_n] in Hn; [by injection Hn as <-|].
  destruct (explore config all_callbacks ctx) as [[[[]|]|] ctx1] eqn:Hx; try done.
  apply (IH ctx1); [by eapply head_explored| |done].
  destruct (explore_step _ _ _ _ (loop_head_inv _ _ _ _ Hh) Hx) as (_ & Hlen & _).
  destruct (stack ctx1); [done|discriminate].
Qed.

(** In the middle of the first trace: the second thread is about to lock. *)
Definition mid_head : dpor_context coordinator := default (first_head small) (explore_n 4 (first_head small)).
Lemma mid_head_ok : loop_head config all_callbacks (initial_coordinator small) mid_head.
Proof.
  apply (explore_n_head 4 _ (first_head small)); [apply first_head_ok|discriminate|]. vm_compute. reflexivity.
Qed.
Lemma stack_mirrors_trace_witness :
  length (stack mid_head) = 5 ∧ ∃ ts top, trace (model_of mid_head) = Some <$> ts ∧
    length (stack mid_head) = S (length ts) ∧
    (∀ i t, ts !! i = Some t → ∃ s, stack mid_head !! i = Some s ∧ out_transition s = Some t ∧
      (get_executor t ∈ done_set s) ∧ get_executor t ∈ sleep_set s) ∧
    last (stack mid_head) = Some top ∧ get_enabled_runners (model_of mid_head) = Ok (enabled_runners top).
Proof.
  split; [vm_compute; reflexivity|].
  apply (stack_mirrors_trace config all_callbacks (initial_coordinator small) mid_head).
  - vm_compute. reflexivity.
  - vm_compute. reflexivity.
  - apply mid_head_ok.
  - vm_compute. discriminate.
Defined.
Lemma clocks_name_transitions_witness :
  ∃ ts, trace (model_of mid_head) = Some <$> ts ∧
    (∀ i s, stack mid_head !! i = Some s → names (take i ts) (item_cv s)) ∧
    ∀ t, ts !! 3 = Some t → ∃ b, happens_before_thread (stack mid_head) 3 0 = Ok b ∧ (get_executor t = 0%N → b = true).
Proof.
  destruct (clocks_name_transitions config all_callbacks (initial_coordinator small) mid_head) as (ts & Ht & Hs & Hb).
  - vm_compute. reflexivity.
  - vm_compute. reflexivity.
  - apply mid_head_ok.
  - vm_compute. discriminate.
  - exists ts. split; [exact Ht|]. split; [intros i s Hi; apply (Hs i s Hi)|].
    intros t Hti. destruct (Hb 3 t 0%N Hti eq_refl) as (b & Hhb & Hex & _). exists b. by split.
Defined.

(** A thread wakes another, which ends, and then creates two threads. *)
Definition late_creator : list (list (option runner_mailbox)) :=
  [[message SEM_INIT_TYPE (le_bytes 8 300 ++ le_bytes 4 0); create 100; create 101; join 1; join 2; exit_with 0];
   [on SEM_WAIT_TYPE 300]; [on SEM_POST_TYPE 300; create 102; create 103; join 3; join 4]; []; []].
Definition late_trace : list transition :=
  [Transition 0 thread_start; Transition 0 (sem_init 1 0); Transition 0 (thread_create 1); Transition 0 (thread_create 2);
   Transition 1 thread_start; Transition 2 thread_start; Transition 2 (sem_post 1); Transition 1 (sem_wait 1);
   Transition 1 thread_exit; Transition 0 (thread_join 1); Transition 2 (thread_create 3); Transition 2 (thread_create 4);
   Transition 3 thread_start].
(** The order of the clocks is not that of the trace, either way.  The creation of the thread 3
happens before its start, but the search takes the two for unordered; and it takes the wait of
the thread 1 to happen before the next transition of the thread 2, whose last one is
independent of all that follows from the wait. *)
Theorem order_differs :
  let head := explore_n 13 (first_head late_creator) in
  (trace ∘ model_of <$> head) = Some (Some <$> late_trace) ∧
  ((λ ctx, happens_before_thread (stack ctx) 10 3) <$> head) = Some (Ok false) ∧
  last_of late_trace 3 12 ∧ happens_first config late_trace 10 12 ∧
  ((λ ctx, happens_before_thread (stack ctx) 7 2) <$> head) = Some (Ok true) ∧
  last_of late_trace 2 11 ∧ ¬ happens_first config late_trace 7 11.
Proof.
  assert (∀ p j, bool_decide (default RID_INVALID (get_executor <$> late_trace !! j) = p) &&
    forallb (λ i, bool_decide (default RID_INVALID (get_executor <$> late_trace !! i) ≠ p)) (seq (S j) (12 - j)) = true →
    p ≠ RID_INVALID → last_of late_trace p j) as Hlast.
  { intros p j [Hj%bool_decide_eq_true Hi]%andb_prop Hp. split.
    - destruct (late_trace !! j) as [t|]; [by exists t|by destruct Hp].
    - intros i t Hji Ht. rewrite forallb_forall in Hi. pose proof (lookup_lt_Some _ _ _ Ht) as Hlt. cbn in Hlt.
      specialize (Hi i). rewrite bool_decide_eq_true, Ht in Hi. apply Hi, list_elem_of_In, elem_of_seq. lia. }
  split_and!; [vm_compute; reflexivity|vm_compute; reflexivity| | |vm_compute; reflexivity| |].
  - apply Hlast; [by vm_compute|done].
  - apply rtc_once. split; [lia|]. eexists _, _. split_and!; [reflexivity|reflexivity|by vm_compute].
  - apply Hlast; [by vm_compute|done].
  - intros Hr. assert (∀ j, happens_first config late_trace 7 j → j ∈ [7; 8; 9; 12]) as Hclosed; [|by apply Hclosed, (bool_decide_pack _) in Hr].
    apply rtc_ind_r; [by left|]. intros k j _ (Hkj & a & b & Ha & Hb & Hd) Hk. pose proof (lookup_lt_Some _ _ _ Hb) as Hlt. cbn in Hlt.
    assert (∀ k, k ∈ [7; 8; 9; 12] → forallb (λ j, match late_trace !! k, late_trace !! j with
      | Some a, Some b => negb (are_dependent config a b) || bool_decide (j ∈ [7; 8; 9; 12]) | _, _ => false end) (seq (S k) (12 - k)) = true) as Hall.
    { intros k' Hk'. repeat (apply elem_of_cons in Hk' as [->|Hk']; [vm_compute; reflexivity|]). by apply elem_of_nil in Hk'. }
    specialize (Hall k Hk). rewrite forallb_forall in Hall. specialize (Hall j). rewrite Ha, Hb, Hd in Hall. cbn in Hall.
    apply bool_decide_eq_true in Hall; [done|]. apply list_elem_of_In, elem_of_seq. lia.
Qed.

Lemma race_detection_total_witness :
  let ran := set_coordinator (execute_runner 0%N (Dpor.coordinator mid_head)).2 mid_head in
  ∃ ctx', dynamically_update_backtrack_sets config (grow_stack_after_running config ran).2 = (Ok tt, ctx').
Proof.
  intros ran.
  apply (race_detection_total config all_callbacks (initial_coordinator small) mid_head 0
    (execute_runner 0%N (Dpor.coordinator mid_head)).2).
  - vm_compute. reflexivity.
  - vm_compute. reflexivity.
  - exact main_program_dense.
  - apply mid_head_ok.
  - vm_compute. discriminate.
  - vm_compute. reflexivity.
  - vm_compute. reflexivity.
  - vm_compute. discriminate.
Defined.

Lemma follows_model_witness :
  ∃ h ts, current_process_handle (Dpor.coordinator mid_head) = Some h ∧
    trace (model_of mid_head) = Some <$> ts ∧ length ts = 4 ∧
    scripted_ran (process_source (Dpor.coordinator mid_head)) h (get_executor <$> ts) ∧
    ∀ i t, ts !! i = Some t → ∃ t', next_at ts (next_steps (model_of mid_head)) (S i) (get_executor t) = Some t' ∧
      made_of (scripted_answer small) (Dpor.coordinator mid_head) (get_executor <$> take (S i) ts) t'.
Proof.
  destruct (follows_model (λ w, script w = small) scripted_ran (scripted_answer small)
    config all_callbacks main_program default_registry (new_target small) (initial_coordinator small) mid_head)
    as (h & ts & Hh & Hts & Hran & Hann).
  - reflexivity.
  - exact main_program_dense.
  - reflexivity.
  - vm_compute. reflexivity.
  - vm_compute. reflexivity.
  - apply mid_head_ok.
  - vm_compute. discriminate.
  - exists h, ts. split; [exact Hh|]. split; [exact Hts|]. split.
    { pose proof (f_equal length Hts) as Hl. rewrite length_fmap in Hl. rewrite <- Hl. vm_compute. reflexivity. }
    split; [exact Hran|]. apply Hann. vm_compute. reflexivity.
Defined.

Lemma visited_states_real_witness :
  ∃ ts, trace (model_of mid_head) = Some <$> ts ∧ length (stack mid_head) = S (length ts) ∧
    path (abs_states (state_seq (model_of mid_head))) ts ∧
    ∃ a, abs_states (state_seq (model_of mid_head)) !! 0 = Some a ∧ grows main_state a.
Proof.
  apply (visited_states_real config all_callbacks main_state (initial_coordinator small) mid_head).
  - vm_compute. reflexivity.
  - vm_compute. reflexivity.
  - apply main_program_ok.
  - exact main_program_steady.
  - apply mid_head_ok.
  - vm_compute. discriminate.
  - split; vm_compute; reflexivity.
Defined.

(** The run that finds the deadlock of two locks taken in opposite orders. *)
Definition deadlocking_run : res (option unit) * dpor_context coordinator :=
  verify_using config 400 all_callbacks (initial_coordinator (two_locks 200 201)).
Definition deadlock_stats : list stats :=
  omap (λ e, match e with deadlock st => Some st | _ => None end) (events deadlocking_run.2).
Lemma reported_deadlocks_real_witness :
  ∃ st, last deadlock_stats = Some st ∧
  ∃ ctx, loop_head config all_callbacks (initial_coordinator (two_locks 200 201)) ctx ∧ stack ctx ≠ [] ∧
    model_checking_stats ctx = st ∧
    (roomy (state_seq (model_of ctx)) →
     ∃ ts l a1 a, trace (model_of ctx) = Some <$> ts ∧ path l ts ∧ l !! 0 = Some a1 ∧ grows main_state a1 ∧
       last l = Some a ∧ deadlocked (next_steps (model_of ctx)) a).
Proof.
  eexists. split; [vm_compute; reflexivity|].
  eapply (reported_deadlocks_real config all_callbacks main_state 400 (initial_coordinator (two_locks 200 201))
    deadlocking_run.1 deadlocking_run.2).
  - vm_compute. reflexivity.
  - vm_compute. reflexivity.
  - apply main_program_ok.
  - exact main_program_steady.
  - unfold deadlocking_run. destruct (verify_using _ _ _ _). reflexivity.
  - vm_compute. discriminate.
  - apply list_elem_of_lookup. exists (pred (length (events deadlocking_run.2))). vm_compute. reflexivity.
Defined.

Definition last_head : dpor_context coordinator := default (first_head small) (explore_n 11 (first_head small)).
Lemma initial_state_never_backtracked_witness :
  ∃ ctx', backtrack config all_callbacks last_head = (Ok Continue, ctx') ∧
    (stack ctx' = [] ∨ 3 ≤ length (stack ctx') ≤ length (stack last_head)).
Proof.
  eexists. split; [vm_compute; reflexivity|].
  eapply (initial_state_never_backtracked config all_callbacks (initial_coordinator small) last_head last_head).
  - apply (explore_n_head 11 _ (first_head small)); [apply first_head_ok|discriminate|].
    vm_compute. reflexivity.
  - vm_compute. reflexivity.
  - vm_compute. reflexivity.
Defined.

Lemma grow_stack_adds_item_witness :
  let ctx := set_coordinator (execute_runner 0%N (initial_coordinator small)).2 (first_head small) in
  ∃ ctx', grow_stack_after_running config ctx = (Ok tt, ctx') ∧
    ∃ below s t_n s_n s_next,
      stack ctx = below ++ [s] ∧ ctx' = set_stack (below ++ [s_n; s_next]) ctx ∧
      grown config ctx s t_n s_n s_next ∧
      get_depth_into_program (Dpor.coordinator ctx) = N.of_nat (length (stack ctx)).
Proof.
  intros ctx. eexists. split; [vm_compute; reflexivity|].
  apply (grow_stack_adds_item config ctx). vm_compute. reflexivity.
Defined.

(** The main thread is killed when it runs. *)
(** The main thread locks a mutex twice: one trace, which ends in a deadlock. *)
Definition self_lock : list (list (option runner_mailbox)) := [[init 200; lock 200; lock 200]]%N.
Lemma run_reports_witness :
  let found := deadlock (Stats 3 1) in
  ∃ ctx', verify_using config 400 all_callbacks (initial_coordinator self_lock) = (Ok (Some tt), ctx') ∧
    found ∈ events ctx' ∧
    ∃ ctx, trace_end config all_callbacks (initial_coordinator self_lock) ctx ∧
      found ∈ end_reports all_callbacks ctx.
Proof.
  intros found. eexists. split; [vm_compute; reflexivity|].
  assert (found ∈ [trace_completed (Stats 3 1); found]) as Hin by (right; left).
  split; [exact Hin|].
  eapply (run_reports config all_callbacks 400 (initial_coordinator self_lock) (Ok (Some tt)) _ found);
    [vm_compute; reflexivity|discriminate|reflexivity|exact Hin].
Defined.

Lemma explore_reports_errors_witness :
  ∃ ctx1, expand_first_enabled config (first_head [[None]]) = (Throw (TerminationError 11 0), ctx1) ∧
    ((∃ is_set ev, reported all_callbacks (model_checking_stats ctx1) (TerminationError 11 0) (is_set, ev) ∧
       explore config all_callbacks (first_head [[None]]) =
         (Ok (Some Return), callback is_set ev ctx1)) ∨
     (∀ out, reported all_callbacks (model_checking_stats ctx1) (TerminationError 11 0) out → False) ∧
     explore config all_callbacks (first_head [[None]]) = (Throw (TerminationError 11 0), ctx1)).
Proof.
  eexists. split; [vm_compute; reflexivity|].
  eapply (explore_reports_errors config all_callbacks (first_head [[None]])).
  - reflexivity.
  - apply (bool_decide_eq_true_1 _). vm_compute. reflexivity.
  - vm_compute. reflexivity.
  - vm_compute. reflexivity.
Defined.

(** The main thread starts, and then will abort. *)
Definition about_to_abort : dpor_context coordinator :=
  (continue_dpor_by_expanding_trace_with config 0 (first_head [[abort]])).2.
Lemma about_to_fail_reported_witness :
  explore config all_callbacks (first_head [[abort]]) =
    (Ok (Some Return), callback true (abnormal_termination (Stats 1 1) SIGABRT 0)
                         (set_stats (Stats 1 1) about_to_abort)).
Proof.
  etrans; [apply (about_to_fail_reported config all_callbacks (first_head [[abort]])
    (new_stack_item empty_clock_vector {[0%N]}) about_to_abort (Transition 0 process_abort))|].
  - reflexivity.
  - apply (bool_decide_eq_true_1 _). vm_compute. reflexivity.
  - vm_compute. reflexivity.
  - vm_compute. reflexivity.
  - vm_compute. reflexivity.
  - vm_compute. reflexivity.
Defined.

(** ** The coordinator *)

Lemma execute_runner_synchronizes_witness :
  let c := initial_coordinator small in
  ∃ c', coordinator_execute_runner 0%N c = (Ok tt, c') ∧
    ∃ h mb w f npo t c1,
      current_process_handle c = Some h ∧
      process_execute_runner h 0%N (process_source c) = (Ok mb, w) ∧
      get_callback_for (runtime_transition_mapping c) (type mb) = Some f ∧
      call_callback f 0%N mb (set_source w c) = (Ok (Some npo), c1) ∧ get_executor npo = 0%N ∧
      get_pending_transition_for (current_program_model c1) 0%N = Some t ∧
      trace (current_program_model c') = trace (current_program_model c) ++ [Some t] ∧
      get_pending_transition_for (current_program_model c') 0%N = Some npo ∧
      process_source c' = w ∧ current_process_handle c' = Some h ∧
      runtime_transition_mapping c' = runtime_transition_mapping c ∧
      system_address_mapping c ⊆ system_address_mapping c'.
Proof.
  intros c. eexists. split; [vm_compute; reflexivity|].
  apply (execute_runner_synchronizes 0%N c). vm_compute. reflexivity.
Defined.

Definition advanced : coordinator :=
  ((do! coordinator_execute_runner 0%N in coordinator_execute_runner 0%N) (initial_coordinator small)).2.
Lemma return_to_depth_replays_witness :
  ∃ c', coordinator_return_to_depth 1 advanced = (Ok tt, c') ∧
    ∃ h w w' p ts,
      make_new_process
        (match current_process_handle advanced with Some h0 => destroy_process h0 (process_source advanced)
         | None => process_source advanced end) = (Ok (Some h), w) ∧
      restore_model_at_depth 1 (current_program_model advanced) = Ok p ∧
      trace p = Some <$> ts ∧ N.of_nat (length ts) = 1%N ∧
      replay h (get_executor <$> ts) w = (Ok tt, w') ∧
      c' = set_source w' (set_handle (Some h) (set_model p advanced)).
Proof.
  eexists. split; [vm_compute; reflexivity|].
  apply (return_to_depth_replays 1 advanced). vm_compute. reflexivity.
Defined.

(** [advanced] knows the mutex at address 200, and no mutex at 300. *)
Lemma callback_of_known_objects_witness :
  call_callback mutex_lock_callback_f 0%N (RunnerMailbox MUTEX_LOCK_TYPE (le_bytes 8 200)) advanced =
    (Ok (Some (Transition 0 (mutex_lock 1))), advanced).
Proof.
  apply (callback_of_known_objects mutex_lock_callback_f 0%N
    (RunnerMailbox MUTEX_LOCK_TYPE (le_bytes 8 200)) advanced (mutex_lock 1)).
  - vm_compute. reflexivity.
  - vm_compute. reflexivity.
  - discriminate.
Defined.

Lemma callback_of_unknown_object_witness :
  call_callback mutex_unlock_callback_f 0%N (RunnerMailbox MUTEX_UNLOCK_TYPE (le_bytes 8 300)) advanced =
    (Throw UndefinedBehavior, advanced).
Proof.
  apply (callback_of_unknown_object mutex_unlock_callback_f 0%N
    (RunnerMailbox MUTEX_UNLOCK_TYPE (le_bytes 8 300)) advanced (λ _ _, false)).
  - reflexivity.
  - vm_compute. reflexivity.
  - reflexivity.
Defined.

Lemma observe_object_binds_witness :
  let v := VMutex (new_mutex mutex_unlocked 300) in
  let c := initial_coordinator small in
  ∃ c', observe_object 300%N v c = (Ok 1%N, c') ∧ get_model_of_object c' 300%N = 1%N ∧
    (∀ b, b ≠ 300%N → get_model_of_object c' b = get_model_of_object c b) ∧
    visible_objects (state_seq (current_program_model c')) =
      visible_objects (state_seq (current_program_model c)) ++ [[v]] ∧
    ∀ v', observe_object 300%N v' c' = (Throw (RuntimeError RebindRemoteAddress), c').
Proof.
  apply (observe_object_binds 300%N (VMutex (new_mutex mutex_unlocked 300)) (initial_coordinator small)).
  - vm_compute. reflexivity.
  - vm_compute. reflexivity.
  - vm_compute. reflexivity.
  - discriminate.
Defined.

Lemma mailbox_roundtrip_witness :
  read_int 8 (RunnerMailbox SEM_INIT_TYPE (le_bytes 8 300 ++ le_bytes 4 (u32_of_int (-1)) ++ [])) = (-1)%Z.
Proof. apply (mailbox_roundtrip SEM_INIT_TYPE (le_bytes 8 300) []). lia. Defined.

(** ** Restoration *)

Definition restored : coordinator :=
  (new_coordinator (Program new_state_sequence [] ∅) default_registry (new_target [])).2.
Definition recorded : list recorded_thread := [RecordedThread 101 1 EXITED; RecordedThread 100 0 ALIVE].

Lemma recorded_threads_numbered_witness :
  ∃ c', for_each (sort_threads recorded) observe_recorded restored = (Ok tt, c') ∧
    ∀ i t, sort_threads recorded !! i = Some t →
      seq_get_state_of_runner (state_seq (current_program_model c')) (N.of_nat i) =
        Ok (translate_recorded_runner_to_model t).
Proof.
  apply (recorded_threads_numbered recorded restored (new_element empty_sequence)).
  - split.
    + exact new_state_sequence_wf.
    + reflexivity.
    + split; vm_compute; reflexivity.
    + vm_compute. reflexivity.
    + constructor.
    + vm_compute. reflexivity.
  - vm_compute. reflexivity.
Defined.

(** The callback of the recorded thread inserts the mutex at address 300. *)
Lemma insertion_check_checks_nothing_witness :
  ∃ npo c1,
    next_transition_of default_registry (λ _, RunnerMailbox MUTEX_INIT_TYPE (le_bytes 8 300))
      (RecordedThread 100 0 ALIVE) (initial_coordinator small) = (Ok (Some npo), c1) ∧
    restore_next_transition default_registry (λ _, RunnerMailbox MUTEX_INIT_TYPE (le_bytes 8 300))
      (RecordedThread 100 0 ALIVE) (initial_coordinator small) =
    (Ok tt, set_model (Program (state_seq (current_program_model c1)) (trace (current_program_model c1))
                         (<[get_executor npo := npo]> (next_steps (current_program_model c1)))) c1).
Proof.
  eexists _, _. split; [vm_compute; reflexivity|].
  eapply (insertion_check_checks_nothing default_registry
    (λ _, RunnerMailbox MUTEX_INIT_TYPE (le_bytes 8 300)) (RecordedThread 100 0 ALIVE)).
  - vm_compute. reflexivity.
  - discriminate.
Defined.
