(* ===== verification/SystemRun.v ===== *)
(** * The checker over its processes

Whole runs of the checker on the machines of [System.v]: the search drives the source and
the branches through a schedule, written for the calls it makes, and reports what it does
over the scripted targets of [Examples.v].  The theorems of [System.v] at concrete inputs. *)

From stdpp Require Import gmap.
From stdpp Require Import options.
From S2P Require Import Prelude ClockVector Objects State Transitions StateSequence Program Runners Dependency StackItem Dpor Exploration.
From S2P Require Import Mirror Coordinator Lockstep LinuxProcess ProcessSource TemplateLoop System Restore Simulation Sequential Examples Witnesses.

(** ** The calls of a search *)

Inductive source_call := makes | executes (r : runner_id_t).
(** A scripted target that notes how it is called. *)
Record noted := Noted { noted_target : target; calls : list source_call }.
#[export] Instance noted_World : World noted := {|
  handle := unit;
  make_new_process w := (Ok (Some tt), Noted (Target (script (noted_target w)) ∅) (makes :: calls w));
  destroy_process _ w := w;
  process_execute_runner _ r w :=
    let '(out, t) := process_execute_runner (tt : handle target) r (noted_target w) in (out, Noted t (executes r :: calls w));
  get_pid _ := 1000%Z;
  process_vm_readv _ _ _ n := Some (replicate n 0%N);
  PTHREAD_MUTEX_INITIALIZER := replicate 40 0%N;
  PTHREAD_COND_INITIALIZER := replicate 48 0%N;
|}.
Definition calls_of (fuel : nat) (s : list (list (option runner_mailbox))) : list source_call :=
  match do_model_checking config fuel (Noted (new_target s) []) with
  | (_, Some ctx) => rev (calls (process_source (Dpor.coordinator ctx)))
  | (_, None) => []
  end.

(** ** A schedule for them *)

Definition times (n : nat) : list choice := replicate n checker_runs.
(** The branch of the handle that was destroyed ends, and the template notices. *)
Definition old_branch_ends (pid : Z) : list choice :=
  [branch_dies pid; template_runs TemplateLoop.Deliver; template_runs (TemplateLoop.Handler pid);
   template_runs (TemplateLoop.Handler 0); template_runs (TemplateLoop.Handler 0); template_runs (TemplateLoop.Loop 0)].
Definition template_forks (pid : Z) : list choice :=
  [template_runs (TemplateLoop.Loop 0); template_runs (TemplateLoop.Loop pid); template_runs (TemplateLoop.Loop 0)].
(** The destructor, then the source up to its request; the template; the rest. *)
Fixpoint schedule_of (pid : Z) (cs : list source_call) : list choice :=
  match cs with
  | [] => []
  | makes :: cs =>
      (if bool_decide (pid = 100)%Z then times 5 else times 5 ++ old_branch_ends pid)
      ++ template_forks (pid + 1) ++ times 3 ++ schedule_of (pid + 1) cs
  | executes r :: cs => times 2 ++ [branch_wakes pid r; branch_answers pid r] ++ times 2 ++ schedule_of pid cs
  end.

Definition system_of (fuel : nat) (s : list (list (option runner_mailbox))) : system :=
  new_system (schedule_of 100 (calls_of fuel s)).
#[export] Instance scripted_system s : World system :=
  system_World false (Ok 99%Z) (scripted_answer s) (λ _ _ n, Some (replicate n 0%N)) (replicate 40 0%N) (replicate 48 0%N).
Definition run_system (fuel : nat) (s : list (list (option runner_mailbox))) : res (option unit) * list event :=
  match do_model_checking (H := scripted_system s) config fuel (system_of fuel s) with
  | (r, Some ctx) => (r, events ctx)
  | (r, None) => (r, [])
  end.

(** What the checker does over the processes is what it does over the target alone: the same
result and the same events. *)
Example system_runs_small : run_system 400 small = run 400 small.
Proof. vm_compute. reflexivity. Qed.
Example system_reports_deadlocks :
  (let '(r, evs) := run_system 400 (two_locks 200 201) in r = Ok (Some tt) ∧ existsb is_deadlock evs = true) ∧
  (let '(r, evs) := run_system 400 (two_locks 201 200) in r = Ok (Some tt) ∧ existsb is_deadlock evs = false).
Proof. split_and!; vm_compute; split_and?; reflexivity. Qed.

(** ** In the middle of the first trace *)

Definition system_coordinator : coordinator (W := system) (H := scripted_system small) :=
  (new_coordinator main_program default_registry (system_of 400 small)).2.
Definition system_first_head : dpor_context (coordinator (W := system) (H := scripted_system small)) :=
  DporContext system_coordinator [new_stack_item empty_clock_vector {[0%N]}] (Stats 0 1) [].
Definition system_head : dpor_context (coordinator (W := system) (H := scripted_system small)) :=
  default system_first_head (explore_n 4 system_first_head).
(** A system is a large value to compare, with functions in it; its parts are evaluated. *)
Lemma default_some {A} (d : A) (o : option A) : (if o is Some _ then true else false) = true → o = Some (default d o).
Proof. by destruct o. Qed.
Lemma ok_pair {A B} (a : A) (p : A * B) : p.1 = a → p = (a, p.2).
Proof. destruct p. by intros <-. Qed.

Lemma system_coordinator_ok :
  new_coordinator (H := scripted_system small) main_program default_registry (system_of 400 small) = (Ok tt, system_coordinator).
Proof.
  refine (ok_pair (Ok tt) (new_coordinator (H := scripted_system small) main_program default_registry (system_of 400 small)) _).
  vm_compute. reflexivity.
Qed.
Lemma system_head_ok : loop_head config all_callbacks system_coordinator system_head.
Proof.
  apply (explore_n_head 4 _ system_first_head); [|discriminate|apply default_some; vm_compute; reflexivity].
  apply head_initial. vm_compute. reflexivity.
Qed.
Lemma system_follows_model_witness :
  ∃ h ts, current_process_handle (Dpor.coordinator system_head) = Some h ∧
    trace (model_of system_head) = Some <$> ts ∧ length ts = 4 ∧
    (∀ pid, running_in (process_source (Dpor.coordinator system_head)) pid →
      pid = h ∧ branches (process_source (Dpor.coordinator system_head)) !! pid = Some (BranchProcess (get_executor <$> ts) ∅)) ∧
    ∀ i t, ts !! i = Some t → ∃ t', next_at ts (next_steps (model_of system_head)) (S i) (get_executor t) = Some t' ∧
      made_of (scripted_answer small) (Dpor.coordinator system_head) (get_executor <$> take (S i) ts) t'.
Proof.
  destruct (system_follows_model false (Ok 99%Z) (scripted_answer small) (λ _ _ n, Some (replicate n 0%N))
    (replicate 40 0%N) (replicate 48 0%N) config all_callbacks main_program default_registry
    (schedule_of 100 (calls_of 400 small)) system_coordinator system_head)
    as (h & ts & Hh & Hts & Hran & Hann).
  - vm_compute. reflexivity.
  - exact main_program_dense.
  - reflexivity.
  - exact system_coordinator_ok.
  - vm_compute. reflexivity.
  - apply system_head_ok.
  - vm_compute. discriminate.
  - exists h, ts. split; [exact Hh|]. split; [exact Hts|]. split.
    { pose proof (f_equal length Hts) as Hl. rewrite length_fmap in Hl. rewrite <- Hl. vm_compute. reflexivity. }
    split; [exact Hran|]. apply Hann. vm_compute. reflexivity.
Defined.

(** The schedule of the example is one without signals, deaths or failed forks; the run of the
checker is not blocked in it. *)
Lemma system_refines_sequential_witness :
  let o := do_model_checking (H := scripted_system small) config 400 (system_of 400 small) in
  o.1 = Ok (Some tt) ∧
  same_outcome o (do_model_checking (H := sequential (scripted_answer small) (λ _ _ n, Some (replicate n 0%N))
    (replicate 40 0%N) (replicate 48 0%N)) config 400 ([] : list runner_id_t)).
Proof.
  destruct (system_refines_sequential false 99%Z (scripted_answer small) (λ _ _ n, Some (replicate n 0%N))
    (replicate 40 0%N) (replicate 48 0%N) config 400 (schedule_of 100 (calls_of 400 small))) as [[Hb|Hs] _].
  - apply (bool_decide_eq_true_1 _). vm_compute. reflexivity.
  - exfalso. assert (Hr : (do_model_checking (H := scripted_system small) config 400 (system_of 400 small)).1 = Ok (Some tt))
      by (vm_compute; reflexivity).
    pose proof (eq_trans (eq_sym Hr) Hb) as Hbad. discriminate Hbad.
  - cbv zeta. split; [vm_compute; reflexivity|exact Hs].
Defined.

(** ** Between two calls *)

#[local] Existing Instance scripted_system.
(** A first process was made: it has the pid 101. *)
Definition making : list choice := times 5 ++ template_forks 101 ++ times 3.
Definition one_branch : system := (make_new_process (World := scripted_system small) (new_system making)).2.
Lemma one_branch_ok : valid false one_branch ∧ ran one_branch 101 [].
Proof.
  apply (make_new_process_ran (Deterministic := system_deterministic false (Ok 99%Z) (scripted_answer small)
    (λ _ _ n, Some (replicate n 0%N)) (replicate 40 0%N) (replicate 48 0%N)) (new_system making) 101%Z one_branch).
  - apply new_system_valid. vm_compute. reflexivity.
  - refine (ok_pair (Ok (Some 101%Z)) (make_new_process (World := scripted_system small) (new_system making)) _). vm_compute. reflexivity.
Qed.

(** The thread of the main runner was let run when the schedule was stopped. *)
Lemma execute_runner_can_return_witness :
  ∃ l' w', process_execute_runner (World := scripted_system small) 101%Z 0%N
      (set_sched ((times 2 ++ [branch_wakes 101 0; signal_posts]) ++ l') one_branch) = (Ok (scripted_answer small [0%N]), w').
Proof.
  destruct (execute_runner_can_return false (Ok 99%Z) (scripted_answer small) (λ _ _ n, Some (replicate n 0%N))
    (replicate 40 0%N) (replicate 48 0%N) one_branch 101 0 [] (times 2 ++ [branch_wakes 101 0; signal_posts]))
    as (l' & w' & Hx).
  - apply one_branch_ok.
  - apply one_branch_ok.
  - vm_compute. reflexivity.
  - vm_compute. reflexivity.
  - repeat constructor; try discriminate; intros; discriminate.
  - exists l', w'. exact Hx.
Defined.
(** Another process, while the template still waits for the first one. *)
Lemma make_new_process_can_return_witness :
  ∃ l w', make_new_process (World := scripted_system small) (set_sched l one_branch) = (Ok (Some 102%Z), w').
Proof.
  apply (make_new_process_can_return false (Ok 99%Z) (scripted_answer small) (λ _ _ n, Some (replicate n 0%N))
    (replicate 40 0%N) (replicate 48 0%N) one_branch 102 99).
  - apply one_branch_ok.
  - vm_compute. reflexivity.
  - vm_compute. reflexivity.
  - vm_compute. reflexivity.
  - vm_compute. discriminate.
  - lia.
Defined.
