(* ===== verification/SystemWitnesses.v ===== *)
(** * The theorems about processes and libmcmini at concrete inputs

As [Witnesses.v], for the theorems of [LinuxProcess.v], [ProcessSource.v],
[ThreadQueue.v], [Protocol.v], [StateTransfer.v], [TemplateThread.v], [Recording.v],
[RawSemaphore.v] and [CommandLine.v]. *)

From stdpp Require Import functions strings.
From stdpp Require Import options.
From S2P Require Import CommandLine.
From S2P Require Import Examples Witnesses.
From S2P Require Import Prelude CondPolicy Objects Coordinator LinuxProcess ProcessSource.
From S2P Require Import ThreadQueue Restore Recorder Wrappers ThreadWrappers StateTransfer TemplateThread Protocol Recording.
From S2P Require Import RawSemaphore.

(** ** Processes *)

(** Process 100 runs; nothing is posted and no signal is pending. *)
Definition quiet : machine :=
  Machine (λ _, 0%N) 0 0 (Some (model_side_sem 1)) (λ _, RunnerMailbox 0 []) {[100%Z := running_child]} 0.
Definition some_mailbox : runner_mailbox := RunnerMailbox MUTEX_LOCK_TYPE (le_bytes 8 300).

(** The process dies of signal 11 while the checker waits. *)
Definition killed : list (option env_event) :=
  [None; Some (ends 100 (signaled 11)); Some sigchld; Some handler_posts; None; None; None].

Lemma execute_runner_outcomes_witness :
  (run_schedule (execute_runner_step 100 1) killed (wake_thread_up, quiet)).1 =
    executed (Throw (TerminationError 11 1)) ∧
  ∃ w, known_status 100 quiet (omap id killed) w ∧ outcome_of 1 w = Some (TerminationError 11 1).
Proof.
  split; [vm_compute; reflexivity|].
  apply (execute_runner_outcomes 100 1 quiet (omap id killed) (executed (Throw (TerminationError 11 1)))
    (run_schedule (execute_runner_step 100 1) killed (wake_thread_up, quiet)).2).
  - split; reflexivity.
  - vm_compute. reflexivity.
  - apply (run_schedule_interleaves (execute_runner_step 100 1) killed (wake_thread_up, quiet)).
Defined.

(** The runner has answered, and the checker has not yet looked. *)
Definition just_answered : machine := env_step (answers 1 some_mailbox) (mc_wake_thread 1 quiet).
Lemma execute_runner_returns_witness :
  ∃ out m'', interleaves (execute_runner_step 100 1) (wait_for_answer, just_answered) [] (executed out, m'').
Proof.
  apply (execute_runner_returns 100 1 quiet [answers 1 some_mailbox] wait_for_answer just_answered).
  - split; reflexivity.
  - vm_compute. reflexivity.
  - apply (run_schedule_interleaves (execute_runner_step 100 1) [None; Some (answers 1 some_mailbox)]
             (wake_thread_up, quiet)).
  - reflexivity.
  - left. constructor. reflexivity.
Defined.

Lemma leftover_signal_loses_answer_witness :
  let m := LinuxProcess.set_flags 1 quiet in
  ∃ m', interleaves (execute_runner_step 100 1) (set_semaphore, m) [answers 1 some_mailbox] (wait_for_answer, m') ∧
    execute_runner_step 100 1 (wait_for_answer, m') = None ∧ flags m' = 0%N ∧ mailboxes m' 1%N = some_mailbox.
Proof. apply (leftover_signal_loses_answer 100 1); reflexivity. Defined.

(** The destructor reaps process 100 and an orphan, and leaves process 102. *)
Definition pick_zombie (c : gmap Z child) : option Z := fst <$> head (map_to_list (zombies c)).
Lemma pick_zombie_reaps_any : reaps_any pick_zombie.
Proof.
  intros c. unfold pick_zombie. destruct (map_to_list (zombies c)) as [|[p x] l] eqn:Hl; simpl.
  - by apply map_to_list_empty_iff.
  - exists x. apply elem_of_map_to_list. rewrite Hl. left.
Qed.
Definition crowded : machine :=
  set_children (<[101%Z := zombie (exited 0)]> (<[102%Z := running_child]> {[100%Z := zombie (signaled 10)]}))
    (LinuxProcess.set_flags 2 quiet).
Lemma destructor_takes_signals_back_witness :
  ∃ m', interleaves (destroy_step pick_zombie 100 true) (kill_process, crowded) [] (destroyed, m') ∧
    zombies (children m') = ∅ ∧ flags m' = (flags crowded - N.of_nat (size (zombies (children crowded))))%N ∧
    ∀ p, children crowded !! p = Some running_child ↔ children m' !! p = Some running_child.
Proof.
  apply (destructor_takes_signals_back pick_zombie 100 crowded (signaled 10)).
  - exact pick_zombie_reaps_any.
  - reflexivity.
  - vm_compute. reflexivity.
Defined.

(** The template writes process 101; then the source waits on its semaphore. *)
Definition asking : machine := LinuxProcess.set_sem mcmini_process_sem quiet.
Definition forked : list (option env_event) := [None; None; None; None; Some (forks 101); None; None; None].
Lemma make_new_process_outcomes_witness :
  (run_schedule (make_new_process_step false (Ok 99%Z)) forked (reset_semaphores, Some 99%Z, quiet)).1 =
    (made (Ok 101%Z), Some 99%Z) ∧
  forks 101 ∈ omap id forked ∧ 101%Z ≠ TEMPLATE_FORK_FAILED ∧ Some 99%Z = Some 99%Z.
Proof.
  split; [vm_compute; reflexivity|].
  apply (make_new_process_outcomes false (Ok 99%Z) quiet 99%Z (omap id forked) (made (Ok 101%Z)) (Some 99%Z)
    (run_schedule (make_new_process_step false (Ok 99%Z)) forked (reset_semaphores, Some 99%Z, quiet)).2).
  - discriminate.
  - discriminate.
  - vm_compute. reflexivity.
  - apply (run_schedule_interleaves (make_new_process_step false (Ok 99%Z)) forked (reset_semaphores, Some 99%Z, quiet)).
Defined.

Lemma dead_template_noticed_witness :
  let m := set_children {[99%Z := zombie (exited 1)]} asking in
  ∃ m', interleaves (make_new_process_step true (Ok 99%Z)) (wait_until_ready 99, Some 99%Z, m) [] (failed, None, m').
Proof. apply (dead_template_noticed true (Ok 99%Z)). vm_compute. reflexivity. Defined.

Lemma template_death_blocks_witness :
  ∃ m', interleaves (make_new_process_step false (Ok 99%Z)) (check_death, Some 99%Z, quiet)
      [ends 99 (signaled 9); sigchld; handler_posts] (wait_for_fork, Some 99%Z, m') ∧
    make_new_process_step false (Ok 99%Z) (wait_for_fork, Some 99%Z, m') = None ∧
    template_died 99 m' = true ∧ flags m' = 1%N ∧ handling m' = 0%N.
Proof. apply (template_death_blocks false (Ok 99%Z) quiet (Some 99%Z) 99 (signaled 9) 1); reflexivity. Defined.

Lemma failed_fork_reported_witness :
  ∃ m1 m2 m1' m2',
    mc_template_thread_loop_turn asking (-1) = Some m1 ∧
    interleaves (make_new_process_step false (Ok 99%Z)) (wait_for_fork, Some 99%Z, m1) [] (failed, Some 99%Z, m1') ∧
    mc_template_process_loop_turn asking (-1) = Some m2 ∧
    interleaves (make_new_process_step false (Ok 99%Z)) (wait_for_fork, Some 99%Z, m2) []
      (made (Ok (-1)%Z), Some 99%Z, m2').
Proof. apply (failed_fork_reported false (Ok 99%Z) asking (Some 99%Z)); [split|]; reflexivity. Defined.

(** The process restarted by DMTCP ends before it is ready. *)
Definition restart_fails : list (option env_event) :=
  [None; None; Some (ends 103 (exited 1)); Some sigchld; Some handler_posts; None].
Lemma dmtcp_make_new_process_outcomes_witness :
  (run_schedule (dmtcp_make_new_process_step (Ok 103%Z)) restart_fails (dmtcp_reset, quiet)).1 = dmtcp_wait 103 ∧
  (dmtcp_make_new_process_step (Ok 103%Z)
     (dmtcp_wait 103, (run_schedule (dmtcp_make_new_process_step (Ok 103%Z)) restart_fails (dmtcp_reset, quiet)).2) = None ↔
   (∃ pid, dmtcp_wait 103 = dmtcp_wait pid) ∧ ¬ posted mcmini_process_sem (omap id restart_fails)).
Proof.
  split; [vm_compute; reflexivity|].
  apply (dmtcp_make_new_process_outcomes (Ok 103%Z) quiet (omap id restart_fails) (dmtcp_wait 103)
    (run_schedule (dmtcp_make_new_process_step (Ok 103%Z)) restart_fails (dmtcp_reset, quiet)).2).
  - discriminate.
  - reflexivity.
  - vm_compute. reflexivity.
  - apply (run_schedule_interleaves (dmtcp_make_new_process_step (Ok 103%Z)) restart_fails (dmtcp_reset, quiet)).
Defined.

(** ** Queues of threads *)

Definition some_malloc (h : gmap N thread_queue_node) : option addr := Some (fresh (dom h)).
Definition some_garbage : thread_queue_node := ThreadQueueNode 77 CV_DESTROYED (Some 5%N).
Lemma some_malloc_fresh h a : some_malloc h = Some a → h !! a = None.
Proof. intros [= <-]. apply not_elem_of_dom, is_fresh. Qed.

(** Thread 1 is before its wait, thread 2 waits. *)
Definition two_threads (st1 st2 : condition_variable_status) : store :=
  Store {[10%N := ThreadQueueNode 1 st1 (Some 20%N); 20%N := ThreadQueueNode 2 st2 None]}
    (ThreadQueue (Some 10%N) (Some 20%N) 2).
Lemma two_threads_represents st1 st2 :
  represents (two_threads st1 st2) [(10, (1, st1)); (20, (2, st2))]%N.
Proof.
  split; [|reflexivity|apply (bool_decide_eq_true_1 _); vm_compute; reflexivity].
  split; [done|]. exists (Some 20%N). split; [reflexivity|]. split; [done|]. exists None. split; reflexivity.
Qed.

Lemma refines_list_witness :
  refines some_malloc some_garbage Dequeue (two_threads CV_PREWAITING CV_WAITING)
    [(10, (1, CV_PREWAITING)); (20, (2, CV_WAITING))]%N.
Proof.
  apply (refines_list some_malloc some_garbage some_malloc_fresh).
  - apply two_threads_represents.
  - exact I.
  - intros (_ & _ & Hno). inversion_clear Hno as [|? ? _ Hw]. inversion_clear Hw as [|? ? Hw2 _]. by apply Hw2.
Defined.

Lemma failed_dequeue_loses_queue_witness :
  let s := two_threads CV_PREWAITING CV_SIGNALED in
  ∃ s1 s2,
    run_op some_malloc some_garbage Dequeue s = (Ok (VRid RID_INVALID), s1) ∧ nodes s1 = nodes s ∧
    qsize (queue s1) = qsize (queue s) ∧
    run_op some_malloc some_garbage (Enqueue 3 CV_WAITING) s1 = (Ok VUnit, s2) ∧
    qsize (queue s2) = (qsize (queue s) + 1)%Z ∧
    run_op some_malloc some_garbage IsEmpty s2 = (Ok (VBool true), s2) ∧
    run_op some_malloc some_garbage (IsIn 3) s2 = (Ok (VBool false), s2).
Proof.
  apply (failed_dequeue_loses_queue some_malloc some_garbage some_malloc_fresh (two_threads CV_PREWAITING CV_SIGNALED)
    [(10, (1, CV_PREWAITING)); (20, (2, CV_SIGNALED))]%N).
  - apply two_threads_represents.
  - split; [done|]. split; [done|]. repeat constructor; discriminate.
  - by eexists.
Defined.

(** ** The library *)

Definition thread_in (mode : libmcmini_mode) (records : list rec_list) (pthread : addr) (tid : runner_id_t)
    (rs : list reply) : lib :=
  Lib (Shared mode records [] 2 true None) pthread tid false None false some_mailbox [] rs.
Definition held_by (owner : runner_id_t) : rec_list := RecList 300 (mut_state mutex_locked owner).

Lemma controlled_operation_witness :
  let s := thread_in TARGET_BRANCH [] 1001 1 (replicate 3 succeeds) in
  ∃ s', wrapper (MutexLock 300) s = (Ok 0%Z, s') ∧
  ∃ l complete, log s' = log s ++ l ∧ follows (script (MutexLock 300)) l complete ∧ complete = true.
Proof.
  eexists. split; [vm_compute; reflexivity|].
  eapply (controlled_operation (MutexLock 300) (thread_in TARGET_BRANCH [] 1001 1 (replicate 3 succeeds)) (Ok 0%Z)).
  - split.
    + left. reflexivity.
    + discriminate.
    + split; reflexivity.
    + split; discriminate.
    + repeat constructor.
  - vm_compute. reflexivity.
Defined.

(** The checker knows the mutex at address 300. *)
Definition knows_mutex : coordinator :=
  (observe_object 300%N (VMutex (new_mutex mutex_unlocked 300)) (initial_coordinator small)).2.
Lemma wrapper_understood_witness :
  Forall2 (understood 1 knows_mutex) (asks (script (MutexLock 300))) (meanings knows_mutex (MutexLock 300)).
Proof.
  apply (wrapper_understood (MutexLock 300) 1 knows_mutex).
  - split; [repeat constructor|exact I].
  - constructor; [vm_compute; reflexivity|constructor].
Defined.

(** A locked mutex, a condition variable with a waiting thread, and a thread. *)
Definition some_records : list rec_list :=
  [held_by 1;
   RecList 400 (cond_state (ConditionVariableState CV_INITIALIZED 1 300 1 (Some [(1%N, CV_WAITING)]) 0 0));
   RecList 0 (thrd_state (RecordedThread 1000 0 ALIVE))].
Definition some_stream : list visible_object :=
  [MUTEX 300 mutex_locked 1; CV_WAITERS_QUEUE 400 1 CV_WAITING;
   CONDITION_VARIABLE 400 CV_INITIALIZED 1 300 1; THREAD (RecordedThread 1000 0 ALIVE); UNKNOWN].
Lemma transfer_roundtrip_witness :
  transfer_state some_records = Ok some_stream ∧
  read_recorded some_stream [] ∅ (initial_coordinator small) =
    (do! observe_records some_records in ret (recorded_threads some_records)) (initial_coordinator small).
Proof.
  split; [reflexivity|]. apply (transfer_roundtrip some_records some_stream (initial_coordinator small)).
  - reflexivity.
  - apply (bool_decide_eq_true_1 _). vm_compute. reflexivity.
Defined.

(** A process restarted as a branch: the environment asks for the state, and the FIFO opens. *)
Definition restarted : lib :=
  thread_in DMTCP_RESTART_INTO_BRANCH some_records 1000 0
    (replicate 4 succeeds ++ [Reply 1 0 (λ x, x); succeeds; Reply 3 0 (λ x, x)] ++ replicate 6 succeeds).
Lemma template_thread_sends_records_witness :
  (template_thread restarted).1 = Ok tt ∧ last (log (template_thread restarted).2) = Some close_fifo ∧
  ∃ l1 l2, log (template_thread restarted).2 = [wait_template_thread_sem; wait_dmtcp_restart_sem] ++ l1 ++ l2 ∧
    Forall neutral l1 ∧ (l2 = [] ∨ l2 = (write_fifo <$> some_stream) ++ [close_fifo]).
Proof.
  split; [vm_compute; reflexivity|]. split; [vm_compute; reflexivity|].
  destruct (template_thread_sends_records restarted (template_thread restarted).1 (template_thread restarted).2)
    as (l & Hlog & _ & Hok).
  - split; [repeat first [apply Forall_nil_2|apply Forall_cons_2; [intros x; reflexivity|]]|reflexivity].
  - apply surjective_pairing.
  - destruct Hok as (l1 & l2 & -> & Hl1 & Hl2); [vm_compute; reflexivity|]. exists l1, l2.
    split; [exact Hlog|]. split; [exact Hl1|]. destruct Hl2 as [?|(stream & [= <-] & ->)]; [by left|by right].
Defined.

(** Another thread records a semaphore while the mutex is waited for. *)
Definition adds_record : reply :=
  Reply 0 0 (λ x, set_records (head_record_mode x ++ [RecList 500 (sem_state 0 sem_initialized)]) x).
Definition locker : lib :=
  thread_in RECORD [RecList 300 (mut_state mutex_unlocked RID_INVALID)] 1000 0
    [succeeds; succeeds; Reply ETIMEDOUT 0 (λ x, x); adds_record; succeeds; succeeds].

Lemma records_only_grow_witness :
  ∃ s', run_intercepted (Operation (MutexLock 300)) locker = (Ok tt, s') ∧
  ∃ e', head_record_mode (sh s') !! 0 = Some e' ∧ location e' = 300%N.
Proof.
  eexists. split; [vm_compute; reflexivity|].
  eapply (records_only_grow (Operation (MutexLock 300)) locker (Ok tt) _ 0
    (RecList 300 (mut_state mutex_unlocked RID_INVALID))).
  - repeat first [apply Forall_nil_2|apply Forall_cons_2]; intros x; unfold records_grow; simpl;
      rewrite ?fmap_app; first [reflexivity|by eexists].
  - vm_compute. reflexivity.
  - reflexivity.
Defined.

Lemma restarted_exit_never_answers_witness :
  let s := thread_in DMTCP_RESTART_INTO_BRANCH [] 1001 1 (replicate 4 succeeds) in
  ∃ s', exit_routine_after_restart s = (Ok tt, s') ∧
  ∃ l, log s' = log s ++ l ∧ ∀ mb, mc_wake_scheduler mb ∉ l.
Proof.
  eexists. split; [vm_compute; reflexivity|].
  eapply (restarted_exit_never_answers (thread_in DMTCP_RESTART_INTO_BRANCH [] 1001 1 (replicate 4 succeeds)) (Ok tt)).
  vm_compute. reflexivity.
Defined.

Lemma adds_record_keeps me : others_keep_mutexes_of me adds_record.
Proof.
  intros x. split.
  - unfold records_grow. simpl. rewrite fmap_app. by eexists.
  - intros i a Hi. simpl. by apply lookup_app_l_Some.
Qed.
Lemma recorded_lock_witness :
  ∃ s', mc_pthread_mutex_lock 300 locker = (Ok 0%Z, s') ∧
  (last (log s') = Some (libpthread_mutex_lock 300) ∨
   0%Z ≠ ETIMEDOUT ∧ (0%Z = 0%Z → ∃ i e mut,
     find_object 300 (head_record_mode (sh s')) = Some i ∧ head_record_mode (sh s') !! i = Some e ∧
     model_of_record e = Some (VMutex mut) ∧ is_locked_by mut 0 = true)).
Proof.
  eexists. split; [vm_compute; reflexivity|]. eapply (recorded_lock 300 locker 0).
  - left. reflexivity.
  - reflexivity.
  - repeat first [apply Forall_nil_2|apply Forall_cons_2]; try apply adds_record_keeps; intros x; split; done.
  - vm_compute. reflexivity.
Defined.

(** Thread 0 holds the mutex; thread 1 locks it when thread 0 has unlocked it. *)
Definition late_locker : lib := thread_in PRE_DMTCP_INIT [] 1001 1 (replicate 5 succeeds).
Definition late_unlocker : lib :=
  thread_in RECORD [held_by 0] 1000 0
    [succeeds; succeeds; Reply 0 0 (runs late_locker (mc_pthread_mutex_lock 300)); succeeds; succeeds].
Lemma late_unlock_hides_lock_witness :
  (mc_pthread_mutex_lock 300 (set_shared (sh late_unlocker) late_locker)).1 = Ok 0%Z ∧
  head_record_mode (runs late_locker (mc_pthread_mutex_lock 300) (sh late_unlocker)) !! 0 = Some (held_by 1) ∧
  ∃ s', mc_pthread_mutex_unlock 300 late_unlocker = (Ok 0%Z, s') ∧
    head_record_mode (sh s') !! 0 = Some (RecList 300 (mut_state mutex_unlocked RID_INVALID)).
Proof. apply (late_unlock_hides_lock 300 0 late_unlocker late_locker); reflexivity. Defined.

Lemma sem_wait_gives_up_witness :
  let s := thread_in RECORD [RecList 500 (sem_state 0 sem_initialized)] 1000 0
             [succeeds; succeeds; Reply (-1) ETIMEDOUT (λ x, x); succeeds] in
  ∃ i s1, find_semaphore_record 500 (current_semaphore 500) s = (Ok i, s1) ∧
  ∃ s', mc_sem_wait 500 s = (Ok (-1)%Z, s') ∧ log s' = log s1 ++ [libpthread_sem_timedwait 500] ∧
    replies s' = [succeeds].
Proof.
  eexists _, _. split; [vm_compute; reflexivity|].
  eapply (sem_wait_gives_up 500 _ _ _ (Reply (-1) ETIMEDOUT (λ x, x))).
  - left. reflexivity.
  - reflexivity.
  - vm_compute. reflexivity.
  - reflexivity.
  - reflexivity.
Defined.

(** ** The semaphore of the target's side *)

(** Two waits and two posts; both waits sleep first, and compete in the end. *)
Definition two_pairs : raw_semaphore := RawSemaphore 0 [load; load; fetch_add; fetch_add].
Definition contended : list sem_event :=
  [Run 0; Run 0; Run 1; Run 1; Run 2; Wake 2 0; Run 3; Wake 3 1; Run 0; Run 1; Run 0; Run 1; Run 1; Run 1].
Definition all_returned : raw_semaphore := RawSemaphore 0 [waited 0; waited 0; post_returned; post_returned].

Lemma two_pairs_start : Forall starting (threads two_pairs).
Proof. repeat first [apply Forall_nil_2|apply Forall_cons_2]; first [by left|by right]. Qed.

Lemma raw_semaphore_counts_witness :
  run_events (take 10 contended) two_pairs =
    Some (RawSemaphore 2 [compare_exchange 2; compare_exchange 2; post_returned; post_returned]) ∧
  (2 + N.of_nat (count_pc took [compare_exchange 2; compare_exchange 2; post_returned; post_returned]) =
   0 + N.of_nat (count_pc posted_already [compare_exchange 2; compare_exchange 2; post_returned; post_returned]))%N.
Proof.
  split; [vm_compute; reflexivity|].
  apply (raw_semaphore_counts two_pairs (take 10 contended)
    (RawSemaphore 2 [compare_exchange 2; compare_exchange 2; post_returned; post_returned])).
  - exact two_pairs_start.
  - vm_compute. reflexivity.
  - vm_compute. reflexivity.
Defined.

Lemma all_returned_stuck : stuck all_returned.
Proof.
  split.
  - intros i. do 4 (destruct i as [|i]; [reflexivity|]). reflexivity.
  - intros i j. simpl. rewrite bool_decide_eq_false_2; [done|]. intros [Hi _].
    do 4 (destruct i as [|i]; [done|]). done.
Qed.
Lemma posts_suffice_witness :
  run_events contended two_pairs = Some all_returned ∧
  count_pc sleeps (threads all_returned) = 0 ∧ count_pc took (threads all_returned) = count_pc waits (threads all_returned).
Proof.
  split; [vm_compute; reflexivity|]. apply (posts_suffice two_pairs contended all_returned).
  - exact two_pairs_start.
  - vm_compute. reflexivity.
  - vm_compute. reflexivity.
  - exact all_returned_stuck.
  - reflexivity.
  - vm_compute. discriminate.
Defined.

(** ** The command line *)

#[local] Open Scope string_scope.
Definition given_options : list (bool * setting) :=
  [(true, MaxDepth 12); (false, Interval 3); (true, LogLevel "Debug"); (true, MaxDepth 20)].
Lemma options_understood_witness :
  main_cpp None (λ _, true) None ["mcmini"; "-m"; "12"; "--interval"; "3"; "-log"; "Debug"; "-m"; "20"; "./program"; "arg"]
    = Ok (do_recording (Config (Some 20%N) None false true false (Some 3%Z) EmptyString "./program" ["arg"] debug)).
Proof.
  etrans.
  - apply (options_understood None (λ _, true) None "mcmini" given_options "./program" ["arg"]).
    + repeat constructor.
    + reflexivity.
    + simpl. lia.
  - vm_compute. reflexivity.
Defined.
