(* ===== verification/ServiceWitnesses.v ===== *)
(** * Witnesses for the services of the checker and of libmcmini

Concrete inputs at which the theorems on configuration files, logs, status files, the loop
and the forks of the template and the loading of the real functions hold. *)

From stdpp Require Import gmap strings list pretty.
From Stdlib Require Import Ascii.
From stdpp Require Import options.
From S2P Require Import Prelude CommandLine Text IniParser Logging TsanSupport LinuxProcess Signals TemplateLoop TemplateFork Interception.

(** ** A status file *)

(** The thread blocks signals 40 and 64. *)
Definition status_reads : list text :=
  [lit "Name:" ++ "009"%char :: lit "worker" ++ [newline] ++ lit "SigQ:" ++ "009"%char :: lit "0/62" ++ [newline] ++ lit "Sig";
   lit "Blk:" ++ "009"%char :: lit "8000008000000000" ++ [newline] ++ lit "SigIgn:" ++ "009"%char :: lit "0000000000000000" ++ [newline]].
Definition status_mask : N := 2^39 + 2^63.

Lemma thread_blocks_signal_spec_witness :
  thread_blocks_signal (Some status_reads) 40 = Ok (N.testbit status_mask (Z.to_N (40 - 1))) ∧
  N.testbit status_mask 39 = true.
Proof.
  split; [|reflexivity].
  apply (thread_blocks_signal_spec status_reads 24 ["009"%char] status_mask
    (lit "SigIgn:" ++ "009"%char :: lit "0000000000000000" ++ [newline])).
  - repeat constructor; discriminate.
  - apply (bool_decide_eq_true_1 (_ < _)). vm_compute. reflexivity.
  - apply (bool_decide_eq_true_1 (NUL ∉ mjoin status_reads)). vm_compute. reflexivity.
  - vm_compute. reflexivity.
  - vm_compute. reflexivity.
  - constructor; [by right|constructor].
  - vm_compute. reflexivity.
  - lia.
Defined.

(** ** The template *)

Module Template.
Import TemplateLoop.

(** A request, a branch that is killed by SIGSEGV, and its end. *)
Definition one_branch : list loop_event :=
  [Request; Loop 0; Loop 77; Loop 0; Ends 77 (signaled SIGSEGV)].
Definition waiting : process := default start (run true one_branch start).
Definition whole_branch : list loop_event := one_branch ++ [Deliver; Handler 77; Handler 0; Handler 0; Loop 0].
Definition back : process := default start (run true whole_branch start).

Lemma template_forks_one_branch_witness :
  run true whole_branch start = Some back ∧ kills back = 1 ∧
  (size (kids back) ≤ 1
   ∧ (pc back = wait_request → kids back = ∅ ∧ pending back = false ∧ handler back = None ∧ sigchld_sem back = 0)
   ∧ (handler back = None → kills back = length (filter (λ s, signals_mcmini s = true) (reaped back)))).
Proof.
  split; [by vm_compute|]. split; [by vm_compute|]. apply (template_forks_one_branch true whole_branch). by vm_compute.
Defined.

Lemma template_comes_back_witness :
  ∃ l' p', Forall own l' ∧ run true l' waiting = Some p' ∧ pc p' = wait_request ∧ kids p' = ∅.
Proof.
  apply (template_comes_back true one_branch waiting 77); [by vm_compute..| |].
  - discriminate.
  - vm_compute. discriminate.
Defined.

Lemma failed_fork_stops_template_witness :
  let asked := default start (run true [Request; Loop 0] start) in
  let failed := default start (step true (Loop (-1)) asked) in
  let later := default start (run true [Request; Loop 0; Request] failed) in
  (pc later = report (-1) ∨ pc later = wait_child (-1)) ∧ kids later = ∅.
Proof.
  apply (failed_fork_stops_template true [Request; Loop 0] [Request; Loop 0; Request]
    (default start (run true [Request; Loop 0] start))
    (default start (step true (Loop (-1)) (default start (run true [Request; Loop 0] start))))); by vm_compute.
Defined.

Lemma no_orphans_witness :
  let b := foldl (λ b e, mc_prepare_new_child_process 5 e b) (first_branch 5)
             [Prepare 0; Prepare 0; TemplateDies 1; Prepare 0] in
  bpc b = prepared ∧ sigterm b = true.
Proof.
  split; [reflexivity|]. apply (no_orphans 5 [Prepare 0; Prepare 0; TemplateDies 1; Prepare 0]); try reflexivity.
  repeat constructor. discriminate.
Defined.

End Template.

(** ** The forks *)

Module Forks.
Import TemplateFork.

Definition two_threads : list user_thread := [UserThread 101 7001 0 9001; UserThread 102 7002 0 9002].
(** The second thread takes the first slot, and the threads are interleaved. *)
Definition interleaved : list thread_event :=
  [Thread 1; Thread 0; Thread 0; Thread 1; Thread 1; Thread 0; Thread 0; TakePost; Thread 1; TakePost].
Definition ready : template :=
  match run two_threads interleaved (start two_threads) with Ok t => t | Throw _ => start two_threads end.

Definition new_threads (k : nat) : clone_result := cloned (Z.of_nat (200 + k)).
Lemma branches_recreate_threads_witness :
  ∃ threads branch order, fast_multithreaded_fork 0 new_threads
      (set_liblog (LibLog.LogState 1 (Some 102%N) []) (mem ready)) = (Ok (ForkChild threads), branch)
    ∧ order ≡ₚ seq 0 (length two_threads)
    ∧ (resumed_context <$> threads) = (Some <$> survivors order (new_threads <$> seq 0 (length two_threads)))
    ∧ (Forall (λ r, is_cloned r = true) (new_threads <$> seq 0 (length two_threads)) →
       (resumed_context <$> threads) ≡ₚ (Some <$> seq 0 (length two_threads)))
    ∧ (∀ r i u, r ∈ threads → resumed_context r = Some i → two_threads !! i = Some u →
        resumed_fs r = fs_register u ∧ tids branch !! self u = Some (resumed_tid r))
    ∧ (∀ d, mc_pthread_is_recreated_thread d branch = true ↔ d ∈ self <$> two_threads)
    ∧ LibLog.log_mut (liblog branch) = None.
Proof.
  apply (branches_recreate_threads two_threads) with (l := interleaved).
  - apply (bool_decide_eq_true_1 (NoDup _)). reflexivity.
  - repeat constructor; discriminate.
  - vm_compute. reflexivity.
  - vm_compute. reflexivity.
  - repeat constructor; discriminate.
Defined.
(** When the [clone] for the first slot fails, the branch lacks its thread, the second one, and
still takes it for a recreated one. *)
Example failed_clone_loses_thread :
  let '(r, branch) := fast_multithreaded_fork 0 (λ k, if bool_decide (k = 0) then clone_failed else cloned 201) (mem ready) in
  r = Ok (ForkChild [Resumed (Some 0) 7001 201]) ∧ mc_pthread_is_recreated_thread 9002 branch = true.
Proof. vm_compute. by split. Qed.

Lemma template_waits_end_witness :
  length [Thread 1; Thread 0] ≤ 5 * length two_threads
  ∧ ∃ l' t', run two_threads ([Thread 1; Thread 0] ++ l') (start two_threads) = Ok t' ∧ taken t' = length two_threads.
Proof.
  apply (template_waits_end two_threads) with
    (t := match run two_threads [Thread 1; Thread 0] (start two_threads) with Ok t => t | Throw _ => start two_threads end).
  - apply (bool_decide_eq_true_1 (NoDup _)). reflexivity.
  - repeat constructor; discriminate.
  - reflexivity.
  - apply (bool_decide_eq_true_1 (_ ≤ _)). vm_compute. reflexivity.
Defined.

End Forks.

Module Linking.

(** A C library in two files, without DMTCP. *)
Definition dlopen (name : string) : option nat :=
  if bool_decide (name = "libpthread.so.0") then Some 1
  else if bool_decide (name = "libc.so.6") then Some 2 else None.
Definition dlsym (h : nat) (symbol : string) : option N := Some (N.of_nat (1000 * h + String.length symbol)).
Definition dlsym_next (symbol : string) : option N := Some (N.of_nat (3000 + String.length symbol)).
(** A thread locks a mutex and another posts a semaphore; the second one comes to the
initialisation before the first has begun it. *)
Abbreviation first_calls :=
  (run_threads dlopen dlsym dlsym_next false ([0; 1] ++ replicate 37 0 ++ [1; 1; 1])
    (start_process [pthread_mutex_lock_ptr; sem_post_ptr])) (only parsing).

Lemma first_calls_made :
  callers <$> first_calls = Some [Caller pthread_mutex_lock_ptr (called (Some 1018%N)); Caller sem_post_ptr (called (Some 1008%N))].
Proof. vm_compute. reflexivity. Qed.
Lemma linking_found : libraries_found dlopen false.
Proof. split_and!; [by eexists|by eexists|done]. Qed.
Lemma first_calls_end : ∃ s, first_calls = Some s ∧
  callers s !! 0 = Some (Caller pthread_mutex_lock_ptr (called (Some 1018%N))).
Proof.
  pose proof first_calls_made as Hc. destruct (run_threads _ _ _ _ _ _) as [s|]; [|discriminate Hc].
  exists s. split; [done|]. injection Hc as Hc. by rewrite Hc.
Qed.

Lemma forwarders_reach_witness :
  real_function dlopen dlsym dlsym_next false pthread_mutex_lock_ptr = Some 1018%N ∧
  length ([0; 1] ++ replicate 37 0 ++ [1; 1; 1]) ≤ 5 * 2 + 38.
Proof.
  destruct first_calls_end as (s & Hs & H0).
  destruct (forwarders_reach dlopen dlsym dlsym_next false linking_found _ _ s Hs) as (Hcalls & _ & Hl).
  split; [|exact Hl].
  destruct (Hcalls 0 (Caller pthread_mutex_lock_ptr (called (Some 1018%N))) (Some 1018%N) H0 eq_refl) as [_ He].
  symmetry. exact He.
Defined.

End Linking.
